(* ===== verification/_CoqProject ===== *)
-Q . S2P
Prelude.v
JsNumber.v
JsString.v
JsDecimal.v
JsDate.v
Json.v
UrlParams.v
Regex.v
Zod.v
Schemas.v
Events.v
Api.v
Contracts.v
Prog.v
Primitives.v
CircuitBreaker.v
Redis.v
CartTypes.v
CartPeers.v
Cart.v
CartRoutes.v
CartLines.v
CartJson.v
CartWorld.v
CartPricing.v
CartConcurrency.v
CartSequential.v
CartSystem.v
CartLinear.v
CartHttp.v
CartExamples.v
Mongo.v
Rating.v
Cursor.v
Reviews.v
ReviewWorld.v
ReviewSummary.v
ReviewConcurrency.v
ReviewRepository.v
ReviewPages.v
ReviewRoutes.v
ReviewHttp.v
ReviewFlags.v
Bff.v
BffRoutes.v
BffWorld.v
BffHttp.v
BffSession.v
ApiClient.v
BffExamples.v
Templates.v
Delivery.v
Notify.v
NotifyOnce.v
NotifyFacts.v
Admin.v
AdminRoutes.v
AdminFacts.v
OrderProgress.v
Basket.v
Checkout.v
BasketFacts.v
Discount.v
SagaInspector.v
Toasts.v
Picker.v
Purchase.v
ProductPage.v
ProductCard.v
BasketPage.v
Listing.v
SearchBox.v
SignIn.v
MfaEnrolment.v
Account.v
Controls.v
PriceControl.v
DlqControl.v
AdminPages.v
ShopExamples.v
