(* ===== verification/Prelude.v ===== *)
(** * The SOUQ commerce platform: a verification library

    SOUQ is an e-commerce platform of microservices behind two Next.js
    applications.  This library models its TypeScript: the three Node services,
    the contracts every message and request goes through, the server side of
    both applications (the "BFF"), and the browser components that keep state.

    ** The program and where it is modelled

    File names on the left are under [src/]; those on the right are the files of
    this directory, each holding a Module of about the same name.

    - libs/ts-contracts/src (primitives.ts, events.ts, api.ts): [Schemas],
      [Events], [Api], [Primitives].  A contract is a value of [Zod.schema], one
      constructor per Zod combinator the code uses, and [Zod.interp] says what it
      accepts and what it turns an input into.  [Contracts] has the theorems.
    - services/cart-service/src: [Cart] (cart.ts), [CartPeers] (catalog.ts,
      pricing.ts), [CircuitBreaker] (circuit-breaker.ts), [CartRoutes]
      (index.ts), [CartTypes] (the records, errors and awaited commands).  Each
      method of [CartService] is one definition of the same name; the Lua
      script of the compare-and-swap is [Cart.cas_script].
    - services/review-service/src: [Rating] (rating.ts), [Cursor] and [Reviews]
      (reviews.ts), [ReviewRoutes] (index.ts, with the Kafka consumer).
    - services/notification-service/src: [Templates] (templates.ts), [Delivery]
      (delivery.ts), [Notify] (index.ts).
    - apps/storefront/src, in the server: [Bff] (lib/bff.ts, lib/session.ts) and
      [BffRoutes] (every route.ts under app/api, with _problem.ts).
    - apps/storefront/src, state of the browser: [ApiClient] (lib/api-client.ts),
      [Basket] (components/cart/cart-provider.tsx), [Checkout] and [OrderProgress]
      (components/checkout), [Discount] (lib/utils.ts), [Toasts]
      (hooks/use-toast.ts), [SearchBox] (components/layout/search-box.tsx),
      [SignIn] (session-provider.tsx and login-form.tsx of components/auth),
      [MfaEnrolment] (mfa-enrolment.tsx there), [Account] (the other forms of
      components/auth, the list of orders, and the coupon form).
    - apps/storefront/src, buying: [Picker] (components/catalog/variant-picker.tsx),
      [Purchase] (components/cart/add-to-cart.tsx and quantity-stepper.tsx,
      components/catalog/stock-indicator.tsx), [ProductPage]
      (app/products/[[slug]]/page.tsx), [ProductCard]
      (components/catalog/product-card.tsx and price.tsx, app/page.tsx), [Listing]
      (app/search/page.tsx, the facets, the sort control and the pagination of
      components/catalog, and [toQuery] of lib/utils.ts).
    - apps/admin/src: [Admin] (lib/admin-api.ts, lib/session.ts), [AdminRoutes]
      (_guard.ts and every route.ts), [SagaInspector] (the screen of an order's
      saga), [AdminPages] (the page.tsx files of app), [Controls] with
      [PriceControl] and [DlqControl] (the controls of their tables).

    A browser calls a Route Handler ([ApiClient] to [BffRoutes]); the handler
    calls a service over HTTP ([Bff.call]); the service answers from its store and
    from other services, and consumes events of the contract.  The theorems of
    [ApiHop], [BffCart], [AdminFacts], [SagaInspector] and [NotifyFacts] go across
    these borders: an error seen by a browser is the error a service reported, the
    requests of the storefront are given to the routes of cart-service, and the
    events of the contract are given to the consumers.

    ** How it is modelled

    - Language.  A number is an IEEE-754 binary64 ([JsNumber]), a string its
      UTF-16 code units ([JsString]), a value a [jsval] tree ([Zod]); [Json],
      [JsDate], [JsDecimal], [UrlParams] and [Regex] are the parts of the standard
      library the code uses.  A function that may throw returns a [result].
    - Asynchrony.  An [async] function is a [Prog.prog]: a tree of awaited commands
      over a signature that each component declares as [eff].  Between two awaits
      it runs atomically, as on the event loop.  The same definition is read in
      several ways: [run] executes it alone with a functional handler; [exec]
      lets the environment move the world before each command, by a relation that
      says what concurrent requests may do; [triple] is a Hoare triple over [exec];
      [awaits], [follows] and [returns] speak of the commands a program may issue,
      in which protocol, and of its outcome, whatever the answers.
    - Concurrency.  Carts: [CartConcurrency] proves each mutation against any
      environment in which versions grow; [CartSystem] interleaves any number
      of whole requests, command by command, with the expiry of keys; and
      [CartLinear] shows by rely and guarantee that this system implements its
      contract, a cell per cart that requests read and replace in one step.
      Reviews: [ReviewConcurrency] interleaves any number of moderations, with
      a shadow of the reviews that lags behind where a count is owed.
      Notifications: [NotifyOnce] interleaves any number of consumers that may
      crash between two commands, while time passes and dedupe rows expire.
      Browser components are machines: [step] is one
      turn of the event loop and the theorems hold of every sequence of turns.
    - What is outside.  Redis, MongoDB, Cassandra, SES, SNS, gRPC, fetch, Zod,
      Mustache, Next.js, the clock and random sources are not part of the
      repository.  Each is a command whose answer is arbitrary, or a class whose
      laws state documented behaviour ([RedisLaws], [UpdateLaws], [Zod], [Mustache],
      [DateParse], [Outside], [RandomLaws]).  Every such class has an instance, with
      which the examples evaluate: no theorem rests on laws that nothing satisfies.
      A body that the code casts without parsing it may lack what the code reads
      in it: in cart-service the variants and their prices, the lines of the
      engine with theirs, and its promotions ([CartTypes]).

    ** What is shown

    - Carts ([CartLines] to [CartExamples]): as long as a cart does not vanish, any
      interleaving of requests is a run of the contract [Linear.spec_step], with
      the answers it calls for; the stored carts keep their shape in every
      reachable state, vanishing or not; alone, the compare-and-swap ends and
      the mutation is committed; pricing a cart fails only on a currency mismatch
      or on an answer that lacks what is read in it, whatever its dependencies do;
      the breaker admits one probe and sheds a failing engine; merging keeps
      the larger quantities, and takes new lines while there is room; and a login merge that lost its race loses the items.
    - Contracts and routes ([Contracts], [CartHttp]): identifiers have
      their exact form and are never confused, a message belongs to one topic, services are called with valid
      arguments only, every failure is a conforming problem document, and the
      carts that are answered conform too while the peers of cart-service do.
    - Reviews ([Rating], [ReviewSummary] to [ReviewFlags]): the average is exact to the
      tenth in spite of binary64; moderation keeps the summary equal to what the
      published reviews say, or is refused by the unique index, and rebuilding
      computes the same; moderations of different reviews may interleave and the
      histograms are still exact, where each product has a summary;
      following the cursors lists every review once; and what goes wrong with
      the first publication, and with two moderators at once: one review may
      count twice ([ReviewRaces]), and the average may lag ([average_drifts]).
    - Storefront server ([BffWorld] to [BffCart], [ApiHop]): a call is a bounded retry
      of one request with bounded sleeps, signing in puts the refresh token of
      identity-service's answer in its cookie and no token in the body, every handler
      answers and privately, errors survive both hops; the scope of the refresh
      cookie signs every user out, and no basket can be filled.
    - Storefront, state of the browser ([OrderProgress], [BasketFacts], [Discount],
      [Toasts], [SearchBox], [SignIn], [MfaEnrolment], [Account]): the order page asks
      until the order settles and no longer, the provider is busy exactly while
      its newest change is under way, one checkout has one key, the saving shown is
      never overstated, suggestions are those for what is in the box, a code is
      sent only after the server asked for one, recovery codes stay until Done is
      pressed with the box ticked, and which redirects leave the site.
    - Storefront, buying ([Picker], [Purchase], [ProductPage], [ProductCard], [Listing]):
      every click in the picker leads to a variant on sale, quantities are valid,
      a card agrees with the page it leads to when there are variants, filters survive the URL, and what
      the page quotes and announces too low, or does not escape.
    - Notifications ([NotifyOnce], [NotifyFacts]): at most one notification per
      key in thirty days, consent is respected as far as the lookup or the missing
      address lets it be (and [lookup_failure_sends] where not), the language follows the locale, the HTML shows the text.
    - Admin ([AdminFacts], [SagaInspector]): nothing is changed unless
      identity-service vouched for an operator with a second factor, an operation
      has one key, and every control that is offered is accepted.
    - Admin pages ([AdminPages], [PriceControl], [DlqControl]): the price typed is the
      price sent, what it takes to discard a message, how often a page exchanges
      the refresh token, and what the grid of the catalogue refuses.

    Theorems that carry a number are the properties; the files named
    [...Examples] apply them at concrete inputs.  The others are the lemmas they
    share and behaviour of lesser weight.

    ** Fuel and bounds

    - [Cart.cas] retries as often as the script cache is empty, which the code does
      not bound; its fuel is the number of rounds, and [cas_ends] shows that two
      are enough alone.
    - [Bff.retry] is structural in the attempts left, which the code computes
      ([maxAttempts]); [Prog.run] and [Prog.exec] are structural in the program.
    - [ReviewPages] follows cursors with fuel the number of reviews, and
      [paging_is_complete] shows that this is enough.
    - [Regex.matches] and [Regex.test] recur on the subject or on a measure;
      [JsNumber.rnd] computes its exponent with [Z.log2].
    - Theorems on binary64 arithmetic assume integers below [2^40], far above any
      amount or count of the platform and far enough below [2^53] for the products.

    ** Not modelled

    - Of the TypeScript: markup and styling (what the .tsx files hold besides state,
      decisions and requests; the pages of the basket and the profile are nothing
      else), formatting of dates and amounts, static content, telemetry, health, metrics and lifecycle of the processes, logging.
      Parsing of HTTP itself is the framework's: a request is given as the values
      the code reads.
    - Case conversion, [localeCompare] and [Intl] beyond ASCII; the sign of zero;
      JSON numbers with a fraction or an exponent.
    - The services written in Go (order, inventory, payment), Java (catalog,
      identity), Python (search, recommendation) and C++ (pricing-engine): here they
      are peers that answer anything, except where a theorem says what it assumes. *)
From stdpp Require Export base tactics decidable option list gmap.
From Stdlib Require Export ZArith Lia.

(** ** Result values *)

(** A JavaScript computation either returns or throws. *)
Inductive result (X A : Type) : Type :=
| Ok (a : A)
| Err (e : X).
Arguments Ok {X A} a.
Arguments Err {X A} e.

#[export] Instance result_ret X : MRet (result X) := λ A a, Ok a.
#[export] Instance result_bind X : MBind (result X) := λ A B f r,
  match r with Ok a => f a | Err e => Err e end.
#[export] Instance result_fmap X : FMap (result X) := λ A B f r,
  match r with Ok a => Ok (f a) | Err e => Err e end.

Definition is_ok {X A} (r : result X A) : bool :=
  match r with Ok _ => true | Err _ => false end.

(** ** Automation *)

Create HintDb souq.

(** Case analysis on the scrutinee of a match or an if in the goal. *)
Ltac dmatch :=
  match goal with
  | |- context [match ?x with _ => _ end] => destruct x eqn:?
  end.

(** The same in a hypothesis. *)
Ltac dmatch_in H :=
  match type of H with
  | context [match ?x with _ => _ end] => destruct x eqn:?
  end.

(** Boolean comparisons on [Z] turned into propositions. *)
Ltac zbool :=
  repeat match goal with
  | H : (_ =? _)%Z = true |- _ => apply Z.eqb_eq in H
  | H : (_ =? _)%Z = false |- _ => apply Z.eqb_neq in H
  | H : (_ <? _)%Z = true |- _ => apply Z.ltb_lt in H
  | H : (_ <? _)%Z = false |- _ => apply Z.ltb_ge in H
  | H : (_ <=? _)%Z = true |- _ => apply Z.leb_le in H
  | H : (_ <=? _)%Z = false |- _ => apply Z.leb_gt in H
  | H : _ && _ = true |- _ => apply andb_true_iff in H as [? ?]
  | H : _ || _ = false |- _ => apply orb_false_iff in H as [? ?]
  | H : negb _ = true |- _ => apply negb_true_iff in H
  | H : negb _ = false |- _ => apply negb_false_iff in H
  end.

(** ** Lists *)

(** Filters that agree on the list. *)
Lemma filter_agree {A} (F G : A → Prop) `{∀ x, Decision (F x), ∀ x, Decision (G x)} (l : list A) :
  (∀ x, x ∈ l → F x ↔ G x) → filter F l = filter G l.
Proof.
  induction l as [|x l IH]; intros He; [done|]. rewrite !filter_cons, IH by set_solver.
  destruct (decide (F x)), (decide (G x)); set_solver.
Qed.
Lemma filter_whole {A} (F : A → Prop) `{∀ x, Decision (F x)} (l : list A) : (∀ x, x ∈ l → F x) → filter F l = l.
Proof. induction l as [|x l IH]; intros He; [done|]. rewrite filter_cons_True, IH by set_solver. done. Qed.
