(* ===== verification/JsNumber.v ===== *)
(** * JavaScript numbers

    A JavaScript [number] is an IEEE-754 binary64.  A finite one is modelled
    by the rational it denotes; every arithmetic operator is the exact rational
    operation followed by [rnd], rounding to the nearest binary64 with ties to
    even.  The sign of zero is not represented: the modelled code never divides
    by a zero it could observe the sign of. *)
From S2P Require Import Prelude.
From Stdlib Require Import QArith Qcanon Qabs Qround Qpower Lqa.
From stdpp Require Import numbers.

Local Open Scope Z_scope.

Inductive num : Type :=
| NaN
| Inf (neg : bool)
| Fin (q : Q).

(** The integer [z] as a number. *)
Definition jint (z : Z) : num := Fin (inject_Z z).

(** ** Rounding *)

(** Nearest integer to a rational, ties to even. *)
Definition rne (q : Q) : Z :=
  let f := Qnum q / Zpos (Qden q) in
  match (2 * (Qnum q mod Zpos (Qden q)) ?= Zpos (Qden q)) with
  | Lt => f
  | Gt => f + 1
  | Eq => if Z.even f then f else f + 1
  end.

(** [floor (log2 |q|)] for [q] other than zero. *)
Definition ilog2 (q : Q) : Z :=
  let k := Z.log2 (Z.abs (Qnum q)) - Z.log2 (Zpos (Qden q)) in
  if Qle_bool (Qpower 2 k) (Qabs q) then k else k - 1.

(** The exponent of the last bit of the significand of [q]: 53 bits of
    precision, down to the subnormal exponent. *)
Definition quantum (q : Q) : Z := Z.max (ilog2 q - 52) (-1074).

Definition rnd_lowest (q : Q) : num :=
  if Qeq_bool q 0 then Fin 0
  else
    let e := quantum q in
    let r := Qred (inject_Z (rne (q * Qpower 2 (- e))) * Qpower 2 e) in
    if Qle_bool (Qpower 2 1024) (Qabs r) then Inf (Qle_bool q 0) else Fin r.

(** Round to nearest, ties to even, on the fraction in lowest terms. *)
Definition rnd (q : Q) : num := rnd_lowest (Qred q).

(** ** Operators *)

Definition is_neg (q : Q) : bool := Z.ltb (Qnum q) 0.
Definition is_zero (q : Q) : bool := Z.eqb (Qnum q) 0.

Definition nneg (x : num) : num :=
  match x with NaN => NaN | Inf b => Inf (negb b) | Fin q => Fin (Qred (- q)) end.

Definition nadd (x y : num) : num :=
  match x, y with
  | NaN, _ | _, NaN => NaN
  | Inf a, Inf b => if Bool.eqb a b then Inf a else NaN
  | Inf a, _ | _, Inf a => Inf a
  | Fin p, Fin q => rnd (p + q)
  end.

Definition nsub (x y : num) : num := nadd x (nneg y).

Definition nmul (x y : num) : num :=
  match x, y with
  | NaN, _ | _, NaN => NaN
  | Inf a, Inf b => Inf (xorb a b)
  | Inf a, Fin q | Fin q, Inf a => if is_zero q then NaN else Inf (xorb a (is_neg q))
  | Fin p, Fin q => rnd (p * q)
  end.

Definition ndiv (x y : num) : num :=
  match x, y with
  | NaN, _ | _, NaN => NaN
  | Inf _, Inf _ => NaN
  | Inf a, Fin q => Inf (xorb a (is_neg q))
  | Fin _, Inf _ => Fin 0
  | Fin p, Fin q =>
      if is_zero q then (if is_zero p then NaN else Inf (is_neg p)) else rnd (p / q)
  end.

(** [x < y] and [x <= y]: false as soon as one side is NaN. *)
Definition nlt (x y : num) : bool :=
  match x, y with
  | NaN, _ | _, NaN => false
  | Inf a, Inf b => a && negb b
  | Inf a, Fin _ => a
  | Fin _, Inf b => negb b
  | Fin p, Fin q => negb (Qle_bool q p)
  end.
Definition neqb (x y : num) : bool :=
  match x, y with
  | Inf a, Inf b => Bool.eqb a b
  | Fin p, Fin q => Qeq_bool p q
  | _, _ => false
  end.
Definition nle (x y : num) : bool := nlt x y || neqb x y.

(** [Math.floor], [Math.round] (halves towards plus infinity), [Math.ceil]. *)
Definition nfloor (x : num) : num :=
  match x with Fin q => jint (Qfloor q) | _ => x end.
Definition nround (x : num) : num :=
  match x with Fin q => jint (Qfloor (q + (1 # 2))) | _ => x end.
Definition nceil (x : num) : num :=
  match x with Fin q => jint (Qceiling q) | _ => x end.

(** [Number.isInteger] and [Number.isSafeInteger]. *)
Definition is_integer (x : num) : bool :=
  match x with Fin q => Qeq_bool q (inject_Z (Qfloor q)) | _ => false end.
Definition is_safe_integer (x : num) : bool :=
  match x with
  | Fin q => Qeq_bool q (inject_Z (Qfloor q)) && (Z.abs (Qfloor q) <=? 2 ^ 53 - 1)
  | _ => false
  end.

(** Safe integers of [Z]. *)
Definition safe (z : Z) : Prop := Z.abs z <= 2 ^ 53 - 1.

(** ** Rounding is correct *)

Local Open Scope Q_scope.

Lemma rne_half (q : Q) : Qabs (inject_Z (rne q) - q) <= 1 # 2.
Proof.
  destruct q as [n d]. unfold rne; cbn [Qnum Qden].
  pose proof (Z.div_mod n (Zpos d) ltac:(lia)) as Hdm.
  pose proof (Z.mod_pos_bound n (Zpos d) ltac:(lia)) as Hr.
  set (f := (n / Zpos d)%Z) in *. set (r := (n mod Zpos d)%Z) in *.
  assert (∀ z : Z, (- Zpos d <= 2 * (z * Zpos d - n) <= Zpos d)%Z →
    Qabs (inject_Z z - (n # d)) <= 1 # 2) as Hgoal.
  { intros z Hz. apply Qabs_Qle_condition.
    unfold Qle, Qminus, Qplus, Qopp, inject_Z; cbn. lia. }
  apply Hgoal. destruct (Z.compare_spec (2 * r) (Zpos d)); [|nia..].
  destruct (Z.even f); nia.
Qed.

Lemma rne_int (z : Z) (q : Q) : q == inject_Z z → rne q = z.
Proof.
  intros Hq. pose proof (rne_half q) as H. generalize dependent (rne q).
  intros m H. rewrite Hq in H. apply Qabs_Qle_condition in H as [H1 H2].
  unfold Qle, Qminus, Qplus, Qopp, inject_Z in *; cbn in *. lia.
Qed.

Lemma Qpower2_pos (k : Z) : 0 < Qpower 2 k.
Proof. apply Qpower_0_lt. reflexivity. Qed.
#[export] Hint Resolve Qpower2_pos : souq.

Lemma Qpower2_Z (k : Z) : (0 <= k)%Z → Qpower 2 k == inject_Z (2 ^ k).
Proof. intros Hk. symmetry. exact (Zpower_Qpower 2 k Hk). Qed.

Lemma Qpower2_inv (k : Z) : Qpower 2 k * Qpower 2 (- k) == 1.
Proof. rewrite <- Qpower_plus by discriminate. rewrite Z.add_opp_diag_r. reflexivity. Qed.

Lemma Qpower2_succ (k : Z) : Qpower 2 (k + 1) == 2 * Qpower 2 k.
Proof. rewrite Qpower_plus by discriminate. cbn. ring. Qed.

Lemma Qpower2_le (a b : Z) : (a <= b)%Z → Qpower 2 a <= Qpower 2 b.
Proof.
  intros Hab. replace b with (a + (b - a))%Z by lia.
  rewrite Qpower_plus by discriminate.
  rewrite <- (Qmult_1_r (Qpower 2 a)) at 1.
  apply Qmult_le_l; [apply Qpower2_pos|].
  rewrite Qpower2_Z by lia. change 1 with (inject_Z 1). rewrite <- Zle_Qle.
  apply (Z.pow_le_mono_r 2 0); lia.
Qed.

Lemma inject_Z_pos (z : Z) : (0 < z)%Z → 0 < inject_Z z.
Proof. intros H. change 0 with (inject_Z 0). rewrite <- Zlt_Qlt. exact H. Qed.

Lemma Qpower2_sub (i j : Z) : (0 <= i)%Z → (0 <= j)%Z →
  Qpower 2 (i - j) == inject_Z (2 ^ i) / inject_Z (2 ^ j).
Proof.
  intros Hi Hj. unfold Z.sub. rewrite Qpower_plus by discriminate.
  rewrite Qpower_opp, !Qpower2_Z by lia. reflexivity.
Qed.

(** Comparing [n / d] with a power of two, on integers. *)
Lemma Qpower2_le_frac (i j n : Z) (d : positive) : (0 <= i)%Z → (0 <= j)%Z →
  (2 ^ i * Zpos d <= n * 2 ^ j)%Z → Qpower 2 (i - j) <= n # d.
Proof.
  intros Hi Hj H. rewrite Qpower2_sub by lia. rewrite Qmake_Qdiv.
  pose proof (Z.pow_pos_nonneg 2 j ltac:(lia) Hj) as Hp.
  apply Qle_shift_div_l; [reflexivity|]. unfold Qdiv.
  rewrite <- Qmult_assoc, (Qmult_comm (/ _)), Qmult_assoc.
  apply Qle_shift_div_r; [apply inject_Z_pos; exact Hp|].
  rewrite <- !inject_Z_mult, <- Zle_Qle. exact H.
Qed.

Lemma Qfrac_lt_power2 (i j n : Z) (d : positive) : (0 <= i)%Z → (0 <= j)%Z →
  (n * 2 ^ j < 2 ^ i * Zpos d)%Z → n # d < Qpower 2 (i - j).
Proof.
  intros Hi Hj H. rewrite Qpower2_sub by lia. rewrite Qmake_Qdiv.
  pose proof (Z.pow_pos_nonneg 2 j ltac:(lia) Hj) as Hp.
  apply Qlt_shift_div_r; [reflexivity|]. unfold Qdiv.
  rewrite <- Qmult_assoc, (Qmult_comm (/ _)), Qmult_assoc.
  apply Qlt_shift_div_l; [apply inject_Z_pos; exact Hp|].
  rewrite <- !inject_Z_mult, <- Zlt_Qlt. exact H.
Qed.

(** The bounds of the estimate [log2 n - log2 d] of the logarithm of [n / d]. *)
Lemma log2_estimate (q : Q) : ~ q == 0 →
  let k := (Z.log2 (Z.abs (Qnum q)) - Z.log2 (Zpos (Qden q)))%Z in
  Qpower 2 (k - 1) <= Qabs q /\ Qabs q < Qpower 2 (k + 1).
Proof.
  destruct q as [n d]. intros Hq. cbn [Qnum Qden].
  assert (0 < Z.abs n)%Z as Hn by (unfold Qeq in Hq; cbn in Hq; lia).
  set (a := Z.log2 (Z.abs n)). set (b := Z.log2 (Zpos d)). cbv zeta.
  assert (0 <= a /\ 0 <= b)%Z as [Ha0 Hb0] by (split; apply Z.log2_nonneg).
  pose proof (Z.log2_spec (Z.abs n) Hn) as [Ha1 Ha2]. fold a in Ha1, Ha2.
  pose proof (Z.log2_spec (Zpos d) ltac:(lia)) as [Hb1 Hb2]. fold b in Hb1, Hb2.
  rewrite Z.pow_succ_r in Ha2, Hb2 by lia.
  change (Qabs (n # d)) with (Z.abs n # d). split.
  - replace (a - b - 1)%Z with (a - (b + 1))%Z by lia.
    apply Qpower2_le_frac; [lia..|]. rewrite Z.pow_add_r by lia. nia.
  - replace (a - b + 1)%Z with ((a + 1) - b)%Z by lia.
    apply Qfrac_lt_power2; [lia..|]. rewrite Z.pow_add_r by lia. nia.
Qed.

Lemma ilog2_spec (q : Q) : ~ q == 0 →
  Qpower 2 (ilog2 q) <= Qabs q /\ Qabs q < Qpower 2 (ilog2 q + 1).
Proof.
  intros Hq. destruct (log2_estimate q Hq) as [H1 H2]. unfold ilog2. cbv zeta.
  destruct (Qle_bool _ _) eqn:Hb.
  - apply Qle_bool_iff in Hb. auto.
  - split; [exact H1|].
    replace (_ - 1 + 1)%Z with
      (Z.log2 (Z.abs (Qnum q)) - Z.log2 (Zpos (Qden q)))%Z by lia.
    apply Qnot_le_lt. intros Hle. apply Qle_bool_iff in Hle. congruence.
Qed.

(** ** The error of a rounding *)

Lemma Qabs_mult_pow2 (q : Q) (k : Z) : Qabs (q * Qpower 2 k) == Qabs q * Qpower 2 k.
Proof. rewrite Qabs_Qmult, (Qabs_pos (Qpower 2 k)); [reflexivity|]. apply Qlt_le_weak, Qpower2_pos. Qed.

(** The unconditional error: half a quantum. *)
Lemma rnd_quantum_err (q : Q) :
  let e := quantum q in
  Qabs (inject_Z (rne (q * Qpower 2 (- e))) * Qpower 2 e - q) <= Qpower 2 (e - 1).
Proof.
  intros e.
  assert (inject_Z (rne (q * Qpower 2 (- e))) * Qpower 2 e - q ==
    (inject_Z (rne (q * Qpower 2 (- e))) - q * Qpower 2 (- e)) * Qpower 2 e) as ->.
  { pose proof (Qpower2_inv e) as Hi.
    transitivity (inject_Z (rne (q * Qpower 2 (- e))) * Qpower 2 e
      - q * (Qpower 2 e * Qpower 2 (- e))); [rewrite Hi; ring|ring]. }
  rewrite Qabs_mult_pow2.
  pose proof (Qpower2_succ (e - 1)) as Hs. replace (e - 1 + 1)%Z with e in Hs by lia.
  pose proof (rne_half (q * Qpower 2 (- e))) as Hh.
  apply Qle_trans with ((1 # 2) * Qpower 2 e).
  - apply Qmult_le_compat_r; [exact Hh|]. apply Qlt_le_weak, Qpower2_pos.
  - rewrite Hs. apply Qle_lteq. right. ring.
Qed.

(** The range in which rounding neither overflows nor loses bits to the
    subnormals. *)
Definition normal (q : Q) : Prop := Qpower 2 (-1022) <= Qabs q /\ Qabs q <= Qpower 2 1022.

Lemma normal_nonzero (q : Q) : normal q → ~ q == 0.
Proof.
  intros [H _] H0. rewrite H0 in H. apply Qle_not_lt in H. apply H. apply Qpower2_pos.
Qed.

Lemma normal_ilog2 (q : Q) : normal q → (-1022 <= ilog2 q)%Z.
Proof.
  intros Hn. pose proof (normal_nonzero q Hn) as H0. destruct Hn as [H1 _].
  destruct (ilog2_spec q H0) as [_ H2].
  destruct (Z.le_gt_cases (-1022) (ilog2 q)) as [|Hlt]; [done|].
  exfalso. apply (Qle_not_lt _ _ H1).
  apply Qlt_le_trans with (1 := H2). apply Qpower2_le. lia.
Qed.

(** The rounding is finite and its relative error is at most [2^-53]. *)
Lemma rnd_lowest_err (q : Q) : normal q →
  ∃ r, rnd_lowest q = Fin r ∧ Qabs (r - q) <= Qabs q * Qpower 2 (-53).
Proof.
  intros Hn. pose proof (normal_nonzero q Hn) as H0.
  pose proof (normal_ilog2 q Hn) as Hl.
  destruct (ilog2_spec q H0) as [Hlo Hhi]. destruct Hn as [_ Hmax].
  pose proof (rnd_quantum_err q) as Herr. cbv zeta in Herr.
  assert (quantum q = ilog2 q - 52)%Z as Hqe by (unfold quantum; lia).
  set (m := inject_Z (rne (q * Qpower 2 (- quantum q))) * Qpower 2 (quantum q)) in *.
  assert (Qabs (m - q) <= Qabs q * Qpower 2 (-53)) as Hrel.
  { apply Qle_trans with (1 := Herr). rewrite Hqe.
    replace (ilog2 q - 52 - 1)%Z with (ilog2 q + -53)%Z by lia.
    rewrite Qpower_plus by discriminate.
    apply Qmult_le_compat_r; [exact Hlo|]. apply Qlt_le_weak, Qpower2_pos. }
  exists (Qred m). unfold rnd_lowest. fold m.
  assert (Qeq_bool q 0 = false) as ->.
  { destruct (Qeq_bool q 0) eqn:E; [|done]. apply Qeq_bool_iff in E. done. }
  assert (Qle_bool (Qpower 2 1024) (Qabs (Qred m)) = false) as ->.
  { destruct (Qle_bool _ _) eqn:E; [|done]. exfalso.
    apply Qle_bool_iff in E. rewrite Qred_correct in E.
    apply (Qle_not_lt _ _ E).
    assert (Qabs m <= Qabs (m - q) + Qabs q) as Ht.
    { assert (m == (m - q) + q) as Hm by ring. rewrite Hm at 1. apply Qabs_triangle. }
    apply Qle_lt_trans with (1 := Ht).
    apply Qle_lt_trans with (Qpower 2 1022 * Qpower 2 (-53) + Qpower 2 1022); [|reflexivity].
    apply Qplus_le_compat; [|exact Hmax].
    apply Qle_trans with (1 := Hrel). apply Qmult_le_compat_r; [exact Hmax|].
    apply Qlt_le_weak, Qpower2_pos. }
  split; [reflexivity|]. rewrite Qred_correct. exact Hrel.
Qed.

#[export] Instance rnd_proper : Proper (Qeq ==> eq) rnd.
Proof. intros p q H. unfold rnd. by rewrite (Qred_complete p q H). Qed.

#[export] Instance normal_proper : Proper (Qeq ==> iff) normal.
Proof. intros p q H. unfold normal. by rewrite H. Qed.

Lemma rnd_err (q : Q) : normal q →
  ∃ r, rnd q = Fin r ∧ Qabs (r - q) <= Qabs q * Qpower 2 (-53).
Proof.
  intros Hn. destruct (rnd_lowest_err (Qred q)) as (r & Hr & He).
  { by rewrite Qred_correct. }
  exists r. split; [exact Hr|]. by rewrite Qred_correct in He.
Qed.

(** ** Exact results *)

Lemma Qred_inject_Z (z : Z) : Qred (inject_Z z) = inject_Z z.
Proof. apply Qred_identity. cbn. apply Z.gcd_1_r. Qed.

(** A multiple of its own quantum is represented exactly. *)
Lemma rnd_exact (q : Q) (m : Z) : Qabs q < Qpower 2 1024 → ~ q == 0 →
  Qred q * Qpower 2 (- quantum (Qred q)) == inject_Z m → rnd q = Fin (Qred q).
Proof.
  intros Hmax H0 Hm. unfold rnd, rnd_lowest.
  assert (Qeq_bool (Qred q) 0 = false) as ->.
  { destruct (Qeq_bool (Qred q) 0) eqn:E; [|done].
    apply Qeq_bool_iff in E. rewrite Qred_correct in E. done. }
  rewrite (rne_int m _ Hm).
  assert (Qred (inject_Z m * Qpower 2 (quantum (Qred q))) = Qred q) as ->.
  { apply Qred_complete. rewrite <- Hm.
    transitivity (Qred q * (Qpower 2 (quantum (Qred q)) * Qpower 2 (- quantum (Qred q))));
      [ring|]. pose proof (Qpower2_inv (quantum (Qred q))) as Hi.
    rewrite Hi, Qred_correct. ring. }
  destruct (Qle_bool _ _) eqn:E; [|done]. exfalso.
  apply Qle_bool_iff in E. rewrite Qred_correct in E. by apply Qle_not_lt in E.
Qed.

Lemma ilog2_lt (q : Q) (k : Z) : ~ q == 0 → Qabs q < Qpower 2 k → (ilog2 q < k)%Z.
Proof.
  intros H0 H. destruct (ilog2_spec q H0) as [H1 _].
  destruct (Z.lt_ge_cases (ilog2 q) k) as [|Hge]; [done|]. exfalso.
  apply (Qlt_irrefl (Qabs q)). apply Qlt_le_trans with (1 := H).
  apply Qle_trans with (2 := H1). by apply Qpower2_le.
Qed.

(** Integers below [2^53] in magnitude are numbers. *)
Lemma rnd_int (z : Z) : (Z.abs z < 2 ^ 53)%Z → rnd (inject_Z z) = jint z.
Proof.
  intros Hz. destruct (decide (z = 0%Z)) as [->|Hz0]; [reflexivity|].
  assert (~ inject_Z z == 0) as H0.
  { intros H. apply Hz0. apply inject_Z_injective, H. }
  assert (Qabs (inject_Z z) < Qpower 2 53) as Hlt.
  { rewrite Qpower2_Z by lia. change (Qabs (inject_Z z)) with (inject_Z (Z.abs z)).
    rewrite <- Zlt_Qlt. exact Hz. }
  pose proof (ilog2_lt _ _ H0 Hlt) as Hl.
  unfold jint. rewrite (rnd_exact _ (z * 2 ^ (- quantum (inject_Z z)))).
  - by rewrite Qred_inject_Z.
  - apply Qlt_trans with (1 := Hlt). reflexivity.
  - exact H0.
  - rewrite Qred_inject_Z. rewrite Qpower2_Z by (unfold quantum; lia).
    by rewrite inject_Z_mult.
Qed.

Lemma jint_add (a b : Z) : (Z.abs (a + b) < 2 ^ 53)%Z → nadd (jint a) (jint b) = jint (a + b).
Proof. intros H. cbn. rewrite <- inject_Z_plus. by apply rnd_int. Qed.

Lemma jint_mul (a b : Z) : (Z.abs (a * b) < 2 ^ 53)%Z → nmul (jint a) (jint b) = jint (a * b).
Proof. intros H. cbn. rewrite <- inject_Z_mult. by apply rnd_int. Qed.

Lemma jint_sub (a b : Z) : (Z.abs (a - b) < 2 ^ 53)%Z → nsub (jint a) (jint b) = jint (a - b).
Proof.
  intros H. unfold nsub. cbn. rewrite <- (rnd_int (a - b)) by exact H.
  apply rnd_proper. rewrite Qred_correct. unfold Z.sub. rewrite inject_Z_plus, inject_Z_opp.
  reflexivity.
Qed.

Lemma jint_inj (a b : Z) : jint a = jint b → a = b.
Proof. intros H. injection H. auto. Qed.

Lemma is_integer_jint (z : Z) : is_integer (jint z) = true.
Proof. unfold is_integer, jint. rewrite Qfloor_Z. apply Qeq_bool_refl. Qed.

Lemma is_integer_inv (x : num) : is_integer x = true →
  ∃ q z, x = Fin q ∧ q == inject_Z z.
Proof.
  destruct x as [| |q]; try done. cbn. intros H%Qeq_bool_iff. eauto.
Qed.

#[export] Hint Resolve is_integer_jint : souq.

(** ** Rounding does not pass an integer *)

Lemma rne_between (q : Q) (c : Z) : 0 <= q → q <= inject_Z c → (0 <= rne q <= c)%Z.
Proof.
  intros H0 Hc. pose proof (rne_half q) as Hh. apply Qabs_Qle_condition in Hh as [H1 H2].
  generalize dependent (rne q). intros m H1 H2. destruct q as [n d].
  unfold Qle, Qminus, Qplus, Qopp, inject_Z in *; cbn in *. nia.
Qed.

Lemma rnd_between (q : Q) (c : Z) : (0 <= c < 2 ^ 53)%Z → 0 <= q → q <= inject_Z c →
  ∃ r, rnd q = Fin r ∧ 0 <= r ∧ r <= inject_Z c.
Proof.
  intros Hc H0 Hle. unfold rnd. assert (0 <= Qred q) as H0' by by rewrite Qred_correct.
  assert (Qred q <= inject_Z c) as Hle' by by rewrite Qred_correct.
  clear H0 Hle. revert H0' Hle'. generalize (Qred q). clear q. intros q H0 Hle. unfold rnd_lowest.
  destruct (Qeq_bool q 0) eqn:Hz.
  { exists 0. split; [done|]. split; [done|]. change 0 with (inject_Z 0). rewrite <- Zle_Qle. lia. }
  assert (~ q == 0) as Hq0 by (intros E%Qeq_bool_iff; congruence).
  assert (quantum q <= 0)%Z as He.
  { destruct (ilog2_spec q Hq0) as [Hl _]. rewrite Qabs_pos in Hl by done. unfold quantum.
    destruct (Z.le_gt_cases (ilog2 q) 52) as [|Hgt]; [lia|]. exfalso.
    assert (Qpower 2 53 <= inject_Z c) as Hp.
    { eapply Qle_trans; [|exact Hle]. eapply Qle_trans; [|exact Hl]. apply Qpower2_le. lia. }
    rewrite Qpower2_Z, <- Zle_Qle in Hp by lia. lia. }
  set (e := quantum q) in *. pose proof (Qpower2_pos e) as Hpos. pose proof (Qpower2_pos (- e)) as Hneg.
  assert (Qpower 2 (- e) == inject_Z (2 ^ (- e))) as HZ by (apply Qpower2_Z; lia).
  destruct (rne_between (q * Qpower 2 (- e)) (c * 2 ^ (- e))) as [Hlo Hhi].
  { apply Qmult_le_0_compat; [done|]. by apply Qlt_le_weak. }
  { rewrite inject_Z_mult, <- HZ. apply Qmult_le_compat_r; [done|]. by apply Qlt_le_weak. }
  set (m := rne _) in *. set (r := Qred (inject_Z m * Qpower 2 e)).
  assert (r == inject_Z m * Qpower 2 e) as Hr by apply Qred_correct.
  assert (0 <= r) as Hr0.
  { rewrite Hr. apply Qmult_le_0_compat; [|by apply Qlt_le_weak]. change 0 with (inject_Z 0). by rewrite <- Zle_Qle. }
  assert (r <= inject_Z c) as Hrc.
  { rewrite Hr. apply Qle_trans with (inject_Z (c * 2 ^ (- e)) * Qpower 2 e).
    - apply Qmult_le_compat_r; [by rewrite <- Zle_Qle|by apply Qlt_le_weak].
    - rewrite inject_Z_mult, <- HZ, <- Qmult_assoc, (Qmult_comm _ (Qpower 2 e)), Qpower2_inv, Qmult_1_r. apply Qle_refl. }
  replace (Qle_bool (Qpower 2 1024) (Qabs r)) with false; [by exists r|].
  symmetry. apply not_true_iff_false. intros Hbig%Qle_bool_iff. rewrite Qabs_pos in Hbig by done.
  assert (Qpower 2 1024 <= inject_Z c) as Hp by (by eapply Qle_trans).
  rewrite Qpower2_Z, <- Zle_Qle in Hp by lia.
  assert (2 ^ 53 <= 2 ^ 1024)%Z by (apply Z.pow_le_mono_r; lia). lia.
Qed.

(** A fraction of an integer is at most the integer. *)
Lemma nmul_share (q : Q) (c : Z) : (0 <= c < 2 ^ 53)%Z → 0 <= q → q <= 1 →
  ∃ r, nmul (Fin q) (jint c) = Fin r ∧ 0 <= r ∧ r <= inject_Z c.
Proof.
  intros Hc H0 H1. cbn [nmul jint]. apply rnd_between; [done|..].
  - apply Qmult_le_0_compat; [done|]. change 0 with (inject_Z 0). rewrite <- Zle_Qle. lia.
  - rewrite <- (Qmult_1_l (inject_Z c)) at 2. apply Qmult_le_compat_r; [done|].
    change 0 with (inject_Z 0). rewrite <- Zle_Qle. lia.
Qed.

(** ** Fractions of two integers *)

Lemma ndiv_jint (a b : Z) : (b ≠ 0)%Z → ndiv (jint a) (jint b) = rnd (inject_Z a / inject_Z b).
Proof.
  intros Hb. cbn. unfold is_zero. cbn. destruct (Z.eqb_spec b 0); done.
Qed.

(** A positive fraction of integers below [2^50] is in the normal range. *)
Lemma frac_normal (a b : Z) : (0 < a < 2 ^ 50)%Z → (0 < b < 2 ^ 50)%Z →
  normal (inject_Z a / inject_Z b).
Proof.
  intros Ha Hb. assert (0 < inject_Z b) as Hbp by (apply inject_Z_pos; lia).
  assert (0 < inject_Z a / inject_Z b) as Hp.
  { apply Qlt_shift_div_l; [done|]. rewrite Qmult_0_l. apply inject_Z_pos; lia. }
  split; rewrite Qabs_pos by (apply Qlt_le_weak, Hp).
  - apply Qle_trans with (Qpower 2 (-50)); [discriminate|].
    apply Qle_shift_div_l; [done|].
    apply Qle_trans with 1; [|change 1 with (inject_Z 1); rewrite <- Zle_Qle; lia].
    apply Qle_trans with (Qpower 2 (-50) * inject_Z (2 ^ 50)); [|discriminate].
    apply Qmult_le_l; [apply Qpower2_pos|]. rewrite <- Zle_Qle. lia.
  - apply Qle_trans with (inject_Z (2 ^ 50)); [|discriminate].
    apply Qle_shift_div_r; [done|].
    apply Qle_trans with (inject_Z (2 ^ 50) * inject_Z 1); [rewrite <- inject_Z_mult, <- Zle_Qle; lia|].
    apply Qmult_le_l; [reflexivity|]. rewrite <- Zle_Qle. lia.
Qed.

(** The rounding error of a nonnegative [q] below [B]. *)
Lemma rnd_near (q B : Q) : normal q → 0 <= q → q <= B →
  ∃ r, rnd q = Fin r ∧ q - B * Qpower 2 (-53) <= r ∧ r <= q + B * Qpower 2 (-53).
Proof.
  intros Hn H0 HB. destruct (rnd_err q Hn) as (r & Hr & He).
  rewrite (Qabs_pos q H0) in He.
  assert (q * Qpower 2 (-53) <= B * Qpower 2 (-53)) as HqB.
  { apply Qmult_le_compat_r; [done|]. apply Qlt_le_weak, Qpower2_pos. }
  pose proof (Qle_trans _ _ _ He HqB) as H. apply Qabs_Qle_condition in H as [H1 H2].
  exists r. split; [done|]. split; lra.
Qed.

Lemma Qfloor_unique (q : Q) (z : Z) : inject_Z z <= q → q < inject_Z (z + 1) → Qfloor q = z.
Proof.
  intros Hlo Hhi. pose proof (Qfloor_le q) as H1. pose proof (Qlt_floor q) as H2.
  assert (z <= Qfloor q)%Z.
  { rewrite <- (Qfloor_Z z). by apply Qfloor_resp_le. }
  assert (Qfloor q < z + 1)%Z; [|lia].
  rewrite Zlt_Qlt. by apply Qle_lt_trans with q.
Qed.

(** Clearing the denominator of a comparison with a fraction of integers. *)
Lemma Qfrac_le (a b c d : Z) : (0 < b)%Z → (0 < d)%Z →
  inject_Z a / inject_Z b <= inject_Z c / inject_Z d ↔ (a * d <= c * b)%Z.
Proof.
  intros Hb Hd. destruct b as [|b|], d as [|d|]; try lia.
  rewrite <- !Qmake_Qdiv. unfold Qle. cbn. reflexivity.
Qed.

Lemma Qle_frac_nonneg (a b : Z) : (0 <= a)%Z → (0 < b)%Z → 0 <= inject_Z a / inject_Z b.
Proof.
  intros Ha Hb. apply Qle_shift_div_l; [apply inject_Z_pos; lia|].
  rewrite Qmult_0_l. change 0 with (inject_Z 0). rewrite <- Zle_Qle. lia.
Qed.

Lemma Qle_bool_false (p q : Q) : Qle_bool p q = false ↔ q < p.
Proof.
  rewrite <- not_true_iff_false, Qle_bool_iff. split; [apply Qnot_le_lt|apply Qlt_not_le].
Qed.

Lemma nle_Fin (p q : Q) : nle (Fin p) (Fin q) = Qle_bool p q.
Proof.
  apply eq_true_iff_eq. unfold nle. cbn.
  rewrite orb_true_iff, negb_true_iff, Qle_bool_false, Qeq_bool_iff, Qle_bool_iff, Qle_lteq.
  reflexivity.
Qed.

(** [a / b >= 1/2], computed in binary64, decides [2 a >= b]. *)
Lemma ge_half_exact (a b : Z) : (0 <= a)%Z → (a <= b)%Z → (0 < b < 2 ^ 50)%Z →
  nle (Fin (1 # 2)) (ndiv (jint a) (jint b)) = (b <=? 2 * a)%Z.
Proof.
  intros Ha Hab Hb. rewrite ndiv_jint by lia.
  destruct (Z.eq_dec a 0%Z) as [->|Ha0].
  { assert (inject_Z 0 / inject_Z b == 0) as -> by (unfold Qdiv; ring).
    cbn. destruct (Z.leb_spec b (2 * 0)); [lia|done]. }
  destruct (Z.eq_dec (2 * a)%Z b) as [<-|Heq].
  { assert (inject_Z a / inject_Z (2 * a) == 1 # 2) as ->.
    { rewrite inject_Z_mult. field. intros H. apply Ha0. apply inject_Z_injective, H. }
    rewrite Z.leb_refl. reflexivity. }
  assert (inject_Z a / inject_Z b <= 1) as Hle1.
  { change 1 with (inject_Z 1 / inject_Z 1). apply Qfrac_le; lia. }
  destruct (rnd_near (inject_Z a / inject_Z b) 1) as (r & -> & Hlo & Hhi);
    [apply frac_normal; lia|apply Qle_frac_nonneg; lia|exact Hle1|].
  change (1 * Qpower 2 (-53)) with (1 # 9007199254740992) in Hlo, Hhi.
  rewrite nle_Fin.
  destruct (Z.leb_spec b (2 * a)) as [Hge|Hlt].
  - apply Qle_bool_iff.
    assert (inject_Z (b + 1) / inject_Z (2 * b) <= inject_Z a / inject_Z b) as H.
    { apply Qfrac_le; nia. }
    assert (inject_Z (2 ^ 50 + 1) / inject_Z (2 * 2 ^ 50) <= inject_Z (b + 1) / inject_Z (2 * b)) as H'.
    { apply Qfrac_le; lia. }
    change (inject_Z (2 ^ 50 + 1) / inject_Z (2 * 2 ^ 50)) with (1125899906842625 # 2251799813685248) in H'.
    lra.
  - destruct (Qle_bool _ _) eqn:E; [|done]. exfalso. apply Qle_bool_iff in E.
    assert (inject_Z a / inject_Z b <= inject_Z (b - 1) / inject_Z (2 * b)) as H.
    { apply Qfrac_le; nia. }
    assert (inject_Z (b - 1) / inject_Z (2 * b) <= inject_Z (2 ^ 50 - 1) / inject_Z (2 * 2 ^ 50)) as H'.
    { apply Qfrac_le; lia. }
    change (inject_Z (2 ^ 50 - 1) / inject_Z (2 * 2 ^ 50)) with (1125899906842623 # 2251799813685248) in H'.
    lra.
Qed.

(** Bounds of an integer value. *)
Lemma nle_int_min a q z : (q == inject_Z z)%Q → nle (jint a) (Fin q) = true → (a <= z)%Z.
Proof.
  intros Hq Hn. unfold jint in Hn. rewrite nle_Fin in Hn. apply Qle_bool_iff in Hn.
  rewrite Hq in Hn. by rewrite Zle_Qle.
Qed.

Lemma nle_int_max b q z : (q == inject_Z z)%Q → nle (Fin q) (jint b) = true → (z <= b)%Z.
Proof.
  intros Hq Hn. unfold jint in Hn. rewrite nle_Fin in Hn. apply Qle_bool_iff in Hn.
  rewrite Hq in Hn. by rewrite Zle_Qle.
Qed.

(** Order on integer values. *)
Lemma nlt_jint (x y : Z) : nlt (jint x) (jint y) = (x <? y)%Z.
Proof. cbn. apply eq_true_iff_eq. rewrite negb_true_iff, Qle_bool_false, Z.ltb_lt. by rewrite <- Zlt_Qlt. Qed.
Lemma nle_jint (x y : Z) : nle (jint x) (jint y) = (x <=? y)%Z.
Proof. unfold jint. rewrite nle_Fin. apply eq_true_iff_eq. rewrite Qle_bool_iff, Z.leb_le, <- Zle_Qle. done. Qed.
