(* ===== verification/JsString.v ===== *)
(** * JavaScript strings

    A string is its sequence of UTF-16 code units.  The literals of scope
    [js_scope] are written as text and read as UTF-16.  Case conversion is
    modelled on the ASCII letters; every other code unit maps to itself. *)
From S2P Require Import Prelude.
From Stdlib Require Import NArith.
From Stdlib.Strings Require Import Byte.
From Stdlib Require DecimalFacts DecimalPos DecimalZ.
#[local] Set Warnings "-numbers".

Abbreviation jstr := (list N).
Definition jstring := jstr.

(** ** Literals *)

Definition jnil : jstring := nil.
Definition jcons (c : N) (s : jstring) : jstring := cons c s.

Inductive jlit := LNil | LCons (c : N) (l : jlit).

(** One code point above the basic plane becomes a surrogate pair. *)
Definition lit_cons_point (p : N) (l : jlit) : jlit :=
  if (p <? 65536)%N then LCons p l
  else let v := (p - 65536)%N in
       LCons (55296 + v / 1024)%N (LCons (56320 + v mod 1024)%N l).

Fixpoint lit_of_utf8 (l : list Byte.byte) : jlit :=
  match l with
  | [] => LNil
  | b :: r =>
      let n := Byte.to_N b in
      if (n <? 128)%N then LCons n (lit_of_utf8 r)
      else match r with
      | [] => LNil
      | b1 :: r1 =>
          let c x := (Byte.to_N x mod 64)%N in
          if (n <? 224)%N then lit_cons_point ((n mod 32) * 64 + c b1) (lit_of_utf8 r1)
          else match r1 with
          | [] => LNil
          | b2 :: r2 =>
              if (n <? 240)%N
              then lit_cons_point ((n mod 16) * 4096 + c b1 * 64 + c b2) (lit_of_utf8 r2)
              else match r2 with
              | [] => LNil
              | b3 :: r3 =>
                  lit_cons_point ((n mod 8) * 262144 + c b1 * 4096 + c b2 * 64 + c b3)
                    (lit_of_utf8 r3)
              end
          end
      end
  end.

Fixpoint lit_to_utf8 (l : jlit) : option (list Byte.byte) :=
  match l with
  | LNil => Some []
  | LCons c r =>
      if (c <? 128)%N then
        match Byte.of_N c, lit_to_utf8 r with
        | Some b, Some bs => Some (b :: bs)
        | _, _ => None
        end
      else None
  end.

Declare Scope js_scope.
Delimit Scope js_scope with js.
String Notation jstring lit_of_utf8 lit_to_utf8
  (via jlit mapping [jnil => LNil, jcons => LCons]) : js_scope.
Local Open Scope js_scope.

(** ** Methods of [String.prototype] *)

(** [WhiteSpace] and [LineTerminator] of ECMAScript, what [trim] removes. *)
Definition is_space (c : N) : bool :=
  ((9 <=? c) && (c <=? 13) || (c =? 32) || (c =? 160) || (c =? 5760)
   || (8192 <=? c) && (c <=? 8202) || (c =? 8232) || (c =? 8233) || (c =? 8239)
   || (c =? 8287) || (c =? 12288) || (c =? 65279))%N.

Definition is_upper (c : N) : bool := ((65 <=? c) && (c <=? 90))%N.
Definition is_lower (c : N) : bool := ((97 <=? c) && (c <=? 122))%N.
Definition is_digit (c : N) : bool := ((48 <=? c) && (c <=? 57))%N.

Definition upper_unit (c : N) : N := if is_lower c then (c - 32)%N else c.
Definition lower_unit (c : N) : N := if is_upper c then (c + 32)%N else c.
Definition toUpperCase (s : jstr) : jstr := map upper_unit s.
Definition toLowerCase (s : jstr) : jstr := map lower_unit s.

Fixpoint trim_start (s : jstr) : jstr :=
  match s with c :: r => if is_space c then trim_start r else s | [] => [] end.
Definition trim (s : jstr) : jstr := rev (trim_start (rev (trim_start s))).

Lemma trim_start_length s : (length (trim_start s) ≤ length s)%nat.
Proof. induction s as [|c s IH]; cbn; [done|]. destruct (is_space c); cbn; lia. Qed.

Lemma trim_length s : (length (trim s) ≤ length s)%nat.
Proof.
  unfold trim. rewrite length_rev. etrans; [apply trim_start_length|]. rewrite length_rev.
  apply trim_start_length.
Qed.

(** [s.slice(0, n)]. *)
Definition slice0 (n : nat) (s : jstr) : jstr := take n s.

Fixpoint startsWith (p s : jstr) : bool :=
  match p, s with
  | [], _ => true
  | a :: p', b :: s' => (a =? b)%N && startsWith p' s'
  | _ :: _, [] => false
  end.
Definition endsWith (p s : jstr) : bool := startsWith (rev p) (rev s).

Fixpoint includes (p s : jstr) : bool :=
  startsWith p s || match s with [] => false | _ :: s' => includes p s' end.

(** [s.replace(/c/g, r)] for a single code unit [c]. *)
Definition replace_all (c : N) (r : jstr) (s : jstr) : jstr :=
  s ≫= λ x, if (x =? c)%N then r else [x].

(** [s.split(sep)] for a single code unit. *)
Fixpoint split_on (sep : N) (s : jstr) : list jstr :=
  match s with
  | [] => [[]]
  | c :: r => if (c =? sep)%N then [] :: split_on sep r
              else match split_on sep r with
                   | h :: t => (c :: h) :: t
                   | [] => [[c]]
                   end
  end.

(** [a.join(sep)]. *)
Fixpoint join (sep : jstr) (l : list jstr) : jstr :=
  match l with
  | [] => ""
  | [s] => s
  | s :: r => s ++ sep ++ join sep r
  end.

(** The empty string is the only falsy string. *)
Definition truthy_str (s : jstr) : bool := match s with [] => false | _ => true end.

(** ** Integers as decimal text *)

Fixpoint uint_to_jstr (d : Decimal.uint) : jstr :=
  match d with
  | Decimal.Nil => []
  | Decimal.D0 d => 48%N :: uint_to_jstr d
  | Decimal.D1 d => 49%N :: uint_to_jstr d
  | Decimal.D2 d => 50%N :: uint_to_jstr d
  | Decimal.D3 d => 51%N :: uint_to_jstr d
  | Decimal.D4 d => 52%N :: uint_to_jstr d
  | Decimal.D5 d => 53%N :: uint_to_jstr d
  | Decimal.D6 d => 54%N :: uint_to_jstr d
  | Decimal.D7 d => 55%N :: uint_to_jstr d
  | Decimal.D8 d => 56%N :: uint_to_jstr d
  | Decimal.D9 d => 57%N :: uint_to_jstr d
  end.

Definition digit_cons (c : N) (d : Decimal.uint) : option Decimal.uint :=
  match c with
  | 48%N => Some (Decimal.D0 d) | 49%N => Some (Decimal.D1 d)
  | 50%N => Some (Decimal.D2 d) | 51%N => Some (Decimal.D3 d)
  | 52%N => Some (Decimal.D4 d) | 53%N => Some (Decimal.D5 d)
  | 54%N => Some (Decimal.D6 d) | 55%N => Some (Decimal.D7 d)
  | 56%N => Some (Decimal.D8 d) | 57%N => Some (Decimal.D9 d)
  | _ => None
  end.

Fixpoint jstr_to_uint (s : jstr) : option Decimal.uint :=
  match s with
  | [] => Some Decimal.Nil
  | c :: r => jstr_to_uint r ≫= digit_cons c
  end.

(** [String(z)] for an integer below [10^21]. *)
Definition string_of_int (z : Z) : jstr :=
  match Z.to_int z with
  | Decimal.Pos d => uint_to_jstr d
  | Decimal.Neg d => 45%N :: uint_to_jstr d
  end.

(** An integer literal: an optional minus sign and at least one digit. *)
Definition int_of_string (s : jstr) : option Z :=
  match s with
  | [] => None
  | c :: r =>
      if (c =? 45)%N then
        match r with
        | [] => None
        | _ => (λ d, Z.of_int (Decimal.Neg d)) <$> jstr_to_uint r
        end
      else (λ d, Z.of_int (Decimal.Pos d)) <$> jstr_to_uint s
  end.

Lemma jstr_to_uint_to_jstr (d : Decimal.uint) : jstr_to_uint (uint_to_jstr d) = Some d.
Proof. induction d; cbn; rewrite ?IHd; reflexivity. Qed.

Lemma uint_to_jstr_digits (d : Decimal.uint) : Forall (λ c, is_digit c = true) (uint_to_jstr d).
Proof. induction d; cbn; constructor; auto. Qed.

Lemma uint_nonempty (d : Decimal.uint) : d ≠ Decimal.Nil → uint_to_jstr d ≠ [].
Proof. destruct d; cbn; congruence. Qed.

Lemma to_int_nonempty (z : Z) :
  match Z.to_int z with Decimal.Pos d | Decimal.Neg d => d ≠ Decimal.Nil end.
Proof.
  destruct z as [|p|p]; cbn; [discriminate| |];
    apply DecimalPos.Unsigned.to_uint_nonnil.
Qed.

Lemma int_of_string_of_int (z : Z) : int_of_string (string_of_int z) = Some z.
Proof.
  pose proof (DecimalZ.of_to z) as Hz. pose proof (to_int_nonempty z) as Hn.
  unfold string_of_int. destruct (Z.to_int z) as [d|d];
    pose proof (jstr_to_uint_to_jstr d) as Hd; pose proof (uint_nonempty d Hn) as Hne;
    pose proof (uint_to_jstr_digits d) as Hdig;
    destruct (uint_to_jstr d) as [|c r]; try done.
  - inversion_clear Hdig as [|? ? Hc ?]. unfold int_of_string.
    destruct (N.eqb_spec c 45) as [->|]; [done|]. rewrite Hd. cbn. by rewrite <- Hz.
  - unfold int_of_string. rewrite N.eqb_refl, Hd. cbn. by rewrite <- Hz.
Qed.

Lemma string_of_int_inj (a b : Z) : string_of_int a = string_of_int b → a = b.
Proof.
  intros H. apply (f_equal int_of_string) in H. rewrite !int_of_string_of_int in H. congruence.
Qed.

(** ** [encodeURIComponent] *)

Definition hex_digit (n : N) : N := if (n <? 10)%N then (48 + n)%N else (55 + n)%N.
Definition percent (b : N) : jstr := [37%N; hex_digit (b / 16); hex_digit (b mod 16)].

Definition utf8_bytes (p : N) : list N :=
  (if p <? 128 then [p]
   else if p <? 2048 then [192 + p / 64; 128 + p mod 64]
   else if p <? 65536 then [224 + p / 4096; 128 + (p / 64) mod 64; 128 + p mod 64]
   else [240 + p / 262144; 128 + (p / 4096) mod 64; 128 + (p / 64) mod 64; 128 + p mod 64])%N.

(** Letters, digits and [- _ . ! ~ * ' ( )] are left as they are. *)
Definition uri_unreserved (c : N) : bool :=
  is_upper c || is_lower c || is_digit c ||
  bool_decide (c ∈ ([45; 95; 46; 33; 126; 42; 39; 40; 41]%N)).

Definition is_high_surrogate (c : N) : bool := ((55296 <=? c) && (c <=? 56319))%N.
Definition is_low_surrogate (c : N) : bool := ((56320 <=? c) && (c <=? 57343))%N.

(** A lone surrogate is a [URIError]. *)
Fixpoint encodeURIComponent (s : jstr) : result jstr jstr :=
  match s with
  | [] => Ok []
  | c :: r =>
      if is_high_surrogate c then
        match r with
        | d :: r' =>
            if is_low_surrogate d then
              (λ t, (utf8_bytes (65536 + (c - 55296) * 1024 + (d - 56320)) ≫= percent) ++ t)
                <$> encodeURIComponent r'
            else Err "URI malformed"
        | [] => Err "URI malformed"
        end
      else if is_low_surrogate c then Err "URI malformed"
      else (λ t, (if uri_unreserved c then [c] else utf8_bytes c ≫= percent) ++ t)
             <$> encodeURIComponent r
  end.
