(* ===== verification/JsDecimal.v ===== *)
(** * JavaScript numbers as decimal text

    [parseInt] in radix ten, [Number.parseFloat] and [toFixed].  The value of a
    literal is rounded once, to the nearest binary64. *)
From Stdlib Require Import QArith Qround Qabs Qpower Lqa.
From S2P Require Import Prelude JsNumber JsString.
Local Open Scope js_scope.
Local Open Scope Z_scope.

(** ** Digits *)

Definition digit_value (c : N) : Z := Z.of_N c - 48.
Definition digits_value (s : jstr) : Z := foldl (λ n c, 10 * n + digit_value c) 0 s.

(** The longest prefix of digits, and the rest. *)
Fixpoint take_digits (s : jstr) : jstr * jstr :=
  match s with
  | c :: r => if is_digit c then let '(a, b) := take_digits r in (c :: a, b) else ([], s)
  | [] => ([], [])
  end.

(** The [n] last digits of a natural number. *)
Fixpoint last_digits (n : nat) (z : Z) : jstr :=
  match n with O => [] | S k => last_digits k (z / 10) ++ [Z.to_N (48 + z mod 10)] end.

(** ** Reading *)

Definition take_sign (s : jstr) : Z * jstr :=
  match s with
  | c :: r => if (c =? 45)%N then (-1, r) else if (c =? 43)%N then (1, r) else (1, s)
  | [] => (1, [])
  end.

(** [Number.parseInt(s, 10)] *)
Definition parseInt (s : jstr) : num :=
  let '(sign, s) := take_sign (trim_start s) in
  match take_digits s with
  | ([], _) => NaN
  | (d, _) => rnd (inject_Z (sign * digits_value d))
  end.

(** The exponent of a literal: nothing is read when it has no digit. *)
Definition take_exponent (s : jstr) : Z :=
  match s with
  | c :: r =>
      if ((c =? 69) || (c =? 101))%N then
        let '(sign, r) := take_sign r in sign * digits_value (take_digits r).1
      else 0
  | [] => 0
  end.

(** [Number.parseFloat(s)]: the longest prefix that is a decimal literal. *)
Definition parseFloat (s : jstr) : num :=
  let '(sign, s) := take_sign (trim_start s) in
  if startsWith "Infinity" s then Inf (sign <? 0)
  else
    let '(whole, r) := take_digits s in
    let '(fraction, r) :=
      match r with
      | c :: r' => if (c =? 46)%N then take_digits r' else ([], r)
      | [] => ([], [])
      end in
    match whole ++ fraction with
    | [] => NaN
    | d =>
        rnd (inject_Z (sign * digits_value d) * Qpower 10 (take_exponent r - Z.of_nat (length fraction)))
    end.

(** ** Writing *)

(** [x.toFixed(f)] below [10^21], where it is the decimal nearest to the number,
    the larger of two; [None] from there on. *)
Definition toFixed (f : nat) (x : num) : option jstr :=
  match x with
  | NaN => Some ("NaN" : jstr)
  | Inf neg => Some ((if neg then "-Infinity" else "Infinity") : jstr)
  | Fin q =>
      if Qle_bool (inject_Z (10 ^ 21)) (Qabs q) then None
      else
        let n := Qfloor (Qabs q * inject_Z (10 ^ Z.of_nat f) + (1 # 2)) in
        let whole := string_of_int (n / 10 ^ Z.of_nat f) in
        Some ((if Qle_bool 0 q then [] else [45%N]) ++ whole ++
              match f with O => [] | _ => 46%N :: last_digits f n end)
  end.

(** [String(x)] from [10^-6] to [10^21], where it has no exponent: the shortest
    decimal that reads as the number; [None] outside. *)
Definition decimal_text (p : nat) (n : Z) : jstr :=
  string_of_int (n / 10 ^ Z.of_nat p) ++ match p with O => [] | _ => 46%N :: last_digits p n end.
Fixpoint shortest (fuel p : nat) (q : Q) : option jstr :=
  let n := Qfloor (q * inject_Z (10 ^ Z.of_nat p) + (1 # 2)) in
  if neqb (rnd (inject_Z n / inject_Z (10 ^ Z.of_nat p))) (Fin q) then Some (decimal_text p n)
  else match fuel with O => None | S f => shortest f (S p) q end.
Definition number_text (x : num) : option jstr :=
  match x with
  | NaN => Some ("NaN" : jstr)
  | Inf neg => Some ((if neg then "-Infinity" else "Infinity") : jstr)
  | Fin q =>
      if Qeq_bool q 0 then Some ("0" : jstr)
      else if Qle_bool (inject_Z (10 ^ 21)) (Qabs q) || negb (Qle_bool (1 # 1000000) (Qabs q)) then None
      else (λ t, (if Qle_bool 0 q then [] else [45%N]) ++ t) <$> shortest 23 0 (Qabs q)
  end.

(** [Math.min] and [Math.max] of two numbers. *)
Definition math_min (x y : num) : num :=
  match x, y with NaN, _ | _, NaN => NaN | _, _ => if nlt y x then y else x end.
Definition math_max (x y : num) : num :=
  match x, y with NaN, _ | _, NaN => NaN | _, _ => if nlt x y then y else x end.
Definition is_nan (x : num) : bool := match x with NaN => true | _ => false end.

(** [String(n)] of an integer below [10^21]. *)
Definition int_text (n : num) : jstr := match n with Fin q => string_of_int (Qfloor q) | _ => "" end.

(** ** Digits and their value *)

Definition all_digits (s : jstr) : Prop := Forall (λ c, is_digit c = true) s.

Lemma digits_value_app a b : digits_value (a ++ b) = digits_value a * 10 ^ Z.of_nat (length b) + digits_value b.
Proof.
  unfold digits_value. rewrite foldl_app. generalize (foldl (λ n c, 10 * n + digit_value c) 0 a) as n.
  induction b as [|c b IH]; intros n; [cbn; lia|]. cbn [foldl length]. rewrite (IH (10 * n + digit_value c)), (IH (10 * 0 + digit_value c)).
  rewrite Nat2Z.inj_succ, Z.pow_succ_r by lia. lia.
Qed.

Lemma digit_value_bound c : is_digit c = true → 0 ≤ digit_value c ≤ 9.
Proof. unfold is_digit, digit_value. intros [H1%N.leb_le H2%N.leb_le]%andb_true_iff. lia. Qed.

Lemma digits_value_bound s : all_digits s → 0 ≤ digits_value s < 10 ^ Z.of_nat (length s).
Proof.
  induction s as [|c s IH] using rev_ind; intros Hs; [done|]. apply Forall_app in Hs as [Hs Hc]. rewrite Forall_singleton in Hc.
  specialize (IH Hs). apply digit_value_bound in Hc. rewrite digits_value_app, length_app. cbn [length].
  rewrite Nat2Z.inj_add, Z.pow_add_r by lia. change (10 ^ Z.of_nat 1) with 10. change (digits_value [c]) with (digit_value c). lia.
Qed.

Lemma of_uint_acc_value d acc :
  Z.pos (Pos.of_uint_acc d acc) = foldl (λ n c, 10 * n + digit_value c) (Z.pos acc) (uint_to_jstr d).
Proof. revert acc. induction d as [|d IH|d IH|d IH|d IH|d IH|d IH|d IH|d IH|d IH|d IH]; intros acc; [done|..]; cbn [Pos.of_uint_acc uint_to_jstr foldl]; rewrite IH; f_equal; unfold digit_value; lia. Qed.

Lemma of_uint_value d : Z.of_uint d = digits_value (uint_to_jstr d).
Proof.
  unfold digits_value. induction d as [|d IH|d IH|d IH|d IH|d IH|d IH|d IH|d IH|d IH|d IH]; [done|exact IH|..];
    cbn [uint_to_jstr foldl]; rewrite <- of_uint_acc_value || (etrans; [|apply of_uint_acc_value]); done.
Qed.

(** The text of a natural number reads as that number. *)
Lemma string_of_int_digits z : 0 ≤ z →
  all_digits (string_of_int z) ∧ string_of_int z ≠ [] ∧ digits_value (string_of_int z) = z.
Proof.
  intros Hz. pose proof (DecimalZ.of_to z) as Ho. pose proof (to_int_nonempty z) as Hn. unfold string_of_int.
  destruct (Z.to_int z) as [d|d] eqn:Hd; [|destruct z; done].
  split; [apply uint_to_jstr_digits|]. split; [by apply uint_nonempty|]. by rewrite <- of_uint_value.
Qed.

Lemma last_digits_spec n z : 0 ≤ z →
  all_digits (last_digits n z) ∧ length (last_digits n z) = n ∧ digits_value (last_digits n z) = z mod 10 ^ Z.of_nat n.
Proof.
  revert z. induction n as [|n IH]; intros z Hz; [split; [constructor|]; by rewrite Z.mod_1_r|]. cbn [last_digits].
  destruct (IH (z / 10)) as (Hd & Hl & Hv); [by apply Z.div_pos|].
  pose proof (Z.mod_pos_bound z 10 ltac:(lia)) as Hm. split; [|split].
  - apply Forall_app. split; [done|]. apply Forall_singleton. unfold is_digit.
    apply andb_true_intro. split; apply N.leb_le; lia.
  - rewrite length_app, Hl. cbn. lia.
  - rewrite digits_value_app, Hv. cbn [length]. unfold digits_value, digit_value. cbn [foldl].
    rewrite Z2N.id by lia. change (10 ^ Z.of_nat 1) with 10. rewrite Nat2Z.inj_succ, Z.pow_succ_r, Z.rem_mul_r by lia. lia.
Qed.

Lemma take_digits_app d r :
  all_digits d → match r with c :: _ => is_digit c = false | [] => True end → take_digits (d ++ r) = (d, r).
Proof.
  induction 1 as [|c d Hc Hd IH]; intros Hr; [destruct r as [|c r]; [done|]; cbn; by rewrite Hr|]. cbn. by rewrite Hc, IH.
Qed.

Lemma take_digits_all d : all_digits d → take_digits d = (d, []).
Proof. intros Hd. rewrite <- (app_nil_r d) at 1. by apply take_digits_app. Qed.

Lemma digit_plain c r : is_digit c = true →
  trim_start (c :: r) = c :: r ∧ take_sign (c :: r) = (1, c :: r) ∧ startsWith "Infinity" (c :: r) = false.
Proof.
  unfold is_digit. intros [H1%N.leb_le H2%N.leb_le]%andb_true_iff.
  assert (c = 48 ∨ c = 49 ∨ c = 50 ∨ c = 51 ∨ c = 52 ∨ c = 53 ∨ c = 54 ∨ c = 55 ∨ c = 56 ∨ c = 57)%N as Hc by lia.
  by repeat (destruct Hc as [->|Hc]; [done|]); subst.
Qed.

Lemma parseFloat_decimal w f : all_digits w → all_digits f → w ≠ [] →
  parseFloat (w ++ 46%N :: f) = rnd (inject_Z (digits_value (w ++ f)) * Qpower 10 (- Z.of_nat (length f))).
Proof.
  intros Hw Hf Hn. unfold parseFloat. destruct w as [|c w]; [done|].
  destruct (digit_plain c (w ++ 46%N :: f)) as (Ht & Hs & Hi); [by inversion Hw|].
  change ((c :: w) ++ 46%N :: f) with (c :: w ++ 46%N :: f). rewrite Ht, Hs, Hi.
  change (c :: w ++ 46%N :: f) with ((c :: w) ++ 46%N :: f). rewrite take_digits_app by done. cbn [N.eqb Pos.eqb].
  rewrite <- (app_nil_r f) at 1. rewrite take_digits_app by done. cbn [app]. rewrite Z.mul_1_l. done.
Qed.

Lemma parseFloat_whole w : all_digits w → w ≠ [] → parseFloat w = rnd (inject_Z (digits_value w)).
Proof.
  intros Hw Hn. unfold parseFloat. destruct w as [|c w]; [done|].
  destruct (digit_plain c w) as (Ht & Hs & Hi); [by inversion Hw|]. rewrite Ht, Hs, Hi.
  rewrite <- (app_nil_r (c :: w)). rewrite take_digits_app by done. cbn [app]. rewrite app_nil_r, Z.mul_1_l. cbn [take_exponent length].
  change (Qpower 10 (0 - Z.of_nat 0)) with 1%Q. by rewrite Qmult_1_r.
Qed.

(** ** Amounts of money *)

(** An amount in minor units, as a decimal with two places. *)
Definition cents_text (c : Z) : jstr := string_of_int (c / 100) ++ 46%N :: last_digits 2 c.

Local Open Scope Q_scope.

(** The binary64 nearest to a number of hundredths is close enough. *)
Lemma cents_near c : (0 <= c < 2 ^ 40)%Z →
  ∃ r, rnd (inject_Z c / inject_Z 100) = Fin r ∧ 0 <= r ∧
    inject_Z c - (1 # 64) <= r * 100 ∧ r * 100 <= inject_Z c + (1 # 64).
Proof.
  intros Hc. destruct (decide (c = 0%Z)) as [->|Hn].
  - exists 0. split; [reflexivity|]. split; [done|]. split; discriminate.
  - assert (inject_Z c == (inject_Z c / inject_Z 100) * 100) as He by (change (inject_Z 100) with 100; field).
    assert (inject_Z c / inject_Z 100 <= inject_Z (2 ^ 40) / inject_Z 1) as Hb by (apply Qfrac_le; lia).
    assert (inject_Z 1 / inject_Z 100 <= inject_Z c / inject_Z 100) as Hp by (apply Qfrac_le; lia).
    change (inject_Z (2 ^ 40) / inject_Z 1) with (1099511627776 # 1) in Hb. change (inject_Z 1 / inject_Z 100) with (1 # 100) in Hp.
    destruct (rnd_near (inject_Z c / inject_Z 100) (1099511627776 # 1)) as (r & Hr & Hlo & Hhi); [apply frac_normal; lia|lra|done|].
    change ((1099511627776 # 1) * Qpower 2 (-53)) with (1099511627776 # 9007199254740992) in Hlo, Hhi.
    exists r. split; [done|]. rewrite He. split; [lra|]. split; lra.
Qed.

(** A hundred times it rounds to the amount. *)
Lemma cents_back c : (0 <= c < 2 ^ 40)%Z → nround (nmul (rnd (inject_Z c / inject_Z 100)) (jint 100)) = jint c.
Proof.
  intros Hc. destruct (cents_near c Hc) as (r & Hr & Hp & Hlo & Hhi). rewrite Hr. cbn [nmul jint]. change (inject_Z 100) with 100.
  assert (inject_Z c <= inject_Z (2 ^ 40)) as Hb by (rewrite <- Zle_Qle; lia). change (inject_Z (2 ^ 40)) with (1099511627776 # 1) in Hb.
  destruct (decide (c = 0%Z)) as [->|Hn].
  - assert (r = 0) as -> by (vm_compute in Hr; congruence). reflexivity.
  - assert (inject_Z 1 <= inject_Z c) as H1 by (rewrite <- Zle_Qle; lia). change (inject_Z 1) with 1 in H1.
    destruct (rnd_near (r * 100) (2199023255552 # 1)) as (s & -> & Hlo' & Hhi'); [|lra|lra|].
    + split; rewrite Qabs_pos by lra.
      * apply Qle_trans with (1 # 2); [discriminate|lra].
      * apply Qle_trans with (2199023255552 # 1); [lra|discriminate].
    + change ((2199023255552 # 1) * Qpower 2 (-53)) with (2199023255552 # 9007199254740992) in Hlo', Hhi'.
      unfold nround. f_equal. apply Qfloor_unique; [lra|]. rewrite inject_Z_plus. change (inject_Z 1) with 1. lra.
Qed.

Local Close Scope Q_scope.

Lemma cents_value c : 0 ≤ c →
  digits_value (string_of_int (c / 100) ++ last_digits 2 c) = c ∧ all_digits (last_digits 2 c) ∧
  all_digits (string_of_int (c / 100)) ∧ string_of_int (c / 100) ≠ [].
Proof.
  intros Hc. destruct (string_of_int_digits (c / 100)) as (Hd & Hn & Hv); [by apply Z.div_pos|].
  destruct (last_digits_spec 2 c Hc) as (Hd' & Hl & Hv'). split; [|done].
  rewrite digits_value_app, Hv, Hl, Hv'. change (10 ^ Z.of_nat 2) with 100. pose proof (Z.div_mod c 100 ltac:(lia)). lia.
Qed.

(** Two places are read as hundredths. *)
Lemma parseFloat_places w f : all_digits w → all_digits f → w ≠ [] → length f = 2%nat →
  parseFloat (w ++ 46%N :: f) = rnd (inject_Z (digits_value (w ++ f)) / inject_Z 100).
Proof. intros Hw Hf Hn Hl. rewrite parseFloat_decimal, Hl by done. reflexivity. Qed.

Lemma parseFloat_cents c : 0 ≤ c → parseFloat (cents_text c) = rnd (inject_Z c / inject_Z 100).
Proof.
  intros Hc. destruct (cents_value c Hc) as (Hv & Hd & Hd' & Hn). unfold cents_text. rewrite parseFloat_places by done.
  by rewrite Hv.
Qed.

Lemma toFixed_cents c : 0 ≤ c < 2 ^ 40 → toFixed 2 (ndiv (jint c) (jint 100)) = Some (cents_text c).
Proof.
  intros Hc. rewrite ndiv_jint by lia. destruct (cents_near c Hc) as (r & -> & Hp & Hlo & Hhi). unfold toFixed.
  assert (inject_Z c <= inject_Z (2 ^ 40))%Q as Hb by (rewrite <- Zle_Qle; lia). change (inject_Z (2 ^ 40)) with (1099511627776 # 1)%Q in Hb.
  change (inject_Z (10 ^ 21)) with (1000000000000000000000 # 1)%Q. rewrite (Qabs_pos r) by done.
  assert (Qle_bool (1000000000000000000000 # 1) r = false) as -> by (apply Qle_bool_false; lra).
  rewrite (proj2 (Qle_bool_iff 0 r) Hp). change (10 ^ Z.of_nat 2) with 100. change (inject_Z 100) with 100%Q.
  assert (Qfloor (Qabs r * 100 + (1 # 2)) = c) as ->; [|done].
  apply Qfloor_unique; rewrite Qabs_pos by done; [lra|]. rewrite inject_Z_plus. change (inject_Z 1) with 1%Q. lra.
Qed.

(** An integer too large to be exact still rounds to something large. *)
Lemma rnd_large z : 2 ^ 53 ≤ z → rnd (inject_Z z) = Inf false ∨ ∃ r, rnd (inject_Z z) = Fin r ∧ (inject_Z (2 ^ 52) <= r)%Q.
Proof.
  intros Hz. unfold rnd. rewrite Qred_inject_Z. set (q := inject_Z z).
  assert (inject_Z (2 ^ 53) <= q)%Q as Hq by (unfold q; rewrite <- Zle_Qle; lia).
  change (inject_Z (2 ^ 53)) with (9007199254740992 # 1)%Q in Hq.
  assert (~ q == 0)%Q as H0 by (intros H; rewrite H in Hq; apply Hq; done).
  destruct (ilog2_spec q H0) as [Hlo Hhi]. rewrite Qabs_pos in Hlo, Hhi by lra.
  pose proof (rnd_quantum_err q) as Herr. cbv zeta in Herr.
  assert (52 < ilog2 q)%Z as Hi.
  { destruct (Z.lt_ge_cases 52 (ilog2 q)) as [|Hge]; [done|]. exfalso. apply (Qlt_not_le _ _ Hhi).
    apply Qle_trans with (Qpower 2 53); [apply Qpower2_le; lia|]. exact Hq. }
  assert (quantum q = ilog2 q - 52)%Z as Hqe by (unfold quantum; lia). unfold rnd_lowest.
  set (m := (inject_Z (rne (q * Qpower 2 (- quantum q))) * Qpower 2 (quantum q))%Q) in *.
  assert (Qpower 2 (quantum q - 1) <= q * Qpower 2 (-53))%Q as Hs.
  { rewrite Hqe. replace (ilog2 q - 52 - 1) with (ilog2 q + -53) by lia. rewrite Qpower_plus by discriminate.
    apply Qmult_le_compat_r; [exact Hlo|]. apply Qlt_le_weak, Qpower2_pos. }
  change (Qpower 2 (-53)) with (1 # 9007199254740992)%Q in Hs.
  pose proof (Qle_trans _ _ _ Herr Hs) as H. apply Qabs_Qle_condition in H as [H1 _].
  assert (Qeq_bool q 0 = false) as -> by (destruct (Qeq_bool q 0) eqn:E; [by apply Qeq_bool_iff in E|done]).
  destruct (Qle_bool _ _) eqn:E.
  - left. f_equal. apply Qle_bool_false. lra.
  - right. eexists. split; [done|]. rewrite Qred_correct. change (inject_Z (2 ^ 52)) with (4503599627370496 # 1)%Q. lra.
Qed.

(** ** Integers *)

Lemma math_min_jint a b : math_min (jint a) (jint b) = jint (Z.min a b).
Proof. unfold math_min. cbn [jint]. fold (jint a) (jint b). rewrite nlt_jint. destruct (Z.ltb_spec b a); f_equal; f_equal; lia. Qed.
Lemma math_max_jint a b : math_max (jint a) (jint b) = jint (Z.max a b).
Proof. unfold math_max. cbn [jint]. fold (jint a) (jint b). rewrite nlt_jint. destruct (Z.ltb_spec a b); f_equal; f_equal; lia. Qed.

Lemma int_text_jint z : int_text (jint z) = string_of_int z.
Proof. unfold int_text, jint. by rewrite Qfloor_Z. Qed.

Lemma int_digits z : 0 ≤ z → all_digits (int_text (jint z)).
Proof. intros Hz. rewrite int_text_jint. by apply string_of_int_digits. Qed.

Lemma Qceiling_unique (q : Q) (z : Z) : (inject_Z (z - 1) < q)%Q → (q <= inject_Z z)%Q → Qceiling q = z.
Proof.
  intros Hlo Hhi. pose proof (Qle_ceiling q) as H1. pose proof (Qceiling_lt q) as H2.
  assert (z - 1 < Qceiling q) by (rewrite Zlt_Qlt; by eapply Qlt_le_trans).
  assert (Qceiling q - 1 < z) by (rewrite Zlt_Qlt; by eapply Qlt_le_trans). lia.
Qed.

(** The quotient of two small integers, rounded up, is exact. *)
Lemma ceil_div a b : 0 ≤ a ≤ 2 ^ 20 → 1 ≤ b ≤ 2 ^ 20 → nceil (ndiv (jint a) (jint b)) = jint ((a + b - 1) / b).
Proof.
  intros Ha Hb. rewrite ndiv_jint by lia. set (n := (a + b - 1) / b).
  pose proof (Z.div_mod (a + b - 1) b ltac:(lia)) as Hdm. pose proof (Z.mod_pos_bound (a + b - 1) b ltac:(lia)) as Hm. fold n in Hdm.
  assert (0 ≤ n ≤ 2 ^ 20) as Hn by nia. destruct (decide (a = n * b)) as [He|He].
  - assert (inject_Z a / inject_Z b == inject_Z n)%Q as Hq.
    { rewrite He, inject_Z_mult. field. intros H. apply (inject_Z_injective b 0) in H. lia. }
    rewrite Hq, rnd_int by lia. cbn. f_equal. f_equal. apply Qceiling_unique; rewrite <- ?Zlt_Qlt, <- ?Zle_Qle; lia.
  - assert ((n - 1) * b + 1 ≤ a ≤ n * b - 1) as [La Ua] by lia. assert (1 ≤ n) by nia. assert (1 ≤ a) by nia.
    assert (inject_Z ((n - 1) * b + 1) / inject_Z b <= inject_Z a / inject_Z b)%Q as Hlo
      by (apply Qfrac_le; [lia..|]; apply Z.mul_le_mono_nonneg_r; lia).
    assert (inject_Z a / inject_Z b <= inject_Z (n * b - 1) / inject_Z b)%Q as Hup
      by (apply Qfrac_le; [lia..|]; apply Z.mul_le_mono_nonneg_r; lia).
    assert (~ inject_Z b == 0)%Q as Hb0 by (intros Hz; apply (inject_Z_injective b 0) in Hz; lia).
    assert (inject_Z ((n - 1) * b + 1) / inject_Z b == inject_Z (n - 1) + inject_Z 1 / inject_Z b)%Q as E1
      by (rewrite inject_Z_plus, inject_Z_mult; field; done).
    assert (inject_Z (n * b - 1) / inject_Z b == inject_Z n - inject_Z 1 / inject_Z b)%Q as E2.
    { replace (n * b - 1) with (n * b + -1) by lia. rewrite inject_Z_plus, inject_Z_mult. change (inject_Z (-1)) with (- inject_Z 1)%Q. field. done. }
    rewrite E1 in Hlo. rewrite E2 in Hup. clear E1 E2.
    assert (inject_Z 1 / inject_Z (2 ^ 20) <= inject_Z 1 / inject_Z b)%Q as Hb1 by (apply Qfrac_le; lia).
    assert (inject_Z n <= inject_Z (2 ^ 20))%Q as Hn20 by (rewrite <- Zle_Qle; lia).
    change (inject_Z 1 / inject_Z (2 ^ 20))%Q with (1 # 1048576)%Q in Hb1. change (inject_Z (2 ^ 20)) with (1048576 # 1)%Q in Hn20.
    destruct (rnd_near (inject_Z a / inject_Z b) (1048576 # 1)) as (r & -> & Hrl & Hrh); [apply frac_normal; lia|apply Qle_frac_nonneg; lia|lra|].
    change ((1048576 # 1) * Qpower 2 (-53))%Q with (1048576 # 9007199254740992)%Q in Hrl, Hrh.
    cbn. unfold jint. f_equal. f_equal. apply Qceiling_unique; lra.
Qed.
