(* ===== verification/JsDate.v ===== *)
(** * JavaScript dates

    [Date.prototype.toISOString] on a time value in milliseconds since the
    epoch: the proleptic Gregorian calendar, always in UTC. *)
From S2P Require Import Prelude JsString.
Local Open Scope js_scope.
Local Open Scope Z_scope.

(** ** The civil calendar *)

(** Days since 1970-01-01 as (year, month, day), counting the years from
    March 1st within eras of 400 years. *)
Definition civil (days : Z) : Z * Z * Z :=
  let z := days + 719468 in
  let era := z / 146097 in
  let doe := z mod 146097 in
  let yoe := (doe - doe / 1460 + doe / 36524 - doe / 146096) / 365 in
  let doy := doe - (365 * yoe + yoe / 4 - yoe / 100) in
  let mp := (5 * doy + 2) / 153 in
  let d := doy - (153 * mp + 2) / 5 + 1 in
  let m := if mp <? 10 then mp + 3 else mp - 9 in
  (yoe + era * 400 + (if m <=? 2 then 1 else 0), m, d).

(** ** Printing *)

(** The [n] low decimal digits of [z]. *)
Fixpoint digits (n : nat) (z : Z) : jstr :=
  match n with
  | O => ""
  | S n' => digits n' (z / 10) ++ [(48 + Z.to_N (z mod 10))%N]
  end.

(** Years outside 0..9999 are printed with a sign and six digits. *)
Definition year_string (y : Z) : jstr :=
  if (0 <=? y) && (y <=? 9999) then digits 4 y
  else (if y <? 0 then "-" else "+") ++ digits 6 (Z.abs y).

Definition msPerDay : Z := 86400000.

Definition toISOString (t : Z) : jstr :=
  let '(y, m, d) := civil (t / msPerDay) in
  let ms := t mod msPerDay in
  year_string y ++ "-" ++ digits 2 m ++ "-" ++ digits 2 d ++ "T" ++
  digits 2 (ms / 3600000) ++ ":" ++ digits 2 (ms / 60000 mod 60) ++ ":" ++
  digits 2 (ms / 1000 mod 60) ++ "." ++ digits 3 (ms mod 1000) ++ "Z".

Example iso_epoch : toISOString 0 = "1970-01-01T00:00:00.000Z".
Proof. reflexivity. Qed.
Example iso_leap : toISOString 1709210096789 = "2024-02-29T12:34:56.789Z".
Proof. reflexivity. Qed.
Example iso_before : toISOString (-1) = "1969-12-31T23:59:59.999Z".
Proof. reflexivity. Qed.

Lemma digits_length n z : length (digits n z) = n.
Proof. revert z. induction n as [|n IH]; intros z; cbn; [done|]. rewrite length_app, IH. cbn. lia. Qed.

Lemma digits_are n z : Forall (λ c, is_digit c = true) (digits n z).
Proof.
  revert z. induction n as [|n IH]; intros z; cbn; [constructor|].
  apply Forall_app; split; [apply IH|]. constructor; [|constructor].
  pose proof (Z.mod_pos_bound z 10 ltac:(lia)). unfold is_digit.
  apply andb_true_iff; split; apply N.leb_le; lia.
Qed.

(** ** Dates of this era *)

(** From 1970 to the year 9575, in which years have four digits. *)
Definition clock_ok (t : Z) : Prop := 0 <= t < 240 * 10 ^ 12.

Lemma civil_year_bounds days : 0 <= days < 2777778 → 0 <= (civil days).1.1 <= 9999.
Proof.
  intros Hd. unfold civil. set (z := days + 719468). cbv zeta. cbn [fst].
  assert (0 <= z / 146097 <= 23) as He by (unfold z; Z.to_euclidean_division_equations; lia).
  assert (0 <= z mod 146097 < 146097) as Hm by (apply Z.mod_pos_bound; lia).
  set (era := z / 146097) in *. set (doe := z mod 146097) in *.
  assert (0 <= (doe - doe / 1460 + doe / 36524 - doe / 146096) / 365 <= 400) as Hy
    by (clear -Hm; Z.to_euclidean_division_equations; lia).
  set (yoe := (doe - doe / 1460 + doe / 36524 - doe / 146096) / 365) in *.
  destruct (_ <=? 2); lia.
Qed.

(** The shape of a printed date: four, two, two, two, two, two and three digits. *)
Lemma iso_shape t : clock_ok t →
  ∃ y mo d h mi s ms,
    toISOString t = digits 4 y ++ "-" ++ digits 2 mo ++ "-" ++ digits 2 d ++ "T" ++
      digits 2 h ++ ":" ++ digits 2 mi ++ ":" ++ digits 2 s ++ "." ++ digits 3 ms ++ "Z".
Proof.
  intros Ht. unfold toISOString. unfold clock_ok in Ht.
  pose proof (civil_year_bounds (t / msPerDay)) as Hy.
  destruct (civil (t / msPerDay)) as [[y m] d]. cbn [fst] in Hy.
  assert (0 <= y <= 9999) as Hb.
  { apply Hy. unfold msPerDay. Z.to_euclidean_division_equations. lia. }
  unfold year_string. replace ((0 <=? y) && (y <=? 9999)) with true by (symmetry; apply andb_true_iff; lia).
  by eexists _, _, _, _, _, _, _.
Qed.
