(* ===== verification/Json.v ===== *)
(** * JSON

    [JSON.stringify] and [JSON.parse] on values whose numbers are integers in
    the safe range (money is in minor units, quantities and versions are
    counts): a fraction or an exponent is outside the model and does not parse.
    [parse_print] is their round trip. *)
From S2P Require Import Prelude JsString.
Local Open Scope js_scope.

Inductive json :=
| JNull
| JBool (b : bool)
| JNum (z : Z)
| JStr (s : jstr)
| JArr (l : list json)
| JObj (kvs : list (jstr * json)).

(** ** Strings *)

Definition hexl (d : N) : N := (if d <? 10 then 48 + d else 87 + d)%N.
Definition unhex (c : N) : option N :=
  if is_digit c then Some (c - 48)%N
  else if ((97 <=? c) && (c <=? 102))%N then Some (c - 87)%N
  else if ((65 <=? c) && (c <=? 70))%N then Some (c - 55)%N
  else None.

Definition u_escape (c : N) : jstr :=
  [92; 117; hexl (c / 4096 mod 16); hexl (c / 256 mod 16); hexl (c / 16 mod 16); hexl (c mod 16)]%N.

(** One code unit that is not half of a surrogate pair. *)
Definition esc (c : N) : jstr :=
  (if c =? 34 then [92; 34] else if c =? 92 then [92; 92]
   else if c =? 8 then [92; 98] else if c =? 9 then [92; 116] else if c =? 10 then [92; 110]
   else if c =? 12 then [92; 102] else if c =? 13 then [92; 114]
   else if (c <? 32) || is_high_surrogate c || is_low_surrogate c then u_escape c
   else [c])%N.

Fixpoint esc_str (s : jstr) : jstr :=
  match s with
  | [] => []
  | c :: r =>
      match r with
      | d :: r' =>
          if is_high_surrogate c && is_low_surrogate d then c :: d :: esc_str r'
          else esc c ++ esc_str r
      | [] => esc c
      end
  end.

Definition unescape (e : N) : option N :=
  match e with
  | 34%N => Some 34%N | 92%N => Some 92%N | 47%N => Some 47%N
  | 98%N => Some 8%N | 102%N => Some 12%N | 110%N => Some 10%N
  | 114%N => Some 13%N | 116%N => Some 9%N
  | _ => None
  end.

Definition unhex4 (a b c d : N) : option N :=
  a ← unhex a; b ← unhex b; c ← unhex c; d ← unhex d;
  Some (a * 4096 + b * 256 + c * 16 + d)%N.

(** The text after the opening quote: the string and what follows it. *)
Fixpoint pstring (s : jstr) : option (jstr * jstr) :=
  match s with
  | [] => None
  | c :: r =>
      if (c =? 34)%N then Some ([], r)
      else if (c =? 92)%N then
        match r with
        | [] => None
        | e :: r1 =>
            if (e =? 117)%N then
              match r1 with
              | h1 :: h2 :: h3 :: h4 :: r2 =>
                  u ← unhex4 h1 h2 h3 h4; '(t, r') ← pstring r2; Some (u :: t, r')
              | _ => None
              end
            else u ← unescape e; '(t, r') ← pstring r1; Some (u :: t, r')
        end
      else if (c <? 32)%N then None
      else '(t, r') ← pstring r; Some (c :: t, r')
  end.

(** ** Values *)

Definition quote (s : jstr) : jstr := 34%N :: esc_str s ++ [34%N].

Fixpoint print (j : json) : jstr :=
  match j with
  | JNull => "null"
  | JBool b => if b then "true" else "false"
  | JNum z => string_of_int z
  | JStr s => quote s
  | JArr l => "[" ++ join "," (map print l) ++ "]"
  | JObj kvs => "{" ++ join "," (map (λ kv, quote kv.1 ++ ":" ++ print kv.2) kvs) ++ "}"
  end.

Definition is_ws (c : N) : bool := ((c =? 32) || (c =? 9) || (c =? 10) || (c =? 13))%N.
Fixpoint skip_ws (s : jstr) : jstr :=
  match s with c :: r => if is_ws c then skip_ws r else s | [] => [] end.

Definition num_unit (c : N) : bool :=
  is_digit c || bool_decide (c ∈ ([43; 45; 46; 69; 101]%N)).
Fixpoint take_num (s : jstr) : jstr * jstr :=
  match s with
  | c :: r => if num_unit c then let '(a, b) := take_num r in (c :: a, b) else ([], s)
  | [] => ([], [])
  end.
(** An integer literal: no leading zeros, no plus sign. *)
Definition pnumber (s : jstr) : option (json * jstr) :=
  let '(t, r) := take_num s in
  z ← int_of_string t;
  if decide (t = string_of_int z ∨ t = "-0") then Some (JNum z, r) else None.

(** The next code unit after white space is [c]: what follows it. *)
Definition eat (c : N) (s : jstr) : option jstr :=
  match skip_ws s with d :: r => if (d =? c)%N then Some r else None | [] => None end.

Fixpoint pvalue (n : nat) (s : jstr) : option (json * jstr) :=
  match n with
  | O => None
  | S n =>
      let s := skip_ws s in
      match s with
      | [] => None
      | c :: r =>
          if (c =? 34)%N then '(t, r) ← pstring r; Some (JStr t, r)
          else if (c =? 91)%N then
            match eat 93 r with
            | Some r => Some (JArr [], r)
            | None => '(l, r) ← pitems n r; Some (JArr l, r)
            end
          else if (c =? 123)%N then
            match eat 125 r with
            | Some r => Some (JObj [], r)
            | None => '(l, r) ← pmembers n r; Some (JObj l, r)
            end
          else if startsWith "null" s then Some (JNull, drop 4 s)
          else if startsWith "true" s then Some (JBool true, drop 4 s)
          else if startsWith "false" s then Some (JBool false, drop 5 s)
          else pnumber s
      end
  end
with pitems (n : nat) (s : jstr) : option (list json * jstr) :=
  match n with
  | O => None
  | S n =>
      '(v, r) ← pvalue n s;
      match eat 44 r with
      | Some r => '(l, r) ← pitems n r; Some (v :: l, r)
      | None => r ← eat 93 r; Some ([v], r)
      end
  end
with pmembers (n : nat) (s : jstr) : option (list (jstr * json) * jstr) :=
  match n with
  | O => None
  | S n =>
      r ← eat 34 s;
      '(k, r) ← pstring r;
      r ← eat 58 r;
      '(v, r) ← pvalue n r;
      match eat 44 r with
      | Some r => '(l, r) ← pmembers n r; Some ((k, v) :: l, r)
      | None => r ← eat 125 r; Some ([(k, v)], r)
      end
  end.

(** [JSON.parse]. *)
Definition parse_json (s : jstr) : option json :=
  '(v, r) ← pvalue (S (length s)) s;
  match skip_ws r with [] => Some v | _ => None end.

Fixpoint same_key (a b : jstr) : bool :=
  match a, b with
  | [], [] => true
  | x :: a, y :: b => (x =? y)%N && same_key a b
  | _, _ => false
  end.

(** The value of a property: the last occurrence wins. *)
Definition field (k : jstr) (j : json) : option json :=
  match j with
  | JObj kvs => foldl (λ acc kv, if same_key kv.1 k then Some kv.2 else acc) None kvs
  | _ => None
  end.

Definition the_str (j : json) : option jstr := match j with JStr s => Some s | _ => None end.
Definition the_int (j : json) : option Z := match j with JNum z => Some z | _ => None end.
Definition the_list {A} (f : json → option A) (j : json) : option (list A) :=
  match j with JArr l => mapM f l | _ => None end.

(** ** Round trip *)

Lemma unhex_hexl d : (d < 16)%N → unhex (hexl d) = Some d.
Proof.
  intros Hd. unfold hexl, unhex, is_digit. destruct (N.ltb_spec d 10).
  - replace ((48 <=? 48 + d) && (48 + d <=? 57))%N with true; [f_equal; lia|].
    symmetry. apply andb_true_iff. rewrite !N.leb_le. lia.
  - replace ((48 <=? 87 + d) && (87 + d <=? 57))%N with false.
    2:{ symmetry. apply andb_false_iff. rewrite !N.leb_gt. lia. }
    replace ((97 <=? 87 + d) && (87 + d <=? 102))%N with true; [f_equal; lia|].
    symmetry. apply andb_true_iff. rewrite !N.leb_le. lia.
Qed.

Lemma unhex4_escape c : (c < 65536)%N →
  unhex4 (hexl (c / 4096 mod 16)) (hexl (c / 256 mod 16)) (hexl (c / 16 mod 16)) (hexl (c mod 16))
  = Some c.
Proof.
  intros Hc. unfold unhex4. rewrite !unhex_hexl by (apply N.mod_lt; lia). cbn. f_equal.
  zify. Z.to_euclidean_division_equations. lia.
Qed.

Lemma pstring_esc c t :
  pstring (esc c ++ t) = (λ '(a, b), (c :: a, b)) <$> pstring t.
Proof.
  assert (∀ o : option (jstr * jstr), ('(a, b) ← o; Some (c :: a, b))
    = (λ '(a, b), (c :: a, b)) <$> o) as Hbind by by intros [[??]|].
  unfold esc. repeat (case_match; [match goal with H : (_ =? _)%N = true |- _ => apply N.eqb_eq in H as -> end; apply Hbind|]).
  case_match eqn:Hu.
  - cbn [app u_escape pstring]. cbn -[unhex4 N.div N.modulo]. rewrite unhex4_escape; [apply Hbind|].
    unfold is_high_surrogate, is_low_surrogate in Hu.
    apply orb_true_iff in Hu as [Hu|Hu]; [apply orb_true_iff in Hu as [Hu|Hu]|].
    + apply N.ltb_lt in Hu. lia.
    + apply andb_true_iff in Hu as [_ Hu%N.leb_le]. lia.
    + apply andb_true_iff in Hu as [_ Hu%N.leb_le]. lia.
  - apply orb_false_iff in Hu as [Hu _]. apply orb_false_iff in Hu as [Hu _].
    cbn [app pstring]. repeat case_match; try congruence; apply Hbind.
Qed.

Lemma esc_plain c : is_high_surrogate c || is_low_surrogate c = true →
  ∀ t, pstring (c :: t) = (λ '(a, b), (c :: a, b)) <$> pstring t.
Proof.
  intros Hc t. assert (55296 <= c)%N as Hge.
  { unfold is_high_surrogate, is_low_surrogate in Hc.
    apply orb_true_iff in Hc as [Hc|Hc]; apply andb_true_iff in Hc as [Hc%N.leb_le _]; lia. }
  cbn. destruct (N.eqb_spec c 34); [lia|]. destruct (N.eqb_spec c 92); [lia|].
  destruct (N.ltb_spec c 32); [lia|]. by destruct (pstring t) as [[??]|].
Qed.

Lemma pstring_esc_str s rest : pstring (esc_str s ++ 34%N :: rest) = Some (s, rest).
Proof.
  remember (length s) as n eqn:Hn. revert s Hn.
  induction n as [n IH] using (well_founded_induction lt_wf). intros s ->.
  destruct s as [|c r]; [reflexivity|]. destruct r as [|d r'].
  - cbn [esc_str]. by rewrite pstring_esc.
  - change (esc_str (c :: d :: r')) with
      (if is_high_surrogate c && is_low_surrogate d then c :: d :: esc_str r'
       else esc c ++ esc_str (d :: r')).
    destruct (is_high_surrogate c && is_low_surrogate d) eqn:Hs.
    + apply andb_true_iff in Hs as [Hc Hd]. cbn [app].
      rewrite (esc_plain c), (esc_plain d) by (rewrite ?Hc, ?Hd, ?orb_true_r; done).
      by rewrite (IH (length r') ltac:(cbn; lia) r' eq_refl).
    + rewrite <- app_assoc, pstring_esc.
      by rewrite (IH (length (d :: r')) ltac:(cbn; lia) (d :: r') eq_refl).
Qed.

Definition num_end (rest : jstr) : Prop :=
  match rest with c :: _ => num_unit c = false | [] => True end.

Lemma take_num_app t rest :
  Forall (λ c, num_unit c = true) t → num_end rest → take_num (t ++ rest) = (t, rest).
Proof.
  intros Ht Hr. induction Ht as [|c t Hc _ IH]; cbn.
  - destruct rest as [|c r]; cbn in *; [done|]. by rewrite Hr.
  - by rewrite Hc, IH.
Qed.

Lemma string_of_int_units z :
  Forall (λ c, num_unit c = true) (string_of_int z) ∧ string_of_int z ≠ [].
Proof.
  pose proof (to_int_nonempty z) as Hn. unfold string_of_int.
  assert (∀ d, Forall (λ c, num_unit c = true) (uint_to_jstr d)) as Hd.
  { intros d. eapply Forall_impl; [apply uint_to_jstr_digits|]. intros c Hc. unfold num_unit. by rewrite Hc. }
  destruct (Z.to_int z) as [d|d]; split; [apply Hd|by apply uint_nonempty| |done].
  by constructor; [|apply Hd].
Qed.

Lemma num_unit_range c : num_unit c = true → (43 <= c <= 57 ∨ c = 69 ∨ c = 101)%N.
Proof.
  unfold num_unit, is_digit. intros [H|H%bool_decide_eq_true]%orb_true_iff.
  - apply andb_true_iff in H as [?%N.leb_le ?%N.leb_le]. lia.
  - set_unfold. lia.
Qed.

Lemma skip_ws_cons c r : is_ws c = false → skip_ws (c :: r) = c :: r.
Proof. intros H. cbn. by rewrite H. Qed.

Lemma pvalue_num n z rest :
  num_end rest → pvalue (S n) (string_of_int z ++ rest) = Some (JNum z, rest).
Proof.
  intros Hr. destruct (string_of_int_units z) as [Hu Hne].
  pose proof (take_num_app _ _ Hu Hr) as Ht. pose proof (int_of_string_of_int z) as Hz.
  assert (pnumber (string_of_int z ++ rest) = Some (JNum z, rest)) as Hp.
  { unfold pnumber. rewrite Ht. cbn -[string_of_int int_of_string]. rewrite Hz. cbn -[string_of_int].
    by rewrite decide_True by auto. }
  clear Ht Hz. destruct (string_of_int z) as [|c t]; [done|]. apply Forall_inv in Hu.
  apply num_unit_range in Hu. cbn [pvalue app] in *.
  assert (is_ws c = false) as Hw.
  { unfold is_ws. rewrite !orb_false_iff. repeat split; apply N.eqb_neq; lia. }
  rewrite skip_ws_cons by done.
  destruct (N.eqb_spec c 34); [lia|]. destruct (N.eqb_spec c 91); [lia|].
  destruct (N.eqb_spec c 123); [lia|].
  assert (∀ d p r, d ≠ c → startsWith (d :: p) (c :: r) = false) as Hs.
  { intros d p r Hd. cbn. by destruct (N.eqb_spec d c). }
  by rewrite !Hs by lia.
Qed.

Lemma print_head j : ∃ c r, print j = c :: r ∧ is_ws c = false ∧ c ≠ 93%N ∧ c ≠ 125%N.
Proof.
  destruct j as [|[]|z|s|l|kvs]; try (by eexists _, _).
  destruct (string_of_int_units z) as [Hu Hne]. cbn.
  destruct (string_of_int z) as [|c t]; [done|]. apply Forall_inv, num_unit_range in Hu.
  exists c, t. split; [done|]. split; [|lia].
  unfold is_ws. rewrite !orb_false_iff. repeat split; apply N.eqb_neq; lia.
Qed.

Definition print_member (kv : jstr * json) : jstr := quote kv.1 ++ ":" ++ print kv.2.

Lemma join_cons (sep s : jstr) (l : list jstr) :
  join sep (s :: l) = s ++ match l with [] => [] | _ => sep ++ join sep l end.
Proof. destruct l; cbn; [by rewrite app_nil_r|done]. Qed.

Lemma eat_head c r : is_ws c = false → eat c (c :: r) = Some r.
Proof. intros H. unfold eat. rewrite skip_ws_cons by done. by rewrite N.eqb_refl. Qed.

Lemma eat_other c d r : is_ws d = false → d ≠ c → eat c (d :: r) = None.
Proof.
  intros H Hd. unfold eat. rewrite skip_ws_cons by done. by destruct (N.eqb_spec d c).
Qed.

Lemma eat_join {A} (f : A → jstr) c l rest :
  l ≠ [] → (∀ x, ∃ d r, f x = d :: r ∧ is_ws d = false ∧ d ≠ c) →
  eat c (join "," (map f l) ++ rest) = None.
Proof.
  intros Hl Hf. destruct l as [|x l]; [done|]. destruct (Hf x) as (d & r & Hx & ? & ?).
  cbn [map]. rewrite join_cons, Hx. by apply eat_other.
Qed.

Section Fuel.
Context (n : nat) (IHv : ∀ j rest, length (print j) ≤ n → num_end rest →
                        pvalue n (print j ++ rest) = Some (j, rest)).

Lemma parse_print_items l rest :
  (∀ l rest, l ≠ [] → length (join "," (map print l)) < n →
     pitems n (join "," (map print l) ++ 93%N :: rest) = Some (l, rest)) →
  l ≠ [] → length (join "," (map print l)) < S n →
  pitems (S n) (join "," (map print l) ++ 93%N :: rest) = Some (l, rest).
Proof.
  intros IH Hne Hl. destruct l as [|v l]; [done|]. cbn [map] in *. rewrite join_cons in *.
  rewrite length_app in Hl. destruct l as [|v' l]; cbn [map] in *.
  - cbn [pitems app length] in *. rewrite app_nil_r, IHv by (lia || done). cbn [mbind option_bind].
    by rewrite eat_other, eat_head.
  - change (jcons 44 jnil ++ ?x) with (44%N :: x) in *. cbn [length] in Hl.
    cbn [pitems]. rewrite <- app_assoc. cbn [app]. rewrite IHv by (lia || done).
    cbn [mbind option_bind]. rewrite eat_head by done.
    change (print v' :: map print l) with (map print (v' :: l)) in *.
    by rewrite IH by (lia || done).
Qed.

Lemma parse_print_members l rest :
  (∀ l rest, l ≠ [] → length (join "," (map print_member l)) < n →
     pmembers n (join "," (map print_member l) ++ 125%N :: rest) = Some (l, rest)) →
  l ≠ [] → length (join "," (map print_member l)) < S n →
  pmembers (S n) (join "," (map print_member l) ++ 125%N :: rest) = Some (l, rest).
Proof.
  intros IH Hne Hl. destruct l as [|[k v] l]; [done|]. cbn [map] in *. rewrite join_cons in *.
  unfold print_member at 1. unfold print_member at 1 in Hl. cbn [fst snd] in *.
  change (jcons 58 jnil) with [58%N] in *. rewrite !length_app in Hl. cbn [length] in Hl.
  unfold quote. rewrite <- !app_assoc. cbn [app pmembers]. rewrite eat_head by done.
  cbn [mbind option_bind]. rewrite <- app_assoc. cbn [app]. rewrite pstring_esc_str.
  cbn [mbind option_bind]. rewrite eat_head by done. cbn [mbind option_bind].
  destruct l as [|kv' l]; cbn [map] in *.
  - cbn [app]. rewrite IHv by (lia || done). cbn [mbind option_bind]. by rewrite eat_other, eat_head.
  - change (jcons 44 jnil ++ ?x) with (44%N :: x) in *. cbn [length] in Hl. cbn [app].
    rewrite IHv by (lia || done). cbn [mbind option_bind]. rewrite eat_head by done.
    change (print_member kv' :: map print_member l) with (map print_member (kv' :: l)) in *.
    by rewrite IH by (lia || done).
Qed.
End Fuel.

Lemma parse_print_fuel n :
  (∀ j rest, length (print j) ≤ n → num_end rest → pvalue n (print j ++ rest) = Some (j, rest)) ∧
  (∀ l rest, l ≠ [] → length (join "," (map print l)) < n →
     pitems n (join "," (map print l) ++ 93%N :: rest) = Some (l, rest)) ∧
  (∀ l rest, l ≠ [] → length (join "," (map print_member l)) < n →
     pmembers n (join "," (map print_member l) ++ 125%N :: rest) = Some (l, rest)).
Proof.
  induction n as [|n (IHv & IHi & IHm)]; split_and!; [|lia|lia| | |].
  - intros j rest Hl. destruct (print_head j) as (c & r & Hp & _). rewrite Hp in Hl. cbn in Hl. lia.
  - intros j rest Hl Hr. destruct j as [|[]|z|s|l|kvs]; try reflexivity.
    + by apply pvalue_num.
    + cbn [print quote pvalue app]. rewrite skip_ws_cons by done. cbn [N.eqb Pos.eqb].
      rewrite <- app_assoc. cbn [app]. by rewrite pstring_esc_str.
    + cbn [print] in *. change (jcons 91 jnil) with [91%N] in *. change (jcons 93 jnil) with [93%N] in *.
      rewrite !length_app in Hl. cbn [length] in Hl.
      rewrite <- !app_assoc. cbn [app pvalue]. rewrite skip_ws_cons by done. cbn [N.eqb Pos.eqb].
      destruct l as [|v l]; [reflexivity|]. rewrite eat_join; [|done|].
      * by rewrite IHi by (lia || done).
      * intros j. destruct (print_head j) as (c & r & -> & ? & ? & ?). eauto.
    + cbn [print] in *. fold print_member in *.
      change (jcons 123 jnil) with [123%N] in *. change (jcons 125 jnil) with [125%N] in *.
      rewrite !length_app in Hl. cbn [length] in Hl.
      rewrite <- !app_assoc. cbn [app pvalue]. rewrite skip_ws_cons by done. cbn [N.eqb Pos.eqb].
      destruct kvs as [|kv kvs]; [reflexivity|]. change (λ kv, quote kv.1 ++ _) with print_member in *.
      rewrite eat_join; [|done|].
      * by rewrite IHm by (lia || done).
      * intros [k v]. unfold print_member, quote. cbn [app]. by eexists _, _.
  - intros. by apply parse_print_items.
  - intros. by apply parse_print_members.
Qed.

(** Parsing what was printed gives the value back. *)
Lemma parse_print j : parse_json (print j) = Some j.
Proof.
  unfold parse_json. destruct (parse_print_fuel (S (length (print j)))) as [Hv _].
  specialize (Hv j [] ltac:(lia) I). rewrite app_nil_r in Hv. by rewrite Hv.
Qed.
