(* ===== verification/UrlParams.v ===== *)
(** * URLSearchParams

    The list of pairs behind a [URLSearchParams], its methods, and the
    [application/x-www-form-urlencoded] text it is written to and read from.
    [read_written] is their round trip. *)
From S2P Require Import Prelude JsString Json.
Local Open Scope js_scope.
Local Open Scope N_scope.

Abbreviation params := (list (jstr * jstr)).

(** ** Methods *)

Definition getAll (k : jstr) (l : params) : list jstr := map snd (filter (λ e, e.1 = k) l).
Definition get_param (k : jstr) (l : params) : option jstr := head (getAll k l).
Definition append (k v : jstr) (l : params) : params := l ++ [(k, v)].
Definition delete_param (k : jstr) (l : params) : params := filter (λ e, e.1 ≠ k) l.
(** The first pair with the name is changed, the others go. *)
Fixpoint set_param (k v : jstr) (l : params) : params :=
  match l with
  | [] => [(k, v)]
  | e :: r => if decide (e.1 = k) then (k, v) :: delete_param k r else e :: set_param k v r
  end.

(** ** UTF-8 and UTF-16 *)

Definition scalar (p : N) : Prop := p < 55296 ∨ 57344 <= p < 1114112.

(** The code points of a string; a lone surrogate is replaced. *)
Fixpoint scalars (s : jstr) : list N :=
  match s with
  | [] => []
  | c :: r =>
      if is_high_surrogate c then
        match r with
        | d :: r' => if is_low_surrogate d then (65536 + (c - 55296) * 1024 + (d - 56320)) :: scalars r' else 65533 :: scalars r
        | [] => [65533]
        end
      else if is_low_surrogate c then 65533 :: scalars r else c :: scalars r
  end.

Definition units_of (p : N) : jstr :=
  if p <? 65536 then [p] else [55296 + (p - 65536) / 1024; 56320 + (p - 65536) mod 1024].
Definition utf16 (l : list N) : jstr := l ≫= units_of.

(** Continuation bytes: [n] of them, the first between [lo] and [hi]. *)
Fixpoint continue (n : nat) (lo hi acc : N) (l : list N) : option N * list N :=
  match n with
  | O => (Some acc, l)
  | S n' =>
      match l with
      | b :: r => if (lo <=? b) && (b <=? hi) then continue n' 128 191 (acc * 64 + (b - 128)) r else (None, l)
      | [] => (None, [])
      end
  end.

(** One code point; an invalid sequence is replaced, up to the byte that spoils
    it. *)
Definition decode_one (b : N) (r : list N) : N * list N :=
  let found (x : option N * list N) := (default 65533 x.1, x.2) in
  if b <? 128 then (b, r)
  else if (194 <=? b) && (b <=? 223) then found (continue 1 128 191 (b - 192) r)
  else if (224 <=? b) && (b <=? 239) then
    found (continue 2 (if b =? 224 then 160 else 128) (if b =? 237 then 159 else 191) (b - 224) r)
  else if (240 <=? b) && (b <=? 244) then
    found (continue 3 (if b =? 240 then 144 else 128) (if b =? 244 then 143 else 191) (b - 240) r)
  else (65533, r).

Fixpoint utf8_decode (fuel : nat) (l : list N) : list N :=
  match fuel, l with
  | S f, b :: r => let '(p, r') := decode_one b r in p :: utf8_decode f r'
  | _, _ => []
  end.

(** ** Writing *)

Definition form_unreserved (c : N) : bool :=
  is_upper c || is_lower c || is_digit c || bool_decide (c ∈ [42; 45; 46; 95]).
Definition form_unit (p : N) : jstr :=
  if p =? 32 then [43] else if form_unreserved p then [p] else utf8_bytes p ≫= percent.
Definition form_encode (s : jstr) : jstr := scalars s ≫= form_unit.
(** [params.toString()] *)
Definition written (l : params) : jstr := join "&" (map (λ e, form_encode e.1 ++ 61 :: form_encode e.2) l).

(** ** Reading *)

Fixpoint percent_bytes (s : list N) : list N :=
  match s with
  | [] => []
  | c :: r =>
      if c =? 37 then
        match r with
        | a :: b :: r' =>
            match unhex a, unhex b with
            | Some x, Some y => (x * 16 + y) :: percent_bytes r'
            | _, _ => 37 :: percent_bytes r
            end
        | _ => 37 :: percent_bytes r
        end
      else utf8_bytes c ++ percent_bytes r
  end.
Definition form_decode (s : jstr) : jstr :=
  let bytes := percent_bytes (map (λ c, if c =? 43 then 32 else c) (scalars s)) in
  utf16 (utf8_decode (length bytes) bytes).

(** The name and the value, apart at the first equals sign. *)
Fixpoint pair_of (s : jstr) : jstr * jstr :=
  match s with
  | [] => ([], [])
  | c :: r => if c =? 61 then ([], r) else let '(a, b) := pair_of r in (c :: a, b)
  end.
(** [new URLSearchParams(text)] *)
Definition read (text : jstr) : params :=
  map (λ s, let '(a, b) := pair_of s in (form_decode a, form_decode b)) (filter (λ s, s ≠ []) (split_on 38 text)).

(** ** The round trip *)

(** A string without lone surrogates. *)
Fixpoint well_formed (s : jstr) : Prop :=
  match s with
  | [] => True
  | c :: r =>
      c < 65536 ∧
      if is_high_surrogate c then
        match r with d :: r' => is_low_surrogate d = true ∧ well_formed r' | [] => False end
      else is_low_surrogate c = false ∧ well_formed r
  end.

Lemma surrogate_range c :
  (is_high_surrogate c = true → 55296 <= c <= 56319) ∧ (is_low_surrogate c = true → 56320 <= c <= 57343) ∧
  (is_high_surrogate c = false → is_low_surrogate c = false → c < 55296 ∨ 57344 <= c).
Proof.
  unfold is_high_surrogate, is_low_surrogate.
  destruct (N.leb_spec 55296 c), (N.leb_spec c 56319), (N.leb_spec 56320 c), (N.leb_spec c 57343); cbn; repeat split; intros; try done; lia.
Qed.

(** Induction over the code points of a string. *)
Lemma well_formed_ind (P : jstr → Prop) :
  P [] → (∀ c r, scalar c → c < 65536 → is_high_surrogate c = false → is_low_surrogate c = false → well_formed r → P r → P (c :: r)) →
  (∀ c d r, is_high_surrogate c = true → is_low_surrogate d = true → well_formed r → P r → P (c :: d :: r)) →
  ∀ s, well_formed s → P s.
Proof.
  intros H0 H1 H2. enough (∀ n s, (length s <= n)%nat → well_formed s → P s) as H by (intros s; by eapply H).
  induction n as [|n IH]; intros [|c r] Hn Hw; cbn in Hn; try lia; try done. cbn in Hw. destruct Hw as [Hc Hw].
  destruct (is_high_surrogate c) eqn:Hh.
  - destruct r as [|d r]; [done|]. destruct Hw as [Hd Hr]. apply H2; try done. apply IH; [cbn in *; lia|done].
  - destruct Hw as [Hl Hr]. destruct (surrogate_range c) as (_ & _ & Hs). apply H1; try done.
    + destruct (Hs Hh Hl); [by left|right; lia].
    + apply IH; [cbn in *; lia|done].
Qed.

Lemma scalars_well_formed s : well_formed s → Forall scalar (scalars s) ∧ utf16 (scalars s) = s.
Proof.
  apply (well_formed_ind (λ s, Forall scalar (scalars s) ∧ utf16 (scalars s) = s)).
  - by repeat constructor.
  - intros c r Hc Hlt Hh Hl _ [IHf IHe]. cbn. rewrite Hh, Hl. split; [by constructor|]. unfold utf16 in *. cbn. rewrite IHe.
    unfold units_of. by destruct (N.ltb_spec c 65536); [|lia].
  - intros c d r Hh Hl _ [IHf IHe]. cbn. rewrite Hh, Hl. destruct (surrogate_range c) as (Hc & _), (surrogate_range d) as (_ & Hd & _).
    specialize (Hc Hh). specialize (Hd Hl). split; [constructor; [right; lia|done]|]. unfold utf16 in *. cbn. rewrite IHe.
    unfold units_of. set (p := 65536 + (c - 55296) * 1024 + (d - 56320)). destruct (N.ltb_spec p 65536); [lia|].
    assert ((p - 65536) / 1024 = c - 55296) as ->.
    { symmetry. apply (N.div_unique _ _ _ (d - 56320)); lia. }
    assert ((p - 65536) mod 1024 = d - 56320) as ->.
    { symmetry. apply (N.mod_unique _ _ (c - 55296)); lia. }
    cbn. f_equal; [lia|]. f_equal. lia.
Qed.

(** A number below [2^21] in base 64. *)
Lemma base64 p : ∃ a b c d, p = ((a * 64 + b) * 64 + c) * 64 + d ∧ b < 64 ∧ c < 64 ∧ d < 64 ∧
  p / 64 = (a * 64 + b) * 64 + c ∧ p mod 64 = d ∧ p / 4096 = a * 64 + b ∧ (p / 64) mod 64 = c ∧
  p / 262144 = a ∧ (p / 4096) mod 64 = b.
Proof.
  assert (∀ q, q = q / 64 * 64 + q mod 64 ∧ q mod 64 < 64) as Hd.
  { intros q. split; [|by apply N.mod_lt]. pose proof (N.div_mod' q 64). lia. }
  destruct (Hd p) as [H1 L1], (Hd (p / 64)) as [H2 L2], (Hd (p / 64 / 64)) as [H3 L3].
  assert (p / 4096 = p / 64 / 64) as E1 by (by rewrite N.Div0.div_div).
  assert (p / 262144 = p / 64 / 64 / 64) as E2 by (by rewrite !N.Div0.div_div).
  exists (p / 262144), ((p / 4096) mod 64), ((p / 64) mod 64), (p mod 64). rewrite E2, E1. repeat split; try done; lia.
Qed.

Ltac cmp_true := match goal with
  | |- context [(?a <=? ?b)] => destruct (N.leb_spec a b); [|exfalso; lia]
  | |- context [(?a <? ?b)] => destruct (N.ltb_spec a b); [|exfalso; lia]
  end.

(** A continuation byte in range is taken. *)
Lemma continue_step n lo hi acc x r : lo <= 128 + x → 128 + x <= hi →
  continue (S n) lo hi acc (128 + x :: r) = continue n 128 191 (acc * 64 + x) r.
Proof.
  intros Hl Hh. cbn [continue]. rewrite (proj2 (N.leb_le _ _) Hl), (proj2 (N.leb_le _ _) Hh). cbn [andb]. f_equal. lia.
Qed.

Lemma decode_bytes p r : scalar p → ∃ b t, utf8_bytes p = b :: t ∧ decode_one b (t ++ r) = (p, r).
Proof.
  intros Hp. unfold utf8_bytes, scalar in *. destruct (base64 p) as (a & b & c & d & He & Hb & Hc & Hd & E1 & E2 & E3 & E4 & E5 & E6).
  rewrite E6, E4, E3, E5, E1, E2.
  destruct (N.ltb_spec p 128) as [L1|L1]; [|destruct (N.ltb_spec p 2048) as [L2|L2]; [|destruct (N.ltb_spec p 65536) as [L3|L3]]];
    (eexists _, _; split; [reflexivity|]); unfold decode_one; cbn [app].
  - by destruct (N.ltb_spec p 128); [|lia].
  - assert (a = 0 ∧ b = 0) as [-> ->] by lia. replace ((0 * 64 + 0) * 64 + c) with c in * by lia.
    destruct (N.ltb_spec (192 + c) 128), (N.leb_spec 194 (192 + c)), (N.leb_spec (192 + c) 223); try lia. cbn [andb].
    rewrite continue_step by lia. cbn. f_equal. lia.
  - assert (a = 0) as -> by lia. replace (0 * 64 + b) with b in * by lia.
    destruct (N.ltb_spec (224 + b) 128), (N.leb_spec 194 (224 + b)), (N.leb_spec (224 + b) 223), (N.leb_spec 224 (224 + b)),
      (N.leb_spec (224 + b) 239); try lia. cbn [andb].
    rewrite continue_step, continue_step.
    2-3: lia.
    + cbn. f_equal. lia.
    + destruct (N.eqb_spec (224 + b) 224); lia.
    + destruct (N.eqb_spec (224 + b) 237); lia.
  - destruct (N.ltb_spec (240 + a) 128), (N.leb_spec 194 (240 + a)), (N.leb_spec (240 + a) 223), (N.leb_spec 224 (240 + a)),
      (N.leb_spec (240 + a) 239), (N.leb_spec 240 (240 + a)), (N.leb_spec (240 + a) 244); try lia. cbn [andb].
    rewrite continue_step, continue_step, continue_step.
    2-5: lia.
    + cbn. f_equal. lia.
    + destruct (N.eqb_spec (240 + a) 240); lia.
    + destruct (N.eqb_spec (240 + a) 244); lia.
Qed.

Lemma utf8_decode_bytes l n : Forall scalar l → (length (l ≫= utf8_bytes) <= n)%nat → utf8_decode n (l ≫= utf8_bytes) = l.
Proof.
  intros Hl. revert n. induction Hl as [|p l Hp Hl IH]; intros n Hn; [by destruct n|]. cbn in *.
  destruct (decode_bytes p (l ≫= utf8_bytes) Hp) as (b & t & He & Hd). rewrite He in *. cbn in Hn. rewrite length_app in Hn.
  destruct n as [|n]; [lia|]. cbn [app utf8_decode]. rewrite Hd. f_equal. apply IH. lia.
Qed.

(** The text of an encoded name or value: ASCII, without separators. *)
Definition form_char (c : N) : Prop := c < 128 ∧ c ≠ 38 ∧ c ≠ 61.

Lemma hex_digit_spec n : n < 16 → form_char (hex_digit n) ∧ hex_digit n ≠ 43 ∧ hex_digit n ≠ 37 ∧ unhex (hex_digit n) = Some n.
Proof.
  intros Hn. unfold hex_digit, form_char. destruct (N.ltb_spec n 10) as [H|H].
  - split; [lia|]. split; [lia|]. split; [lia|]. unfold unhex, is_digit.
    rewrite (proj2 (N.leb_le 48 _)), (proj2 (N.leb_le _ 57)) by lia. cbn [andb]. f_equal. lia.
  - split; [lia|]. split; [lia|]. split; [lia|]. unfold unhex, is_digit.
    rewrite (proj2 (N.leb_gt (55 + n) 57)), andb_false_r by lia. rewrite (proj2 (N.leb_gt 97 (55 + n))) by lia. cbn [andb].
    rewrite (proj2 (N.leb_le 65 _)), (proj2 (N.leb_le _ 70)) by lia. cbn [andb]. f_equal. lia.
Qed.

Lemma utf8_bytes_bound p : scalar p → Forall (λ b, b < 256) (utf8_bytes p).
Proof.
  intros Hp. destruct (base64 p) as (a & b & c & d & He & Hb & Hc & Hd & E1 & E2 & E3 & E4 & E5 & E6). unfold utf8_bytes, scalar in *.
  rewrite E6, E4, E3, E5, E1, E2.
  destruct (N.ltb_spec p 128), (N.ltb_spec p 2048), (N.ltb_spec p 65536); repeat constructor; lia.
Qed.

Lemma unreserved_range c : form_unreserved c = true → form_char c ∧ c ≠ 43 ∧ c ≠ 37.
Proof.
  unfold form_unreserved, is_upper, is_lower, is_digit, form_char. intros H.
  repeat (apply orb_true_iff in H as [H|H]).
  1-3: apply andb_true_iff in H as [H1%N.leb_le H2%N.leb_le]; lia.
  apply bool_decide_eq_true in H. rewrite !elem_of_cons, elem_of_nil in H. lia.
Qed.

Lemma percent_char b : b < 256 → Forall form_char (percent b).
Proof.
  intros Hb. assert (b / 16 < 16) by (apply N.Div0.div_lt_upper_bound; lia). assert (b mod 16 < 16) by (by apply N.mod_lt).
  unfold percent. repeat constructor; try lia; by apply hex_digit_spec.
Qed.

Lemma form_encode_chars s : well_formed s → Forall form_char (form_encode s).
Proof.
  intros Hs. destruct (scalars_well_formed s Hs) as [Hf _]. unfold form_encode.
  induction Hf as [|p l Hp Hl IH]; [constructor|]. cbn. apply Forall_app. split; [|done]. unfold form_unit.
  destruct (N.eqb_spec p 32); [by repeat constructor|]. destruct (form_unreserved p) eqn:Hu.
  - constructor; [by apply unreserved_range|constructor].
  - pose proof (utf8_bytes_bound p Hp) as Hb. induction Hb as [|b bs Hb Hbs IHb]; [constructor|]. cbn [mbind list_bind].
    apply Forall_app. split; [by apply percent_char|done].
Qed.

Lemma scalars_ascii t : Forall form_char t → scalars t = t.
Proof.
  induction 1 as [|c t [Hc _] Ht IH]; [done|]. cbn. destruct (surrogate_range c) as (H1 & H2 & _).
  destruct (is_high_surrogate c); [lia|]. destruct (is_low_surrogate c); [lia|]. by rewrite IH.
Qed.

Notation plus := (λ c, if c =? 43 then 32 else c).

Lemma percent_bytes_percent b r : b < 256 → percent_bytes (map plus (percent b) ++ r) = b :: percent_bytes r.
Proof.
  intros Hb. assert (b / 16 < 16) as Hq by (apply N.Div0.div_lt_upper_bound; lia). assert (b mod 16 < 16) as Hm by (by apply N.mod_lt).
  destruct (hex_digit_spec _ Hq) as (_ & Hp1 & _ & Hu1), (hex_digit_spec _ Hm) as (_ & Hp2 & _ & Hu2).
  unfold percent. cbn [map app]. rewrite (proj2 (N.eqb_neq _ _) Hp1), (proj2 (N.eqb_neq _ _) Hp2).
  change (37 =? 43) with false. cbn [percent_bytes]. rewrite N.eqb_refl, Hu1, Hu2. f_equal. pose proof (N.div_mod' b 16). lia.
Qed.

Lemma percent_bytes_unit p r : scalar p → percent_bytes (map plus (form_unit p) ++ r) = utf8_bytes p ++ percent_bytes r.
Proof.
  intros Hp. unfold form_unit. destruct (N.eqb_spec p 32) as [->|H32]; [done|]. destruct (form_unreserved p) eqn:Hu.
  - destruct (unreserved_range p Hu) as (_ & H43 & H37). cbn [map app].
    rewrite (proj2 (N.eqb_neq _ _) H43). cbn [percent_bytes]. by rewrite (proj2 (N.eqb_neq _ _) H37).
  - pose proof (utf8_bytes_bound p Hp) as Hb. induction Hb as [|b bs Hb Hbs IHb]; [done|]. cbn [mbind list_bind].
    rewrite map_app, <- app_assoc, percent_bytes_percent by done. by rewrite IHb.
Qed.

Lemma form_decode_encode s : well_formed s → form_decode (form_encode s) = s.
Proof.
  intros Hs. unfold form_decode. rewrite scalars_ascii by (by apply form_encode_chars).
  destruct (scalars_well_formed s Hs) as [Hf He].
  assert (percent_bytes (map plus (form_encode s)) = scalars s ≫= utf8_bytes) as ->.
  { unfold form_encode. clear Hs He. induction Hf as [|p l Hp Hl IH]; [done|]. cbn [mbind list_bind].
    by rewrite map_app, percent_bytes_unit, <- IH. }
  by rewrite utf8_decode_bytes.
Qed.

Lemma pair_of_pair a b : Forall form_char a → pair_of (a ++ 61 :: b) = (a, b).
Proof.
  induction 1 as [|c a (_ & _ & Hc) Ha IH]; [done|]. cbn. by rewrite (proj2 (N.eqb_neq _ _) Hc), IH.
Qed.

Lemma split_on_plain x s : x ∉ s → split_on x s = [s].
Proof.
  induction s as [|c s IH]; intros Hx; [done|]. apply not_elem_of_cons in Hx as [Hc Hs]. cbn.
  rewrite (proj2 (N.eqb_neq _ _)) by done. by rewrite IH.
Qed.

Lemma split_on_app x s t : x ∉ s → split_on x (s ++ x :: t) = s :: split_on x t.
Proof.
  induction s as [|c s IH]; intros Hx; [cbn; by rewrite N.eqb_refl|]. apply not_elem_of_cons in Hx as [Hc Hs]. cbn.
  rewrite (proj2 (N.eqb_neq _ _)) by done. by rewrite IH.
Qed.

Lemma split_join x l : l ≠ [] → Forall (λ s, x ∉ s) l → split_on x (join [x] l) = l.
Proof.
  intros Hn Hl. induction Hl as [|s l Hs Hl IH]; [done|]. destruct l as [|t l]; [by apply split_on_plain|].
  change (join [x] (s :: t :: l)) with (s ++ x :: join [x] (t :: l)). rewrite split_on_app by done. f_equal. by apply IH.
Qed.

Definition sound (l : params) : Prop := Forall (λ e, well_formed e.1 ∧ well_formed e.2) l.

Lemma read_written l : sound l → read (written l) = l.
Proof.
  intros Hl. unfold read, written. destruct (decide (l = [])) as [->|Hn]; [done|].
  assert (Forall (λ s, 38 ∉ s) (map (λ e, form_encode e.1 ++ 61 :: form_encode e.2) l)) as Hs.
  { apply Forall_forall. intros s Hi. apply list_elem_of_fmap in Hi as (e & -> & Hi). unfold sound in Hl. rewrite Forall_forall in Hl.
    destruct (Hl e Hi) as [Ha Hb]. rewrite elem_of_app, elem_of_cons.
    assert (∀ t, well_formed t → 38 ∉ form_encode t) as Ht.
    { intros t Hw H38. pose proof (form_encode_chars t Hw) as Hf. rewrite Forall_forall in Hf. by destruct (Hf _ H38) as (_ & ? & _). }
    intros [H|[H|H]]; [by apply (Ht e.1)|done|by apply (Ht e.2)]. }
  change ("&" : jstr) with [38]. rewrite split_join by (by destruct l || done).
  rewrite filter_whole.
  - clear Hn Hs. induction Hl as [|[a b] l [Ha Hb] Hl IH]; [done|]. cbn [map fst snd]. cbn in Ha, Hb.
    rewrite pair_of_pair by (by apply form_encode_chars). by rewrite !form_decode_encode, IH.
  - intros s Hi. apply list_elem_of_fmap in Hi as (e & -> & Hi). by destruct (form_encode e.1).
Qed.
