(* ===== verification/Regex.v ===== *)
(** * Regular expressions

    The regular expressions of the contracts are anchored at both ends:
    [/^r$/] matches a string when the string belongs to the language of [r].
    [matches] decides it by derivatives and [matches_lang] is its correctness.

    Then [test] of a pattern anywhere in a string, which [path] specifies. *)
From S2P Require Import Prelude JsString.
Local Open Scope js_scope.

Inductive regex :=
| Nul
| Eps
| Chr (p : N → bool)
| Seq (a b : regex)
| Alt (a b : regex)
| Star (a : regex).

(** The literal text [s]; [n] to [n + m] times [r]. *)
Definition lit (s : jstr) : regex := foldr (λ c r, Seq (Chr (N.eqb c)) r) Eps s.
Definition opt (r : regex) : regex := Alt Eps r.
Fixpoint rep (n : nat) (r : regex) : regex := match n with O => Eps | S n => Seq r (rep n r) end.
Fixpoint upto (m : nat) (r : regex) : regex := match m with O => Eps | S m => opt (Seq r (upto m r)) end.

(** ** Language *)

Inductive lang : regex → jstr → Prop :=
| lang_eps : lang Eps []
| lang_chr p c : p c = true → lang (Chr p) [c]
| lang_seq a b s t : lang a s → lang b t → lang (Seq a b) (s ++ t)
| lang_alt_l a b s : lang a s → lang (Alt a b) s
| lang_alt_r a b s : lang b s → lang (Alt a b) s
| lang_star_nil a : lang (Star a) []
| lang_star_app a s t : lang a s → lang (Star a) t → lang (Star a) (s ++ t).

(** ** Matching *)

Fixpoint nullable (r : regex) : bool :=
  match r with
  | Nul | Chr _ => false
  | Eps | Star _ => true
  | Seq a b => nullable a && nullable b
  | Alt a b => nullable a || nullable b
  end.

Definition seq (a b : regex) : regex :=
  match a with Nul => Nul | Eps => b | _ => Seq a b end.
Definition alt (a b : regex) : regex :=
  match a, b with Nul, _ => b | _, Nul => a | _, _ => Alt a b end.

Fixpoint deriv (c : N) (r : regex) : regex :=
  match r with
  | Nul | Eps => Nul
  | Chr p => if p c then Eps else Nul
  | Seq a b => if nullable a then alt (seq (deriv c a) b) (deriv c b) else seq (deriv c a) b
  | Alt a b => alt (deriv c a) (deriv c b)
  | Star a => seq (deriv c a) (Star a)
  end.

Fixpoint matches (r : regex) (s : jstr) : bool :=
  match s with [] => nullable r | c :: s => matches (deriv c r) s end.

(** ** Correctness *)

Lemma lang_nul s : ¬ lang Nul s.
Proof. inversion 1. Qed.
Lemma lang_eps_inv s : lang Eps s ↔ s = [].
Proof. split; [by inversion 1|intros ->; constructor]. Qed.
Lemma lang_chr_inv p s : lang (Chr p) s ↔ ∃ c, s = [c] ∧ p c = true.
Proof. split; [inversion 1; eauto|intros (c & -> & ?); by constructor]. Qed.
Lemma lang_seq_inv a b s : lang (Seq a b) s ↔ ∃ u v, s = u ++ v ∧ lang a u ∧ lang b v.
Proof. split; [inversion 1; eauto 6|intros (u & v & -> & ? & ?); by constructor]. Qed.
Lemma lang_alt_inv a b s : lang (Alt a b) s ↔ lang a s ∨ lang b s.
Proof. split; [inversion 1; auto|intros [?|?]; by constructor]. Qed.

Lemma nullable_lang r : nullable r = true ↔ lang r [].
Proof.
  induction r as [| |p|a IHa b IHb|a IHa b IHb|a IHa]; cbn.
  - split; [done|by intros ?%lang_nul].
  - split; [constructor|done].
  - rewrite lang_chr_inv. split; [done|by intros (c & ? & _)].
  - rewrite andb_true_iff, IHa, IHb, lang_seq_inv. split.
    + intros [? ?]. by exists [], [].
    + intros (u & v & Hs & ? & ?). symmetry in Hs. apply app_nil in Hs as [-> ->]. done.
  - rewrite orb_true_iff, IHa, IHb, lang_alt_inv. done.
  - split; [constructor|done].
Qed.

Lemma seq_lang a b s : lang (seq a b) s ↔ lang (Seq a b) s.
Proof.
  destruct a; try done; rewrite lang_seq_inv; cbn.
  - split; [by intros ?%lang_nul|by intros (u & v & _ & ?%lang_nul & _)].
  - split; [intros ?; exists [], s; by repeat constructor|].
    by intros (u & v & -> & ->%lang_eps_inv & ?).
Qed.

Lemma alt_lang a b s : lang (alt a b) s ↔ lang (Alt a b) s.
Proof.
  rewrite lang_alt_inv. destruct a, b; cbn; rewrite ?lang_alt_inv;
    (split; [auto|intros [?|?]; auto; by (exfalso; eapply lang_nul)]).
Qed.

Lemma star_cons a c s : lang (Star a) (c :: s) ↔ ∃ u v, s = u ++ v ∧ lang a (c :: u) ∧ lang (Star a) v.
Proof.
  split.
  - intros H. remember (Star a) as r eqn:Hr. remember (c :: s) as t eqn:Ht. revert c s Ht.
    induction H as [|p x|x y s1 t1|x y s1|x y s1|x|x s1 t1 H1 _ H2 IH]; intros c0 s0 Ht; try done.
    injection Hr as ->. destruct s1 as [|c1 s1]; cbn in Ht.
    + by apply IH.
    + injection Ht as -> <-. eauto.
  - intros (u & v & -> & ? & ?). by apply (lang_star_app a (c :: u) v).
Qed.

Lemma deriv_lang c r s : lang (deriv c r) s ↔ lang r (c :: s).
Proof.
  revert s. induction r as [| |p|a IHa b IHb|a IHa b IHb|a IHa]; intros s; cbn.
  - split; by intros ?%lang_nul.
  - split; [by intros ?%lang_nul|by intros ?%lang_eps_inv].
  - rewrite lang_chr_inv. destruct (p c) eqn:Hp.
    + rewrite lang_eps_inv. split; [intros ->; eauto|by intros (d & [= -> ->] & _)].
    + split; [by intros ?%lang_nul|intros (d & [= -> ->] & ?); congruence].
  - assert (lang (seq (deriv c a) b) s ↔ ∃ u v, s = u ++ v ∧ lang a (c :: u) ∧ lang b v) as Hs.
    { rewrite seq_lang, lang_seq_inv. setoid_rewrite IHa. done. }
    destruct (nullable a) eqn:Hn; [rewrite alt_lang, lang_alt_inv, IHb|]; rewrite Hs, lang_seq_inv.
    + apply nullable_lang in Hn. split.
      * intros [(u & v & -> & ? & ?)|?]; [by exists (c :: u), v|by exists [], (c :: s)].
      * intros ([|d u] & v & Hv & ? & ?); cbn in Hv; [right; by subst|].
        injection Hv as -> ->. left. eauto.
    + split.
      * intros (u & v & -> & ? & ?). by exists (c :: u), v.
      * intros ([|d u] & v & Hv & Ha & ?); cbn in Hv.
        -- apply nullable_lang in Ha. congruence.
        -- injection Hv as -> ->. eauto.
  - by rewrite alt_lang, !lang_alt_inv, IHa, IHb.
  - rewrite seq_lang, lang_seq_inv, star_cons. setoid_rewrite IHa. done.
Qed.

Lemma matches_lang r s : matches r s = true ↔ lang r s.
Proof.
  revert r. induction s as [|c s IH]; intros r; cbn; [apply nullable_lang|].
  by rewrite IH, deriv_lang.
Qed.

(** ** Shapes *)

Lemma lang_lit t s : lang (lit t) s ↔ s = t.
Proof.
  revert s. induction t as [|c t IH]; intros s; cbn; [apply lang_eps_inv|].
  rewrite lang_seq_inv. setoid_rewrite IH. setoid_rewrite lang_chr_inv. split.
  - by intros (u & v & -> & (d & -> & ->%N.eqb_eq) & ->).
  - intros ->. exists [c], t. split; [done|]. split; [|done]. exists c. by rewrite N.eqb_refl.
Qed.

Lemma lang_rep_chr n p s : lang (rep n (Chr p)) s ↔ length s = n ∧ Forall (λ c, p c = true) s.
Proof.
  revert s. induction n as [|n IH]; intros s; cbn.
  - rewrite lang_eps_inv. split; [by intros ->|intros [? _]; by apply nil_length_inv].
  - rewrite lang_seq_inv. setoid_rewrite IH. setoid_rewrite lang_chr_inv. split.
    + intros (u & v & -> & (d & -> & ?) & <- & ?). cbn. split; [done|]. by constructor.
    + intros [Hl Hf]. destruct s as [|c s]; [done|]. inversion_clear Hf. exists [c], s.
      split; [done|]. split; [eauto|]. by injection Hl.
Qed.

(** * Searching with a regular expression

    [/r/.test(s)]: the expression may match anywhere, mention word boundaries
    and refer back to a captured code unit.  [matches_at] is a backtracking
    matcher in continuation-passing style; [path] is the relation between the
    positions a match goes from and to, and [test_correct] relates the two. *)

Inductive pattern :=
| PEps
| PChr (p : N → bool)
| PSeq (a b : pattern)
| PAlt (a b : pattern)
| PStar (a : pattern)
| PBoundary
| PCapture (p : N → bool) (f : N → pattern).

(** A position: the code unit before it and the text after it. *)
Definition position : Type := option N * jstr.

(** [\w], and [.]: any code unit but a line terminator. *)
Definition is_word (c : N) : bool := is_upper c || is_lower c || is_digit c || (c =? 95)%N.
Definition is_dot (c : N) : bool :=
  negb ((c =? 10) || (c =? 13) || (c =? 8232) || (c =? 8233))%N.

(** [\b] *)
Definition boundary (p : position) : bool :=
  xorb (match p.1 with Some c => is_word c | None => false end)
       (match p.2 with c :: _ => is_word c | [] => false end).

Fixpoint matches_at (r : pattern) (k : position → bool) (pos : position) {struct r} : bool :=
  match r with
  | PEps => k pos
  | PChr p => match pos.2 with c :: s => p c && k (Some c, s) | [] => false end
  | PSeq a b => matches_at a (matches_at b k) pos
  | PAlt a b => matches_at a k pos || matches_at b k pos
  | PStar a =>
      (fix loop (n : nat) (pos : position) : bool :=
         k pos ||
         match n with
         | O => false
         | S n' => matches_at a (λ pos', (length pos'.2 <? length pos.2)%nat && loop n' pos') pos
         end) (length pos.2) pos
  | PBoundary => boundary pos && k pos
  | PCapture p f => match pos.2 with c :: s => p c && matches_at (f c) k (Some c, s) | [] => false end
  end.

(** [/r/.test(s)] *)
Fixpoint test_from (r : pattern) (prev : option N) (s : jstr) : bool :=
  matches_at r (λ _, true) (prev, s) ||
  match s with c :: s' => test_from r (Some c) s' | [] => false end.
Definition test (r : pattern) (s : jstr) : bool := test_from r None s.

(** Literal text, and the quantifiers [?], [{n}], [+] and [{n,}]. *)
Definition plit (s : jstr) : pattern := foldr (λ c r, PSeq (PChr (N.eqb c)) r) PEps s.
Definition popt (r : pattern) : pattern := PAlt r PEps.
Fixpoint prep (n : nat) (r : pattern) : pattern := match n with O => PEps | S n => PSeq r (prep n r) end.
Definition pmany (n : nat) (r : pattern) : pattern := PSeq (prep n r) (PStar r).

(** ** Correctness *)

Inductive path : pattern → position → position → Prop :=
| path_eps p : path PEps p p
| path_chr f c prev s : f c = true → path (PChr f) (prev, c :: s) (Some c, s)
| path_seq a b p q r : path a p q → path b q r → path (PSeq a b) p r
| path_alt_l a b p q : path a p q → path (PAlt a b) p q
| path_alt_r a b p q : path b p q → path (PAlt a b) p q
| path_star_nil a p : path (PStar a) p p
| path_star_step a p q r :
    path a p q → (length q.2 < length p.2)%nat → path (PStar a) q r → path (PStar a) p r
| path_boundary p : boundary p = true → path PBoundary p p
| path_capture f g c prev s q : f c = true → path (g c) (Some c, s) q → path (PCapture f g) (prev, c :: s) q.

Lemma path_star_inv a p q : path (PStar a) p q →
  p = q ∨ ∃ r, path a p r ∧ (length r.2 < length p.2)%nat ∧ path (PStar a) r q.
Proof. inversion 1; subst; eauto. Qed.

Lemma matches_at_path r k p : matches_at r k p = true ↔ ∃ q, path r p q ∧ k q = true.
Proof.
  revert k p. induction r as [|f|a IHa b IHb|a IHa b IHb|a IHa| |f g IH]; intros k p.
  - cbn. split; [intros; exists p; by split; [constructor|]|by intros (q & Hq & ?); inversion Hq; subst].
  - destruct p as [prev [|c s]]; cbn; [split; [done|by intros (q & Hq & _); inversion Hq]|].
    rewrite andb_true_iff. split; [intros [? ?]; eexists; split; [by constructor|done]|].
    by intros (q & Hq & ?); inversion Hq; subst.
  - cbn. rewrite IHa. setoid_rewrite IHb. split.
    + intros (q & ? & r & ? & ?). exists r. split; [by econstructor|done].
    + intros (r & Hr & ?). inversion Hr; subst. eauto.
  - cbn. rewrite orb_true_iff, IHa, IHb. split.
    + intros [(q & ? & ?)|(q & ? & ?)]; exists q; split; [by constructor|done|by constructor|done].
    + intros (q & Hq & ?). inversion Hq; subst; eauto.
  - cbn [matches_at].
    match goal with |- ?loop _ p = true ↔ _ =>
      assert (∀ n p, (length p.2 <= n)%nat → loop n p = true ↔ ∃ q, path (PStar a) p q ∧ k q = true) as Hl end;
      [|by apply Hl].
    clear p. intros n. induction n as [|n IHn]; intros p Hn; cbn; rewrite orb_true_iff.
    + split; [intros [?|?]; [exists p; by split; [constructor|]|done]|].
      intros (q & [->|(r & _ & ? & _)]%path_star_inv & ?); [by left|lia].
    + rewrite IHa. split.
      * intros [?|(q & Ha & [Hlt%Nat.ltb_lt Hq]%andb_true_iff)]; [exists p; by split; [constructor|]|].
        apply IHn in Hq as (r & ? & ?); [|lia]. exists r. split; [by eapply path_star_step|done].
      * intros (q & [->|(r & ? & Hlt & ?)]%path_star_inv & ?); [by left|]. right. exists r.
        split; [done|]. apply andb_true_iff. split; [by apply Nat.ltb_lt|]. apply IHn; [lia|eauto].
  - cbn. rewrite andb_true_iff. split; [intros [? ?]; exists p; by split; [constructor|]|].
    by intros (q & Hq & ?); inversion Hq; subst.
  - destruct p as [prev [|c s]]; cbn; [split; [done|by intros (q & Hq & _); inversion Hq]|].
    rewrite andb_true_iff, IH. split.
    + intros [? (q & ? & ?)]. exists q. split; [by constructor|done].
    + intros (q & Hq & ?). inversion Hq; subst. eauto.
Qed.

(** The position after the first [n] code units of a text. *)
Definition after (prev : option N) (u s : jstr) : position := (last (from_option (λ c, [c]) [] prev ++ u), s).

Lemma test_from_correct r prev s :
  test_from r prev s = true ↔ ∃ u v q, s = u ++ v ∧ path r (after prev u v) q.
Proof.
  revert prev. induction s as [|c s IH]; intros prev; cbn; rewrite orb_true_iff, matches_at_path.
  - split.
    + intros [(q & ? & _)|]; [|done]. exists [], [], q. split; [done|].
      unfold after. rewrite app_nil_r. by destruct prev.
    + intros (u & v & q & Hs & Hp). symmetry in Hs. apply app_nil in Hs as [-> ->].
      left. exists q. split; [|done]. unfold after in Hp. rewrite app_nil_r in Hp. by destruct prev.
  - rewrite IH. split.
    + intros [(q & ? & _)|(u & v & q & -> & Hp)].
      * exists [], (c :: s), q. split; [done|]. unfold after. rewrite app_nil_r. by destruct prev.
      * exists (c :: u), v, q. split; [done|]. revert Hp. unfold after. cbn [from_option].
        rewrite last_app_cons. done.
    + intros ([|d u] & v & q & Hs & Hp).
      * left. exists q. split; [|done]. cbn in Hs. subst v. unfold after in Hp.
        rewrite app_nil_r in Hp. by destruct prev.
      * right. injection Hs as <- ->. exists u, v, q. split; [done|]. revert Hp. unfold after. cbn [from_option].
        rewrite last_app_cons. done.
Qed.

Lemma test_correct r s : test r s = true ↔ ∃ u v q, s = u ++ v ∧ path r (last u, v) q.
Proof. apply test_from_correct. Qed.

Example word_boundary : test (PSeq (plit ".com") PBoundary) "see a.com, now" = true.
Proof. reflexivity. Qed.
Example no_boundary : test (PSeq (plit ".com") PBoundary) "a.common" = false.
Proof. reflexivity. Qed.
