(* ===== verification/Zod.v ===== *)
(** * Schemas

    The contracts are values built with Zod 3.  [schema] has one constructor per
    combinator the repository uses and [interp] is the documented meaning of a
    schema: the parsed value, or [None] when Zod reports issues.  Zod itself is
    not part of the repository: [Zod] is its interface, whose law says that
    [safeParse] succeeds exactly with [interp]; what an e-mail address, a URL or
    a UUID looks like is left to it. *)
From Stdlib Require Import QArith Qround.
From S2P Require Import Prelude JsNumber JsString Regex.
Local Open Scope js_scope.
Local Open Scope Z_scope.

(** ** JavaScript values *)

Inductive jsval :=
| VUndef
| VNull
| VBool (b : bool)
| VNum (x : num)
| VStr (s : jstr)
| VArr (l : list jsval)
| VObj (kvs : list (jstr * jsval)).

Definition vint (z : Z) : jsval := VNum (jint z).

(** [o[k]] on an object without duplicate keys. *)
Fixpoint get (k : jstr) (kvs : list (jstr * jsval)) : option jsval :=
  match kvs with
  | [] => None
  | (k', v) :: r => if decide (k = k') then Some v else get k r
  end.
Definition prop (k : jstr) (v : jsval) : jsval :=
  match v with VObj kvs => default VUndef (get k kvs) | _ => VUndef end.

(** [Boolean(v)]. *)
Definition to_boolean (v : jsval) : bool :=
  match v with
  | VUndef | VNull => false
  | VBool b => b
  | VNum NaN => false
  | VNum (Fin q) => negb (Qeq_bool q 0)
  | VNum (Inf _) => true
  | VStr s => truthy_str s
  | VArr _ | VObj _ => true
  end.

(** [Number(s)] on a string: white space trimmed, empty is 0, and a decimal
    integer; a fraction, an exponent or a prefixed literal reads as [NaN] here. *)
Definition number_of_string (s : jstr) : num :=
  match trim s with
  | [] => jint 0
  | t => match int_of_string t with Some z => rnd (inject_Z z) | None => NaN end
  end.
(** [Number(v)]; an array of one string is read as that string. *)
Definition to_number (v : jsval) : num :=
  match v with
  | VUndef | VObj _ => NaN
  | VNull | VBool false | VArr [] => jint 0
  | VBool true => jint 1
  | VNum x => x
  | VStr s | VArr [VStr s] => number_of_string s
  | VArr _ => NaN
  end.

(** ** Schemas *)

Inductive string_check :=
| SMin (n : nat) | SMax (n : nat) | SRegex (r : regex) | SEmail | SUrl | SUuid.
Inductive number_check := NInt | NSafe | NPositive | NMin (z : Z) | NMax (z : Z).
Inductive array_check := AMin (n : nat) | AMax (n : nat).

Inductive schema :=
| ZString (cs : list string_check)
| ZNumber (cs : list number_check)
| ZBoolean
| ZLiteral (s : jstr)
| ZEnum (ss : list jstr)
| ZUnknown
| ZUndefined
| ZArray (s : schema) (cs : list array_check)
| ZTuple (ss : list schema)
| ZRecord (s : schema)
| ZObject (shape : list (jstr * schema)) (strict : bool)
| ZPassthrough (shape : list (jstr * schema))
| ZOptional (s : schema)
| ZNullable (s : schema)
| ZDefault (s : schema) (v : jsval)
| ZCoerceNumber (cs : list number_check)
| ZCoerceBoolean
| ZUnion (ss : list schema)
| ZDiscriminated (key : jstr) (ss : list schema)
| ZRefine (s : schema) (p : jsval → bool)
| ZTransform (s : schema) (f : jsval → jsval).

(** The shape of an object schema, and the literal a field is pinned to. *)
Definition shape_of (s : schema) : list (jstr * schema) :=
  match s with ZObject shape _ => shape | _ => [] end.
Fixpoint field_schema (k : jstr) (shape : list (jstr * schema)) : option schema :=
  match shape with
  | [] => None
  | (k', s) :: r => if decide (k = k') then Some s else field_schema k r
  end.
Definition literal_of (key : jstr) (s : schema) : option jstr :=
  match field_schema key (shape_of s) with Some (ZLiteral t) => Some t | _ => None end.

(** [.strict()], [.extend(shape)], [.omit], [.partial] with a mask. *)
Definition strict (s : schema) : schema :=
  match s with ZObject shape _ => ZObject shape true | _ => s end.
Definition extend (s : schema) (more : list (jstr * schema)) : schema :=
  match s with
  | ZObject shape b =>
      ZObject (filter (λ f, f.1 ∉ map fst more) shape ++ more) b
  | _ => s
  end.
Definition omit (ks : list jstr) (s : schema) : schema :=
  match s with ZObject shape b => ZObject (filter (λ f, f.1 ∉ ks) shape) b | _ => s end.
Definition partial (ks : list jstr) (s : schema) : schema :=
  match s with
  | ZObject shape b =>
      ZObject (map (λ f, if decide (f.1 ∈ ks) then (f.1, ZOptional f.2) else f) shape) b
  | _ => s
  end.

(** ** Their meaning *)

Section Meaning.
Context (is_email is_url is_uuid : jstr → bool).

Definition check_string (s : jstr) (c : string_check) : bool :=
  match c with
  | SMin n => (n <=? length s)%nat
  | SMax n => (length s <=? n)%nat
  | SRegex r => matches r s
  | SEmail => is_email s
  | SUrl => is_url s
  | SUuid => is_uuid s
  end.

Definition check_number (x : num) (c : number_check) : bool :=
  match c with
  | NInt => is_integer x
  | NSafe => is_safe_integer x
  | NPositive => nlt (jint 0) x
  | NMin z => nle (jint z) x
  | NMax z => nle x (jint z)
  end.

Definition check_array (n : nat) (c : array_check) : bool :=
  match c with AMin m => (m <=? n)%nat | AMax m => (n <=? m)%nat end.

Definition parse_number (cs : list number_check) (x : num) : option jsval :=
  match x with
  | NaN => None
  | _ => if forallb (check_number x) cs then Some (VNum x) else None
  end.

(** An absent field that parses to [undefined] stays absent. *)
Definition keep (k : jstr) (present : bool) (v : jsval) : list (jstr * jsval) :=
  match v with VUndef => if present then [(k, v)] else [] | _ => [(k, v)] end.

(** The parts of composite schemas, over the meaning [f] of their members. *)
Definition parse_tuple (f : schema → jsval → option jsval) :=
  fix go (items : list schema) (l : list jsval) : option (list jsval) :=
    match items, l with
    | [], [] => Some []
    | s :: items, x :: l => y ← f s x; r ← go items l; Some (y :: r)
    | _, _ => None
    end.

Definition parse_fields (f : schema → jsval → option jsval) (kvs : list (jstr * jsval)) :=
  fix go (shape : list (jstr * schema)) : option (list (jstr * jsval)) :=
    match shape with
    | [] => Some []
    | (k, s) :: shape =>
        y ← f s (default VUndef (get k kvs));
        r ← go shape;
        Some (keep k (bool_decide (is_Some (get k kvs))) y ++ r)
    end.

Definition parse_first (f : schema → jsval → option jsval) (v : jsval) :=
  fix go (ss : list schema) : option jsval :=
    match ss with
    | [] => None
    | s :: r => match f s v with Some w => Some w | None => go r end
    end.

(** The first option whose literal is the value's tag. *)
Definition tagged (key : jstr) (v : jsval) (s : schema) : bool :=
  match prop key v, literal_of key s with
  | VStr t, Some t' => bool_decide (t = t')
  | _, _ => false
  end.
Definition parse_tagged (f : schema → jsval → option jsval) (key : jstr) (v : jsval) :=
  fix go (ss : list schema) : option jsval :=
    match ss with
    | [] => None
    | s :: r => if tagged key v s then f s v else go r
    end.

Definition known_keys (shape : list (jstr * schema)) (kvs : list (jstr * jsval)) : bool :=
  forallb (λ kv, bool_decide (kv.1 ∈ map fst shape)) kvs.

(** What [passthrough] keeps besides the fields of the shape. *)
Definition unknown_fields (shape : list (jstr * schema)) (kvs : list (jstr * jsval)) :=
  filter (λ kv, kv.1 ∉ map fst shape) kvs.

Fixpoint interp (s : schema) (v : jsval) {struct s} : option jsval :=
  match s with
  | ZString cs =>
      match v with VStr t => if forallb (check_string t) cs then Some v else None | _ => None end
  | ZNumber cs => match v with VNum x => parse_number cs x | _ => None end
  | ZBoolean => match v with VBool _ => Some v | _ => None end
  | ZLiteral t => match v with VStr t' => if decide (t = t') then Some v else None | _ => None end
  | ZEnum ts => match v with VStr t => if decide (t ∈ ts) then Some v else None | _ => None end
  | ZUnknown => Some v
  | ZUndefined => match v with VUndef => Some VUndef | _ => None end
  | ZArray item cs =>
      match v with
      | VArr l =>
          if forallb (check_array (length l)) cs
          then l' ← mapM (interp item) l; Some (VArr l')
          else None
      | _ => None
      end
  | ZTuple items =>
      match v with VArr l => l' ← parse_tuple interp items l; Some (VArr l') | _ => None end
  | ZRecord item =>
      match v with
      | VObj kvs =>
          kvs' ← mapM (λ kv, y ← interp item kv.2; Some (kv.1, y)) kvs;
          Some (VObj kvs')
      | _ => None
      end
  | ZObject shape st =>
      match v with
      | VObj kvs =>
          out ← parse_fields interp kvs shape;
          if st && negb (known_keys shape kvs) then None else Some (VObj out)
      | _ => None
      end
  | ZPassthrough shape =>
      match v with
      | VObj kvs => out ← parse_fields interp kvs shape; Some (VObj (out ++ unknown_fields shape kvs))
      | _ => None
      end
  | ZOptional s => match v with VUndef => Some VUndef | _ => interp s v end
  | ZNullable s => match v with VNull => Some VNull | _ => interp s v end
  | ZDefault s d => match v with VUndef => interp s d | _ => interp s v end
  | ZCoerceNumber cs => parse_number cs (to_number v)
  | ZCoerceBoolean => Some (VBool (to_boolean v))
  | ZUnion ss => parse_first interp v ss
  | ZDiscriminated key ss =>
      match v with VObj _ => parse_tagged interp key v ss | _ => None end
  | ZRefine s p => w ← interp s v; if p w then Some w else None
  | ZTransform s f => w ← interp s v; Some (f w)
  end.
End Meaning.

(** ** The interface *)

(** One issue Zod reports: where, and what is wrong. *)
Record issue := { path : list jstr; message : jstr }.

Class Zod := {
  is_email : jstr → bool;
  is_url : jstr → bool;
  is_uuid : jstr → bool;
  safeParse : schema → jsval → result (list issue) jsval;
  safeParse_ok s v w : safeParse s v = Ok w ↔ interp is_email is_url is_uuid s v = Some w
}.

(** A Zod without issue texts, and with liberal notions of addresses. *)
#[export] Instance plain_zod : Zod.
Proof.
  refine {| is_email := includes "@"; is_url := startsWith "http"; is_uuid := λ s, (length s =? 36)%nat;
            safeParse s v := match interp (includes "@") (startsWith "http") (λ s, (length s =? 36)%nat) s v with
                             | Some w => Ok w | None => Err [] end |}.
  intros s v w. destruct (interp _ _ _ s v); split; congruence.
Defined.

Definition accepts `{Zod} (s : schema) (v : jsval) : Prop := is_ok (safeParse s v) = true.

(** ** Reading an accepted value *)

Section Accepts.
Context `{Zod}.

Notation meaning := (interp is_email is_url is_uuid).

Lemma accepts_meaning s v : accepts s v ↔ is_Some (meaning s v).
Proof.
  unfold accepts. split.
  - destruct (safeParse s v) as [w|e] eqn:Hp; [|done]. intros _. exists w. by apply safeParse_ok.
  - intros [w Hw]. apply safeParse_ok in Hw. by rewrite Hw.
Qed.

Lemma parse_fields_get kvs shape out k s :
  parse_fields meaning kvs shape = Some out → In (k, s) shape →
  is_Some (meaning s (default VUndef (get k kvs))).
Proof.
  revert out. induction shape as [|[k' s'] shape IH]; intros out Hp Hin; cbn in Hp; [done|].
  destruct Hin as [Heq|Hin].
  - injection Heq as -> ->. by destruct (meaning s _).
  - destruct (meaning s' _); cbn in Hp; [|done].
    destruct (parse_fields meaning kvs shape) as [r|] eqn:Hr; [|done]. by eapply IH.
Qed.

(** What each field of an accepted object satisfies, and nothing else is there
    when the schema is strict. *)
Lemma accepts_object shape st v :
  accepts (ZObject shape st) v →
  ∃ kvs, v = VObj kvs ∧ (∀ k s, In (k, s) shape → accepts s (prop k v)) ∧
    (st = true → ∀ k, is_Some (get k kvs) → k ∈ map fst shape).
Proof.
  rewrite accepts_meaning. cbn. destruct v as [| | | | | |kvs]; try by intros [? ?].
  intros [w Hw]. exists kvs. split; [done|].
  destruct (parse_fields meaning kvs shape) as [out|] eqn:Hp; cbn in Hw; [|done].
  split.
  - intros k s Hin. apply accepts_meaning. by eapply parse_fields_get.
  - intros ->. cbn in Hw. destruct (known_keys shape kvs) eqn:Hk; [|done]. clear Hw Hp.
    intros k Hg. unfold known_keys in Hk. rewrite forallb_forall in Hk.
    assert (∃ x, In (k, x) kvs) as [x Hx].
    { destruct Hg as [x Hg]. exists x. clear Hk. induction kvs as [|[k' y] kvs IH]; cbn in *; [done|].
      destruct (decide (k = k')) as [->|]; [left; congruence|right; auto]. }
    specialize (Hk _ Hx). by apply bool_decide_eq_true in Hk.
Qed.

Lemma accepts_string cs v :
  accepts (ZString cs) v ↔
  ∃ t, v = VStr t ∧ forallb (check_string is_email is_url is_uuid t) cs = true.
Proof.
  rewrite accepts_meaning. cbn. split.
  - destruct v as [| | | |t| |]; try by intros [? ?]. destruct (forallb _ cs) eqn:Hc; [|by intros [? ?]]. eauto.
  - intros (t & -> & ->). by eexists.
Qed.

Lemma accepts_regex r v : accepts (ZString [SRegex r]) v ↔ ∃ t, v = VStr t ∧ lang r t.
Proof.
  rewrite accepts_string. cbn. setoid_rewrite andb_true_r. by setoid_rewrite matches_lang.
Qed.

Lemma accepts_number cs v :
  accepts (ZNumber cs) v ↔ ∃ x, v = VNum x ∧ x ≠ NaN ∧ forallb (check_number x) cs = true.
Proof.
  rewrite accepts_meaning. cbn. split.
  - destruct v as [| | |x| | |]; try by intros [? ?]. unfold parse_number.
    destruct x; [by intros [? ?]|..]; (destruct (forallb _ cs) eqn:Hc; [|by intros [? ?]]); eauto.
  - intros (x & -> & Hx & Hc). unfold parse_number. destruct x; [done|..]; rewrite Hc; by eexists.
Qed.

(** An integer field, as the integer it denotes. *)
Lemma accepts_int cs v :
  accepts (ZNumber (NInt :: cs)) v →
  ∃ z q, v = VNum (Fin q) ∧ (q == inject_Z z)%Q ∧ forallb (check_number (Fin q)) cs = true.
Proof.
  rewrite accepts_number. intros (x & -> & _ & Hc). cbn in Hc. apply andb_true_iff in Hc as [Hi Hc].
  destruct (is_integer_inv x Hi) as (q & z & -> & Hz). eauto.
Qed.
End Accepts.

(** ** Building accepted objects *)

Section Build.
Context `{Zod}.

Notation meaning := (interp is_email is_url is_uuid).

Lemma get_app_fresh k kvs kvs' : get k kvs = None → get k (kvs ++ kvs') = get k kvs'.
Proof.
  induction kvs as [|[k' v] kvs IH]; cbn; [done|]. by destruct (decide (k = k')).
Qed.

Lemma get_none k kvs : k ∉ map fst kvs → get k kvs = None.
Proof.
  induction kvs as [|[k' v] kvs IH]; cbn; [done|]. intros Hn.
  rewrite decide_False by set_solver. apply IH. set_solver.
Qed.

(** A parsed object has no field outside its shape. *)
Lemma parse_fields_fresh kvs shape out k :
  parse_fields meaning kvs shape = Some out → k ∉ map fst shape → get k out = None.
Proof.
  revert out. induction shape as [|[k' s'] sh IH]; intros o Hp Hk; cbn in Hp.
  - by injection Hp as <-.
  - destruct (meaning s' _) as [y|]; cbn in Hp; [|done].
    destruct (parse_fields meaning kvs sh) as [r|] eqn:Hr; [|done]. injection Hp as <-.
    cbn in Hk. rewrite get_app_fresh; [apply (IH r eq_refl); set_solver|].
    apply get_none. unfold keep. destruct y; cbn; try case_match; cbn; set_solver.
Qed.

Lemma safeParse_fresh shape st v w k :
  safeParse (ZObject shape st) v = Ok w → k ∉ map fst shape → prop k w = VUndef.
Proof.
  intros Hp Hk. apply safeParse_ok in Hp. cbn in Hp. destruct v as [| | | | | |kvs]; try done.
  destruct (parse_fields meaning kvs shape) as [out|] eqn:Hf; cbn in Hp; [|done].
  destruct (st && _); [done|]. injection Hp as <-. cbn. by rewrite (parse_fields_fresh _ _ _ _ Hf Hk).
Qed.

(** What a parsed object holds at a field of its shape. *)
Lemma parse_fields_out kvs shape out k s :
  parse_fields meaning kvs shape = Some out → NoDup (map fst shape) → In (k, s) shape →
  meaning s (default VUndef (get k kvs)) = Some (default VUndef (get k out)).
Proof.
  revert out. induction shape as [|[k' s'] shape IH]; intros out Hp Hn Hin; cbn in Hp; [done|].
  cbn in Hn. apply NoDup_cons in Hn as [Hn1 Hn2].
  destruct (meaning s' _) as [y|] eqn:Hy; cbn in Hp; [|done].
  destruct (parse_fields meaning kvs shape) as [r|] eqn:Hr; [|done]. injection Hp as <-.
  destruct Hin as [[= -> ->]|Hin].
  - rewrite Hy. f_equal. pose proof (parse_fields_fresh _ _ _ _ Hr Hn1) as Hg.
    unfold keep. destruct y; cbn; rewrite ?decide_True by done; try done.
    destruct (bool_decide _); cbn; rewrite ?decide_True by done; rewrite ?Hg; done.
  - rewrite (IH r eq_refl Hn2 Hin). f_equal. rewrite get_app_fresh; [done|].
    apply get_none. assert (k ≠ k') as Hne.
    { intros ->. apply Hn1. apply list_elem_of_In, in_map_iff. by exists (k', s). }
    unfold keep. destruct y; cbn; try case_match; cbn; set_solver.
Qed.

Lemma safeParse_field shape st v w k s :
  safeParse (ZObject shape st) v = Ok w → NoDup (map fst shape) → In (k, s) shape →
  meaning s (prop k v) = Some (prop k w).
Proof.
  intros Hp Hn Hin. apply safeParse_ok in Hp. cbn in Hp. destruct v as [| | | | | |kvs]; try done.
  destruct (parse_fields meaning kvs shape) as [out|] eqn:Hf; cbn in Hp; [|done].
  destruct (st && _); [done|]. injection Hp as <-. cbn. by eapply parse_fields_out.
Qed.

(** An object with the fields of the schema, in its order, each accepted. *)
Lemma accepts_fields shape st kvs :
  NoDup (map fst shape) → Forall2 (λ f kv, f.1 = kv.1 ∧ accepts f.2 kv.2) shape kvs →
  accepts (ZObject shape st) (VObj kvs).
Proof.
  intros Hn Hf. apply accepts_meaning. cbn.
  assert (map fst kvs = map fst shape) as Hkeys.
  { clear Hn. induction Hf as [|f kv fs kvs [Hk _] _ IH]; cbn; [done|]. by rewrite Hk, IH. }
  assert (∀ sh, (∀ k s, In (k, s) sh → accepts s (default VUndef (get k kvs))) →
    ∃ out, parse_fields meaning kvs sh = Some out) as Hp.
  { induction sh as [|[k s] sh IH]; intros Hs; cbn; [by eexists|].
    destruct (proj1 (accepts_meaning _ _) (Hs k s (or_introl eq_refl))) as [y ->]. cbn.
    destruct IH as [r ->]; [intros; apply Hs; by right|]. by eexists. }
  destruct (Hp shape) as [out ->].
  - intros k s Hin. clear Hp Hkeys. induction Hf as [|[k1 s1] [k2 v] fs kvs [Hk Ha] _ IH]; cbn in *; [done|].
    apply NoDup_cons in Hn as [Hn1 Hn2]. subst k2. destruct Hin as [[= -> ->]|Hin].
    + by rewrite decide_True by done.
    + rewrite decide_False; [by apply IH|]. intros ->. apply Hn1.
      apply list_elem_of_In, in_map_iff. by exists (k1, s).
  - cbn. replace (known_keys shape kvs) with true; [rewrite andb_false_r; by eexists|].
    symmetry. unfold known_keys. rewrite forallb_forall. intros kv Hin.
    apply bool_decide_eq_true. rewrite <- Hkeys. apply list_elem_of_In, in_map_iff. eauto.
Qed.

(** Fields in any order, optional ones perhaps absent. *)
Lemma accepts_obj shape st kvs :
  Forall (λ f, accepts f.2 (default VUndef (get f.1 kvs))) shape → known_keys shape kvs = true →
  accepts (ZObject shape st) (VObj kvs).
Proof.
  intros Hf Hk. apply accepts_meaning. cbn. rewrite Hk, andb_false_r.
  assert (∃ out, parse_fields meaning kvs shape = Some out) as [out ->]; [|by eexists].
  clear Hk. induction Hf as [|[k s] sh Ha _ [r IH]]; cbn in *; [by eexists|].
  apply accepts_meaning in Ha as [y ->]. cbn. rewrite IH. by eexists.
Qed.

Lemma accepts_any_string s : accepts (ZString []) (VStr s).
Proof. apply accepts_string. by exists s. Qed.

Lemma accepts_optional_absent s : accepts (ZOptional s) VUndef.
Proof. apply accepts_meaning. by eexists. Qed.

Lemma accepts_optional s v : accepts s v → accepts (ZOptional s) v.
Proof.
  rewrite !accepts_meaning. intros [w Hw]. cbn. destruct v; try by eexists.
Qed.

Lemma accepts_array s cs l :
  Forall (accepts s) l → forallb (check_array (length l)) cs = true → accepts (ZArray s cs) (VArr l).
Proof.
  intros Hl Hc. apply accepts_meaning. cbn. rewrite Hc.
  assert (∃ l', mapM (meaning s) l = Some l') as [l' ->]; [|by eexists].
  clear Hc. induction Hl as [|v l Hv _ [l' IH]]; cbn; [by eexists|].
  apply accepts_meaning in Hv as [w ->]. cbn. rewrite IH. by eexists.
Qed.

(** A parsed integer is the value itself. *)
Lemma parsed_integer cs v w :
  meaning (ZNumber (NInt :: cs)) v = Some w →
  w = v ∧ ∃ q, w = VNum (Fin q) ∧ (q == inject_Z (Qfloor q))%Q ∧ forallb (check_number (Fin q)) cs = true.
Proof.
  cbn. destruct v as [| | |x| | |]; try done. unfold parse_number.
  destruct x as [| |q]; [done|..]; cbn; [done|].
  destruct (Qeq_bool q (inject_Z (Qfloor q))) eqn:Hq; cbn; [|done].
  destruct (forallb _ cs) eqn:Hc; [|done]. intros [= <-].
  split; [done|]. exists q. split; [done|]. split; [by apply Qeq_bool_iff|done].
Qed.

(** The elements of an accepted array. *)
Lemma accepts_elements s cs v : accepts (ZArray s cs) v → ∃ l, v = VArr l ∧ Forall (accepts s) l.
Proof.
  rewrite accepts_meaning. intros [w Hw]. cbn in Hw. destruct v as [| | | | |l|]; try done.
  destruct (forallb _ cs); [|done]. exists l. split; [done|].
  destruct (mapM (meaning s) l) as [l'|] eqn:Hm; [|done]. apply mapM_Some_1 in Hm.
  clear Hw. induction Hm as [|x y l l' Hx _ IH]; [constructor|]. constructor; [|exact IH].
  apply accepts_meaning. by exists y.
Qed.
End Build.

(** ** Fields of a parsed object *)

Lemma nodup_keys {A} (l : list (jstr * A)) : bool_decide (NoDup (map fst l)) = true → NoDup (map fst l).
Proof. apply bool_decide_eq_true. Qed.

(** The parsed field [k] of a schema given by its shape. *)
Ltac field_of Hp k :=
  let Hf := fresh "Hf" in
  pose proof (safeParse_field _ _ _ _ k _ Hp ltac:(apply nodup_keys; vm_compute; reflexivity)
                ltac:(cbn; eauto 6)) as Hf.
