(* ===== verification/Schemas.v ===== *)
(** * [@souq/contracts], scalar and shared schemas

    The Zod schemas of [libs/ts-contracts/src/primitives.ts]. *)
From S2P Require Import Prelude JsNumber JsString Regex Zod.
Local Open Scope js_scope.

Module Schemas.

(** ** Combinators as the source writes them *)

Definition str : schema := ZString [].
Definition int : schema := ZNumber [NInt].
Definition int_min (a : Z) : schema := ZNumber [NInt; NMin a].
Definition int_between (a b : Z) : schema := ZNumber [NInt; NMin a; NMax b].
Definition obj (shape : list (jstr * schema)) : schema := ZObject shape true.
Definition arr (s : schema) : schema := ZArray s [].
Definition flag (b : bool) : schema := ZDefault ZBoolean (VBool b).

(** ** Character classes *)

Definition between (a b : N) (c : N) : bool := ((a <=? c) && (c <=? b))%N.
Definition upper : regex := Chr (between 65 90).
Definition digit : regex := Chr (between 48 57).
Definition dash : regex := Chr (N.eqb 45).

(** [[0-9A-HJKMNP-TV-Z]] *)
Definition ulid_unit (c : N) : bool :=
  between 48 57 c || between 65 72 c || (c =? 74)%N || (c =? 75)%N || (c =? 77)%N || (c =? 78)%N
  || between 80 84 c || between 86 90 c.
Definition ULID : regex := rep 26 (Chr ulid_unit).

(** ** Identifiers *)

Definition prefixedId (prefix : jstr) : schema :=
  ZString [SRegex (Seq (lit (prefix ++ "_")) ULID)].

Definition UserId : schema := prefixedId "usr".
Definition ProductId : schema := prefixedId "prd".
Definition Sku : schema := prefixedId "sku".
Definition OrderId : schema := prefixedId "ord".
Definition PaymentId : schema := prefixedId "pay".
Definition ReservationId : schema := prefixedId "rsv".
Definition CartId : schema := prefixedId "crt".
Definition ReviewId : schema := prefixedId "rev".

(** ** Money and time *)

Definition CurrencyCode : schema := ZString [SRegex (rep 3 upper)].

Definition Money : schema := obj [
  ("amount", ZNumber [NInt; NSafe]);
  ("currency", CurrencyCode)].

Definition date_regex : regex :=
  Seq (rep 4 digit) (Seq dash (Seq (rep 2 digit) (Seq dash (rep 2 digit)))).
Definition time_regex : regex :=
  Seq (rep 2 digit) (Seq (lit ":") (Seq (rep 2 digit) (Seq (lit ":") (rep 2 digit)))).
Definition fraction_regex : regex := Seq (lit ".") (Seq digit (upto 8 digit)).

Definition Timestamp : schema :=
  ZString [SRegex (Seq date_regex (Seq (lit "T") (Seq time_regex (Seq (opt fraction_regex) (lit "Z")))))].

Definition DateOnly : schema := ZString [SRegex date_regex].

(** ** Common value objects *)

Definition Address : schema := obj [
  ("recipient", ZString [SMin 1; SMax 200]);
  ("line1", ZString [SMin 1; SMax 300]);
  ("line2", ZOptional (ZString [SMax 300]));
  ("city", ZString [SMin 1; SMax 150]);
  ("region", ZOptional (ZString [SMax 150]));
  ("postalCode", ZString [SMin 1; SMax 30]);
  ("countryCode", ZString [SRegex (rep 2 upper)]);
  ("phone", ZOptional (ZString [SMax 40]))].

Definition Image : schema := obj [
  ("url", ZString [SUrl]);
  ("alt", ZDefault (ZString [SMax 300]) (VStr ""));
  ("width", ZOptional (ZNumber [NInt; NPositive]));
  ("height", ZOptional (ZNumber [NInt; NPositive]))].

(** ** Pages *)

Definition PageRequest : schema := obj [
  ("limit", ZDefault (ZCoerceNumber [NInt; NMin 1; NMax 100]) (vint 20));
  ("cursor", ZOptional (ZString [SMax 500]))].

Definition paginated (item : schema) : schema := obj [
  ("items", arr item);
  ("nextCursor", ZNullable str);
  ("hasMore", ZBoolean)].

(** ** Problem details *)

Definition FieldError : schema := obj [("field", str); ("message", str)].

Definition code_regex : regex :=
  Seq upper (Star (Chr (λ c, between 65 90 c || between 48 57 c || (c =? 95)%N))).

Definition ProblemDetails : schema := obj [
  ("type", str);
  ("title", str);
  ("status", int_between 100 599);
  ("detail", ZOptional str);
  ("instance", ZOptional str);
  ("code", ZString [SRegex code_regex]);
  ("requestId", str);
  ("timestamp", Timestamp);
  ("errors", ZOptional (arr FieldError))].

End Schemas.
