(* ===== verification/Events.v ===== *)
(** * [@souq/contracts], events

    The CloudEvents schemas of [libs/ts-contracts/src/events.ts], the topics and
    the schema of each topic. *)
From S2P Require Import Prelude JsNumber JsString Regex Zod Schemas.
Local Open Scope js_scope.

Module Events.
Import Schemas.Schemas.

(** ** Topics *)

Inductive Topic :=
| orderEvents | orderCommands | inventoryEvents | paymentEvents | catalogEvents
| userActivity | notificationCommands.
#[export] Instance Topic_eq_dec : EqDecision Topic.
Proof. solve_decision. Defined.

Definition TOPICS (t : Topic) : jstr :=
  match t with
  | orderEvents => "souq.order.events.v1"
  | orderCommands => "souq.order.commands.v1"
  | inventoryEvents => "souq.inventory.events.v1"
  | paymentEvents => "souq.payment.events.v1"
  | catalogEvents => "souq.catalog.events.v1"
  | userActivity => "souq.user.activity.v1"
  | notificationCommands => "souq.notification.commands.v1"
  end.

Definition dlqFor (t : Topic) : jstr := TOPICS t ++ ".dlq".

(** ** The envelope *)

Definition cloudEventBase : list (jstr * schema) := [
  ("specversion", ZLiteral "1.0");
  ("id", ZString [SMin 1]);
  ("source", ZString [SMin 1]);
  ("subject", ZOptional str);
  ("time", Timestamp);
  ("datacontenttype", ZDefault (ZLiteral "application/json") (VStr "application/json"));
  ("traceparent", ZOptional str);
  ("correlationid", ZOptional str);
  ("dataschema", ZOptional str)].

Definition cloudEvent (type : jstr) (data : schema) : schema :=
  obj (cloudEventBase ++ [("type", ZLiteral type); ("data", data)]).

(** ** Payload fragments *)

Definition OrderItem : schema := obj [
  ("sku", Sku); ("productId", ProductId); ("title", ZOptional (ZString [SMax 500]));
  ("quantity", int_between 1 999); ("unitPrice", Money); ("lineTotal", ZOptional Money)].

Definition UnavailableSku : schema := obj [
  ("sku", str); ("requested", int_min 1); ("available", int_min 0)].

Definition ReserveItem : schema := obj [("sku", Sku); ("quantity", int_min 1)].

(** ** Order events *)

Definition OrderCreated : schema := cloudEvent "souq.order.created.v1" (obj [
  ("orderId", OrderId); ("userId", UserId);
  ("items", ZArray OrderItem [AMin 1; AMax 100]);
  ("subtotal", Money); ("discountTotal", Money); ("shippingTotal", Money);
  ("taxTotal", Money); ("total", Money); ("shippingAddress", Address);
  ("rulesVersion", str); ("idempotencyKey", ZString [SUuid])]).

Definition OrderConfirmed : schema := cloudEvent "souq.order.confirmed.v1" (obj [
  ("orderId", OrderId); ("userId", UserId); ("paymentId", PaymentId);
  ("reservationId", ReservationId); ("total", Money); ("confirmedAt", Timestamp)]).

Definition CancellationReason : schema := ZEnum [
  "INSUFFICIENT_STOCK"; "PAYMENT_DECLINED"; "PAYMENT_TIMEOUT"; "RESERVATION_TIMEOUT";
  "CUSTOMER_CANCELLED"; "FRAUD_REJECTED"].

Definition OrderCancelled : schema := cloudEvent "souq.order.cancelled.v1" (obj [
  ("orderId", OrderId); ("userId", UserId); ("reasonCode", CancellationReason);
  ("failedStep", ZDefault (ZEnum ["RESERVE"; "AUTHORIZE"; "COMMIT"; "CAPTURE"; "NONE"]) (VStr "NONE"));
  ("unavailable", ZOptional (arr UnavailableSku))]).

Definition OrderShipped : schema := cloudEvent "souq.order.shipped.v1" (obj [
  ("orderId", OrderId); ("trackingNumber", str); ("carrier", str); ("shippedAt", Timestamp);
  ("estimatedDelivery", ZOptional str)]).

(** ** Saga commands *)

Definition InventoryReserve : schema := cloudEvent "souq.inventory.reserve.v1" (obj [
  ("orderId", OrderId); ("reservationId", ReservationId);
  ("items", ZArray ReserveItem [AMin 1]);
  ("ttlSeconds", ZDefault (ZNumber [NInt; NPositive]) (vint 900))]).

Definition InventoryRelease : schema := cloudEvent "souq.inventory.release.v1" (obj [
  ("orderId", OrderId); ("reservationId", ReservationId); ("reasonCode", str)]).

Definition InventoryCommit : schema := cloudEvent "souq.inventory.commit.v1" (obj [
  ("orderId", OrderId); ("reservationId", ReservationId)]).

Definition PaymentAuthorize : schema := cloudEvent "souq.payment.authorize.v1" (obj [
  ("orderId", OrderId); ("paymentId", PaymentId); ("userId", UserId); ("amount", Money);
  ("paymentMethodToken", str); ("billingAddress", ZOptional Address)]).

Definition PaymentCapture : schema := cloudEvent "souq.payment.capture.v1" (obj [
  ("orderId", OrderId); ("paymentId", PaymentId); ("amount", ZOptional Money)]).

Definition PaymentVoid : schema := cloudEvent "souq.payment.void.v1" (obj [
  ("orderId", OrderId); ("paymentId", PaymentId); ("reasonCode", str)]).

(** ** Inventory events *)

Definition InventoryReserved : schema := cloudEvent "souq.inventory.reserved.v1" (obj [
  ("orderId", OrderId); ("reservationId", ReservationId); ("expiresAt", Timestamp);
  ("items", ZOptional (arr ReserveItem))]).

Definition InventoryReservationFailed : schema :=
  cloudEvent "souq.inventory.reservation_failed.v1" (obj [
    ("orderId", OrderId); ("reservationId", ReservationId);
    ("reasonCode", ZEnum ["INSUFFICIENT_STOCK"; "SKU_NOT_FOUND"; "SKU_DISCONTINUED";
                          "RESERVATION_TOMBSTONED"]);
    ("unavailable", ZOptional (arr UnavailableSku))]).

Definition InventoryReleased : schema := cloudEvent "souq.inventory.released.v1" (obj [
  ("orderId", OrderId); ("reservationId", ReservationId); ("wasTombstone", flag false)]).

Definition InventoryCommitted : schema := cloudEvent "souq.inventory.committed.v1" (obj [
  ("orderId", OrderId); ("reservationId", ReservationId)]).

Definition StockChanged : schema := cloudEvent "souq.inventory.stock_changed.v1" (obj [
  ("sku", Sku); ("onHand", int_min 0); ("reserved", int_min 0); ("available", int_min 0);
  ("reasonCode", ZEnum ["RESERVATION"; "RELEASE"; "COMMIT"; "RESTOCK"; "ADJUSTMENT"; "RETURN";
                        "SHRINKAGE"])]).

(** ** Payment events *)

Definition PaymentAuthorized : schema := cloudEvent "souq.payment.authorized.v1" (obj [
  ("orderId", OrderId); ("paymentId", PaymentId); ("amount", Money);
  ("provider", ZEnum ["stripe"; "adyen"; "checkout"; "mock"]);
  ("authCode", ZOptional str); ("expiresAt", ZOptional Timestamp)]).

Definition PaymentDeclineReason : schema := ZEnum [
  "INSUFFICIENT_FUNDS"; "CARD_DECLINED"; "CARD_EXPIRED"; "INVALID_CVC"; "FRAUD_SUSPECTED";
  "THREE_DS_FAILED"; "PROVIDER_UNAVAILABLE"; "AUTHORIZATION_EXPIRED"].

Definition PaymentFailed : schema := cloudEvent "souq.payment.failed.v1" (obj [
  ("orderId", OrderId); ("paymentId", PaymentId); ("reasonCode", PaymentDeclineReason);
  ("declineCode", ZOptional str); ("retriable", ZBoolean)]).

Definition PaymentCaptured : schema := cloudEvent "souq.payment.captured.v1" (obj [
  ("orderId", OrderId); ("paymentId", PaymentId); ("amount", Money);
  ("capturedAt", ZOptional Timestamp)]).

Definition PaymentVoided : schema := cloudEvent "souq.payment.voided.v1" (obj [
  ("orderId", OrderId); ("paymentId", PaymentId); ("wasTombstone", flag false)]).

Definition PaymentRefunded : schema := cloudEvent "souq.payment.refunded.v1" (obj [
  ("orderId", OrderId); ("paymentId", PaymentId); ("refundId", str); ("amount", Money);
  ("partial", flag false); ("reasonCode", ZOptional str)]).

(** ** Catalogue events *)

Definition ProductStatus : schema := ZEnum ["DRAFT"; "ACTIVE"; "ARCHIVED"; "DISCONTINUED"].

Definition ProductUpserted : schema := cloudEvent "souq.catalog.product_upserted.v1" (obj [
  ("productId", ProductId); ("sku", Sku); ("title", ZString [SMax 500]);
  ("description", ZOptional (ZString [SMax 20000])); ("brand", ZOptional str);
  ("categoryPath", ZDefault (arr str) (VArr []));
  ("attributes", ZDefault (ZRecord str) (VObj []));
  ("images", ZDefault (arr (obj [
     ("url", ZString [SUrl]); ("alt", ZDefault str (VStr ""));
     ("width", ZOptional int); ("height", ZOptional int)])) (VArr []));
  ("price", Money); ("listPrice", ZOptional Money); ("status", ProductStatus);
  ("locale", ZDefault str (VStr "en-GB")); ("updatedAt", Timestamp)]).

Definition ProductDeleted : schema := cloudEvent "souq.catalog.product_deleted.v1" (obj [
  ("productId", ProductId)]).

(** ** User activity *)

Definition ActivityType : schema := ZEnum [
  "VIEW"; "ADD_TO_CART"; "REMOVE_FROM_CART"; "PURCHASE"; "SEARCH"; "WISHLIST"; "REVIEW"].

Definition defined (v : jsval) : bool := match v with VUndef => false | _ => true end.

Definition UserActivity : schema := ZRefine (cloudEvent "souq.activity.v1" (obj [
  ("eventType", ActivityType); ("userId", ZOptional UserId); ("anonymousId", ZOptional str);
  ("sessionId", str); ("itemId", ZOptional ProductId); ("query", ZOptional (ZString [SMax 500]));
  ("resultCount", ZOptional (int_min 0)); ("position", ZOptional (int_min 0));
  ("value", ZOptional Money);
  ("deviceType", ZOptional (ZEnum ["desktop"; "mobile"; "tablet"; "app"]));
  ("locale", ZOptional str); ("occurredAt", Timestamp); ("recommendationId", ZOptional str)]))
  (λ e, defined (prop "userId" (prop "data" e)) || defined (prop "anonymousId" (prop "data" e))).

(** ** Notification commands *)

Definition NotificationCommand : schema := cloudEvent "souq.notify.v1" (obj [
  ("channel", ZEnum ["EMAIL"; "SMS"; "PUSH"; "WEBHOOK"]);
  ("userId", ZOptional UserId); ("to", ZOptional str); ("template", str);
  ("locale", ZDefault str (VStr "en-GB"));
  ("params", ZDefault (ZRecord ZUnknown) (VObj []));
  ("dedupeKey", str); ("sendAfter", ZOptional Timestamp)]).

(** ** Unions, one per topic *)

Definition order_options : list schema := [OrderCreated; OrderConfirmed; OrderCancelled; OrderShipped].
Definition command_options : list schema := [
  InventoryReserve; InventoryRelease; InventoryCommit; PaymentAuthorize; PaymentCapture; PaymentVoid].
Definition inventory_options : list schema := [
  InventoryReserved; InventoryReservationFailed; InventoryReleased; InventoryCommitted; StockChanged].
Definition payment_options : list schema := [
  PaymentAuthorized; PaymentFailed; PaymentCaptured; PaymentVoided; PaymentRefunded].
Definition catalog_options : list schema := [ProductUpserted; ProductDeleted].

Definition OrderEvent : schema := ZDiscriminated "type" order_options.
Definition SagaCommand : schema := ZDiscriminated "type" command_options.
Definition InventoryEvent : schema := ZDiscriminated "type" inventory_options.
Definition PaymentEvent : schema := ZDiscriminated "type" payment_options.
Definition CatalogEvent : schema := ZDiscriminated "type" catalog_options.

Definition AnyEvent : schema := ZUnion [
  OrderEvent; SagaCommand; InventoryEvent; PaymentEvent; CatalogEvent; UserActivity;
  NotificationCommand].

Definition SCHEMA_BY_TOPIC (t : Topic) : schema :=
  match t with
  | orderEvents => OrderEvent
  | orderCommands => SagaCommand
  | inventoryEvents => InventoryEvent
  | paymentEvents => PaymentEvent
  | catalogEvents => CatalogEvent
  | userActivity => UserActivity
  | notificationCommands => NotificationCommand
  end.

End Events.
