(* ===== verification/Api.v ===== *)
(** * [@souq/contracts], HTTP shapes

    The request and response schemas of [libs/ts-contracts/src/api.ts]. *)
From S2P Require Import Prelude JsNumber JsString Regex Zod Schemas Events.
Local Open Scope js_scope.

Module Api.
Import Schemas.Schemas.
Import Events.Events.

(** ** identity-service *)

Definition Role : schema := ZEnum ["CUSTOMER"; "MERCHANT"; "SUPPORT"; "OPS"; "ADMIN"].

Definition RegisterRequest : schema := obj [
  ("email", ZString [SEmail; SMax 320]); ("password", ZString [SMin 12; SMax 256]);
  ("fullName", ZString [SMin 1; SMax 200]); ("locale", ZDefault str (VStr "en-GB"));
  ("acceptedTermsVersion", str)].

Definition LoginRequest : schema := obj [
  ("email", ZString [SEmail]); ("password", ZString [SMin 1; SMax 256]);
  ("mfaCode", ZOptional (ZString [SRegex (rep 6 digit)]))].

Definition TokenPair : schema := obj [
  ("accessToken", str); ("expiresIn", ZNumber [NInt; NPositive]); ("tokenType", ZLiteral "Bearer");
  ("refreshToken", ZOptional str)].

Definition UserProfile : schema := obj [
  ("id", UserId); ("email", ZString [SEmail]); ("fullName", str); ("locale", str);
  ("roles", arr Role); ("mfaEnabled", ZBoolean); ("emailVerified", ZBoolean);
  ("createdAt", Timestamp)].

Definition LoginResponse : schema := obj [("tokens", TokenPair); ("user", UserProfile)].

(** ** catalog-service *)

Definition ProductVariant : schema := obj [
  ("sku", Sku); ("attributes", ZRecord str); ("price", Money); ("listPrice", ZOptional Money);
  ("available", ZNullable (int_min 0)); ("images", ZDefault (arr Image) (VArr []))].

Definition Product : schema := obj [
  ("id", ProductId); ("sku", Sku); ("title", str); ("slug", str);
  ("description", ZDefault str (VStr "")); ("brand", ZNullable str); ("categoryPath", arr str);
  ("attributes", ZRecord str); ("images", arr Image); ("price", Money);
  ("listPrice", ZNullable Money); ("status", ProductStatus);
  ("variants", ZDefault (arr ProductVariant) (VArr []));
  ("rating", ZNullable (ZObject [("average", ZNumber [NMin 0; NMax 5]); ("count", int_min 0)] false));
  ("createdAt", Timestamp); ("updatedAt", Timestamp)].

Definition ProductPage : schema := paginated Product.

Definition CreateProductRequest : schema :=
  strict (partial ["variants"; "attributes"; "images"; "listPrice"]
            (omit ["id"; "createdAt"; "updatedAt"; "rating"; "slug"] Product)).

Definition Category : schema := obj [
  ("id", str); ("slug", str); ("name", str); ("path", arr str); ("parentId", ZNullable str);
  ("productCount", int_min 0)].

(** ** cart-service *)

Definition CartLine : schema := obj [
  ("sku", Sku); ("productId", ProductId); ("title", str); ("image", ZNullable (ZString [SUrl]));
  ("quantity", int_between 1 99); ("unitPrice", Money); ("lineTotal", Money);
  ("priceChanged", flag false)].

Definition Cart : schema := obj [
  ("id", CartId); ("userId", ZNullable UserId); ("lines", arr CartLine);
  ("subtotal", Money); ("discountTotal", Money); ("shippingTotal", Money); ("taxTotal", Money);
  ("total", Money);
  ("appliedCoupons", ZDefault (arr (obj [("code", str); ("discount", Money); ("name", str)])) (VArr []));
  ("rejectedCoupons", ZDefault (arr (obj [("code", str); ("reasonCode", str)])) (VArr []));
  ("currency", str); ("pricingDegraded", flag false); ("rulesVersion", ZNullable str);
  ("version", int_min 0); ("expiresAt", Timestamp); ("updatedAt", Timestamp)].

Definition AddToCartRequest : schema := obj [("sku", Sku); ("quantity", int_between 1 99)].

Definition UpdateCartLineRequest : schema := obj [
  ("quantity", int_between 0 99); ("version", int_min 0)].

Definition normalise_coupon (v : jsval) : jsval :=
  match v with VStr s => VStr (toUpperCase (trim s)) | _ => v end.
Definition ApplyCouponRequest : schema := obj [
  ("code", ZTransform (ZString [SMin 1; SMax 50]) normalise_coupon)].

(** ** order-service *)

Definition order_statuses : list jstr := [
  "PENDING"; "STOCK_RESERVED"; "PAID"; "STOCK_COMMITTED"; "CONFIRMED"; "COMPENSATING";
  "CANCELLED"; "SHIPPED"; "DELIVERED"; "REFUNDED"].
Definition OrderStatus : schema := ZEnum order_statuses.

Definition POINT_OF_NO_RETURN : list jstr := ["PAID"; "STOCK_COMMITTED"; "CONFIRMED"].

Definition isTerminal (s : jstr) : bool :=
  bool_decide (s ∈ ["CONFIRMED"; "CANCELLED"; "SHIPPED"; "DELIVERED"; "REFUNDED"]).

Definition OrderLine : schema := obj [
  ("sku", Sku); ("productId", ProductId); ("title", str); ("image", ZNullable (ZString [SUrl]));
  ("quantity", int_min 1); ("unitPrice", Money); ("lineTotal", Money)].

Definition Order : schema := obj [
  ("id", OrderId); ("userId", UserId); ("status", OrderStatus); ("lines", arr OrderLine);
  ("subtotal", Money); ("discountTotal", Money); ("shippingTotal", Money); ("taxTotal", Money);
  ("total", Money); ("shippingAddress", Address); ("billingAddress", ZNullable Address);
  ("paymentId", ZNullable PaymentId); ("reservationId", ZNullable ReservationId);
  ("cancellationReason", ZNullable CancellationReason); ("trackingNumber", ZNullable str);
  ("rulesVersion", str); ("placedAt", Timestamp); ("updatedAt", Timestamp)].

Definition OrderPage : schema := paginated Order.

Definition CreateOrderRequest : schema := obj [
  ("cartId", CartId); ("cartVersion", int_min 0); ("shippingAddress", Address);
  ("billingAddress", ZOptional Address); ("paymentMethodToken", ZString [SMin 1]);
  ("expectedTotal", Money)].

Definition CreateOrderResponse : schema := obj [
  ("orderId", OrderId); ("status", OrderStatus); ("statusUrl", str);
  ("pollAfterMs", ZDefault (ZNumber [NInt; NPositive]) (vint 500))].

Definition OrderStatusResponse : schema := obj [
  ("orderId", OrderId); ("status", OrderStatus); ("terminal", ZBoolean);
  ("cancellationReason", ZNullable CancellationReason);
  ("unavailable", ZOptional (arr (obj [("sku", str); ("requested", int); ("available", int)])));
  ("updatedAt", Timestamp)].

(** ** search-service *)

Definition SearchFacetValue : schema := obj [
  ("value", str); ("count", int_min 0); ("selected", flag false)].

Definition SearchFacet : schema := obj [
  ("field", str); ("label", str); ("type", ZEnum ["terms"; "range"; "boolean"]);
  ("values", arr SearchFacetValue)].

Definition SearchHit : schema := obj [
  ("productId", ProductId); ("sku", Sku); ("title", str); ("slug", str); ("brand", ZNullable str);
  ("image", ZNullable (ZString [SUrl])); ("price", Money); ("listPrice", ZNullable Money);
  ("rating", ZNullable (ZNumber [NMin 0; NMax 5])); ("ratingCount", ZDefault (int_min 0) (vint 0));
  ("inStock", ZBoolean); ("score", ZNumber []);
  ("highlights", ZOptional (ZRecord (arr str)))].

Definition SearchRequest : schema := obj [
  ("q", ZDefault (ZString [SMax 200]) (VStr ""));
  ("page", ZDefault (ZCoerceNumber [NInt; NMin 1; NMax 100]) (vint 1));
  ("size", ZDefault (ZCoerceNumber [NInt; NMin 1; NMax 100]) (vint 24));
  ("sort", ZDefault (ZEnum ["relevance"; "price_asc"; "price_desc"; "newest"; "rating"])
             (VStr "relevance"));
  ("filters", ZDefault (ZRecord (arr str)) (VObj []));
  ("priceMin", ZOptional (ZCoerceNumber [NInt])); ("priceMax", ZOptional (ZCoerceNumber [NInt]));
  ("inStockOnly", ZDefault ZCoerceBoolean (VBool false))].

Definition SearchResponse : schema := obj [
  ("hits", arr SearchHit); ("total", int_min 0); ("totalIsLowerBound", flag false); ("page", int);
  ("size", int); ("facets", arr SearchFacet); ("tookMs", int); ("didYouMean", ZNullable str);
  ("degraded", flag false)].

Definition SuggestResponse : schema := obj [
  ("suggestions", arr (obj [
     ("text", str); ("type", ZEnum ["query"; "product"; "category"; "brand"]);
     ("productId", ZOptional ProductId);
     ("image", ZOptional (ZNullable (ZString [SUrl])))]))].

(** ** recommendation-service *)

Definition RecommendationRequest : schema := obj [
  ("placement", ZEnum ["home_for_you"; "pdp_similar"; "pdp_frequently_bought_together";
                       "cart_upsell"; "search_reranked"; "email_winback"]);
  ("userId", ZOptional UserId); ("itemId", ZOptional ProductId);
  ("itemIds", ZOptional (ZArray ProductId [AMax 50]));
  ("count", ZDefault (ZCoerceNumber [NInt; NMin 1; NMax 50]) (vint 10));
  ("context", ZOptional (ZRecord str))].

Definition RecommendationResponse : schema := obj [
  ("recommendationId", str); ("placement", str);
  ("items", arr (obj [
     ("productId", ProductId); ("score", ZNullable (ZNumber [])); ("reason", ZNullable str)]));
  ("fallback", flag false); ("fallbackReason", ZNullable str)].

(** ** review-service *)

Definition Review : schema := obj [
  ("id", ReviewId); ("productId", ProductId); ("userId", UserId); ("authorName", str);
  ("rating", int_between 1 5); ("title", ZString [SMax 200]); ("body", ZString [SMax 5000]);
  ("verifiedPurchase", ZBoolean); ("helpfulCount", ZDefault (int_min 0) (vint 0));
  ("images", ZDefault (arr (ZString [SUrl])) (VArr []));
  ("status", ZEnum ["PENDING_MODERATION"; "PUBLISHED"; "REJECTED"]); ("createdAt", Timestamp)].

Definition ReviewPage : schema := paginated Review.

Definition CreateReviewRequest : schema := obj [
  ("productId", ProductId); ("rating", int_between 1 5); ("title", ZString [SMin 1; SMax 200]);
  ("body", ZString [SMin 10; SMax 5000]);
  ("images", ZDefault (ZArray (ZString [SUrl]) [AMax 5]) (VArr []))].

Definition RatingSummary : schema := obj [
  ("productId", ProductId); ("average", ZNumber [NMin 0; NMax 5]); ("count", int_min 0);
  ("distribution", ZTuple [int; int; int; int; int])].

(** ** Administration *)

Definition SagaTrace : schema := obj [
  ("orderId", OrderId); ("status", OrderStatus);
  ("steps", arr (obj [
     ("step", ZEnum ["RESERVE"; "AUTHORIZE"; "COMMIT"; "CAPTURE"; "RELEASE"; "VOID"]);
     ("state", ZEnum ["PENDING"; "SENT"; "ACKED"; "FAILED"; "TIMED_OUT"; "SKIPPED"]);
     ("attempts", int_min 0); ("sentAt", ZNullable Timestamp); ("ackedAt", ZNullable Timestamp);
     ("deadlineAt", ZNullable Timestamp); ("error", ZNullable str); ("eventId", ZNullable str)]));
  ("rollbackForbidden", ZBoolean); ("correlationId", str); ("startedAt", Timestamp);
  ("updatedAt", Timestamp)].

Definition DlqMessage : schema := obj [
  ("id", str); ("originalTopic", str); ("eventId", str); ("eventType", str); ("attempts", int);
  ("reason", str); ("payload", ZUnknown); ("failedAt", Timestamp)].

Definition DashboardKpis : schema := obj [
  ("ordersToday", int); ("revenueToday", Money); ("averageOrderValue", Money);
  ("conversionRate", ZNumber [NMin 0; NMax 1]); ("cartAbandonmentRate", ZNumber [NMin 0; NMax 1]);
  ("stuckSagas", int_min 0); ("dlqDepth", int_min 0); ("p99CheckoutMs", int);
  ("errorBudgetBurn", ZNumber [])].

End Api.
