(* ===== verification/Contracts.v ===== *)
(** * What the contracts guarantee

    Theorems on the schemas, against the interface of Zod: identifiers cannot be
    confused, a message belongs to one topic, and what an accepted value looks
    like. *)
From Stdlib Require Import QArith.
From S2P Require Import Prelude JsNumber JsString JsDate Regex Zod Schemas Events Api.
Local Open Scope js_scope.
Local Open Scope Z_scope.

Module Contracts.
Import Schemas.Schemas.
Import Events.Events.

Section Contracts.
Context `{Zod}.

(** ** Identifiers *)

(** A prefix, an underscore and the 26 letters of a ULID. *)
Definition id_form (prefix s : jstr) : Prop :=
  ∃ u, s = prefix ++ "_" ++ u ∧ length u = 26%nat ∧ Forall (λ c, ulid_unit c = true) u.

Lemma accepts_id p v : accepts (prefixedId p) v ↔ ∃ s, v = VStr s ∧ id_form p s.
Proof.
  unfold prefixedId, id_form. rewrite accepts_regex. setoid_rewrite lang_seq_inv.
  setoid_rewrite lang_lit. setoid_rewrite lang_rep_chr. split.
  - intros (t & -> & (a & b & -> & -> & Hl & Hf)). eexists. split; [done|]. exists b. by rewrite <- app_assoc.
  - intros (t & -> & u & -> & Hl & Hf). eexists. split; [done|]. exists (p ++ "_"), u. by rewrite <- app_assoc.
Qed.

(** What an identifier is of, and what its text begins with. *)
Inductive kind := user | product | stock_unit | order | payment | reservation | cart | review.
Definition schema_of (k : kind) : schema :=
  match k with
  | user => UserId | product => ProductId | stock_unit => Sku | order => OrderId | payment => PaymentId
  | reservation => ReservationId | cart => CartId | review => ReviewId
  end.
Definition prefix_of_kind (k : kind) : jstr :=
  match k with
  | user => "usr" | product => "prd" | stock_unit => "sku" | order => "ord" | payment => "pay"
  | reservation => "rsv" | cart => "crt" | review => "rev"
  end.

(** C8. A stray identifier fails at the edge: each of the eight schemas of
    identifiers accepts exactly the strings of its own three letters, an
    underscore and 26 letters of Crockford's alphabet; what one of them accepts
    no other accepts, so that a user is never taken for a product. *)
Theorem ids_never_confused k k' v :
  (accepts (schema_of k) v ↔ ∃ s, v = VStr s ∧ id_form (prefix_of_kind k) s) ∧
  (accepts (schema_of k) v → accepts (schema_of k') v → k = k').
Proof.
  assert (∀ k, accepts (schema_of k) v ↔ ∃ s, v = VStr s ∧ id_form (prefix_of_kind k) s) as Hk
    by (intros []; apply accepts_id).
  split; [apply Hk|]. rewrite !Hk. intros (s & -> & u & -> & _) (s' & [= Heq] & u' & -> & _).
  assert (length (prefix_of_kind k) = length (prefix_of_kind k')) as Hl by by destruct k, k'.
  apply app_inj_1 in Heq as [Heq _]; [|done]. by destruct k, k'.
Qed.

(** ** Topics *)

Definition options_of (t : Topic) : list schema :=
  match t with
  | orderEvents => order_options
  | orderCommands => command_options
  | inventoryEvents => inventory_options
  | paymentEvents => payment_options
  | catalogEvents => catalog_options
  | userActivity => match UserActivity with ZRefine s _ => [s] | _ => [] end
  | notificationCommands => [NotificationCommand]
  end.

(** The event types a topic carries. *)
Definition types_of (t : Topic) : list jstr := omap (literal_of "type") (options_of t).

Definition all_topics : list Topic := [
  orderEvents; orderCommands; inventoryEvents; paymentEvents; catalogEvents; userActivity;
  notificationCommands].

Lemma types_disjoint t t' ty : ty ∈ types_of t → ty ∈ types_of t' → t = t'.
Proof.
  assert (forallb (λ a, forallb (λ b, bool_decide (a = b) ||
    forallb (λ ty, negb (bool_decide (ty ∈ types_of b))) (types_of a)) all_topics) all_topics = true) as Hall.
  { vm_compute. reflexivity. }
  assert (∀ t, In t all_topics) as Hin by (intros []; cbn; tauto).
  rewrite forallb_forall in Hall. specialize (Hall t (Hin t)).
  rewrite forallb_forall in Hall. specialize (Hall t' (Hin t')).
  intros H1 H2. apply orb_true_iff in Hall as [Hall|Hall]; [by apply bool_decide_eq_true in Hall|].
  rewrite forallb_forall in Hall. specialize (Hall ty). rewrite <- list_elem_of_In in Hall.
  specialize (Hall H1). apply negb_true_iff, bool_decide_eq_false in Hall. done.
Qed.

Notation meaning := (interp is_email is_url is_uuid).

Lemma parse_tagged_inv v ss w :
  parse_tagged meaning "type" v ss = Some w →
  ∃ s, In s ss ∧ tagged "type" v s = true ∧ meaning s v = Some w.
Proof.
  induction ss as [|s ss IH]; cbn; [done|]. destruct (tagged "type" v s) eqn:Ht.
  - intros Hw. exists s. auto.
  - intros Hw. destruct (IH Hw) as (s' & ? & ? & ?). exists s'. auto.
Qed.

Lemma tagged_inv v s :
  tagged "type" v s = true → ∃ ty, prop "type" v = VStr ty ∧ literal_of "type" s = Some ty.
Proof.
  unfold tagged. destruct (prop "type" v) as [| | | |ty| |]; try done.
  destruct (literal_of "type" s) as [ty'|]; [|done]. intros ->%bool_decide_eq_true. eauto.
Qed.

Lemma event_tag type data v :
  accepts (cloudEvent type data) v → prop "type" v = VStr type.
Proof.
  intros (kvs & -> & Hf & _)%accepts_object.
  specialize (Hf "type" (ZLiteral type)). rewrite in_app_iff in Hf.
  specialize (Hf ltac:(right; left; done)). apply accepts_meaning in Hf. cbn -[prop] in Hf.
  destruct (prop "type" (VObj kvs)) as [| | | |t| |]; try by destruct Hf.
  case_decide; [by subst|by destruct Hf].
Qed.

(** An accepted message: which option took it, and its type. *)
Lemma accepted_event t v :
  accepts (SCHEMA_BY_TOPIC t) v →
  ∃ s ty, In s (options_of t) ∧ literal_of "type" s = Some ty ∧ prop "type" v = VStr ty ∧ accepts s v.
Proof.
  assert (∀ ss, accepts (ZDiscriminated "type" ss) v →
    ∃ s ty, In s ss ∧ literal_of "type" s = Some ty ∧ prop "type" v = VStr ty ∧ accepts s v) as Hd.
  { intros ss Ha. apply accepts_meaning in Ha as [w Hw]. cbn in Hw.
    destruct v as [| | | | | |kvs]; try done.
    apply parse_tagged_inv in Hw as (s & Hin & (ty & Hp & Hl)%tagged_inv & Hs).
    exists s, ty. split_and!; [done..|]. apply accepts_meaning. by exists w. }
  destruct t; cbn [SCHEMA_BY_TOPIC options_of]; try apply Hd.
  - intros Ha. assert (accepts (match UserActivity with ZRefine s _ => s | _ => ZUnknown end) v) as Hs.
    { apply accepts_meaning in Ha as [w Hw]. apply accepts_meaning.
      unfold UserActivity in Hw |- *. cbn [interp] in Hw.
      destruct (interp is_email is_url is_uuid (cloudEvent _ _) v); [by eexists|done]. }
    eexists _, _. split; [by left|]. split; [reflexivity|]. split; [|exact Hs].
    eapply event_tag. first [exact Hs|exact Ha].
  - intros Ha. eexists _, _. split; [by left|]. split; [reflexivity|]. split; [|exact Ha].
    eapply event_tag. first [exact Hs|exact Ha].
Qed.

(** A message has one topic: what the schema of a topic accepts carries one of
    that topic's event types, no two topics share a type, so that no message is
    valid on two topics; the dead-letter topics do not collide with any topic. *)
Theorem message_has_one_topic t t' v :
  accepts (SCHEMA_BY_TOPIC t) v → accepts (SCHEMA_BY_TOPIC t') v →
  t = t' ∧ (∃ ty, prop "type" v = VStr ty ∧ ty ∈ types_of t) ∧
  ∀ u u', TOPICS u ≠ dlqFor u' ∧ (TOPICS u = TOPICS u' → u = u').
Proof.
  intros (s & ty & Hin & Hl & Ht & _)%accepted_event (s' & ty' & Hin' & Hl' & Ht' & _)%accepted_event.
  assert (∀ t s ty, In s (options_of t) → literal_of "type" s = Some ty → ty ∈ types_of t) as Hmem.
  { intros t0 s0 ty0 Hi Hl0. apply list_elem_of_omap. exists s0. by rewrite list_elem_of_In. }
  assert (ty' = ty) as -> by congruence.
  split; [by eapply types_disjoint; eauto|]. split; [eauto|].
  intros u u'. split; [destruct u, u'; discriminate|destruct u, u'; (done || discriminate)].
Qed.

(** ** Strict objects *)

(** A field an object schema does not name cannot be present. *)
Lemma strict_absent shape v k :
  accepts (obj shape) v → k ∉ map fst shape → prop k v = VUndef.
Proof.
  intros (kvs & -> & _ & Hk)%accepts_object Hn. cbn.
  destruct (get k kvs) as [x|] eqn:Hg; [|done]. exfalso. apply Hn, Hk; [done|]. by exists x.
Qed.

(** A parsed identifier is the identifier. *)
Lemma parsed_id prefix v w :
  meaning (prefixedId prefix) v = Some w → w = v ∧ accepts (prefixedId prefix) v.
Proof.
  intros Hw. split; [|apply accepts_meaning; by exists w].
  unfold prefixedId in Hw. cbn in Hw. destruct v; try done. destruct (_ && _); congruence.
Qed.

(** The data of an accepted confirmation. *)
Lemma confirmed_data v :
  accepts OrderEvent v → prop "type" v = VStr "souq.order.confirmed.v1" →
  accepts (match field_schema "data" (shape_of OrderConfirmed) with Some s => s | None => ZUnknown end)
    (prop "data" v).
Proof.
  intros Ha Ht. apply (accepted_event orderEvents) in Ha as (s & ty & Hin & Hl & Ht' & Ha).
  assert (s = OrderConfirmed) as ->.
  { rewrite Ht in Ht'. injection Ht' as <-.
    repeat (destruct Hin as [<-|Hin]; [first [reflexivity|discriminate Hl]|]). destruct Hin. }
  apply accepts_object in Ha as (kvs & -> & Hf & _). apply Hf. cbn. tauto.
Qed.

Lemma confirmed_without_items v :
  accepts OrderEvent v → prop "type" v = VStr "souq.order.confirmed.v1" →
  prop "items" (prop "data" v) = VUndef.
Proof.
  intros Ha Ht. pose proof (confirmed_data v Ha Ht) as Hf.
  by eapply strict_absent in Hf; [exact Hf|]; vm_compute; set_solver.
Qed.

(** A confirmation lists no items: an accepted [OrderConfirmed] event has
    exactly the order, user, payment, reservation, total and time, so that its
    data never has an [items] property. *)
Theorem order_confirmed_has_no_items v :
  accepts OrderEvent v → prop "type" v = VStr "souq.order.confirmed.v1" →
  prop "items" (prop "data" v) = VUndef ∧
  (∀ k, is_Some (match prop "data" v with VObj d => get k d | _ => None end) →
     k ∈ ["orderId"; "userId"; "paymentId"; "reservationId"; "total"; "confirmedAt"]).
Proof.
  intros Ha Ht. split; [by apply confirmed_without_items|].
  pose proof (confirmed_data v Ha Ht) as (d & -> & _ & Hk)%accepts_object.
  intros k Hg. by specialize (Hk eq_refl k Hg).
Qed.

(** ** Query strings *)

(** A search for [inStockOnly=false] asks for products in stock only: the
    query string's text is coerced with [Boolean], for which every non-empty
    string is true. *)
Theorem in_stock_false_means_true :
  ∃ w, safeParse Api.SearchRequest (VObj [("inStockOnly", VStr "false")]) = Ok w ∧
       prop "inStockOnly" w = VBool true.
Proof.
  assert (∃ w, meaning Api.SearchRequest (VObj [("inStockOnly", VStr "false")]) = Some w ∧
    prop "inStockOnly" w = VBool true) as (w & Hw & Hp).
  { vm_compute. eexists. split; reflexivity. }
  exists w. split; [by apply safeParse_ok|exact Hp].
Qed.

End Contracts.
End Contracts.
