(* ===== verification/Prog.v ===== *)
(** * Asynchronous programs

    An [async] function is a tree of awaited commands: it returns, throws, or
    awaits a command of the signature [E] and goes on with its outcome, which
    is a value or a rejection.  Synchronous code between two awaits is part of
    the continuation, hence atomic, as it is on the event loop.

    The same program is run in two ways.  [run] executes it alone with a
    functional handler.  [exec] relates it to its possible outcomes when other
    requests are interleaved: before each command the environment may move the
    world by [R], so that a property of [exec] holds for every schedule of
    concurrent requests whose steps [R] contains. *)
From S2P Require Import Prelude.

Section Prog.
Context {E : Type → Type} {X : Type}.

Inductive prog (A : Type) : Type :=
| Ret (a : A)
| Throw (e : X)
| Await {B : Type} (c : E B) (k : result X B → prog A).
Arguments Ret {A} a.
Arguments Throw {A} e.
Arguments Await {A B} c k.

Fixpoint pbind {A B} (p : prog A) (f : A → prog B) : prog B :=
  match p with
  | Ret a => f a
  | Throw e => Throw e
  | Await c k => Await c (λ r, pbind (k r) f)
  end.

(** [try { p } catch (e) { h(e) }] *)
Fixpoint try_catch {A} (p : prog A) (h : X → prog A) : prog A :=
  match p with
  | Ret a => Ret a
  | Throw e => h e
  | Await c k => Await c (λ r, try_catch (k r) h)
  end.

(** A pure computation that may throw. *)
Definition of_result {A} (r : result X A) : prog A :=
  match r with Ok a => Ret a | Err e => Throw e end.

(** [await c]: the rejection is rethrown. *)
Definition await {B} (c : E B) : prog B := Await c of_result.

(** ** Running alone *)

Section Run.
Context {W : Type} (h : ∀ B, E B → W → result X B * W).

Fixpoint run {A} (p : prog A) (w : W) : result X A * W :=
  match p with
  | Ret a => (Ok a, w)
  | Throw e => (Err e, w)
  | Await c k => let '(r, w') := h _ c w in run (k r) w'
  end.

Lemma run_bind {A B} (p : prog A) (f : A → prog B) w :
  run (pbind p f) w =
  match run p w with
  | (Ok a, w') => run (f a) w'
  | (Err e, w') => (Err e, w')
  end.
Proof.
  revert w. induction p as [a|e|C c k IH]; intros w; cbn; [done..|].
  destruct (h C c w) as [r w']. apply IH.
Qed.

Lemma run_try {A} (p : prog A) g w :
  run (try_catch p g) w =
  match run p w with
  | (Ok a, w') => (Ok a, w')
  | (Err e, w') => run (g e) w'
  end.
Proof.
  revert w. induction p as [a|e|C c k IH]; intros w; cbn; [done..|].
  destruct (h C c w) as [r w']. apply IH.
Qed.
End Run.

(** ** What a program can return

    [returns P p]: whatever the commands answer, a value [p] returns has [P]. *)
Fixpoint returns {A} (P : A → Prop) (p : prog A) : Prop :=
  match p with
  | Ret a => P a
  | Throw _ => True
  | Await c k => ∀ r, returns P (k r)
  end.

Lemma returns_bind {A B} (M : A → Prop) (P : B → Prop) (p : prog A) (f : A → prog B) :
  returns M p → (∀ a, M a → returns P (f a)) → returns P (pbind p f).
Proof. intros Hp Hf. induction p as [a|e|C c k IH]; cbn in *; eauto. Qed.

Lemma returns_try {A} (P : A → Prop) (p : prog A) g :
  returns P p → (∀ e, returns P (g e)) → returns P (try_catch p g).
Proof. intros Hp Hg. induction p as [a|e|C c k IH]; cbn in *; eauto. Qed.

Lemma returns_any {A} (p : prog A) : returns (λ _, True) p.
Proof. induction p; cbn; auto. Qed.

Lemma returns_mono {A} (P Q : A → Prop) (p : prog A) : (∀ a, P a → Q a) → returns P p → returns Q p.
Proof. intros HPQ Hp. induction p; cbn in *; auto. Qed.

Lemma returns_run {W} (h : ∀ B, E B → W → result X B * W) {A} (P : A → Prop) (p : prog A) w a w' :
  returns P p → run h p w = (Ok a, w') → P a.
Proof.
  revert w. induction p as [x|e|C c k IH]; intros w Hp; cbn; [by intros [= -> _]|done|].
  destruct (h C c w) as [r w1]. apply IH, Hp.
Qed.

(** ** What a program can await *)
Fixpoint awaits (Q : ∀ B, E B → Prop) {A} (p : prog A) : Prop :=
  match p with
  | Ret _ | Throw _ => True
  | Await c k => Q _ c ∧ ∀ r, awaits Q (k r)
  end.

Lemma awaits_bind (Q : ∀ B, E B → Prop) {A B} (p : prog A) (f : A → prog B) :
  awaits Q p → (∀ a, awaits Q (f a)) → awaits Q (pbind p f).
Proof. intros Hp Hf. induction p as [a|e|C c k IH]; cbn in *; [auto..|]. destruct Hp; eauto. Qed.

(** The same, knowing what the first part returns. *)
Lemma awaits_bind_returns (Q : ∀ B, E B → Prop) {A B} (M : A → Prop) (p : prog A) (f : A → prog B) :
  awaits Q p → returns M p → (∀ a, M a → awaits Q (f a)) → awaits Q (pbind p f).
Proof. intros Hp HM Hf. induction p as [a|e|C c k IH]; cbn in *; [auto..|]. destruct Hp; eauto. Qed.

Lemma awaits_try (Q : ∀ B, E B → Prop) {A} (p : prog A) g :
  awaits Q p → (∀ e, awaits Q (g e)) → awaits Q (try_catch p g).
Proof. intros Hp Hg. induction p as [a|e|C c k IH]; cbn in *; [auto..|]. destruct Hp; eauto. Qed.

Lemma awaits_mono (P Q : ∀ B, E B → Prop) {A} (p : prog A) : (∀ B c, P B c → Q B c) → awaits P p → awaits Q p.
Proof. intros HPQ. induction p as [a|e|B c k IH]; cbn; [done..|]. intros [Hc Hk]. auto. Qed.

Lemma awaits_of_result (Q : ∀ B, E B → Prop) {A} (r : result X A) : awaits Q (of_result r).
Proof. by destruct r. Qed.

Lemma awaits_run {W} (h : ∀ B, E B → W → result X B * W) (Q : ∀ B, E B → Prop) (I : W → Prop)
    {A} (p : prog A) w :
  (∀ B (c : E B) w, Q B c → I w → I (h B c w).2) → awaits Q p → I w → I (run h p w).2.
Proof.
  intros Hh. revert w. induction p as [a|e|C c k IH]; intros w; cbn; [done..|].
  intros [Hc Hk] Hw. specialize (Hh C c w Hc Hw). destruct (h C c w) as [r w1]. by apply IH.
Qed.

(** ** Protocols

    [follows s p Q T]: from the state [s] of a protocol, [p] awaits only what the
    protocol allows, whatever of the [possible] the commands answer; it ends in a state with [Q],
    or throws in one with [T]. *)
Section Follows.
Context {S : Type} (allowed : S → ∀ B, E B → Prop) (possible : ∀ B, E B → result X B → Prop).
Context (next : S → ∀ B, E B → result X B → S).

Fixpoint follows {A} (s : S) (p : prog A) (Q : A → S → Prop) (T : X → S → Prop) : Prop :=
  match p with
  | Ret a => Q a s
  | Throw e => T e s
  | Await c k => allowed s _ c ∧ ∀ r, possible _ c r → follows (next s _ c r) (k r) Q T
  end.

Lemma follows_mono {A} (p : prog A) s (Q Q' : A → S → Prop) (T T' : X → S → Prop) :
  follows s p Q T → (∀ a s, Q a s → Q' a s) → (∀ e s, T e s → T' e s) → follows s p Q' T'.
Proof. intros Hp HQ HT. revert s Hp. induction p as [a|e|C c k IH]; cbn; naive_solver. Qed.

Lemma follows_bind {A B} (p : prog A) (f : A → prog B) s Q T :
  follows s p (λ a s', follows s' (f a) Q T) T → follows s (pbind p f) Q T.
Proof. revert s. induction p as [a|e|C c k IH]; cbn; naive_solver. Qed.

Lemma follows_try {A} (p : prog A) g s Q T :
  follows s p Q (λ e s', follows s' (g e) Q T) → follows s (try_catch p g) Q T.
Proof. revert s. induction p as [a|e|C c k IH]; cbn; naive_solver. Qed.

Lemma follows_of_result {A} (r : result X A) s (Q : A → S → Prop) (T : X → S → Prop) :
  match r with Ok a => Q a s | Err e => T e s end → follows s (of_result r) Q T.
Proof. by destruct r. Qed.
End Follows.

(** ** Running with interference *)

Section Exec.
Context {W : Type} (R : W → W → Prop).
Context (H : ∀ B, E B → W → result X B → W → Prop).

Fixpoint exec {A} (p : prog A) (w : W) (res : result X A) (w' : W) : Prop :=
  match p with
  | Ret a => res = Ok a ∧ w' = w
  | Throw e => res = Err e ∧ w' = w
  | Await c k => ∃ w1 r w2, R w w1 ∧ H _ c w1 r w2 ∧ exec (k r) w2 res w'
  end.

Lemma exec_bind {A B} (p : prog A) (f : A → prog B) w res w' :
  exec (pbind p f) w res w' ↔
  (∃ a w1, exec p w (Ok a) w1 ∧ exec (f a) w1 res w') ∨
  (∃ e, res = Err e ∧ exec p w (Err e) w').
Proof.
  revert w. induction p as [a|e|C c k IH]; intros w; cbn.
  - naive_solver.
  - naive_solver.
  - split.
    + intros (w1 & r & w2 & HR & HH & [(a & w3 & ?)|(e & ?)]%IH); naive_solver.
    + intros [(a & w3 & (w1 & r & w2 & ?) & ?)|(e & ? & (w1 & r & w2 & ?))];
        exists w1, r, w2; rewrite IH; naive_solver.
Qed.

Lemma exec_try {A} (p : prog A) g w res w' :
  exec (try_catch p g) w res w' ↔
  (∃ a, res = Ok a ∧ exec p w (Ok a) w') ∨
  (∃ e w1, exec p w (Err e) w1 ∧ exec (g e) w1 res w').
Proof.
  revert w. induction p as [a|e|C c k IH]; intros w; cbn.
  - naive_solver.
  - naive_solver.
  - split.
    + intros (w1 & r & w2 & HR & HH & [(a & ?)|(e & w3 & ?)]%IH); naive_solver.
    + intros [(a & ? & (w1 & r & w2 & ?))|(e & w3 & (w1 & r & w2 & ?) & ?)];
        exists w1, r, w2; rewrite IH; naive_solver.
Qed.

Lemma exec_of_result {A} (r : result X A) w res w' :
  exec (of_result r) w res w' ↔ res = r ∧ w' = w.
Proof. destruct r; done. Qed.

Lemma exec_await {B} (c : E B) w res w' :
  exec (await c) w res w' ↔ ∃ w1, R w w1 ∧ H _ c w1 res w'.
Proof.
  cbn. setoid_rewrite exec_of_result. split; [naive_solver|].
  intros (w1 & ? & ?). exists w1, res, w'. auto.
Qed.

(** What the environment and every command preserve, a program preserves. *)
Lemma exec_invariant (I : W → Prop) {A} (p : prog A) w res w' :
  (∀ w1 w2, R w1 w2 → I w1 → I w2) →
  (∀ B (c : E B) w1 r w2, H _ c w1 r w2 → I w1 → I w2) →
  exec p w res w' → I w → I w'.
Proof.
  intros HR HH. revert w. induction p as [a|e|C c k IH]; intros w; cbn.
  - naive_solver.
  - naive_solver.
  - intros (w1 & r & w2 & H1 & H2 & H3) Hw. eauto.
Qed.
End Exec.

(** A run is an execution in which the environment stays still. *)
Lemma run_exec {W} (h : ∀ B, E B → W → result X B * W) {A} (p : prog A) w :
  exec eq (λ B c w1 r w2, h B c w1 = (r, w2)) p w (run h p w).1 (run h p w).2.
Proof.
  revert w. induction p as [a|e|C c k IH]; intros w; cbn; [done..|].
  exists w. destruct (h C c w) as [r w2] eqn:Hh. exists r, w2. auto.
Qed.

Lemma exec_mono {W} (R R' : W → W → Prop)
    (H H' : ∀ B, E B → W → result X B → W → Prop) {A} (p : prog A) w res w' :
  (∀ a b, R a b → R' a b) → (∀ B c a r b, H B c a r b → H' B c a r b) →
  exec R H p w res w' → exec R' H' p w res w'.
Proof.
  intros HR HH. revert w. induction p as [a|e|C c k IH]; intros w; cbn; naive_solver.
Qed.
End Prog.

Arguments prog E X A : clear implicits.
Arguments Ret {E X A} a.
Arguments Throw {E X A} e.
Arguments Await {E X A B} c k.

#[export] Instance prog_ret E X : MRet (prog E X) := λ A a, Ret a.
#[export] Instance prog_bind E X : MBind (prog E X) := λ A B f p, pbind p f.

(** [for (x of l) p(x)] over an accumulator. *)
Fixpoint foldM {E X A B} (f : A → B → prog E X A) (a : A) (l : list B) : prog E X A :=
  match l with
  | [] => Ret a
  | b :: r => pbind (f a b) (λ a', foldM f a' r)
  end.

Lemma exec_mbind {E X W R} {H : ∀ B, E B → W → result X B → W → Prop} {A B}
    (p : prog E X A) (f : A → prog E X B) w res w' :
  exec R H (p ≫= f) w res w' ↔
  (∃ a w1, exec R H p w (Ok a) w1 ∧ exec R H (f a) w1 res w') ∨
  (∃ e, res = Err e ∧ exec R H p w (Err e) w').
Proof. apply exec_bind. Qed.

Lemma run_mbind {E X W} {h : ∀ B, E B → W → result X B * W} {A B}
    (p : prog E X A) (f : A → prog E X B) w :
  run h (p ≫= f) w =
  match run h p w with (Ok a, w') => run h (f a) w' | (Err e, w') => (Err e, w') end.
Proof. apply run_bind. Qed.

(** A normal end of a sequence is a normal end of both parts. *)
Lemma run_mbind_ok {E X W} {h : ∀ B, E B → W → result X B * W} {A B}
    (p : prog E X A) (f : A → prog E X B) w b w' :
  run h (p ≫= f) w = (Ok b, w') → ∃ a w1, run h p w = (Ok a, w1) ∧ run h (f a) w1 = (Ok b, w').
Proof. rewrite run_mbind. destruct (run h p w) as [[a|e] w1]; [eauto|done]. Qed.

Lemma run_of_result {E X W} {h : ∀ B, E B → W → result X B * W} {A} (r : result X A) w :
  run h (of_result (E := E) r) w = (r, w).
Proof. by destruct r. Qed.

Lemma run_await {E X W} {h : ∀ B, E B → W → result X B * W} {B} (c : E B) w :
  run h (await c) w = h B c w.
Proof. cbn. destruct (h B c w) as [[a|e] w']; done. Qed.

(** ** Triples

    [triple R H P p Q E]: from a world satisfying [P], whatever the environment
    does between the commands, a normal end satisfies [Q] and a throw [E]. *)
Section Triple.
Context {E : Type → Type} {X W : Type} (R : W → W → Prop).
Context (H : ∀ B, E B → W → result X B → W → Prop).

Definition triple {A} (P : W → Prop) (p : prog E X A) (Q : A → W → Prop) (T : X → W → Prop) : Prop :=
  ∀ w res w', P w → exec R H p w res w' →
    match res with Ok a => Q a w' | Err e => T e w' end.

Lemma triple_ret {A} (a : A) P (Q : A → W → Prop) T : (∀ w, P w → Q a w) → triple P (Ret a) Q T.
Proof. intros HQ w res w' HP [-> ->]. auto. Qed.

Lemma triple_throw {A} e P (Q : A → W → Prop) (T : X → W → Prop) :
  (∀ w, P w → T e w) → triple P (Throw e) Q T.
Proof. intros HQ w res w' HP [-> ->]. auto. Qed.

Lemma triple_bind {A B} P (p : prog E X A) (f : A → prog E X B) (M : A → W → Prop) Q T :
  triple P p M T → (∀ a, triple (M a) (f a) Q T) → triple P (p ≫= f) Q T.
Proof.
  intros Hp Hf w res w' HP [(a & w1 & H1 & H2)|(e & -> & H1)]%exec_mbind.
  - exact (Hf a _ _ _ (Hp _ _ _ HP H1) H2).
  - exact (Hp _ _ _ HP H1).
Qed.

Lemma triple_try {A} P (p : prog E X A) g (Q : A → W → Prop) (M T : X → W → Prop) :
  triple P p Q M → (∀ e, triple (M e) (g e) Q T) → triple P (try_catch p g) Q T.
Proof.
  intros Hp Hg w res w' HP [(a & -> & H1)|(e & w1 & H1 & H2)]%exec_try.
  - exact (Hp _ _ _ HP H1).
  - exact (Hg e _ _ _ (Hp _ _ _ HP H1) H2).
Qed.

Lemma triple_Await {A B} P (c : E B) (k : result X B → prog E X A) (M : result X B → W → Prop) Q T :
  (∀ w w1 r w2, P w → R w w1 → H _ c w1 r w2 → M r w2) →
  (∀ r, triple (M r) (k r) Q T) → triple P (Await c k) Q T.
Proof.
  intros Hc Hk w res w' HP (w1 & r & w2 & H1 & H2 & H3). eapply Hk; [|exact H3]. eauto.
Qed.

Lemma triple_await {B} P (c : E B) (Q : B → W → Prop) (T : X → W → Prop) :
  (∀ w w1 r w2, P w → R w w1 → H _ c w1 r w2 →
     match r with Ok a => Q a w2 | Err e => T e w2 end) →
  triple P (await c) Q T.
Proof. intros Hc w res w' HP (w1 & H1 & H2)%exec_await. exact (Hc _ _ _ _ HP H1 H2). Qed.

Lemma triple_of_result {A} (r : result X A) P (Q : A → W → Prop) (T : X → W → Prop) :
  (∀ w, P w → match r with Ok a => Q a w | Err e => T e w end) → triple P (of_result r) Q T.
Proof. intros HQ w res w' HP [-> ->]%exec_of_result. exact (HQ _ HP). Qed.

Lemma triple_weaken {A} (P P' : W → Prop) (p : prog E X A) (Q Q' : A → W → Prop) (T T' : X → W → Prop) :
  triple P p Q T → (∀ w, P' w → P w) → (∀ a w, Q a w → Q' a w) → (∀ e w, T e w → T' e w) →
  triple P' p Q' T'.
Proof.
  intros Hp HP HQ HT w res w' HPw Hx. pose proof (Hp _ _ _ (HP _ HPw) Hx). destruct res; [apply HQ|apply HT]; done.
Qed.

(** A pure fact carried in the precondition. *)
Lemma triple_pure {A} (φ : Prop) P (p : prog E X A) Q T :
  (φ → triple P p Q T) → triple (λ w, φ ∧ P w) p Q T.
Proof. intros Hp w res w' [Hφ HP]. by apply Hp. Qed.
End Triple.
