(* ===== verification/Primitives.v ===== *)
(** * [@souq/contracts], primitives

    [libs/ts-contracts/src/primitives.ts] without its Zod schemas: money and
    the error codes; then what the schema of problem documents accepts. *)
From Stdlib Require Import QArith Qround.
From S2P Require Import Prelude JsNumber JsString JsDate Regex Zod Schemas.
Local Open Scope js_scope.
Local Open Scope Z_scope.

(** ** Money: minor units and an ISO-4217 code *)

Record Money := { amount : num; currency : jstr }.

Definition addMoney (a b : Money) : result jstr Money :=
  if decide (currency a ≠ currency b)
  then Err ("cannot add " ++ currency a ++ " to " ++ currency b)
  else Ok {| amount := nadd (amount a) (amount b); currency := currency a |}.

Definition multiplyMoney (m : Money) (qty : num) : result jstr Money :=
  if negb (is_integer qty) then Err "quantity must be an integer"
  else Ok {| amount := nmul (amount m) qty; currency := currency m |}.

Definition zeroMoney (currency : jstr) : Money := {| amount := jint 0; currency := currency |}.

(** [formatMoney]; [Intl.NumberFormat] is the locale database of the engine
    and stays a parameter. *)
Definition formatMoney (intl_currency : jstr → jstr → num → jstr) (m : Money) (locale : jstr) : jstr :=
  intl_currency locale (currency m) (ndiv (amount m) (jint 100)).

(** ** Error codes *)

Definition ERROR_CODES : list jstr := [
  "VALIDATION_FAILED"; "UNSUPPORTED_CURRENCY"; "WEAK_PASSWORD";
  "UNAUTHENTICATED"; "TOKEN_EXPIRED"; "REFRESH_TOKEN_REUSED"; "FORBIDDEN"; "MFA_REQUIRED";
  "PRODUCT_NOT_FOUND"; "ORDER_NOT_FOUND"; "CART_NOT_FOUND";
  "INVENTORY_INSUFFICIENT_STOCK"; "IDEMPOTENCY_KEY_REUSE"; "REQUEST_IN_PROGRESS";
  "CART_STALE"; "ORDER_NOT_CANCELLABLE";
  "ACCOUNT_LOCKED"; "RATE_LIMITED";
  "PAYMENT_DECLINED"; "PAYMENT_REQUIRES_ACTION";
  "UPSTREAM_UNAVAILABLE"; "UPSTREAM_TIMEOUT"; "INTERNAL_ERROR"
].

Definition isErrorCode (v : jstr) : bool := bool_decide (v ∈ ERROR_CODES).

(** ** Money of integer minor units *)

#[export] Instance num_eq_dec : EqDecision num.
Proof.
  intros x y. unfold Decision. decide equality; try apply bool_dec.
  destruct q as [a b], q0 as [a' b'].
  destruct (Z.eq_dec a a'), (Pos.eq_dec b b'); subst; auto; right; congruence.
Defined.
#[export] Instance Money_eq_dec : EqDecision Money.
Proof. solve_decision. Defined.

(** An amount of [z] minor units. *)
Definition minor (z : Z) (c : jstr) : Money := {| amount := jint z; currency := c |}.

Lemma addMoney_minor (a b : Z) (c : jstr) :
  Z.abs (a + b) < 2 ^ 53 → addMoney (minor a c) (minor b c) = Ok (minor (a + b) c).
Proof.
  intros H. unfold addMoney, minor. cbn [currency amount].
  rewrite decide_False by auto. by rewrite jint_add.
Qed.

Lemma multiplyMoney_minor (a q : Z) (c : jstr) :
  Z.abs (a * q) < 2 ^ 53 → multiplyMoney (minor a c) (jint q) = Ok (minor (a * q) c).
Proof.
  intros H. unfold multiplyMoney, minor. rewrite is_integer_jint. cbn [negb currency amount].
  by rewrite jint_mul.
Qed.

Lemma addMoney_currency (a b : Money) :
  is_ok (addMoney a b) = bool_decide (currency a = currency b).
Proof.
  unfold addMoney. case_decide; case_bool_decide; naive_solver.
Qed.

(** ** The fields of a problem document

    Times, statuses and codes the contract's [ProblemDetails] accepts; shared by
    the services and the storefront. *)

Import Schemas.Schemas.

Section Problems.
Context `{Zod}.

Lemma lang_digits n z : lang (rep n digit) (digits n z).
Proof.
  apply lang_rep_chr. split; [apply digits_length|]. eapply Forall_impl; [apply digits_are|].
  intros c Hc. exact Hc.
Qed.

Lemma accepts_timestamp t : clock_ok t → accepts Timestamp (VStr (toISOString t)).
Proof.
  intros Ht. destruct (iso_shape t Ht) as (y & mo & d & h & mi & s & ms & ->).
  apply accepts_regex. eexists. split; [done|].
  replace (digits 4 y ++ "-" ++ digits 2 mo ++ "-" ++ digits 2 d ++ "T" ++ digits 2 h ++ ":" ++
    digits 2 mi ++ ":" ++ digits 2 s ++ "." ++ digits 3 ms ++ "Z")
    with ((digits 4 y ++ "-" ++ digits 2 mo ++ "-" ++ digits 2 d) ++ "T" ++
      (digits 2 h ++ ":" ++ digits 2 mi ++ ":" ++ digits 2 s) ++ ("." ++ digits 3 ms) ++ "Z")
    by by rewrite <- !app_assoc.
  constructor.
  { constructor; [apply lang_digits|]. apply (lang_seq _ _ "-"); [by constructor|].
    constructor; [apply lang_digits|]. apply (lang_seq _ _ "-"); [by constructor|apply lang_digits]. }
  constructor; [by apply lang_lit|]. constructor.
  { constructor; [apply lang_digits|]. constructor; [by apply lang_lit|].
    constructor; [apply lang_digits|]. constructor; [by apply lang_lit|apply lang_digits]. }
  constructor; [|by apply lang_lit]. apply lang_alt_r. constructor; [by apply lang_lit|].
  pose proof (digits_length 3 ms) as Hl. pose proof (digits_are 3 ms) as Hf.
  destruct (digits 3 ms) as [|a [|b [|c [|? ?]]]]; try done.
  inversion_clear Hf as [|? ? Ha Hf']. inversion_clear Hf' as [|? ? Hb Hf]. inversion_clear Hf as [|? ? Hc _].
  apply (lang_seq _ _ [a]); [by constructor|].
  apply lang_alt_r, (lang_seq _ _ [b]); [by constructor|].
  apply lang_alt_r, (lang_seq _ _ [c]); [by constructor|].
  apply lang_alt_l. constructor.
Qed.

(** The fields every problem document has. *)
Lemma accepts_int_between a b z : a <= z <= b → accepts (int_between a b) (vint z).
Proof.
  intros Hz. apply accepts_number. exists (jint z). split; [done|]. split; [done|].
  cbn [forallb check_number]. rewrite is_integer_jint, !nle_jint.
  by destruct (Z.leb_spec a z), (Z.leb_spec z b); try lia.
Qed.

Lemma accepts_status z : 100 <= z <= 599 → accepts (int_between 100 599) (vint z).
Proof. apply accepts_int_between. Qed.

Lemma accepts_code c : c ∈ ERROR_CODES → accepts (ZString [SRegex code_regex]) (VStr c).
Proof.
  intros Hc. apply accepts_string. exists c. split; [done|]. cbn. rewrite andb_true_r.
  assert (forallb (matches code_regex) ERROR_CODES = true) as Hall by (vm_compute; reflexivity).
  rewrite forallb_forall in Hall. apply Hall. by rewrite <- list_elem_of_In.
Qed.
End Problems.
