(* ===== verification/CircuitBreaker.v ===== *)
(** * The rolling-window circuit breaker

    [services/cart-service/src/circuit-breaker.ts].  The injected clock is an
    argument of the operations that read it, and the three callbacks are the
    notifications an operation emits. *)
From Stdlib Require Import QArith.
From S2P Require Import Prelude JsNumber.
Local Open Scope Z_scope.

Module CircuitBreaker.

Inductive BreakerState := closed | open | half_open.
#[export] Instance BreakerState_eq_dec : EqDecision BreakerState.
Proof. solve_decision. Defined.

(** The resolved options of the constructor. *)
Record options := {
  windowSize : Z;
  failureThreshold : num;
  probeAfterMs : Z
}.

(** [options.windowSize ?? 20] and so on. *)
Definition make_options (w : option Z) (t : option num) (p : option Z) : options := {|
  windowSize := default 20 w;
  failureThreshold := default (Fin (1 # 2)) t;
  probeAfterMs := default 10000 p
|}.

Record breaker := {
  state : BreakerState;
  failures : list bool;
  openedAt : Z
}.

Definition init : breaker := {| state := closed; failures := []; openedAt := 0 |}.

Inductive notification := onOpen (failureRate : num) | onClose | onHalfOpen.

(** [allow()]: whether a call may proceed. *)
Definition allow (o : options) (now : Z) (b : breaker) : bool * breaker * list notification :=
  match state b with
  | closed => (true, b, [])
  | open =>
      if now - openedAt b <? probeAfterMs o then (false, b, [])
      else (true, {| state := half_open; failures := failures b; openedAt := openedAt b |},
            [onHalfOpen])
  | half_open => (false, b, [])
  end.

(** [this.failures.push(!success); if (length > windowSize) shift()]. *)
Definition push (o : options) (success : bool) (fs : list bool) : list bool :=
  let fs' := fs ++ [negb success] in
  if windowSize o <? Z.of_nat (length fs') then tail fs' else fs'.

(** [failures.filter(Boolean).length]. *)
Definition count_failures (fs : list bool) : Z := Z.of_nat (length (filter (λ f, f = true) fs)).

Definition rate (fs : list bool) : num :=
  ndiv (jint (count_failures fs)) (jint (Z.of_nat (length fs))).

(** [record(success)]. *)
Definition record (o : options) (now : Z) (success : bool) (b : breaker)
  : breaker * list notification :=
  match state b with
  | half_open =>
      if success then ({| state := closed; failures := []; openedAt := openedAt b |}, [onClose])
      else ({| state := open; failures := failures b; openedAt := now |}, [onOpen (jint 1)])
  | _ =>
      let fs := push o success (failures b) in
      let b' := {| state := state b; failures := fs; openedAt := openedAt b |} in
      if Z.of_nat (length fs) <? windowSize o then (b', [])
      else if nle (failureThreshold o) (rate fs) && bool_decide (state b = closed)
      then ({| state := open; failures := fs; openedAt := now |}, [onOpen (rate fs)])
      else (b', [])
  end.

(** ** Traces *)

(** What the client does to the breaker, with the clock at that moment. *)
Inductive op :=
| Allow (now : Z)
| Record_ (now : Z) (success : bool).

Definition step (o : options) (b : breaker) (x : op) : breaker :=
  match x with
  | Allow now => (allow o now b).1.2
  | Record_ now s => (record o now s b).1
  end.
Definition steps (o : options) : breaker → list op → breaker := foldl (step o).

Definition is_record (x : op) : bool := match x with Record_ _ _ => true | _ => false end.

(** The answers [allow] gave along a trace. *)
Fixpoint admitted (o : options) (b : breaker) (l : list op) : nat :=
  match l with
  | [] => 0
  | x :: r =>
      (match x with
       | Allow now => if (allow o now b).1.1 then 1 else 0
       | _ => 0
       end + admitted o (step o b x) r)%nat
  end.

(** ** Lemmas *)

Definition wf (o : options) (b : breaker) : Prop :=
  Z.of_nat (length (failures b)) <= windowSize o.

Lemma push_length o s fs : 1 <= windowSize o → Z.of_nat (length fs) <= windowSize o →
  Z.of_nat (length (push o s fs)) = Z.min (Z.of_nat (length fs) + 1) (windowSize o).
Proof.
  intros Hw Hl. unfold push. destruct (Z.ltb_spec (windowSize o) (Z.of_nat (length (fs ++ [negb s])))) as [H|H];
    rewrite length_app in H; cbn in H.
  - destruct fs as [|f fs]; cbn in *; [lia|]. rewrite length_app; cbn. lia.
  - rewrite length_app; cbn. lia.
Qed.

Lemma count_failures_bound fs : 0 <= count_failures fs <= Z.of_nat (length fs).
Proof. unfold count_failures. pose proof (length_filter (λ f, f = true) fs). lia. Qed.

Lemma step_wf o b x : 1 <= windowSize o → wf o b → wf o (step o b x).
Proof.
  unfold wf. intros Hw H. destruct x as [now|now s]; cbn.
  - unfold allow. repeat dmatch; done.
  - unfold record. pose proof (push_length o s (failures b) Hw H).
    repeat dmatch; cbn in *; lia.
Qed.

Lemma steps_wf o b l : 1 <= windowSize o → wf o b → wf o (steps o b l).
Proof.
  intros Hw. revert b. induction l as [|x l IH]; intros b H; [done|].
  apply IH, step_wf; auto.
Qed.

Lemma half_open_refuses o b now : state b = half_open → allow o now b = (false, b, []).
Proof. unfold allow. by intros ->. Qed.

Lemma half_open_stays o b l : state b = half_open → forallb (negb ∘ is_record) l = true →
  admitted o b l = 0%nat ∧ steps o b l = b.
Proof.
  intros Hs. induction l as [|[now|now s] l IH]; cbn; [done| |done].
  rewrite half_open_refuses by done. cbn. auto.
Qed.

Lemma open_no_record_state o b l : state b = open → forallb (negb ∘ is_record) l = true →
  (admitted o b l <= 1)%nat.
Proof.
  revert b. induction l as [|[now|now s] l IH]; intros b Hs; cbn; [lia| |done].
  intros Hl. unfold allow. rewrite Hs.
  destruct (_ <? _); cbn; [by apply IH|].
  match goal with |- context [admitted o ?b' l] =>
    rewrite (proj1 (half_open_stays o b' l eq_refl Hl)) end. lia.
Qed.

Lemma record_closed_opens o now s b : state b = closed →
  state (record o now s b).1 = open ↔
  windowSize o <= Z.of_nat (length (push o s (failures b))) ∧
  nle (failureThreshold o) (rate (push o s (failures b))) = true.
Proof.
  intros Hs. unfold record. rewrite Hs. rewrite bool_decide_true by done.
  destruct (Z.ltb_spec (Z.of_nat (length (push o s (failures b)))) (windowSize o)); cbn.
  - split; [done|lia].
  - destruct (nle _ _); cbn; naive_solver.
Qed.

(** Closed traces only grow the window, one entry per record. *)
Lemma short_trace_closed o b l : 1 <= windowSize o → state b = closed →
  Z.of_nat (length (failures b)) + Z.of_nat (length (List.filter is_record l)) < windowSize o →
  state (steps o b l) = closed ∧
  Z.of_nat (length (failures (steps o b l))) =
    Z.of_nat (length (failures b)) + Z.of_nat (length (List.filter is_record l)).
Proof.
  intros Hw. revert b. induction l as [|[now|now s] l IH]; intros b Hs Hl; cbn in *.
  - split; [done|lia].
  - unfold allow. rewrite Hs. cbn. auto.
  - pose proof (push_length o s (failures b) Hw ltac:(lia)) as Hp.
    assert (record o now s b =
      ({| state := closed; failures := push o s (failures b); openedAt := openedAt b |}, [])) as Hr.
    { unfold record. rewrite Hs.
      destruct (Z.ltb_spec (Z.of_nat (length (push o s (failures b)))) (windowSize o)); [done|lia]. }
    rewrite Hr. edestruct (IH {| state := closed; failures := push o s (failures b);
      openedAt := openedAt b |}) as [H1 H2]; [done|cbn; lia|]. split; [done|]. cbn in *. lia.
Qed.

(** A trace is denied as long as the probe delay has not passed. *)
Definition before (t : Z) (x : op) : bool :=
  match x with Allow now => now <? t | Record_ _ _ => false end.

Lemma open_denies o b l : state b = open →
  forallb (before (openedAt b + probeAfterMs o)) l = true →
  admitted o b l = 0%nat ∧ steps o b l = b.
Proof.
  intros Hs. induction l as [|[now|now s] l IH]; cbn; [done| |done].
  intros [Hn Hl]%andb_true_iff. unfold allow. rewrite Hs.
  destruct (Z.ltb_spec (now - openedAt b) (probeAfterMs o)); zbool; [|lia]. cbn. auto.
Qed.

(** ** Properties *)

(** With the default threshold, a record on a closed breaker opens it exactly
    when the window is then full and at least half of it are failures; the
    binary64 division [failures / length] never changes that decision. *)
Theorem opens_iff_half_failed (o : options) (now : Z) (s : bool) (b : breaker) :
  failureThreshold o = Fin (1 # 2) → 1 <= windowSize o < 2 ^ 50 →
  wf o b → state b = closed →
  state (record o now s b).1 = open ↔
  Z.of_nat (length (push o s (failures b))) = windowSize o ∧
  windowSize o <= 2 * count_failures (push o s (failures b)).
Proof.
  intros Ht Hw Hwf Hs. rewrite record_closed_opens by done. rewrite Ht.
  pose proof (push_length o s (failures b) (proj1 Hw) Hwf) as Hp.
  pose proof (count_failures_bound (push o s (failures b))) as Hc.
  unfold rate. rewrite ge_half_exact by (unfold wf in Hwf; lia).
  rewrite Z.leb_le. lia.
Qed.

Lemma opens_iff_half_failed_witness :
  state (record (make_options None None None) 7 false
    {| state := closed; failures := replicate 10 false ++ replicate 9 true; openedAt := 0 |}).1
  = open.
Proof.
  apply (opens_iff_half_failed (make_options None None None)).
  - reflexivity.
  - vm_compute; split; [discriminate|reflexivity].
  - unfold wf. vm_compute. discriminate.
  - reflexivity.
  - split; vm_compute; [reflexivity|discriminate].
Defined.

(** C6. Half-open admits exactly one probe: from an open breaker, any trace of
    calls that reports no outcome admits at most one of them, whatever the
    clock does; once half-open, none. *)
Theorem single_probe (o : options) (b : breaker) (l : list op) :
  state b ≠ closed → forallb (negb ∘ is_record) l = true →
  (admitted o b l <= if decide (state b = open) then 1 else 0)%nat.
Proof.
  intros Hs Hl. case_decide as Ho.
  - by apply open_no_record_state.
  - destruct (state b) eqn:E; try done. by rewrite (proj1 (half_open_stays o b l E Hl)).
Qed.

Lemma single_probe_witness :
  (admitted (make_options None None None)
     {| state := open; failures := []; openedAt := 0%Z |}
     [Allow 9999; Allow 10000; Allow 10001; Allow 99999] <= 1)%nat.
Proof. apply (single_probe (make_options None None None)
     {| state := open; failures := []; openedAt := 0%Z |}); [discriminate|reflexivity]. Defined.

(** The probe decides: its success closes the breaker on an empty window, its
    failure opens it again and no call is admitted before the probe delay has
    passed since. *)
Theorem probe_outcome (o : options) (now : Z) (b : breaker) (l : list op) :
  state b = half_open → forallb (before (now + probeAfterMs o)) l = true →
  (record o now true b =
     ({| state := closed; failures := []; openedAt := openedAt b |}, [onClose])) ∧
  (let b' := (record o now false b).1 in
   state b' = open ∧ failures b' = failures b ∧ admitted o b' l = 0%nat).
Proof.
  intros Hs Hl. unfold record. rewrite Hs. split; [done|]. cbn.
  split; [done|]. split; [done|]. by apply (open_denies o).
Qed.

Lemma probe_outcome_witness :
  let b := {| state := half_open; failures := [true]; openedAt := 0%Z |} in
  admitted (make_options None None None) (record (make_options None None None) 500 false b).1
    [Allow 501; Allow 10499] = 0%nat.
Proof.
  apply (probe_outcome (make_options None None None) 500
    {| state := half_open; failures := [true]; openedAt := 0%Z |} [Allow 501; Allow 10499]);
    reflexivity.
Defined.

(** Only a full window is judged: from a freshly constructed breaker, or one
    whose window was just reset, fewer than [windowSize] outcomes leave it
    closed however many of them are failures. *)
Theorem partial_window_never_opens (o : options) (b : breaker) (l : list op) :
  1 <= windowSize o → state b = closed → failures b = [] →
  Z.of_nat (length (List.filter is_record l)) < windowSize o →
  state (steps o b l) = closed.
Proof.
  intros Hw Hs Hf Hl. apply short_trace_closed; [done..|]. rewrite Hf. cbn. lia.
Qed.

Lemma partial_window_never_opens_witness :
  state (steps (make_options None None None) init (replicate 19 (Record_ 0 false))) = closed.
Proof.
  apply (partial_window_never_opens (make_options None None None) init).
  - vm_compute. discriminate.
  - reflexivity.
  - reflexivity.
  - vm_compute. reflexivity.
Defined.

End CircuitBreaker.
