(* ===== verification/Redis.v ===== *)
(** * The Redis interface cart-service relies on

    Redis and its client are not part of the repository.  [RedisServer] lists
    the commands the carts are stored with and [RedisLaws] their documented
    effect on hashes, strings and the script cache; nothing else about the
    server is assumed.  [redis_model] is a small server that satisfies the laws
    and that the examples evaluate. *)
From S2P Require Import Prelude JsString.
Local Open Scope js_scope.

Class RedisServer (R : Type) := {
  (** HGET key field, HSET key field value ..., EXPIRE key seconds *)
  hget : jstr → jstr → R → option jstr;
  hset : jstr → list (jstr * jstr) → R → R;
  expire : jstr → jstr → R → R;
  (** GET key, SET key value EX seconds, DEL key *)
  rget : jstr → R → option jstr;
  rset : jstr → jstr → Z → R → R;
  rdel : jstr → R → R;
  (** SCRIPT LOAD script (the digest and the server), and whether a digest is cached *)
  script_load : jstr → R → jstr * R;
  script_exists : jstr → R → bool
}.

Fixpoint assoc (k : jstr) (l : list (jstr * jstr)) : option jstr :=
  match l with
  | [] => None
  | (k', v) :: r => if decide (k = k') then Some v else assoc k r
  end.

Class RedisLaws (R : Type) `{RedisServer R} := {
  hget_hset_eq k f kvs r v : assoc f kvs = Some v → hget k f (hset k kvs r) = Some v;
  hget_hset_other k f kvs r : assoc f kvs = None → hget k f (hset k kvs r) = hget k f r;
  hget_hset_ne k k' f kvs r : k ≠ k' → hget k' f (hset k kvs r) = hget k' f r;
  hget_expire k f ttl r : (0 < ttl)%Z → hget k f (expire k (string_of_int ttl) r) = hget k f r;
  hget_expire_ne k k' f ttl r : k ≠ k' → hget k' f (expire k ttl r) = hget k' f r;
  hget_rset k k' f v ttl r : k ≠ k' → hget k' f (rset k v ttl r) = hget k' f r;
  hget_rdel_eq k f r : hget k f (rdel k r) = None;
  hget_rdel_ne k k' f r : k ≠ k' → hget k' f (rdel k r) = hget k' f r;
  rget_hset k k' kvs r : k ≠ k' → rget k' (hset k kvs r) = rget k' r;
  rget_expire_ne k k' ttl r : k ≠ k' → rget k' (expire k ttl r) = rget k' r;
  rget_rset_eq k v ttl r : rget k (rset k v ttl r) = Some v;
  rget_rset_ne k k' v ttl r : k ≠ k' → rget k' (rset k v ttl r) = rget k' r;
  rget_rdel_eq k r : rget k (rdel k r) = None;
  rget_rdel_ne k k' r : k ≠ k' → rget k' (rdel k r) = rget k' r;
  hget_script_load k f s r : hget k f (script_load s r).2 = hget k f r;
  rget_script_load k s r : rget k (script_load s r).2 = rget k r;
  script_loaded s r : script_exists (script_load s r).1 (script_load s r).2 = true;
  script_digest s r r' : (script_load s r).1 = (script_load s r').1
}.

(** ** A server *)

Record redis_model := {
  hashes : gmap jstr (gmap jstr jstr);
  strings : gmap jstr jstr;
  scripts : gset jstr
}.

Definition empty_redis : redis_model := {| hashes := ∅; strings := ∅; scripts := ∅ |}.

#[export] Instance redis_model_server : RedisServer redis_model := {|
  hget k f r := hashes r !! k ≫= λ h, h !! f;
  hset k kvs r := {|
    hashes := <[k := list_to_map kvs ∪ default ∅ (hashes r !! k)]> (hashes r);
    strings := delete k (strings r); scripts := scripts r |};
  expire k ttl r := r;
  rget k r := strings r !! k;
  rset k v ttl r := {|
    hashes := delete k (hashes r);
    strings := <[k := v]> (strings r); scripts := scripts r |};
  rdel k r := {|
    hashes := delete k (hashes r); strings := delete k (strings r); scripts := scripts r |};
  script_load s r := ("sha1:" ++ s, {|
    hashes := hashes r; strings := strings r; scripts := {["sha1:" ++ s]} ∪ scripts r |});
  script_exists d r := bool_decide (d ∈ scripts r)
|}.

Lemma assoc_list_to_map f (kvs : list (jstr * jstr)) :
  (list_to_map kvs : gmap jstr jstr) !! f = assoc f kvs.
Proof.
  induction kvs as [|[k v] kvs IH]; cbn; [apply lookup_empty|].
  rewrite lookup_insert. repeat case_decide; congruence.
Qed.

#[export] Instance redis_model_laws : RedisLaws redis_model.
Proof.
  split; intros; cbn.
  - rewrite lookup_insert_eq. cbn. apply lookup_union_Some_l. by rewrite assoc_list_to_map.
  - rewrite lookup_insert_eq. cbn. rewrite lookup_union_r by by rewrite assoc_list_to_map.
    by destruct (hashes r !! k); cbn; [|rewrite lookup_empty].
  - by rewrite lookup_insert_ne.
  - done.
  - done.
  - by rewrite lookup_delete_ne.
  - by rewrite lookup_delete_eq.
  - by rewrite lookup_delete_ne.
  - by rewrite lookup_delete_ne.
  - done.
  - by rewrite lookup_insert_eq.
  - by rewrite lookup_insert_ne.
  - by rewrite lookup_delete_eq.
  - by rewrite lookup_delete_ne.
  - done.
  - done.
  - apply bool_decide_eq_true. set_solver.
  - done.
Qed.
