(* ===== verification/CartTypes.v ===== *)
(** * cart-service: data, effects and the process state

    The record types of [cart.ts], [catalog.ts] and [pricing.ts], the commands
    the service awaits, and what each command may do to the world.

    The bodies of the catalogue and of the pricing engine are cast, not parsed:
    what the code dereferences in them may be missing, and is an [option] here.
    What it only passes on, and the strings and numbers of an object that is
    there, are taken to be of the type they are cast to. *)
From S2P Require Import Prelude JsNumber JsString JsDate Prog Primitives CircuitBreaker Redis.
Local Open Scope js_scope.
Local Open Scope Z_scope.

(** The text of [toISOString]. *)
Abbreviation iso_time := jstr.

(** ** Stored carts *)

Record StoredLine := {
  sku : jstr;
  productId : jstr;
  quantity : Z;
  addedAtPrice : num;
  addedAt : iso_time
}.

Record StoredCart := {
  id : jstr;
  userId : option jstr;
  lines : list StoredLine;
  cart_currency : jstr;
  coupons : list jstr;
  countryCode : jstr;
  createdAt : iso_time;
  updatedAt : iso_time
}.

(** ** The catalogue *)

(** The price of a variant may be missing. *)
Record Variant := {
  v_sku : jstr;
  v_productId : jstr;
  v_title : jstr;
  v_image : option jstr;
  v_price : option Money;
  v_status : jstr;
  v_categoryPath : list jstr;
  v_brand : option jstr;
  v_attributes : list (jstr * jstr)
}.

(** ** Pricing *)

Record PricedLine := {
  unitEffectivePrice : option Money;
  p_lineTotal : option Money;
  lineDiscount : Money
}.

Record AppliedPromotion := {
  promotionId : jstr;
  promo_name : jstr;
  promo_discount : Money;
  couponCode : option jstr
}.

Record RejectedPromotion := { r_couponCode : jstr; r_reasonCode : jstr }.

Record PricedCart := {
  p_lines : option (list (option PricedLine));
  p_subtotal : Money;
  p_discountTotal : Money;
  p_shippingTotal : Money;
  p_taxTotal : Money;
  p_grandTotal : Money;
  appliedPromotions : option (list (option AppliedPromotion));
  rejectedPromotions : option (list (option RejectedPromotion));
  p_rulesVersion : jstr;
  p_degraded : bool
}.

Record CalculateLine := {
  c_sku : jstr; c_productId : jstr; c_quantity : Z; unitListPrice : option Money;
  c_categoryPath : list jstr; c_brand : option jstr; c_attributes : list (jstr * jstr)
}.

Record CalculateRequest := {
  c_lines : list CalculateLine;
  c_userId : option jstr;
  c_currency : jstr;
  c_countryCode : jstr;
  couponCodes : list jstr;
  channel : jstr
}.

(** ** The cart the service answers with ([Cart] and [CartLine] of the contract) *)

Record CartLine := {
  l_sku : jstr;
  l_productId : jstr;
  l_title : jstr;
  l_image : option jstr;
  l_quantity : Z;
  l_unitPrice : Money;
  l_lineTotal : Money;
  l_priceChanged : bool
}.

Record Cart := {
  k_id : jstr;
  k_userId : option jstr;
  k_lines : list CartLine;
  k_subtotal : Money;
  k_discountTotal : Money;
  k_shippingTotal : Money;
  k_taxTotal : Money;
  k_total : Money;
  k_appliedCoupons : list (jstr * Money * jstr);
  k_rejectedCoupons : list (jstr * jstr);
  k_currency : jstr;
  k_pricingDegraded : bool;
  k_rulesVersion : option jstr;
  k_version : option Z;
  k_expiresAt : iso_time;
  k_updatedAt : iso_time
}.

(** ** Errors *)

(** What can be thrown: the two error classes of [cart.ts], a gRPC
    [ServiceError] with its status code, and any other [Error].  [NoFuel] is
    the marker of a retry loop cut short by the model. *)
Inductive exn :=
| CartStale (expected actual : option Z)
| CartFull
| ServiceError (code : Z) (msg : jstr)
| Error (msg : jstr)
| NoFuel.

Definition MAX_LINES : Z := 100.
Definition MAX_QTY_PER_LINE : Z := 99.
Definition CART_TTL_SECONDS : Z := 30 * 24 * 60 * 60.
Definition ANON_CART_TTL_SECONDS : Z := 7 * 24 * 60 * 60.

(** [String(version)]; [None] is [NaN]. *)
Definition string_of_version (v : option Z) : jstr :=
  match v with Some z => string_of_int z | None => "NaN" end.

Definition message (e : exn) : jstr :=
  match e with
  | CartStale expected _ =>
      "cart changed since it was loaded (you sent version " ++ string_of_version expected ++ ")"
  | CartFull => "a cart may hold at most " ++ string_of_int MAX_LINES ++ " distinct items"
  | ServiceError _ m | Error m => m
  | NoFuel => ""
  end.

(** The [TypeError] of reading a property of what is missing. *)
Definition no_object : jstr := "Cannot read properties of undefined".
Definition required {A} (o : option A) : result jstr A :=
  match o with Some a => Ok a | None => Err no_object end.

(** ** The process: what the objects of the service keep in memory *)

Record proc := {
  casSha : option jstr;
  breaker : CircuitBreaker.breaker;
  cache : gmap jstr (Variant * Z)
}.

(** ** Commands *)

(** An HTTP response: its status and the outcome of reading its body. *)
Record response (B : Type) := { status : Z; body : result exn B }.
Arguments status {B} _.
Arguments body {B} _.
Definition ok {B} (r : response B) : bool := (200 <=? status r) && (status r <=? 299).

Inductive eff : Type → Type :=
(* ioredis *)
| HMGET (k : jstr) : eff (option jstr * option jstr)
| SCRIPT_LOAD (script : jstr) : eff jstr
| EVALSHA (sha k version payload ttl : jstr) : eff Z
| GET (k : jstr) : eff (option jstr)
| SET_EX (k v : jstr) (ttl : Z) : eff unit
| DEL (k : jstr) : eff unit
(* fetch of the catalogue, whose items may be null, and the gRPC call, whose
   reply may be empty *)
| FETCH (url : jstr) : eff (response (list (option Variant)))
| CALCULATE (req : CalculateRequest) : eff (option PricedCart)
(* the clock, the random source, the counters, the memory of the process *)
| NOW : eff Z
| RANDOM (n : nat) : eff (list N)
| INC (metric label : jstr) : eff unit
| LOCAL {A : Type} (f : proc → A * proc) : eff A.

Abbreviation prog := (Prog.prog eff exn).

Definition local {A} (f : proc → A * proc) : prog A := await (LOCAL f).
Definition read {A} (f : proc → A) : prog A := local (λ p, (f p, p)).
Definition throw {A} (e : exn) : prog A := Throw e.
(** A helper that throws a plain [Error]. *)
Definition lift {A} (r : result jstr A) : prog A :=
  match r with Ok a => Ret a | Err m => Throw (Error m) end.
