(* ===== verification/CartPeers.v ===== *)
(** * The peers of cart-service

    [Catalog] ([services/cart-service/src/catalog.ts]): a read-through cache of
    product variants, kept for 60 seconds and served stale when the catalogue
    cannot be reached.  The catalogue itself answers through [FETCH].

    [Pricing] ([services/cart-service/src/pricing.ts]): one gRPC call guarded by
    the circuit breaker.  The breaker's default tuning is the one the client
    constructs it with. *)
From Stdlib Require Import QArith.
From S2P Require Import Prelude JsNumber JsString Prog Primitives CircuitBreaker Redis CartTypes.
Local Open Scope js_scope.
Local Open Scope Z_scope.

Module Catalog.

Definition TTL_MS : Z := 60000.

Definition fresh (now : Z) (e : Variant * Z) : bool := now - e.2 <? TTL_MS.

(** The scan of [getVariants]: hits in order, and the SKUs to ask for. *)
Fixpoint scan (cache : gmap jstr (Variant * Z)) (now : Z) (skus : list jstr)
  : list Variant * list jstr :=
  match skus with
  | [] => ([], [])
  | sku :: r =>
      let '(out, missing) := scan cache now r in
      match cache !! sku with
      | Some e => if fresh now e then (e.1 :: out, missing) else (out, sku :: missing)
      | None => (out, sku :: missing)
      end
  end.

(** [this.cache.set(v.sku, { v, at: now })] for every item. *)
Definition store_all (now : Z) (items : list Variant) (cache : gmap jstr (Variant * Z))
  : gmap jstr (Variant * Z) :=
  foldl (λ c v, <[v_sku v := (v, now)]> c) cache items.

Definition set_cache (c : gmap jstr (Variant * Z)) (p : proc) : proc :=
  {| casSha := casSha p; breaker := breaker p; cache := c |}.

(** The entries still held for the SKUs that could not be fetched. *)
Definition stale (cache : gmap jstr (Variant * Z)) (missing : list jstr) : list Variant :=
  missing ≫= λ sku, match cache !! sku with Some e => [e.1] | None => [] end.

(** The items the loop takes before the first that is not there. *)
Fixpoint before_null {A} (items : list (option A)) : list A :=
  match items with Some a :: r => a :: before_null r | _ => [] end.

(** The [try] gives what it has added to [out], and whether it came to its end. *)
Definition getVariants (baseUrl : jstr) (skus : list jstr) : prog (list Variant) :=
  now ← await NOW;
  scanned ← read (λ p, scan (cache p) now skus);
  let '(out, missing) := scanned in
  match missing with
  | [] => mret out
  | _ =>
      fetched ← try_catch (
        q ← lift (encodeURIComponent (join "," missing));
        res ← await (FETCH (baseUrl ++ "/v1/variants?skus=" ++ q));
        if negb (ok res)
        then throw (Error ("catalog-service returned " ++ string_of_int (status res)))
        else
          items ← of_result (body res);
          let vs := before_null items in
          _ ← local (λ p, (tt, set_cache (store_all now vs (cache p)) p));
          mret (vs, (length vs =? length items)%nat))
        (λ _, mret ([], false));
      let '(vs, whole) := fetched in
      if whole : bool then mret (out ++ vs)
      else c ← read cache; mret (out ++ vs ++ stale c missing)
  end.

Definition getVariant (baseUrl : jstr) (sku : jstr) : prog (option Variant) :=
  hit ← read (λ p, cache p !! sku);
  now ← await NOW;
  match hit with
  | Some e => if fresh now e then mret (Some e.1)
              else found ← getVariants baseUrl [sku]; mret (head found)
  | None => found ← getVariants baseUrl [sku]; mret (head found)
  end.

Definition prune : prog unit :=
  now ← await NOW;
  local (λ p, (tt, set_cache (filter (λ e, (e.2.2 <? now - TTL_MS * 10) = false) (cache p)) p)).

End Catalog.

Module Pricing.

Definition DEADLINE_MS : Z := 250.

Definition breaker_options : CircuitBreaker.options := {|
  CircuitBreaker.windowSize := 20;
  CircuitBreaker.failureThreshold := Fin (1 # 2);
  CircuitBreaker.probeAfterMs := 10000
|}.

Definition set_breaker (b : CircuitBreaker.breaker) (p : proc) : proc :=
  {| casSha := casSha p; breaker := b; cache := cache p |}.

Definition allow : prog bool :=
  now ← await NOW;
  local (λ p, let '(a, b, _) := CircuitBreaker.allow breaker_options now (breaker p) in
              (a, set_breaker b p)).

Definition record (success : bool) : prog unit :=
  now ← await NOW;
  local (λ p, let '(b, _) := CircuitBreaker.record breaker_options now success (breaker p) in
              (tt, set_breaker b p)).

(** [err?.code === 4 ? 'deadline' : 'error'] *)
Definition outcome_of (err : option exn) : jstr :=
  match err with
  | Some (ServiceError code _) => if code =? 4 then "deadline" else "error"
  | _ => "error"
  end.

(** The callback of the call: [err], or an empty reply, or the priced cart. *)
Definition on_reply (r : result exn (option PricedCart)) : prog PricedCart :=
  let fail (err : option exn) :=
    _ ← record false;
    _ ← await (INC "souq_pricing_calls_total" (outcome_of err));
    throw (default (Error "pricing-engine returned an empty response") err) in
  match r with
  | Err e => fail (Some e)
  | Ok None => fail None
  | Ok (Some res) =>
      _ ← record true;
      _ ← await (INC "souq_pricing_calls_total" "ok");
      mret res
  end.

Definition calculate (req : CalculateRequest) : prog PricedCart :=
  allowed ← allow;
  if negb allowed then
    _ ← await (INC "souq_pricing_calls_total" "circuit_open");
    throw (Error "pricing-engine circuit is open")
  else Await (CALCULATE req) on_reply.

Definition breakerState (p : proc) : CircuitBreaker.BreakerState :=
  CircuitBreaker.state (breaker p).

End Pricing.
