(* ===== verification/Cart.v ===== *)
(** * The cart service

    [services/cart-service/src/cart.ts]: the handlers of [CartService].  A cart
    is a JSON text in a Redis hash; [JsonCodec] is the round trip of
    [JSON.stringify] and [JSON.parse] on it. *)
From S2P Require Import Prelude JsNumber JsString JsDate Prog Primitives CircuitBreaker Redis.
From S2P Require Import CartTypes CartPeers.
Local Open Scope js_scope.
Local Open Scope Z_scope.

(** [JSON.stringify] and [JSON.parse] at one type of values; [encodable]
    are the values that survive the round trip (a price that is not finite
    does not: it is written as [null]). *)
Class JsonCodec (A : Type) := {
  stringify : A → jstr;
  parse : jstr → option A;
  encodable : A → Prop;
  parse_stringify a : encodable a → parse (stringify a) = Some a;
  parse_empty : parse [] = None;
  stringify_nonempty a : stringify a ≠ []
}.

Module Cart.
Section Cart.
Context `{JsonCodec StoredCart} (baseUrl : jstr) (fuel : nat).

Definition key (cartId : jstr) : jstr := "cart:" ++ cartId.
Definition userIndex (userId : jstr) : jstr := "cart:user:" ++ userId.

Definition CAS_SCRIPT : jstr := "
local current = redis.call('HGET', KEYS[1], 'version')
if current and tonumber(current) ~= tonumber(ARGV[1]) then
  return -1
end
local nextVersion = (tonumber(current) or 0) + 1
redis.call('HSET', KEYS[1], 'data', ARGV[2], 'version', nextVersion)
redis.call('EXPIRE', KEYS[1], ARGV[3])
return nextVersion
".

(** The execution of [CAS_SCRIPT] by the server, with [KEYS[1]] and the three
    [ARGV].  [tonumber] is [None] on a text that is not an integer. *)
Definition cas_script {R} `{RedisServer R} (k version payload ttl : jstr) (r : R) : Z * R :=
  let current := hget k "version" r in
  let set (n : Z) :=
    (n, expire k ttl (hset k [("data", payload); ("version", string_of_int n)] r)) in
  match current with
  | Some c =>
      if decide (int_of_string c ≠ int_of_string version) then (-1, r)
      else set (default 0 (int_of_string c) + 1)
  | None => set (0 + 1)
  end.

Definition set_casSha (s : option jstr) (p : proc) : proc :=
  {| casSha := s; breaker := breaker p; cache := cache p |}.

(** [err.message.includes('NOSCRIPT')] *)
Definition is_noscript (e : exn) : bool := includes "NOSCRIPT" (message e).

Fixpoint cas (n : nat) (cartId : jstr) (version : option Z) (payload : jstr) (ttl : Z) : prog Z :=
  match n with
  | O => throw NoFuel
  | S n' =>
      sha0 ← read casSha;
      _ ← match sha0 with
          | Some s => if truthy_str s then mret tt else
                      s' ← await (SCRIPT_LOAD CAS_SCRIPT); local (λ p, (tt, set_casSha (Some s') p))
          | None => s' ← await (SCRIPT_LOAD CAS_SCRIPT); local (λ p, (tt, set_casSha (Some s') p))
          end;
      sha ← read casSha;
      try_catch
        (await (EVALSHA (default "" sha) (key cartId) (string_of_version version) payload
                  (string_of_int ttl)))
        (λ e,
          if is_noscript e then
            _ ← local (λ p, (tt, set_casSha None p));
            cas n' cartId version payload ttl
          else throw e)
  end.

(** [Number(raw ?? 0)] on a text written by the script; [None] is [NaN]. *)
Definition version_of (raw : option jstr) : option Z :=
  match raw with
  | None => Some 0
  | Some s => if truthy_str s then int_of_string s else Some 0
  end.

Definition load (cartId : jstr) : prog (option (StoredCart * option Z)) :=
  raw ← await (HMGET (key cartId));
  match raw.1 with
  | Some data =>
      if truthy_str data then
        match parse data with
        | Some cart => mret (Some (cart, version_of raw.2))
        | None => throw (Error "SyntaxError")
        end
      else mret None
  | None => mret None
  end.

Definition truthy (o : option jstr) : bool :=
  match o with Some s => truthy_str s | None => false end.

Definition ttlFor (cart : StoredCart) : Z :=
  if truthy (userId cart) then CART_TTL_SECONDS else ANON_CART_TTL_SECONDS.

Lemma ttlFor_pos (cart : StoredCart) : 0 < ttlFor cart.
Proof. unfold ttlFor. by destruct (truthy _). Qed.

(** ** Pricing a cart *)

Record HydratedLine := {
  h_sku : jstr; h_productId : jstr; h_title : jstr; h_image : option jstr;
  h_quantity : Z; h_unitPrice : option Money; h_categoryPath : list jstr;
  h_brand : option jstr; h_attributes : list (jstr * jstr)
}.

(** [new Map(variants.map((v) => [v.sku, v]))] *)
Definition by_sku (variants : list Variant) : gmap jstr Variant :=
  foldl (λ m v, <[v_sku v := v]> m) ∅ variants.

Definition hydrate_line (bySku : gmap jstr Variant) (line : StoredLine) : list HydratedLine :=
  match bySku !! sku line with
  | None => []
  | Some v => [{|
      h_sku := sku line; h_productId := v_productId v; h_title := v_title v;
      h_image := v_image v; h_quantity := quantity line; h_unitPrice := v_price v;
      h_categoryPath := v_categoryPath v; h_brand := v_brand v;
      h_attributes := v_attributes v |}]
  end.

Definition hydrate (cart : StoredCart) : prog (list HydratedLine) :=
  match lines cart with
  | [] => mret []
  | ls =>
      variants ← Catalog.getVariants baseUrl (map sku ls);
      mret (ls ≫= hydrate_line (by_sku variants))
  end.

Definition calculate_request (cart : StoredCart) (hl : list HydratedLine) : CalculateRequest := {|
  c_lines := map (λ l, {|
    c_sku := h_sku l; c_productId := h_productId l; c_quantity := h_quantity l;
    unitListPrice := h_unitPrice l; c_categoryPath := h_categoryPath l;
    c_brand := h_brand l; c_attributes := h_attributes l |}) hl;
  c_userId := userId cart;
  c_currency := cart_currency cart;
  c_countryCode := countryCode cart;
  couponCodes := coupons cart;
  channel := "web"
|}.

(** The lines of the degraded cart and their running subtotal. *)
Fixpoint degraded_lines (subtotal : Money) (hl : list HydratedLine)
  : result jstr (list CartLine * Money) :=
  match hl with
  | [] => Ok ([], subtotal)
  | l :: r =>
      unit ← required (h_unitPrice l);
      lineTotal ← multiplyMoney unit (jint (h_quantity l));
      subtotal' ← addMoney subtotal lineTotal;
      rest ← degraded_lines subtotal' r;
      Ok ({| l_sku := h_sku l; l_productId := h_productId l; l_title := h_title l;
             l_image := h_image l; l_quantity := h_quantity l; l_unitPrice := unit;
             l_lineTotal := lineTotal; l_priceChanged := false |} :: rest.1, rest.2)
  end.

Definition degradedCart (cart : StoredCart) (hl : list HydratedLine) (version : option Z)
  : prog Cart :=
  let currency := cart_currency cart in
  ls ← lift (degraded_lines (zeroMoney currency) hl);
  now ← await NOW;
  mret {|
    k_id := id cart; k_userId := userId cart; k_lines := ls.1; k_subtotal := ls.2;
    k_discountTotal := zeroMoney currency; k_shippingTotal := zeroMoney currency;
    k_taxTotal := zeroMoney currency; k_total := ls.2;
    k_appliedCoupons := []; k_rejectedCoupons := []; k_currency := currency;
    k_pricingDegraded := true; k_rulesVersion := None; k_version := version;
    k_expiresAt := toISOString (now + ttlFor cart * 1000); k_updatedAt := updatedAt cart |}.

(** One line of a priced cart: [p] is [priced.lines[i]] and [stored] is
    [cart.lines[i]], both at the index of the hydrated line.  A line of the engine
    without a price has none that [priceChanged] could read. *)
Definition priced_line (l : HydratedLine) (p : option PricedLine) (stored : StoredLine)
  : result jstr CartLine :=
  lineTotal ← match p ≫= p_lineTotal with
              | Some t => Ok t
              | None => m ← required (h_unitPrice l); multiplyMoney m (jint (h_quantity l))
              end;
  unit ← required (match p with Some p => unitEffectivePrice p | None => h_unitPrice l end);
  Ok {| l_sku := h_sku l; l_productId := h_productId l; l_title := h_title l;
        l_image := h_image l; l_quantity := h_quantity l; l_unitPrice := unit;
        l_lineTotal := lineTotal;
        l_priceChanged := negb (neqb (amount unit) (addedAtPrice stored)) |}.

Fixpoint priced_lines (i : nat) (cart : StoredCart) (priced : PricedCart) (hl : list HydratedLine)
  : result jstr (list CartLine) :=
  match hl with
  | [] => Ok []
  | l :: r =>
      ps ← required (p_lines priced);
      match lines cart !! i with
      | None => Err "Cannot read properties of undefined (reading 'addedAtPrice')"
      | Some stored =>
          c ← priced_line l (mjoin (ps !! i)) stored;
          rest ← priced_lines (S i) cart priced r;
          Ok (c :: rest)
      end
  end.

Definition applied_coupons (priced : PricedCart) : result jstr (list (jstr * Money * jstr)) :=
  ps ← required (appliedPromotions priced);
  ps ← mapM required ps;
  Ok (ps ≫= (λ p,
    match couponCode p with
    | Some c => if truthy_str c then [(c, promo_discount p, promo_name p)] else []
    | None => []
    end)).

Definition rejected_coupons (priced : PricedCart) : result jstr (list (jstr * jstr)) :=
  rs ← required (rejectedPromotions priced);
  rs ← mapM required rs;
  Ok (map (λ r, (r_couponCode r, r_reasonCode r)) rs).

Definition price (cart : StoredCart) (version : option Z) : prog Cart :=
  hl ← hydrate cart;
  priced ← try_catch (p ← Pricing.calculate (calculate_request cart hl); mret (Some p))
                     (λ _, mret None);
  match priced with
  | None => degradedCart cart hl version
  | Some priced =>
      ls ← lift (priced_lines 0 cart priced hl);
      applied ← lift (applied_coupons priced);
      rejected ← lift (rejected_coupons priced);
      now ← await NOW;
      mret {|
        k_id := id cart; k_userId := userId cart; k_lines := ls;
        k_subtotal := p_subtotal priced; k_discountTotal := p_discountTotal priced;
        k_shippingTotal := p_shippingTotal priced; k_taxTotal := p_taxTotal priced;
        k_total := p_grandTotal priced;
        k_appliedCoupons := applied; k_rejectedCoupons := rejected;
        k_currency := cart_currency cart; k_pricingDegraded := p_degraded priced;
        k_rulesVersion := Some (p_rulesVersion priced); k_version := version;
        k_expiresAt := toISOString (now + ttlFor cart * 1000); k_updatedAt := updatedAt cart |}
  end.

(** ** Identifiers *)

Definition CROCKFORD : jstr := "0123456789ABCDEFGHJKMNPQRSTVWXYZ".
Definition crockford (n : N) : N := nth (N.to_nat n) CROCKFORD 0%N.

(** The ten digits, least significant first. *)
Fixpoint ulid_time (n : nat) (ts : Z) : jstr :=
  match n with
  | O => []
  | S n' => crockford (Z.to_N (ts mod 32)) :: ulid_time n' (ts / 32)
  end.

Definition ulid_of (ts : Z) (bytes : list N) : jstr :=
  rev (ulid_time 10 ts) ++ map (λ b, crockford (b mod 32)%N) (take 16 bytes).

Definition ulid : prog jstr :=
  ts ← await NOW;
  bytes ← await (RANDOM 16);
  mret (ulid_of ts bytes).

(** ** The handlers *)

Definition with_lines (ls : list StoredLine) (c : StoredCart) : StoredCart := {|
  id := id c; userId := userId c; lines := ls; cart_currency := cart_currency c;
  coupons := coupons c; countryCode := countryCode c; createdAt := createdAt c;
  updatedAt := updatedAt c |}.
Definition with_coupons (cs : list jstr) (c : StoredCart) : StoredCart := {|
  id := id c; userId := userId c; lines := lines c; cart_currency := cart_currency c;
  coupons := cs; countryCode := countryCode c; createdAt := createdAt c;
  updatedAt := updatedAt c |}.
Definition with_userId (u : option jstr) (c : StoredCart) : StoredCart := {|
  id := id c; userId := u; lines := lines c; cart_currency := cart_currency c;
  coupons := coupons c; countryCode := countryCode c; createdAt := createdAt c;
  updatedAt := updatedAt c |}.
(** [cart.updatedAt = new Date().toISOString()] at the time [now]. *)
Definition touch (now : Z) (c : StoredCart) : StoredCart := {|
  id := id c; userId := userId c; lines := lines c; cart_currency := cart_currency c;
  coupons := coupons c; countryCode := countryCode c; createdAt := createdAt c;
  updatedAt := toISOString now |}.
Definition with_quantity (q : Z) (l : StoredLine) : StoredLine := {|
  sku := sku l; productId := productId l; quantity := q; addedAtPrice := addedAtPrice l;
  addedAt := addedAt l |}.

Definition has_sku (s : jstr) (l : StoredLine) : bool := bool_decide (sku l = s).

(** [const l = lines.find(p); l.quantity = f(l.quantity)]: the first match only. *)
Fixpoint update_first (p : StoredLine → bool) (f : Z → Z) (ls : list StoredLine) : list StoredLine :=
  match ls with
  | [] => []
  | l :: r => if p l then with_quantity (f (quantity l)) l :: r else l :: update_first p f r
  end.

Definition get (cartId : jstr) : prog (option Cart) :=
  loaded ← load cartId;
  match loaded with
  | None => mret None
  | Some (cart, version) => c ← price cart version; mret (Some c)
  end.

Definition create (user : option jstr) (currency country : jstr) : prog Cart :=
  u ← ulid;
  let cartId := "crt_" ++ u in
  now ← await NOW;
  let cart := {| id := cartId; userId := user; lines := []; cart_currency := currency;
                 coupons := []; countryCode := country; createdAt := toISOString now; updatedAt := toISOString now |} in
  _ ← cas fuel cartId (Some 0) (stringify cart) (ttlFor cart);
  _ ← match user with
      | Some uid => if truthy_str uid then await (SET_EX (userIndex uid) cartId CART_TTL_SECONDS)
                    else mret tt
      | None => mret tt
      end;
  price cart (Some 1).

(** [fresh?.version ?? -1] *)
Definition fresh_version (fresh : option (StoredCart * option Z)) : option Z :=
  match fresh with Some (_, v) => v | None => Some (-1) end.

(** The end every mutation shares: swap, and report a lost race as [CartStale]
    with the version now stored. *)
Definition commit (cartId : jstr) (version : option Z) (cart : StoredCart) : prog Cart :=
  next ← cas fuel cartId version (stringify cart) (ttlFor cart);
  if decide (next = -1) then
    fresh ← load cartId;
    throw (CartStale version (fresh_version fresh))
  else price cart (Some next).

(** [load], then the two guards every mutation starts with. *)
Definition load_expecting (cartId : jstr) (expectedVersion : Z) : prog (StoredCart * option Z) :=
  loaded ← load cartId;
  match loaded with
  | None => throw (Error "CART_NOT_FOUND")
  | Some (cart, version) =>
      if decide (version ≠ Some expectedVersion)
      then throw (CartStale (Some expectedVersion) version)
      else mret (cart, version)
  end.

Definition addLine (cartId sku_ : jstr) (qty expectedVersion : Z) : prog Cart :=
  loaded ← load_expecting cartId expectedVersion;
  let '(cart, version) := loaded in
  product ← Catalog.getVariant baseUrl sku_;
  match product with
  | None => throw (Error "PRODUCT_NOT_FOUND")
  | Some product =>
      if decide (v_status product ≠ "ACTIVE") then throw (Error "PRODUCT_NOT_AVAILABLE")
      else
        ls ← (if existsb (has_sku sku_) (lines cart) then
                mret (update_first (has_sku sku_) (λ q, Z.min (q + qty) MAX_QTY_PER_LINE) (lines cart))
              else if MAX_LINES <=? Z.of_nat (length (lines cart)) then throw CartFull
              else
                price ← lift (required (v_price product));
                now ← await NOW;
                mret (lines cart ++ [{|
                  sku := sku_; productId := v_productId product;
                  quantity := Z.min qty MAX_QTY_PER_LINE;
                  addedAtPrice := amount price; addedAt := toISOString now |}]));
        now ← await NOW;
        commit cartId version (touch now (with_lines ls cart))
  end.

Definition updateLine (cartId sku_ : jstr) (qty expectedVersion : Z) : prog Cart :=
  loaded ← load_expecting cartId expectedVersion;
  let '(cart, version) := loaded in
  ls ← (if qty =? 0 then mret (List.filter (λ l, negb (has_sku sku_ l)) (lines cart))
        else if existsb (has_sku sku_) (lines cart)
        then mret (update_first (has_sku sku_) (λ _, Z.min qty MAX_QTY_PER_LINE) (lines cart))
        else throw (Error "LINE_NOT_FOUND"));
  now ← await NOW;
  commit cartId version (touch now (with_lines ls cart)).

Definition add_coupon (code : jstr) (cs : list jstr) : list jstr :=
  if decide (code ∈ cs) then cs else cs ++ [code].

Definition applyCoupon (cartId code : jstr) (expectedVersion : Z) : prog Cart :=
  loaded ← load_expecting cartId expectedVersion;
  let '(cart, version) := loaded in
  let normalised := toUpperCase (trim code) in
  now ← await NOW;
  commit cartId version (touch now (with_coupons (add_coupon normalised (coupons cart)) cart)).

(** ** Merging at login *)

(** One anonymous line into the lines of the user's cart. *)
Definition merge_line (ls : list StoredLine) (line : StoredLine) : list StoredLine :=
  if existsb (has_sku (sku line)) ls
  then update_first (has_sku (sku line))
         (λ q, Z.min (Z.max q (quantity line)) MAX_QTY_PER_LINE) ls
  else if Z.of_nat (length ls) <? MAX_LINES then ls ++ [line]
  else ls.

Definition merge_lines (mine anon : list StoredLine) : list StoredLine := foldl merge_line mine anon.

(** [[...new Set([...a, ...b])]] *)
Definition merge_coupons (a b : list jstr) : list jstr := foldl (λ cs c, add_coupon c cs) [] (a ++ b).

Definition merge (anonCartId user : jstr) : prog Cart :=
  anon ← load anonCartId;
  existingId ← await (GET (userIndex user));
  existing ← match existingId with
             | Some i => if truthy_str i then load i else mret None
             | None => mret None
             end;
  match anon, existing with
  | None, None => create (Some user) "EGP" "EG"
  | Some (ac, av), None =>
      let ac := with_userId (Some user) ac in
      next ← cas fuel (id ac) av (stringify ac) CART_TTL_SECONDS;
      _ ← await (SET_EX (userIndex user) (id ac) CART_TTL_SECONDS);
      price ac (Some next)
  | None, Some (ec, ev) => price ec ev
  | Some (ac, _), Some (ec, ev) =>
      let merged := with_coupons (merge_coupons (coupons ec) (coupons ac))
                      (with_lines (merge_lines (lines ec) (lines ac)) ec) in
      now ← await NOW;
      let merged := touch now merged in
      next ← cas fuel (id merged) ev (stringify merged) CART_TTL_SECONDS;
      _ ← await (DEL (key anonCartId));
      price merged (Some next)
  end.

End Cart.
End Cart.
