(* ===== verification/CartRoutes.v ===== *)
(** * The HTTP surface of cart-service

    [services/cart-service/src/index.ts]: what each route validates and calls,
    and how every failure becomes a problem document. *)
From Stdlib Require Import QArith Qround.
From S2P Require Import Prelude JsNumber JsString JsDecimal JsDate Regex Zod Schemas Events Api.
From S2P Require Import Prog Primitives CircuitBreaker Redis CartTypes CartPeers Cart.
Local Open Scope js_scope.
Local Open Scope Z_scope.

Module CartRoutes.
Import Schemas.Schemas.

(** A validated request, as the call it becomes. *)
Inductive call :=
| Get (cartId : jstr)
| Create (user : option jstr) (currency country : jstr)
| AddLine (cartId sku : jstr) (quantity version : Z)
| UpdateLine (cartId sku : jstr) (quantity version : Z)
| ApplyCoupon (cartId code : jstr) (version : Z)
| Merge (anonCartId user : jstr).

Inductive route := PostCarts | GetCart | PostLines | PatchLine | PostCoupons | PostMerge.

(** ** Validation *)

Definition CreateBody : schema := ZObject [
  ("currency", ZDefault (ZString [SRegex (rep 3 upper)]) (VStr "EGP"));
  ("countryCode", ZDefault (ZString [SRegex (rep 2 upper)]) (VStr "EG"))] false.
Definition CartParams : schema := ZObject [("cartId", CartId)] false.
Definition LineParams : schema := ZObject [("cartId", CartId); ("sku", Sku)] false.
Definition MergeBody : schema := ZObject [("userId", str)] false.
Definition AddBody : schema := extend Api.AddToCartRequest [("version", int_min 0)].
Definition CouponBody : schema := extend Api.ApplyCouponRequest [("version", int_min 0)].

(** The string and the integer a validated field holds. *)
Definition the_string (v : jsval) : jstr := match v with VStr s => s | _ => "" end.
Definition the_integer (v : jsval) : Z := match v with VNum (Fin q) => Qfloor q | _ => 0 end.
Definition str_at (k : jstr) (v : jsval) : jstr := the_string (prop k v).
Definition int_at (k : jstr) (v : jsval) : Z := the_integer (prop k v).

(** [req.body ?? {}]. *)
Definition or_empty (v : jsval) : jsval := match v with VUndef | VNull => VObj [] | _ => v end.

(** [req.headers['x-user-id'] ?? null] *)
Definition userOf (header : option jstr) : option jstr := header.

Section Routes.
Context `{Zod}.

Definition dispatch (r : route) (header : option jstr) (params body : jsval)
  : result (list issue) call :=
  match r with
  | PostCarts =>
      b ← safeParse CreateBody (or_empty body);
      Ok (Create (userOf header) (str_at "currency" b) (str_at "countryCode" b))
  | GetCart =>
      p ← safeParse CartParams params; Ok (Get (str_at "cartId" p))
  | PostLines =>
      p ← safeParse CartParams params;
      b ← safeParse AddBody body;
      Ok (AddLine (str_at "cartId" p) (str_at "sku" b) (int_at "quantity" b) (int_at "version" b))
  | PatchLine =>
      p ← safeParse LineParams params;
      b ← safeParse Api.UpdateCartLineRequest body;
      Ok (UpdateLine (str_at "cartId" p) (str_at "sku" p) (int_at "quantity" b) (int_at "version" b))
  | PostCoupons =>
      p ← safeParse CartParams params;
      b ← safeParse CouponBody body;
      Ok (ApplyCoupon (str_at "cartId" p) (str_at "code" b) (int_at "version" b))
  | PostMerge =>
      p ← safeParse CartParams params;
      b ← safeParse MergeBody body;
      Ok (Merge (str_at "cartId" p) (str_at "userId" b))
  end.

(** ** Problem documents *)

Definition problem (requestId : jstr) (now : Z) (status : Z) (code detail : jstr) : jsval := VObj [
  ("type", VStr ("https://errors.souq.dev/cart/" ++ replace_all 95 "-" (toLowerCase code)));
  ("title", VStr (toLowerCase (replace_all 95 " " code)));
  ("status", vint status); ("code", VStr code); ("detail", VStr detail);
  ("requestId", VStr requestId); ("timestamp", VStr (toISOString now))].

(** What the error handler makes of an error: status, code and detail. *)
Definition classify (e : exn) : Z * jstr * jstr :=
  match e with
  | CartStale _ _ => (409, "CART_STALE", CartTypes.message e)
  | CartFull => (422, "VALIDATION_FAILED", CartTypes.message e)
  | _ =>
      let m := CartTypes.message e in
      if decide (m = "CART_NOT_FOUND") then (404, "CART_NOT_FOUND", "No such cart.")
      else if decide (m = "PRODUCT_NOT_FOUND") then (404, "PRODUCT_NOT_FOUND", "No such product.")
      else if decide (m = "PRODUCT_NOT_AVAILABLE")
      then (409, "PRODUCT_NOT_FOUND", "This product is no longer for sale.")
      else if decide (m = "LINE_NOT_FOUND")
      then (404, "CART_NOT_FOUND", "That item is not in the cart.")
      else (500, "INTERNAL_ERROR", "The request could not be completed.")
  end.

Definition error_document (requestId : jstr) (now : Z) (e : exn) : Z * jsval :=
  let '(status, code, detail) := classify e in
  (status, problem requestId now status code detail).

(** The branch of the handler for a [ZodError]. *)
Definition validation_document (requestId : jstr) (now : Z) (issues : list issue) : Z * jsval :=
  (422, VObj [
    ("type", VStr "https://errors.souq.dev/cart/validation-failed");
    ("title", VStr "Validation failed"); ("status", vint 422); ("code", VStr "VALIDATION_FAILED");
    ("requestId", VStr requestId); ("timestamp", VStr (toISOString now));
    ("errors", VArr (map (λ i, VObj [("field", VStr (join "." (path i)));
                                     ("message", VStr (Zod.message i))]) issues))]).

(** What the rate limiter is given to build for a request it refuses; [ttl] is in
    milliseconds. *)
Definition rate_limited (requestId : jstr) (now ttl : Z) : jsval := VObj [
  ("type", VStr "https://errors.souq.dev/cart/rate-limited"); ("title", VStr "Too many requests"); ("status", vint 429);
  ("code", VStr "RATE_LIMITED"); ("detail", VStr ("Retry in " ++ int_text (nceil (ndiv (jint ttl) (jint 1000))) ++ "s."));
  ("requestId", VStr requestId); ("timestamp", VStr (toISOString now))].
(** The error handler for an object that is none of the errors of the service:
    only its [message] is looked at. *)
Definition foreign_document (requestId : jstr) (now : Z) (thrown : jsval) : Z * jsval :=
  error_document requestId now (Error (match prop "message" thrown with VStr m => m | _ => "" end)).

(** The reply of [GET /v1/carts/:cartId] for a cart that does not exist. *)
Definition missing_cart (requestId : jstr) : Z * jsval :=
  (404, VObj [("code", VStr "CART_NOT_FOUND"); ("status", vint 404); ("requestId", VStr requestId)]).

(** ** The cart as it is sent *)

Definition opt_str (o : option jstr) : jsval := match o with Some s => VStr s | None => VNull end.
Definition money_value (m : Primitives.Money) : jsval :=
  VObj [("amount", VNum (amount m)); ("currency", VStr (currency m))].
Definition line_value (l : CartLine) : jsval := VObj [
  ("sku", VStr (l_sku l)); ("productId", VStr (l_productId l)); ("title", VStr (l_title l));
  ("image", opt_str (l_image l)); ("quantity", vint (l_quantity l));
  ("unitPrice", money_value (l_unitPrice l)); ("lineTotal", money_value (l_lineTotal l));
  ("priceChanged", VBool (l_priceChanged l))].
Definition cart_value (c : CartTypes.Cart) : jsval := VObj [
  ("id", VStr (k_id c)); ("userId", opt_str (k_userId c)); ("lines", VArr (map line_value (k_lines c)));
  ("subtotal", money_value (k_subtotal c)); ("discountTotal", money_value (k_discountTotal c));
  ("shippingTotal", money_value (k_shippingTotal c)); ("taxTotal", money_value (k_taxTotal c));
  ("total", money_value (k_total c));
  ("appliedCoupons", VArr (map (λ '(code, d, n), VObj [
     ("code", VStr code); ("discount", money_value d); ("name", VStr n)]) (k_appliedCoupons c)));
  ("rejectedCoupons", VArr (map (λ '(code, r), VObj [
     ("code", VStr code); ("reasonCode", VStr r)]) (k_rejectedCoupons c)));
  ("currency", VStr (k_currency c)); ("pricingDegraded", VBool (k_pricingDegraded c));
  ("rulesVersion", opt_str (k_rulesVersion c));
  ("version", match k_version c with Some v => vint v | None => VNull end);
  ("expiresAt", VStr (k_expiresAt c)); ("updatedAt", VStr (k_updatedAt c))].

(** ** Serving a request *)

Section Serve.
Context `{JsonCodec StoredCart} (baseUrl : jstr) (fuel : nat).

(** [if (cart.pricingDegraded) degradedCarts.inc()] *)
Definition count_degraded (c : CartTypes.Cart) : prog unit :=
  if k_pricingDegraded c then await (INC "souq_cart_pricing_degraded_total" "") else mret tt.

Definition handle (requestId : jstr) (c : call) : prog (Z * jsval) :=
  let reply (p : prog CartTypes.Cart) := c ← p; mret (200, cart_value c) in
  match c with
  | Create u cur country =>
      c ← Cart.create baseUrl fuel u cur country;
      _ ← count_degraded c;
      mret (201, cart_value c)
  | Get i =>
      o ← Cart.get baseUrl i;
      match o with
      | None => mret (missing_cart requestId)
      | Some c => _ ← count_degraded c; mret (200, cart_value c)
      end
  | AddLine i s q v => reply (Cart.addLine baseUrl fuel i s q v)
  | UpdateLine i s q v => reply (Cart.updateLine baseUrl fuel i s q v)
  | ApplyCoupon i code v => reply (Cart.applyCoupon baseUrl fuel i code v)
  | Merge i u => reply (Cart.merge baseUrl fuel i u)
  end.

Definition serve (r : route) (requestId : jstr) (header : option jstr) (params body : jsval)
  : prog (Z * jsval) :=
  match dispatch r header params body with
  | Err issues => now ← await NOW; mret (validation_document requestId now issues)
  | Ok c =>
      try_catch (handle requestId c)
        (λ e,
          _ ← match e with
              | CartStale _ _ => await (INC "souq_cart_version_conflicts_total" "")
              | _ => mret tt
              end;
          now ← await NOW;
          mret (error_document requestId now e))
  end.
End Serve.
End Routes.
End CartRoutes.
