(* ===== verification/CartLines.v ===== *)
(** * The lines of a cart

    What the pure steps of the handlers do to the list of lines: the shape
    every stored cart has ([wf_lines]) and the quantities they give. *)
From S2P Require Import Prelude JsNumber JsString JsDate Prog Primitives CircuitBreaker Redis.
From S2P Require Import CartTypes CartPeers Cart.
Local Open Scope js_scope.
Local Open Scope Z_scope.

Implicit Types (s : jstr) (l : StoredLine) (ls : list StoredLine).

(** Distinct products, at most [MAX_LINES] of them, each in a quantity between
    1 and [MAX_QTY_PER_LINE]. *)
Definition quantity_ok (q : Z) : Prop := 1 <= q <= MAX_QTY_PER_LINE.
Definition wf_lines ls : Prop :=
  NoDup (map sku ls) ∧ Z.of_nat (length ls) <= MAX_LINES ∧ Forall (λ l, quantity_ok (quantity l)) ls.

(** The quantity of a product in a cart, 0 when it is not there. *)
Fixpoint quantity_of s ls : Z :=
  match ls with
  | [] => 0
  | l :: r => if Cart.has_sku s l then quantity l else quantity_of s r
  end.

Lemma has_sku_true s l : Cart.has_sku s l = true ↔ sku l = s.
Proof. unfold Cart.has_sku. by rewrite bool_decide_eq_true. Qed.

Lemma has_sku_false s l : Cart.has_sku s l = false ↔ sku l ≠ s.
Proof. unfold Cart.has_sku. by rewrite bool_decide_eq_false. Qed.

Lemma existsb_sku s ls : existsb (Cart.has_sku s) ls = true ↔ s ∈ map sku ls.
Proof.
  rewrite existsb_exists, list_elem_of_fmap. split.
  - intros (l & Hl & <-%has_sku_true). exists l. by rewrite list_elem_of_In.
  - intros (l & -> & Hl). exists l. by rewrite has_sku_true, <- list_elem_of_In.
Qed.

Lemma existsb_sku_false s ls : existsb (Cart.has_sku s) ls = false ↔ s ∉ map sku ls.
Proof. rewrite <- existsb_sku. by destruct (existsb _ _). Qed.

(** ** [update_first] *)

Lemma update_first_skus p f ls : map sku (Cart.update_first p f ls) = map sku ls.
Proof. induction ls as [|l ls IH]; cbn; [done|]. destruct (p l); cbn; congruence. Qed.

Lemma update_first_length p f ls : length (Cart.update_first p f ls) = length ls.
Proof. by rewrite <- (length_map sku), update_first_skus, length_map. Qed.

Lemma update_first_wf s f ls :
  wf_lines ls → quantity_ok (f (quantity_of s ls)) ∨ s ∉ map sku ls →
  wf_lines (Cart.update_first (Cart.has_sku s) f ls).
Proof.
  intros (Hn & Hl & Hq) Hf. unfold wf_lines. rewrite update_first_skus, update_first_length.
  split; [done|]. split; [done|]. clear Hn Hl. induction Hq as [|l ls Hq Hr IH]; cbn in *; [constructor|].
  destruct (Cart.has_sku s l) eqn:Hs.
  - constructor; [|done]. destruct Hf as [Hf|Hf]; [done|].
    apply has_sku_true in Hs. set_solver.
  - constructor; [done|]. apply IH. apply has_sku_false in Hs.
    destruct Hf as [Hf|Hf]; [by left|right]. set_solver.
Qed.

Lemma quantity_of_update s s' f ls :
  s ∈ map sku ls →
  quantity_of s' (Cart.update_first (Cart.has_sku s) f ls) =
  if decide (s' = s) then f (quantity_of s ls) else quantity_of s' ls.
Proof.
  induction ls as [|l ls IH]; cbn; [by intros ?%elem_of_nil|]. intros Hin.
  destruct (Cart.has_sku s l) eqn:Hs; cbn.
  - apply has_sku_true in Hs. destruct (Cart.has_sku s' l) eqn:Hs'.
    + apply has_sku_true in Hs'. rewrite decide_True by congruence.
      change (Cart.has_sku s' _) with (Cart.has_sku s' l). by rewrite (proj2 (has_sku_true _ _) Hs').
    + change (Cart.has_sku s' (Cart.with_quantity _ l)) with (Cart.has_sku s' l). rewrite Hs'.
      apply has_sku_false in Hs'. by rewrite decide_False by congruence.
  - apply has_sku_false in Hs. apply elem_of_cons in Hin as [?|Hin]; [congruence|].
    destruct (Cart.has_sku s' l) eqn:Hs'.
    + apply has_sku_true in Hs'. by rewrite decide_False by congruence.
    + by apply IH.
Qed.

(** ** Appending and removing *)

Lemma append_wf l ls :
  wf_lines ls → sku l ∉ map sku ls → quantity_ok (quantity l) →
  Z.of_nat (length ls) < MAX_LINES → wf_lines (ls ++ [l]).
Proof.
  intros (Hn & Hl & Hq) Hs Hql Hlt. split; [|split].
  - rewrite map_app. cbn. apply NoDup_app. split; [done|]. split; [set_solver|apply NoDup_singleton].
  - rewrite length_app. cbn. lia.
  - by apply Forall_app; split; [|constructor].
Qed.

Lemma quantity_of_absent s ls : s ∉ map sku ls → quantity_of s ls = 0.
Proof.
  induction ls as [|l ls IH]; cbn; [done|]. intros Hs.
  destruct (Cart.has_sku s l) eqn:E; [apply has_sku_true in E; set_solver|]. apply IH. set_solver.
Qed.

Lemma quantity_of_app s l ls :
  sku l ∉ map sku ls →
  quantity_of s (ls ++ [l]) = if decide (s = sku l) then quantity l else quantity_of s ls.
Proof.
  intros Hs. induction ls as [|x ls IH]; cbn in *.
  - unfold Cart.has_sku. case_bool_decide; case_decide; congruence.
  - rewrite IH by set_solver. destruct (Cart.has_sku s x) eqn:E; [|done].
    apply has_sku_true in E. case_decide; [set_solver|done].
Qed.

Lemma filter_skus s ls :
  map sku (List.filter (λ l, negb (Cart.has_sku s l)) ls) = filter (λ x, x ≠ s) (map sku ls).
Proof.
  induction ls as [|l ls IH]; [done|]. cbn [map List.filter]. rewrite list.filter_cons.
  destruct (Cart.has_sku s l) eqn:E; cbn [negb map].
  - apply has_sku_true in E. by rewrite decide_False by auto.
  - apply has_sku_false in E. rewrite decide_True by done. by f_equal.
Qed.

Lemma filter_wf s ls : wf_lines ls → wf_lines (List.filter (λ l, negb (Cart.has_sku s l)) ls).
Proof.
  intros (Hn & Hl & Hq). split; [|split].
  - rewrite filter_skus. by apply NoDup_filter.
  - pose proof (filter_length_le (λ l, negb (Cart.has_sku s l)) ls). lia.
  - rewrite Forall_forall in *. intros l. rewrite list_elem_of_In, filter_In, <- list_elem_of_In.
    intros [? _]. auto.
Qed.

Lemma quantity_of_filter s s' ls :
  quantity_of s' (List.filter (λ l, negb (Cart.has_sku s l)) ls) =
  if decide (s' = s) then 0 else quantity_of s' ls.
Proof.
  induction ls as [|l ls IH]; cbn; [by case_decide|].
  destruct (Cart.has_sku s l) eqn:E; cbn; rewrite IH; [apply has_sku_true in E|apply has_sku_false in E];
    destruct (Cart.has_sku s' l) eqn:E'; try done; apply has_sku_true in E';
    case_decide; congruence.
Qed.

Lemma quantity_of_range s ls : wf_lines ls → 0 <= quantity_of s ls <= MAX_QTY_PER_LINE.
Proof.
  intros (_ & _ & Hq). unfold quantity_ok in Hq.
  induction Hq as [|l ls Hl _ IH]; cbn; [done|]. destruct (Cart.has_sku s l); [lia|done].
Qed.

Lemma quantity_of_pos s ls : wf_lines ls → s ∈ map sku ls → 1 <= quantity_of s ls.
Proof.
  intros (_ & _ & Hq). unfold quantity_ok in Hq.
  induction Hq as [|l ls Hl _ IH]; cbn; [by intros ?%elem_of_nil|].
  destruct (Cart.has_sku s l) eqn:E; [lia|]. apply has_sku_false in E. set_solver.
Qed.

(** ** Merging *)

Lemma merge_line_wf ls l : wf_lines ls → quantity_ok (quantity l) → wf_lines (Cart.merge_line ls l).
Proof.
  intros Hw Hq. unfold Cart.merge_line. destruct (existsb _ ls) eqn:E.
  - apply update_first_wf; [done|]. left.
    pose proof (quantity_of_range (sku l) ls Hw). unfold quantity_ok in *. lia.
  - apply existsb_sku_false in E. destruct (Z.ltb_spec (Z.of_nat (length ls)) MAX_LINES); [|done].
    by apply append_wf.
Qed.

Lemma merge_lines_wf mine anon :
  wf_lines mine → Forall (λ l, quantity_ok (quantity l)) anon → wf_lines (Cart.merge_lines mine anon).
Proof.
  unfold Cart.merge_lines. intros Hm Ha. revert mine Hm.
  induction Ha as [|l anon Hl _ IH]; intros mine Hm; cbn; [done|]. apply IH. by apply merge_line_wf.
Qed.

(** One merged line: the larger of the two quantities when the product is
    already there or there is room for it. *)
Lemma merge_line_quantity s l ls :
  wf_lines ls → quantity_ok (quantity l) →
  sku l ∈ map sku ls ∨ Z.of_nat (length ls) < MAX_LINES →
  quantity_of s (Cart.merge_line ls l) =
  if decide (s = sku l) then Z.max (quantity_of s ls) (quantity l) else quantity_of s ls.
Proof.
  intros Hw Hq Hroom. pose proof (quantity_of_range (sku l) ls Hw). unfold quantity_ok in Hq.
  unfold Cart.merge_line. destruct (existsb _ ls) eqn:E.
  - apply existsb_sku in E. rewrite quantity_of_update by done. case_decide as Hs; [|done]. subst. lia.
  - apply existsb_sku_false in E. destruct Hroom as [?|Hroom]; [done|].
    apply Z.ltb_lt in Hroom. rewrite Hroom, quantity_of_app by done.
    case_decide as Hs; [|done]. subst. rewrite quantity_of_absent by done. lia.
Qed.

Lemma merge_line_full l ls :
  sku l ∉ map sku ls → MAX_LINES <= Z.of_nat (length ls) → Cart.merge_line ls l = ls.
Proof.
  intros Hs Hl. unfold Cart.merge_line. rewrite (proj2 (existsb_sku_false _ _) Hs).
  by apply Z.ltb_ge in Hl as ->.
Qed.

Lemma merge_line_length l ls : (length (Cart.merge_line ls l) ≤ S (length ls))%nat.
Proof.
  unfold Cart.merge_line. destruct (existsb _ ls); [rewrite update_first_length; lia|].
  destruct (_ <? _); [rewrite length_app; cbn; lia|lia].
Qed.

Lemma merge_line_skus l ls : map sku ls `prefix_of` map sku (Cart.merge_line ls l).
Proof.
  unfold Cart.merge_line. destruct (existsb _ ls); [by rewrite update_first_skus|].
  destruct (_ <? _); [rewrite map_app; by apply prefix_app_r|done].
Qed.

Lemma merge_lines_skus mine anon : map sku mine `prefix_of` map sku (Cart.merge_lines mine anon).
Proof.
  unfold Cart.merge_lines. revert mine. induction anon as [|l anon IH]; intros mine; cbn; [done|].
  etrans; [apply merge_line_skus|apply IH].
Qed.

Lemma merge_lines_quantity mine anon s :
  wf_lines mine → NoDup (map sku anon) → Forall (λ l, quantity_ok (quantity l)) anon →
  (s ∈ map sku mine ∨ Z.of_nat (length mine + length anon) <= MAX_LINES) →
  quantity_of s (Cart.merge_lines mine anon) = Z.max (quantity_of s mine) (quantity_of s anon).
Proof.
  unfold Cart.merge_lines. intros Hm Hn Ha. revert mine Hm.
  induction Ha as [|l anon Hl Ha IH]; intros mine Hm Hr; cbn in *.
  { pose proof (quantity_of_range s mine Hm). lia. }
  apply NoDup_cons in Hn as [Hn1 Hn2]. pose proof (quantity_of_range s mine Hm).
  assert (quantity_of (sku l) anon = 0) as H0 by by apply quantity_of_absent.
  rewrite IH; [|done|by apply merge_line_wf|].
  - unfold Cart.has_sku. case_bool_decide as Hs.
    + subst s. rewrite H0. assert (sku l ∈ map sku mine ∨ Z.of_nat (length mine) < MAX_LINES) as Hr'.
      { destruct Hr; [by left|right; lia]. }
      rewrite merge_line_quantity by done. rewrite decide_True by done. unfold quantity_ok in Hl. lia.
    + destruct (decide (sku l ∈ map sku mine ∨ Z.of_nat (length mine) < MAX_LINES)) as [Hr'|Hr'].
      * rewrite merge_line_quantity by done. by rewrite decide_False by congruence.
      * apply Decidable.not_or in Hr' as [? ?]. by rewrite merge_line_full by (done || lia).
  - destruct Hr as [Hr|Hr]; [left|right].
    + destruct (merge_line_skus l mine) as [k ->]. set_solver.
    + pose proof (merge_line_length l mine). lia.
Qed.

(** ** Coupons *)

Lemma add_coupon_elem x code cs : x ∈ Cart.add_coupon code cs ↔ x ∈ cs ∨ x = code.
Proof. unfold Cart.add_coupon. case_decide; set_solver. Qed.

Lemma add_coupon_nodup code cs : NoDup cs → NoDup (Cart.add_coupon code cs).
Proof.
  unfold Cart.add_coupon. case_decide; [done|]. intros Hn. apply NoDup_app.
  split; [done|]. split; [set_solver|apply NoDup_singleton].
Qed.

Lemma merge_coupons_spec (a b : list jstr) :
  NoDup (Cart.merge_coupons a b) ∧ ∀ x, x ∈ Cart.merge_coupons a b ↔ x ∈ a ∨ x ∈ b.
Proof.
  unfold Cart.merge_coupons.
  assert (∀ (cs acc : list jstr), NoDup acc →
    NoDup (foldl (λ cs c, Cart.add_coupon c cs) acc cs) ∧
    ∀ x, x ∈ foldl (λ cs c, Cart.add_coupon c cs) acc cs ↔ x ∈ acc ∨ x ∈ cs) as Hf.
  { induction cs as [|c cs IH]; intros acc Hn; cbn; [set_solver|].
    destruct (IH _ (add_coupon_nodup c acc Hn)) as [? Hx]. split; [done|].
    intros x. rewrite Hx, add_coupon_elem. set_solver. }
  destruct (Hf (a ++ b) [] ltac:(constructor)) as [? Hx]. split; [done|].
  intros x. rewrite Hx. set_solver.
Qed.

(** What merging comes to: the lines of the user's cart, each at the larger of the
    two quantities, and then the anonymous lines of other products, in their
    order, as many as the limit leaves room for. *)
Definition merged (mine anon : list StoredLine) : list StoredLine :=
  map (λ l, Cart.with_quantity (Z.max (quantity l) (quantity_of (sku l) anon)) l) mine ++
  take (Z.to_nat MAX_LINES - length mine) (filter (λ l, sku l ∉ map sku mine) anon).

Lemma update_first_map s f ls : NoDup (map sku ls) →
  Cart.update_first (Cart.has_sku s) f ls = map (λ l, if Cart.has_sku s l then Cart.with_quantity (f (quantity l)) l else l) ls.
Proof.
  induction ls as [|l ls IH]; cbn; [done|]. intros [Hl Hn]%NoDup_cons. destruct (Cart.has_sku s l) eqn:E; f_equal; [|by apply IH].
  apply has_sku_true in E. subst s. clear IH. induction ls as [|x ls IH]; cbn in *; [done|].
  apply not_elem_of_cons in Hl as [Hx Hl]. apply NoDup_cons in Hn as [_ Hn].
  rewrite (proj2 (has_sku_false _ _)) by done. f_equal. by apply IH.
Qed.

Lemma with_quantity_same l : Cart.with_quantity (quantity l) l = l.
Proof. by destruct l. Qed.

(** One line more on the anonymous side. *)
Lemma merged_cons mine l anon :
  wf_lines mine → quantity_ok (quantity l) → Forall (λ l, quantity_ok (quantity l)) mine →
  sku l ∉ map sku anon → merged (Cart.merge_line mine l) anon = merged mine (l :: anon).
Proof.
  intros (Hn & Hlen & _) Hq Hqs Hl. unfold merged, Cart.merge_line. cbn [quantity_of].
  assert (quantity_of (sku l) anon = 0) as H0 by by apply quantity_of_absent.
  unfold quantity_ok in *. rewrite Forall_forall in Hqs.
  destruct (existsb (Cart.has_sku (sku l)) mine) eqn:E.
  - rewrite update_first_skus, update_first_length, update_first_map by done.
    rewrite filter_cons, decide_False by (intros Hx; apply Hx; by apply existsb_sku). f_equal.
    rewrite map_map. apply map_ext_in. intros x Hx. apply list_elem_of_In in Hx. specialize (Hqs x Hx).
    unfold Cart.has_sku. case_bool_decide as Hs.
    + change (sku (Cart.with_quantity ?q x)) with (sku x). rewrite bool_decide_eq_true_2 by done. rewrite Hs, H0.
      destruct x as [xs xp xq xa xd]. unfold Cart.with_quantity. cbn in *. f_equal. lia.
    + by rewrite bool_decide_eq_false_2.
  - apply existsb_sku_false in E. rewrite filter_cons, decide_True by done.
    assert (∀ x, x ∈ mine → Z.max (quantity x) (if Cart.has_sku (sku x) l then quantity l else quantity_of (sku x) anon) =
      Z.max (quantity x) (quantity_of (sku x) anon)) as Hsame.
    { intros x Hx. rewrite (proj2 (has_sku_false _ _)); [done|]. intros Hs. apply E. rewrite Hs. by apply list_elem_of_fmap_2. }
    assert (map (λ x, Cart.with_quantity (Z.max (quantity x) (if Cart.has_sku (sku x) l then quantity l else quantity_of (sku x) anon)) x) mine =
      map (λ x, Cart.with_quantity (Z.max (quantity x) (quantity_of (sku x) anon)) x) mine) as ->.
    { apply map_ext_in. intros x Hx%list_elem_of_In. by rewrite Hsame. }
    destruct (Z.ltb_spec (Z.of_nat (length mine)) MAX_LINES) as [Hroom|Hroom].
    + rewrite !map_app, <- app_assoc, length_app. cbn [map app length]. f_equal.
      replace (Z.to_nat MAX_LINES - length mine)%nat with (S (Z.to_nat MAX_LINES - (length mine + 1))) by lia.
      cbn [take]. rewrite H0, Z.max_l by lia. rewrite with_quantity_same. f_equal. f_equal.
      clear -Hl. induction anon as [|x anon IH]; [done|]. cbn in Hl. apply not_elem_of_cons in Hl as [Hx Hl].
      rewrite !filter_cons, IH by done. destruct (decide (sku x ∉ map sku mine)) as [Hd|Hd].
      * rewrite decide_True; [done|]. rewrite elem_of_app, list_elem_of_singleton. intros [?|?]; [done|congruence].
      * rewrite decide_False; [done|]. intros Hc. apply Hd. intros Hi. apply Hc, elem_of_app. by left.
    + replace (Z.to_nat MAX_LINES - length mine)%nat with 0%nat by lia. by rewrite !take_0.
Qed.

Lemma merge_lines_merged mine anon : wf_lines mine → wf_lines anon → Cart.merge_lines mine anon = merged mine anon.
Proof.
  intros Hm (Hn & _ & Hq). unfold Cart.merge_lines. revert mine Hm.
  induction Hq as [|l anon Hl Hq IH]; intros mine Hm; cbn [foldl].
  - unfold merged. cbn [quantity_of]. rewrite filter_nil, take_nil, app_nil_r. destruct Hm as (_ & _ & Hm).
    symmetry. rewrite <- (map_id mine) at 2. apply map_ext_in. intros x Hx%list_elem_of_In. rewrite Forall_forall in Hm.
    specialize (Hm x Hx). unfold quantity_ok in Hm. rewrite Z.max_l by lia. apply with_quantity_same.
  - cbn in Hn. apply NoDup_cons in Hn as [Hl' Hn]. rewrite IH by (done || by apply merge_line_wf).
    apply merged_cons; [done|done|by destruct Hm as (_ & _ & ?)|done].
Qed.

(** C5. Merging keeps the larger quantity of a product both carts hold, never
    the sum; no line of the user's cart is lost; the lines of the anonymous cart
    whose product is new follow in their order, exactly as many as the limit of
    100 leaves room for; the result is again a cart of distinct products within
    the limits; each coupon of either cart is kept once. *)
Theorem merge_lines_correct mine anon a b :
  wf_lines mine → wf_lines anon →
  wf_lines (Cart.merge_lines mine anon) ∧
  Cart.merge_lines mine anon = merged mine anon ∧
  (∀ s, s ∈ map sku mine ∨ Z.of_nat (length mine + length anon) <= MAX_LINES →
     quantity_of s (Cart.merge_lines mine anon) = Z.max (quantity_of s mine) (quantity_of s anon)) ∧
  map sku mine `prefix_of` map sku (Cart.merge_lines mine anon) ∧
  NoDup (Cart.merge_coupons a b) ∧
  (∀ x, x ∈ Cart.merge_coupons a b ↔ x ∈ a ∨ x ∈ b).
Proof.
  intros Hm Ha. pose proof Ha as (Hn & _ & Hq). split; [by apply merge_lines_wf|]. split; [by apply merge_lines_merged|].
  split; [intros s; by apply merge_lines_quantity|].
  split; [apply merge_lines_skus|]. apply merge_coupons_spec.
Qed.

Definition sample_line (s : jstr) (q : Z) : StoredLine := {|
  sku := s; productId := "prd_1"; quantity := q; addedAtPrice := jint 500;
  addedAt := "2024-01-01T00:00:00.000Z" |}.

Lemma merge_lines_correct_witness :
  quantity_of "A" (Cart.merge_lines [sample_line "A" 3] [sample_line "B" 1; sample_line "A" 5]) = 5
  ∧ wf_lines (Cart.merge_lines [sample_line "A" 3] [sample_line "B" 1; sample_line "A" 5]).
Proof.
  assert (wf_lines [sample_line "A" 3]) as H1
    by (split; [apply NoDup_singleton|split; [done|repeat constructor; done]]).
  assert (wf_lines [sample_line "B" 1; sample_line "A" 5]) as H2
    by (split; [by apply (bool_decide_unpack _); vm_compute|split; [done|repeat constructor; done]]).
  destruct (merge_lines_correct _ _ [] [] H1 H2) as (Hw & _ & Hq & _).
  split; [|exact Hw]. rewrite (Hq "A"); [reflexivity|]. left. apply elem_of_cons. by left.
Defined.
