(* ===== verification/CartJson.v ===== *)
(** * The JSON text of a stored cart

    The codec of [StoredCart] on carts whose prices are integers in minor
    units, with its round trip: the instance of [JsonCodec] the examples run.

    Then the ULIDs the service mints: their alphabet, their length, and
    their order in time. *)
From Stdlib Require Import QArith.
From S2P Require Import Prelude JsNumber JsString JsDate Json Prog Primitives CircuitBreaker Redis.
From S2P Require Import CartTypes CartPeers.
From S2P Require Import Cart.
Local Open Scope js_scope.
Local Open Scope Z_scope.

Module CartJson.

(** A number: an integer is written in decimal, a number that is not finite as
    [null]; a fraction is outside the model of [Json] and is given [null] too. *)
Definition num_json (x : num) : json :=
  match x with
  | Fin q => if Z.pos (Qden q) =? 1 then JNum (Qnum q) else JNull
  | _ => JNull
  end.

Definition line_json (l : StoredLine) : json := JObj [
  ("sku", JStr (sku l)); ("productId", JStr (productId l)); ("quantity", JNum (quantity l));
  ("addedAtPrice", num_json (addedAtPrice l)); ("addedAt", JStr (addedAt l))].

Definition cart_json (c : StoredCart) : json := JObj [
  ("id", JStr (id c));
  ("userId", match userId c with Some u => JStr u | None => JNull end);
  ("lines", JArr (map line_json (lines c)));
  ("currency", JStr (cart_currency c));
  ("coupons", JArr (map JStr (coupons c)));
  ("countryCode", JStr (countryCode c));
  ("createdAt", JStr (createdAt c)); ("updatedAt", JStr (updatedAt c))].

(** The cast [as StoredCart]: [None] stands for a value of another shape. *)
Definition line_of (j : json) : option StoredLine :=
  s ← field "sku" j ≫= the_str; p ← field "productId" j ≫= the_str;
  q ← field "quantity" j ≫= the_int; a ← field "addedAtPrice" j ≫= the_int;
  t ← field "addedAt" j ≫= the_str;
  Some {| sku := s; productId := p; quantity := q; addedAtPrice := jint a; addedAt := t |}.

Definition cart_of (j : json) : option StoredCart :=
  i ← field "id" j ≫= the_str;
  u ← field "userId" j;
  ls ← field "lines" j ≫= the_list line_of;
  c ← field "currency" j ≫= the_str;
  cs ← field "coupons" j ≫= the_list the_str;
  cc ← field "countryCode" j ≫= the_str;
  ca ← field "createdAt" j ≫= the_str;
  ua ← field "updatedAt" j ≫= the_str;
  Some {| id := i; userId := the_str u; lines := ls; cart_currency := c; coupons := cs;
          countryCode := cc; createdAt := ca; updatedAt := ua |}.

(** Prices in whole minor units. *)
Definition whole_prices (c : StoredCart) : Prop :=
  Forall (λ l, ∃ z, addedAtPrice l = jint z) (lines c).

Lemma line_of_json l : (∃ z, addedAtPrice l = jint z) → line_of (line_json l) = Some l.
Proof. intros [z Hz]. destruct l; cbn in *. by subst. Qed.

Lemma the_list_map {A} (f : json → option A) (g : A → json) (l : list A) :
  Forall (λ a, f (g a) = Some a) l → the_list f (JArr (map g l)) = Some l.
Proof. induction 1 as [|a l Ha _ IH]; cbn in *; [done|]. by rewrite Ha, IH. Qed.

Lemma cart_of_json c : whole_prices c → cart_of (cart_json c) = Some c.
Proof.
  intros Hp.
  assert (the_list line_of (JArr (map line_json (lines c))) = Some (lines c)) as Hl.
  { apply the_list_map. eapply Forall_impl; [exact Hp|]. intros l. apply line_of_json. }
  assert (the_list the_str (JArr (map JStr (coupons c))) = Some (coupons c)) as Hc.
  { apply the_list_map. by apply Forall_forall. }
  destruct c as [i u ls cur cs cc ca ua]. unfold cart_of, cart_json. cbn -[the_list line_json map line_of] in *.
  rewrite Hl. cbn -[the_list map]. rewrite Hc. by destruct u.
Qed.

Lemma parse_cart c :
  whole_prices c → (parse_json (print (cart_json c)) ≫= cart_of) = Some c.
Proof. intros Hc. rewrite parse_print. by apply cart_of_json. Qed.

#[global] Instance codec : JsonCodec StoredCart := {|
  stringify c := print (cart_json c);
  parse s := parse_json s ≫= cart_of;
  encodable := whole_prices;
  parse_stringify := parse_cart;
  parse_empty := eq_refl;
  stringify_nonempty c := ltac:(done)
|}.

(** Whatever the prices, the round trip keeps the id and the quantities. *)
Lemma line_of_shape l l' :
  line_of (line_json l) = Some l' → sku l' = sku l ∧ quantity l' = quantity l.
Proof.
  unfold line_of. cbn. destruct (the_int (num_json (addedAtPrice l))); [|done].
  cbn. by intros [= <-].
Qed.

Lemma lines_shape ls ls' :
  the_list line_of (JArr (map line_json ls)) = Some ls' →
  map (λ l, (sku l, quantity l)) ls' = map (λ l, (sku l, quantity l)) ls.
Proof.
  cbn. revert ls'. induction ls as [|l ls IH]; intros ls' Hm; cbn in Hm; [by injection Hm as <-|].
  apply bind_Some in Hm as (l' & Hl & Hm). apply bind_Some in Hm as (r & Hr & [= <-]).
  apply line_of_shape in Hl as [Hs Hq]. cbn. by rewrite Hs, Hq, (IH r Hr).
Qed.

Lemma codec_shape c c' : parse (stringify c) = Some c' →
  id c' = id c ∧
  map (λ l, (sku l, quantity l)) (lines c') = map (λ l, (sku l, quantity l)) (lines c).
Proof.
  cbn [parse stringify codec]. rewrite parse_print. cbn [mbind option_bind].
  unfold cart_of, cart_json. cbn -[the_list line_json map line_of].
  intros Hc. apply bind_Some in Hc as (ls & Hls & Hc).
  apply bind_Some in Hc as (cs & _ & [= <-]). split; [done|]. by apply lines_shape.
Qed.

End CartJson.

(** * The identifiers cart-service mints

    [ulid]: ten Crockford base-32 digits of the time, sixteen of randomness. *)

(** Alphabetical order of strings, by code unit. *)
Fixpoint str_lt (a b : jstr) : Prop :=
  match a, b with
  | _, [] => False
  | [], _ :: _ => True
  | x :: a', y :: b' => (x < y)%N ∨ x = y ∧ str_lt a' b'
  end.

(** ** The alphabet *)

Definition crockford_below (n : nat) : bool :=
  forallb (λ i, forallb (λ j, (Cart.crockford (N.of_nat i) <? Cart.crockford (N.of_nat j))%N
                              || (j <=? i)%nat) (seq 0 n)) (seq 0 n).

Lemma crockford_mono a b : (a < b < 32)%N → (Cart.crockford a < Cart.crockford b)%N.
Proof.
  intros Hab. assert (crockford_below 32 = true) as Hc by (vm_compute; reflexivity).
  unfold crockford_below in Hc. rewrite forallb_forall in Hc.
  specialize (Hc (N.to_nat a) ltac:(apply in_seq; lia)). rewrite forallb_forall in Hc.
  specialize (Hc (N.to_nat b) ltac:(apply in_seq; lia)). rewrite !N2Nat.id in Hc.
  apply orb_true_iff in Hc as [?%N.ltb_lt|?%Nat.leb_le]; [done|lia].
Qed.

Lemma crockford_elem n : (n < 32)%N → Cart.crockford n ∈ Cart.CROCKFORD.
Proof.
  intros Hn. unfold Cart.crockford. apply list_elem_of_In, nth_In. cbn. lia.
Qed.

(** ** The time part *)

Lemma ulid_time_app n ts d :
  Cart.ulid_time (n + d) ts = Cart.ulid_time n ts ++ Cart.ulid_time d (ts / 32 ^ Z.of_nat n).
Proof.
  revert ts. induction n as [|n IH]; intros ts; cbn [Nat.add Cart.ulid_time app].
  - by rewrite Z.div_1_r.
  - rewrite IH. do 2 f_equal. rewrite Z.div_div by lia. f_equal.
    rewrite Nat2Z.inj_succ, Z.pow_succ_r; lia.
Qed.

Lemma ulid_time_length n ts : length (Cart.ulid_time n ts) = n.
Proof. revert ts. induction n as [|n IH]; intros ts; cbn; [done|]. by rewrite IH. Qed.

Lemma ulid_time_elem n ts : Forall (λ c, c ∈ Cart.CROCKFORD) (Cart.ulid_time n ts).
Proof.
  revert ts. induction n as [|n IH]; intros ts; cbn; constructor; [|done].
  apply crockford_elem. pose proof (Z.mod_pos_bound ts 32 ltac:(lia)). lia.
Qed.

Lemma str_lt_cons x a b : str_lt (x :: a) (x :: b) ↔ str_lt a b.
Proof. cbn. split; [intros [?|[_ ?]]; [lia|done]|auto]. Qed.

(** The most significant digit decides, then the rest. *)
Lemma ulid_time_lt n a b s s' :
  0 <= a < b → b < 32 ^ Z.of_nat n →
  str_lt (rev (Cart.ulid_time n a) ++ s) (rev (Cart.ulid_time n b) ++ s').
Proof.
  revert a b s s'. induction n as [|n IH]; intros a b s s' Hab Hb; [cbn in Hb; lia|].
  replace (S n) with (n + 1)%nat in * by lia. rewrite !ulid_time_app, !rev_app_distr, <- !app_assoc.
  cbn [Cart.ulid_time rev app]. set (k := 32 ^ Z.of_nat n) in *.
  assert (0 < k) as Hk by (apply Z.pow_pos_nonneg; lia).
  assert (32 ^ Z.of_nat (n + 1) = 32 * k) as Hpow.
  { unfold k. rewrite Nat2Z.inj_add, Z.pow_add_r by lia. lia. }
  rewrite Hpow in Hb.
  assert (∀ x, 0 <= x < 32 * k → (x / k) mod 32 = x / k) as Hd.
  { intros x Hx. apply Z.mod_small. split; [apply Z.div_pos; lia|apply Z.div_lt_upper_bound; lia]. }
  rewrite !Hd by lia.
  assert (0 <= a / k) by (apply Z.div_pos; lia).
  assert (b / k < 32) by (apply Z.div_lt_upper_bound; lia).
  assert (a / k <= b / k) as [Hlt|Heq]%Z.le_lteq by (apply Z.div_le_mono; lia).
  - left. apply crockford_mono. lia.
  - right. rewrite Heq. split; [done|].
    assert (∀ x, Cart.ulid_time n (x mod k) = Cart.ulid_time n x) as Hmod.
    { intros x. unfold k. clear. revert x. induction n as [|n IH]; intros x; cbn [Cart.ulid_time]; [done|].
      rewrite Nat2Z.inj_succ, Z.pow_succ_r by lia. set (m := 32 ^ Z.of_nat n) in *.
      assert (0 < m) by (apply Z.pow_pos_nonneg; lia).
      rewrite Z.rem_mul_r by lia. f_equal.
      - do 2 f_equal. rewrite Z.mul_comm, Z_mod_plus_full, Zmod_mod. done.
      - rewrite <- (IH (x / 32)). f_equal. rewrite Z.mul_comm, Z_div_plus_full by lia.
        rewrite (Z.div_small (x mod 32)) by (apply Z.mod_pos_bound; lia). lia. }
    rewrite <- (Hmod a), <- (Hmod b). pose proof (Z.mod_pos_bound a k Hk).
    pose proof (Z.mod_pos_bound b k Hk). apply IH; [|lia].
    pose proof (Z.div_mod a k). pose proof (Z.div_mod b k). rewrite Heq in *. lia.
Qed.

Lemma ulid_length ts bytes : length bytes = 16%nat → length (Cart.ulid_of ts bytes) = 26%nat.
Proof.
  intros Hb. unfold Cart.ulid_of.
  rewrite length_app, length_rev, ulid_time_length, length_map, length_take. lia.
Qed.

(** A minted identifier is 26 digits of the Crockford alphabet, and
    identifiers sort by the millisecond they were minted in, until the ten digits
    of time are exhausted. *)
Theorem ulid_sorted ts ts' bytes bytes' :
  length bytes = 16%nat → 0 <= ts < ts' → ts' < 2 ^ 50 →
  length (Cart.ulid_of ts bytes) = 26%nat ∧
  Forall (λ c, c ∈ Cart.CROCKFORD) (Cart.ulid_of ts bytes) ∧
  str_lt (Cart.ulid_of ts bytes) (Cart.ulid_of ts' bytes').
Proof.
  intros Hb Ht Ht'. split; [by apply ulid_length|]. split.
  - unfold Cart.ulid_of. apply Forall_app. split.
    + rewrite Forall_forall. intros c Hc. rewrite list_elem_of_In, <- in_rev, <- list_elem_of_In in Hc.
      pose proof (ulid_time_elem 10 ts) as Hf. rewrite Forall_forall in Hf. auto.
    + apply Forall_map, Forall_true. intros b. apply crockford_elem, N.mod_lt. lia.
  - apply (ulid_time_lt 10); [done|]. change (32 ^ Z.of_nat 10) with (2 ^ 50). lia.
Qed.

Lemma ulid_sorted_witness :
  str_lt (Cart.ulid_of 1700000000000 (repeat 255%N 16)) (Cart.ulid_of 1700000000001 (repeat 0%N 16)).
Proof. apply ulid_sorted; [reflexivity|lia|lia]. Defined.
