(* ===== verification/CartWorld.v ===== *)
(** * The world of cart-service

    What every awaited command may do: Redis follows [RedisLaws], and any
    command may be rejected, before or after its effect; the catalogue, the
    pricing engine, the clock and the random source answer anything.  [drive]
    is one deterministic world, for the examples. *)
From S2P Require Import Prelude JsNumber JsString Prog Primitives CircuitBreaker Redis CartTypes.
From S2P Require Import CartPeers Cart.
Local Open Scope js_scope.
Local Open Scope Z_scope.

Section World.
Context {R : Type} `{RedisServer R}.

Record world := { redis : R; process : proc }.

Definition set_redis (r : R) (w : world) : world := {| redis := r; process := process w |}.

(** The digest [SCRIPT LOAD] gives the CAS script. *)
Definition cas_digest (r : R) : jstr := (script_load Cart.CAS_SCRIPT r).1.

(** The errors of the Redis client are plain [Error]s. *)
Definition client_error (e : exn) : Prop := ∃ m, e = Error m.

(** A command of Redis with answer [a] and effect [r']: it may also be
    rejected, whether or not the effect took place. *)
Definition answers {B} (a : B) (r' : R) (w : world) (res : result exn B) (w' : world) : Prop :=
  (res = Ok a ∧ w' = set_redis r' w) ∨
  (∃ e, res = Err e ∧ client_error e ∧ Cart.is_noscript e = false ∧ (w' = w ∨ w' = set_redis r' w)).

Definition effect (B : Type) (c : eff B) (w : world) : result exn B → world → Prop :=
  match c in eff B return result exn B → world → Prop with
  | HMGET k => answers (hget k "data" (redis w), hget k "version" (redis w)) (redis w) w
  | SCRIPT_LOAD s =>
      answers (script_load s (redis w)).1 (script_load s (redis w)).2 w
  | EVALSHA sha k v p t => λ res w',
      if script_exists sha (redis w) && bool_decide (sha = cas_digest (redis w))
      then let o := Cart.cas_script k v p t (redis w) in answers o.1 o.2 w res w'
      else w' = w ∧ ∃ e, res = Err e ∧ client_error e
  | GET k => answers (rget k (redis w)) (redis w) w
  | SET_EX k v t => answers tt (rset k v t (redis w)) w
  | DEL k => answers tt (rdel k (redis w)) w
  | FETCH _ => λ res w', w' = w
  | CALCULATE _ => λ res w', w' = w
  | NOW => λ res w', w' = w ∧ ∃ t, res = Ok t
  | RANDOM n => λ res w', w' = w ∧ ∃ l, res = Ok l ∧ length l = n
  | INC _ _ => λ res w', w' = w ∧ res = Ok tt
  | LOCAL f => λ res w',
      res = Ok (f (process w)).1 ∧ w' = {| redis := redis w; process := (f (process w)).2 |}
  end.

(** ** A deterministic world *)

Section Drive.
Context (clock : Z) (bytes : list N).
Context (catalogue : jstr → result exn (response (list (option Variant)))).
Context (engine : CalculateRequest → result exn (option PricedCart)).

Definition NOSCRIPT : exn := Error "NOSCRIPT No matching script. Please use EVAL.".

Definition drive (B : Type) (c : eff B) (w : world) : result exn B * world :=
  match c in eff B return result exn B * world with
  | HMGET k => (Ok (hget k "data" (redis w), hget k "version" (redis w)), w)
  | SCRIPT_LOAD s =>
      (Ok (script_load s (redis w)).1, set_redis (script_load s (redis w)).2 w)
  | EVALSHA sha k v p t =>
      if script_exists sha (redis w) && bool_decide (sha = cas_digest (redis w))
      then let o := Cart.cas_script k v p t (redis w) in (Ok o.1, set_redis o.2 w)
      else (Err NOSCRIPT, w)
  | GET k => (Ok (rget k (redis w)), w)
  | SET_EX k v t => (Ok tt, set_redis (rset k v t (redis w)) w)
  | DEL k => (Ok tt, set_redis (rdel k (redis w)) w)
  | FETCH url => (catalogue url, w)
  | CALCULATE req => (engine req, w)
  | NOW => (Ok clock, w)
  | RANDOM n => (Ok (take n (bytes ++ replicate n 0%N)), w)
  | INC _ _ => (Ok tt, w)
  | LOCAL f => (Ok (f (process w)).1, {| redis := redis w; process := (f (process w)).2 |})
  end.

(** The deterministic world is one of the worlds [effect] allows. *)
Lemma set_redis_same w : set_redis (redis w) w = w.
Proof. by destruct w. Qed.

Lemma drive_effect B (c : eff B) w : effect B c w (drive B c w).1 (drive B c w).2.
Proof.
  destruct c; cbn; unfold answers; rewrite ?set_redis_same; eauto.
  - destruct (_ && _); cbn; [by left|]. split; [done|]. by repeat eexists.
  - split; [done|]. eexists. split; [done|].
    rewrite length_take, length_app, length_replicate. lia.
Qed.

Lemma drive_exec {A} (p : prog A) w : exec eq effect p w (run drive p w).1 (run drive p w).2.
Proof.
  eapply exec_mono; [done| |apply run_exec]. intros B c a r b Hd.
  pose proof (drive_effect B c a) as He. rewrite Hd in He. exact He.
Qed.
End Drive.

(** ** What a program can throw *)

Definition throws_only (φ : exn → Prop) {A} (p : prog A) : Prop :=
  ∀ (Q : world → world → Prop) (w : world) e w', exec Q effect p w (Err e) w' → φ e.

Section Throws.
Context (φ : exn → Prop).

Lemma throws_bind {A B} (p : prog A) (f : A → prog B) :
  throws_only φ p → (∀ a, throws_only φ (f a)) → throws_only φ (p ≫= f).
Proof.
  intros Hp Hf Q w e w' [(a & w1 & H1' & H2')|(e' & [= <-] & H1')]%exec_mbind;
    [by eapply Hf|by eapply Hp].
Qed.

Lemma throws_try {A} (p : prog A) h :
  (∀ e, throws_only φ (h e)) → throws_only φ (try_catch p h).
Proof. intros Hh Q w e w' [(a & ? & _)|(e' & w1 & _ & H2')]%exec_try; [done|by eapply Hh]. Qed.

Lemma throws_now : throws_only φ (await NOW).
Proof. intros Q w e w' (w1 & _ & _ & t & ?)%exec_await. done. Qed.

Lemma throws_inc m l : throws_only φ (await (INC m l)).
Proof. intros Q w e w' (w1 & _ & _ & ?)%exec_await. done. Qed.

Lemma throws_local {A} (f : proc → A * proc) : throws_only φ (local f).
Proof. intros Q w e w' (w1 & _ & ? & _)%exec_await. done. Qed.

Lemma throws_lift {A} (r : result jstr A) :
  (∀ m, r = Err m → φ (Error m)) → throws_only φ (lift r).
Proof. intros Hφ Q w e w'. destruct r; cbn; [by intros [? _]|intros [[= ->] _]; auto]. Qed.

Lemma throws_ret {A} (a : A) : throws_only φ (mret a : prog A).
Proof. by intros Q w e w' [? _]. Qed.

Lemma throws_throw {A} e : φ e → throws_only φ (throw e : prog A).
Proof. by intros ? Q w e' w' [[= ->] _]. Qed.
End Throws.

End World.

Arguments world R : clear implicits.
Arguments Build_world {R} _ _.
Arguments throws_only {R _} φ {A} p.
Create HintDb throws discriminated.

Ltac throws_step :=
  lazymatch goal with
  | |- ∀ _, _ => intros ?
  | |- throws_only _ (_ ≫= _) => apply throws_bind
  | |- throws_only _ (try_catch _ _) => apply throws_try
  | |- throws_only _ (local _) => apply throws_local
  | |- throws_only _ (read _) => apply throws_local
  | |- throws_only _ (lift _) => apply throws_lift; solve [auto]
  | |- throws_only _ (mret _) => apply throws_ret
  | |- throws_only _ (throw _) => apply throws_throw; solve [auto]
  | |- throws_only _ (await NOW) => apply throws_now
  | |- throws_only _ (await (INC _ _)) => apply throws_inc
  | |- throws_only _ (match _ with _ => _ end) => dmatch
  | |- throws_only _ _ => solve [auto with throws]
  end.
Ltac throws_walk := repeat throws_step.

Lemma throws_getVariants `{RedisServer R} φ url skus :
  throws_only (R := R) φ (Catalog.getVariants url skus).
Proof. unfold Catalog.getVariants. throws_walk. Qed.
#[export] Hint Resolve throws_getVariants : throws.

(** Pricing a cart fails only with a plain error of the money arithmetic. *)
Lemma throws_price `{RedisServer R} φ url cart v :
  (∀ m, φ (Error m)) → throws_only (R := R) φ (Cart.price url cart v).
Proof. intros Hφ. unfold Cart.price, Cart.hydrate, Cart.degradedCart. throws_walk. Qed.

