(* ===== verification/CartPricing.v ===== *)
(** * Pricing a cart, and doing without the pricing engine

    The guarantees of [price]: it never fails because a dependency failed, the
    degraded cart adds up, and the catalogue cache and the circuit breaker do
    what they are for.

    [CartClients] is about the two clients: the cache and the breaker at
    work. *)
From Stdlib Require Import QArith.
From S2P Require Import Prelude JsNumber JsString JsDate Json Prog Primitives CircuitBreaker Redis.
From S2P Require Import CartTypes CartPeers.
From S2P Require Import Cart CartLines CartJson CartWorld.
Local Open Scope js_scope.
Local Open Scope Z_scope.

(** ** The degraded cart *)

(** Hydrated lines, each priced at a whole number of minor units of [c]. *)
Definition priced_at (c : jstr) (h : Cart.HydratedLine) (p : Z) : Prop :=
  Cart.h_unitPrice h = Some (minor p c).

(** What a list of lines comes to: the prices [ps] times the quantities. *)
Definition line_totals (hl : list Cart.HydratedLine) (ps : list Z) : list Z :=
  zip_with (λ h p, p * Cart.h_quantity h) hl ps.
Fixpoint sumZ (l : list Z) : Z := match l with [] => 0 | x :: r => x + sumZ r end.

Lemma sumZ_nonneg l : Forall (λ x, 0 <= x) l → 0 <= sumZ l.
Proof. induction 1; cbn; lia. Qed.

Lemma degraded_lines_sum c hl ps s :
  Forall2 (priced_at c) hl ps → Forall (λ x, 0 <= x) (line_totals hl ps) → 0 <= s →
  s + sumZ (line_totals hl ps) < 2 ^ 53 →
  ∃ ls, Cart.degraded_lines (minor s c) hl = Ok (ls, minor (s + sumZ (line_totals hl ps)) c) ∧
    map l_lineTotal ls = map (λ t, minor t c) (line_totals hl ps) ∧
    map l_sku ls = map Cart.h_sku hl ∧ map l_quantity ls = map Cart.h_quantity hl.
Proof.
  intros Hp. revert s. induction Hp as [|h p hl ps Hh Hp IH]; intros s Hn Hs Hlt; cbn in *.
  { exists []. rewrite Z.add_0_r. done. }
  apply Forall_cons in Hn as [Hn0 Hn]. pose proof (sumZ_nonneg _ Hn). rewrite Hh. cbn [required mbind result_bind].
  rewrite multiplyMoney_minor by lia. cbn [mbind result_bind].
  rewrite addMoney_minor by lia. cbn [mbind result_bind].
  destruct (IH (s + p * Cart.h_quantity h) Hn ltac:(lia)) as (ls & -> & Ht & Hsk & Hq).
  { unfold line_totals. lia. }
  eexists. cbn. split; [unfold line_totals; by rewrite <- Z.add_assoc|]. cbn. by rewrite Ht, Hsk, Hq.
Qed.

(** The degraded cart adds up: with every line priced in whole minor units of
    the cart's currency and a total a number can hold exactly, the lines are all
    kept, each line total is price times quantity, and the subtotal is exactly
    their sum; no rounding enters. *)
Theorem degraded_cart_total c hl ps :
  Forall2 (priced_at c) hl ps → Forall (λ x, 0 <= x) (line_totals hl ps) →
  sumZ (line_totals hl ps) < 2 ^ 53 →
  ∃ ls, Cart.degraded_lines (zeroMoney c) hl = Ok (ls, minor (sumZ (line_totals hl ps)) c) ∧
    map l_lineTotal ls = map (λ t, minor t c) (line_totals hl ps) ∧
    map l_sku ls = map Cart.h_sku hl ∧ map l_quantity ls = map Cart.h_quantity hl.
Proof. intros Hp Hn Hlt. by apply (degraded_lines_sum c hl ps 0). Qed.

Definition sample_hydrated (s : jstr) (q p : Z) : Cart.HydratedLine := {|
  Cart.h_sku := s; Cart.h_productId := "prd_1"; Cart.h_title := "Mug"; Cart.h_image := None;
  Cart.h_quantity := q; Cart.h_unitPrice := Some (minor p "EGP"); Cart.h_categoryPath := [];
  Cart.h_brand := None; Cart.h_attributes := [] |}.

Lemma degraded_cart_total_witness :
  ∃ ls, Cart.degraded_lines (zeroMoney "EGP") [sample_hydrated "A" 2 500; sample_hydrated "B" 3 100]
        = Ok (ls, minor 1300 "EGP") ∧
    map l_lineTotal ls = [minor 1000 "EGP"; minor 300 "EGP"].
Proof.
  destruct (degraded_cart_total "EGP" [sample_hydrated "A" 2 500; sample_hydrated "B" 3 100] [500; 100])
    as (ls & H1 & H2 & _); [by repeat constructor..|done|]. exists ls. by split.
Defined.

(** ** [price] fails only on a currency mismatch *)

Definition currency_mismatch (cur : jstr) (e : exn) : Prop :=
  ∃ cur', cur' ≠ cur ∧ e = Error ("cannot add " ++ cur ++ " to " ++ cur').

(** Or where something is missing from an answer. *)
Definition unpriceable (cur : jstr) (e : exn) : Prop := currency_mismatch cur e ∨ e = Error no_object.

Lemma multiplyMoney_jint m q m' :
  multiplyMoney m (jint q) = m' → ∃ x, m' = Ok {| amount := x; currency := currency m |}.
Proof. unfold multiplyMoney. rewrite is_integer_jint. cbn. intros <-. by eexists. Qed.

Lemma degraded_lines_err cur hl s m :
  currency s = cur → Cart.degraded_lines s hl = Err m →
  currency_mismatch cur (Error m) ∨ m = no_object ∧ ¬ Forall (λ h, is_Some (Cart.h_unitPrice h)) hl.
Proof.
  revert s. induction hl as [|h hl IH]; intros s Hs; cbn; [done|].
  destruct (Cart.h_unitPrice h) as [u|] eqn:Hu; cbn [required mbind result_bind].
  2:{ intros [= <-]. right. split; [done|]. intros [[? ?] _]%Forall_cons. congruence. }
  destruct (multiplyMoney_jint u (Cart.h_quantity h) _ eq_refl) as [x ->].
  cbn [mbind result_bind]. unfold addMoney. cbn [currency amount]. case_decide as Hc; cbn.
  - intros [= <-]. left. exists (currency u). by subst.
  - destruct (Cart.degraded_lines _ hl) as [r|m'] eqn:Hr; cbn; [done|]. intros [= <-].
    apply IH in Hr as [?|[-> Hn]]; [by left|right|done]. split; [done|]. by intros [_ ?]%Forall_cons.
Qed.

(** What the engine answers has everything the code reads in it. *)
Definition whole_priced (p : PricedCart) : Prop :=
  (∃ ls, p_lines p = Some ls ∧ ∀ l, Some l ∈ ls → is_Some (unitEffectivePrice l)) ∧
  (∃ ps, appliedPromotions p = Some ps ∧ Forall is_Some ps) ∧
  ∃ rs, rejectedPromotions p = Some rs ∧ Forall is_Some rs.
Definition whole_variant (v : Variant) : Prop := is_Some (v_price v).

Lemma priced_line_ok h p st :
  (∃ l, Cart.priced_line h p st = Ok l ∧ l_sku l = Cart.h_sku h) ∨
  Cart.priced_line h p st = Err no_object ∧
    ¬ (is_Some (Cart.h_unitPrice h) ∧ ∀ l, p = Some l → is_Some (unitEffectivePrice l)).
Proof.
  unfold Cart.priced_line.
  destruct (Cart.h_unitPrice h) as [m|] eqn:Hm; cbn [required mbind result_bind].
  - destruct (multiplyMoney_jint m (Cart.h_quantity h) _ eq_refl) as [x ->].
    destruct p as [p|]; cbn; [|left; by eexists].
    destruct (p_lineTotal p), (unitEffectivePrice p) as [u|] eqn:Hu; cbn; try (left; by eexists);
      right; (split; [done|]); intros [_ Hl]; specialize (Hl p eq_refl); rewrite Hu in Hl; by destruct Hl.
  - destruct p as [p|]; cbn; [|right; split; [done|]; by intros [[? ?] _]].
    destruct (p_lineTotal p), (unitEffectivePrice p) as [u|]; cbn; try (left; by eexists);
      right; (split; [done|]); by intros [[? ?] _].
Qed.

Lemma priced_lines_ok i cart priced hl :
  (i + length hl ≤ length (lines cart))%nat →
  (∃ ls, Cart.priced_lines i cart priced hl = Ok ls ∧ map l_sku ls = map Cart.h_sku hl) ∨
  Cart.priced_lines i cart priced hl = Err no_object ∧
    ¬ (whole_priced priced ∧ Forall (λ h, is_Some (Cart.h_unitPrice h)) hl).
Proof.
  revert i. induction hl as [|h hl IH]; intros i Hl; cbn in *; [left; by eexists|].
  destruct (p_lines priced) as [ps|] eqn:Hps; cbn [required mbind result_bind].
  2:{ right. split; [done|]. intros [[(ls & Hls & _) _] _]. congruence. }
  destruct (lookup_lt_is_Some_2 (lines cart) i ltac:(lia)) as [st ->].
  destruct (priced_line_ok h (mjoin (ps !! i)) st) as [(l & -> & Hs)|[-> Hn]]; cbn [mbind result_bind].
  2:{ right. split; [done|]. intros [[(ls & Hls & Hall) _] [Hh _]%Forall_cons]. apply Hn. split; [done|].
      intros l Hj. apply Hall. rewrite Hps in Hls. injection Hls as <-. apply list_elem_of_lookup. exists i.
      destruct (ps !! i) as [o|]; [|done]. cbn in Hj. by subst o. }
  destruct (IH (S i) ltac:(lia)) as [(ls & -> & Hm)|[-> Hn]]; cbn [mbind result_bind].
  - left. eexists. split; [done|]. cbn. by rewrite Hs, Hm.
  - right. split; [done|]. intros [Hw [_ Hf]%Forall_cons]. by apply Hn.
Qed.

Lemma mapM_required {A} (l : list (option A)) :
  (∃ xs, mapM required l = Ok xs ∧ l = map Some xs) ∨ mapM required l = Err no_object ∧ ¬ Forall is_Some l.
Proof.
  induction l as [|[a|] l IH]; cbn; [left; by exists []| |right; split; [done|]; by intros [[? ?] _]%Forall_cons].
  destruct IH as [(xs & -> & ->)|[-> Hn]]; cbn; [left; by exists (a :: xs)|right]. split; [done|].
  by intros [_ ?]%Forall_cons.
Qed.

Lemma coupons_ok priced :
  (∀ m, Cart.applied_coupons priced = Err m ∨ Cart.rejected_coupons priced = Err m → m = no_object) ∧
  (whole_priced priced → is_ok (Cart.applied_coupons priced) = true ∧ is_ok (Cart.rejected_coupons priced) = true).
Proof.
  unfold Cart.applied_coupons, Cart.rejected_coupons. split.
  - intros m [Hm|Hm]; [destruct (appliedPromotions priced) as [ps|]|destruct (rejectedPromotions priced) as [ps|]];
      cbn [required mbind result_bind] in Hm; try congruence;
      destruct (mapM_required ps) as [(xs & E & _)|[E _]]; rewrite E in Hm; cbn in Hm; congruence.
  - intros (_ & (ps & -> & Hp) & rs & -> & Hr). cbn [required mbind result_bind].
    destruct (mapM_required ps) as [(xs & -> & _)|[_ ?]]; [|done].
    by destruct (mapM_required rs) as [(ys & -> & _)|[_ ?]].
Qed.

Lemma hydrate_length bySku ls :
  (length (ls ≫= Cart.hydrate_line bySku) ≤ length ls)%nat.
Proof.
  induction ls as [|l ls IH]; [done|]. rewrite bind_cons, length_app. cbn [length].
  assert (length (Cart.hydrate_line bySku l) ≤ 1)%nat; [|lia].
  unfold Cart.hydrate_line. by destruct (bySku !! sku l); cbn; [|lia].
Qed.

(** ** The price-changed flag *)

(** What the flag should say of a line: its price is not the one shown when the
    line was added. *)
Definition flag_right (st : StoredLine) (l : CartLine) : Prop :=
  l_sku l = sku st ∧ l_priceChanged l = negb (neqb (amount (l_unitPrice l)) (addedAtPrice st)).

Lemma priced_lines_flags i cart priced hl ls sts :
  Cart.priced_lines i cart priced hl = Ok ls → drop i (lines cart) = sts →
  Forall2 (λ st h, Cart.h_sku h = sku st) sts hl → Forall2 flag_right sts ls.
Proof.
  intros Hp Hd Hf. revert i ls Hp Hd. induction Hf as [|st h sts hl Hh _ IH]; intros i ls Hp Hd; cbn in Hp.
  { injection Hp as <-. constructor. }
  destruct (p_lines priced) as [ps|]; [|done]. cbn [required mbind result_bind] in Hp.
  assert (lines cart !! i = Some st) as Hi.
  { rewrite <- (Nat.add_0_r i), <- lookup_drop, Hd. reflexivity. }
  rewrite Hi in Hp. destruct (Cart.priced_line h (mjoin (ps !! i)) st) as [l|] eqn:Hl; [|done]. cbn [mbind result_bind] in Hp.
  destruct (Cart.priced_lines (S i) cart priced hl) as [rest|] eqn:Hr; [|done]. injection Hp as <-.
  assert (flag_right st l).
  { unfold Cart.priced_line in Hl. unfold flag_right. rewrite <- Hh.
    destruct (match mjoin (ps !! i) ≫= p_lineTotal with Some t => Ok t | None => _ end) as [t|m]; [|discriminate Hl]. cbn [mbind result_bind] in Hl.
    destruct (required _) as [u|m]; [|discriminate Hl]. by injection Hl as <-. }
  constructor; [done|]. eapply IH; [exact Hr|].
  apply (f_equal tail) in Hd. cbn in Hd. rewrite <- Hd. clear.
  revert i. induction (lines cart) as [|x l IHl]; intros [|i]; try done. apply IHl.
Qed.

Lemma hydrate_all bySku ls :
  Forall (λ l, is_Some (bySku !! sku l)) ls →
  Forall2 (λ st h, Cart.h_sku h = sku st) ls (ls ≫= Cart.hydrate_line bySku).
Proof.
  induction 1 as [|l ls Hv _ IH]; [constructor|]. destruct Hv as [v Hv]. rewrite bind_cons.
  unfold Cart.hydrate_line at 1. rewrite Hv. cbn [app]. by constructor.
Qed.

(** When the catalogue knows every product of the cart, each line of the
    priced cart is flagged as changed exactly when its price is not the one the
    customer was shown when that very line was added. *)
Theorem price_flag_correct cart priced bySku ls :
  Forall (λ l, is_Some (bySku !! sku l)) (lines cart) →
  Cart.priced_lines 0 cart priced (lines cart ≫= Cart.hydrate_line bySku) = Ok ls →
  Forall2 flag_right (lines cart) ls.
Proof. intros Hk Hp. eapply priced_lines_flags; [exact Hp|done|by apply hydrate_all]. Qed.

Section Price.
Context `{RedisServer R} (baseUrl : jstr).

(** [hydrate] drops lines, it never adds any. *)
Lemma hydrate_shorter cart (Q : world R → world R → Prop) w hl w' :
  exec Q effect (Cart.hydrate baseUrl cart) w (Ok hl) w' →
  (length hl ≤ length (lines cart))%nat.
Proof.
  unfold Cart.hydrate. destruct (lines cart) as [|l ls] eqn:Hl; [by intros [[= ->] _]|].
  intros [(vs & w1 & _ & [[= ->] _])|(? & ? & _)]%exec_mbind; [|done].
  exact (hydrate_length (Cart.by_sku vs) (l :: ls)).
Qed.

Lemma throws_only_hydrate cart : throws_only (R := R) (λ _, False) (Cart.hydrate baseUrl cart).
Proof. unfold Cart.hydrate. throws_walk. Qed.

Lemma throws_degraded cart hl v :
  throws_only (R := R) (unpriceable (cart_currency cart)) (Cart.degradedCart cart hl v).
Proof.
  unfold Cart.degradedCart. apply throws_bind; [|intros; apply throws_bind; [apply throws_now|intros; apply throws_ret]].
  apply throws_lift. intros m Hm. apply (degraded_lines_err (cart_currency cart)) in Hm as [?|[-> _]]; [by left|by right|done].
Qed.

Lemma price_errors cart v (Q : world R → world R → Prop) w e w' :
  exec Q effect (Cart.price baseUrl cart v) w (Err e) w' → unpriceable (cart_currency cart) e.
Proof.
  assert (∀ A (r : result jstr A) w e w', (∀ m, r = Err m → m = no_object) →
    exec Q effect (lift r : prog A) w (Err e) w' → unpriceable (cart_currency cart) e) as Hlift.
  { intros A r w0 e0 w0' Hr. destruct r; cbn; [by intros [? _]|]. intros [[= ->] _]. right. by rewrite (Hr _ eq_refl). }
  unfold Cart.price. intros [(hl & w1 & Hh & Hx)|(e' & [= <-] & Hh)]%exec_mbind.
  2:{ by apply throws_only_hydrate in Hh. }
  apply hydrate_shorter in Hh.
  apply exec_mbind in Hx as [(o & w2 & _ & Hx)|(e' & [= <-] & Hx)].
  - destruct o as [priced|]; [|by apply throws_degraded in Hx].
    apply exec_mbind in Hx as [(ls' & w3 & _ & Hx)|(e' & [= <-] & Hx)].
    2:{ eapply Hlift; [|exact Hx]. intros m Hm. destruct (priced_lines_ok 0 cart priced hl Hh) as [(? & ? & _)|[? _]]; congruence. }
    apply exec_mbind in Hx as [(a & w4 & _ & Hx)|(e' & [= <-] & Hx)].
    2:{ eapply Hlift; [|exact Hx]. intros m Hm. apply (coupons_ok priced). by left. }
    apply exec_mbind in Hx as [(b & w5 & _ & Hx)|(e' & [= <-] & Hx)].
    2:{ eapply Hlift; [|exact Hx]. intros m Hm. apply (coupons_ok priced). by right. }
    apply exec_mbind in Hx as [(t & w6 & _ & [? _])|(e' & [= <-] & Hx)]; [done|].
    by apply (throws_now (λ _, False)) in Hx.
  - exfalso. revert Hx. intros [(a & ? & _)|(e2 & w2 & _ & [? _])]%exec_try; done.
Qed.
End Price.

(** ** Peers that keep a promise

    [conforms T Q p]: so long as the variants of the catalogue have [vp], what the
    engine computes has [pp] and the clock shows times with [tp], [p] keeps such
    variants in the cache, returns something with [Q] or throws something with
    [T], whatever else happens. *)
Section Peers.
Context (vp : Variant → Prop) (pp : PricedCart → Prop) (tp : Z → Prop).

Definition cache_holds (p : proc) : Prop := ∀ s e, cache p !! s = Some e → vp e.1.

(** The answers such peers give, and what a command may leave in the cache. *)
Definition promised {B} (c : eff B) : result exn B → Prop :=
  match c in eff B return result exn B → Prop with
  | FETCH _ => λ r, match r with Ok {| CartTypes.body := Ok vs |} => ∀ v, Some v ∈ vs → vp v | _ => True end
  | CALCULATE _ => λ r, match r with Ok (Some p) => pp p | _ => True end
  | NOW => λ r, ∃ t, r = Ok t ∧ tp t
  | LOCAL f => λ r, ∃ p, cache_holds p ∧ r = Ok (f p).1
  | _ => λ _, True
  end.
Definition keeps_cache {B} (c : eff B) : Prop :=
  match c with LOCAL f => ∀ p, cache_holds p → cache_holds (f p).2 | _ => True end.

Definition conforms {A} (T : exn → Prop) (Q : A → Prop) (p : prog A) : Prop :=
  follows (λ _ _ c, keeps_cache c) (λ _ c r, promised c r) (λ s _ _ _, s) tt p (λ a _, Q a) (λ e _, T e).

Section Walk.
Context (T : exn → Prop).

Lemma conforms_bind {A B} (M : A → Prop) (Q : B → Prop) (p : prog A) (f : A → prog B) :
  conforms T M p → (∀ a, M a → conforms T Q (f a)) → conforms T Q (p ≫= f).
Proof.
  intros Hp Hf. apply follows_bind. eapply follows_mono; [exact Hp| |done]. intros a []. apply Hf.
Qed.

Lemma conforms_try {A} (Q : A → Prop) (p : prog A) g :
  conforms (λ _, True) Q p → (∀ e, conforms T Q (g e)) → conforms T Q (try_catch p g).
Proof.
  intros Hp Hg. apply follows_try. eapply follows_mono; [exact Hp|done|]. intros e [] _. apply Hg.
Qed.

Lemma conforms_await {A} (Q : A → Prop) (c : eff A) :
  keeps_cache c → (∀ a, promised c (Ok a) → Q a) → (∀ e, promised c (Err e) → T e) → conforms T Q (await c).
Proof. intros Hc HQ HT. split; [done|]. intros [a|e] Hr; [by apply HQ|by apply HT]. Qed.

Lemma conforms_local {A} (Q : A → Prop) (f : proc → A * proc) :
  (∀ p, cache_holds p → cache_holds (f p).2 ∧ Q (f p).1) → conforms T Q (local f).
Proof.
  intros Hf. apply conforms_await; [intros p Hp; by apply Hf| |by intros e (p & _ & [=])].
  intros a (p & Hp & [= ->]). by apply Hf.
Qed.

Lemma conforms_read {A} (Q : A → Prop) (f : proc → A) :
  (∀ p, cache_holds p → Q (f p)) → conforms T Q (read f).
Proof. intros Hf. apply conforms_local. intros p Hp. split; [done|by apply Hf]. Qed.

Lemma conforms_lift {A} (Q : A → Prop) (r : result jstr A) :
  (∀ a, r = Ok a → Q a) → (∀ m, r = Err m → T (Error m)) → conforms T Q (lift r).
Proof. destruct r; cbn; auto. Qed.

Lemma conforms_now {A} (Q : A → Prop) (f : Z → prog A) :
  (∀ t, tp t → conforms T Q (f t)) → conforms T Q (now ← await NOW; f now).
Proof.
  intros Hf. apply (conforms_bind tp); [|exact Hf].
  apply conforms_await; [done|intros a (t & [= ->] & ?)|intros e (t & [=] & _)]; done.
Qed.
End Walk.

(** *** The two clients *)

Lemma scan_holds c now skus :
  (∀ s e, c !! s = Some e → vp e.1) → Forall vp (Catalog.scan c now skus).1.
Proof.
  intros Hc. induction skus as [|s r IH]; cbn; [constructor|].
  destruct (Catalog.scan c now r) as [out missing]. destruct (c !! s) as [e|] eqn:He; [|done].
  destruct (Catalog.fresh now e); [constructor; [by eapply Hc|done]|done].
Qed.

Lemma stale_holds c missing :
  (∀ s e, c !! s = Some e → vp e.1) → Forall vp (Catalog.stale c missing).
Proof.
  intros Hc. induction missing as [|s r IH]; [constructor|]. unfold Catalog.stale. rewrite bind_cons.
  destruct (c !! s) as [e|] eqn:He; [constructor; [by eapply Hc|exact IH]|exact IH].
Qed.

Lemma store_all_holds now items c :
  Forall vp items → (∀ s e, c !! s = Some e → vp e.1) →
  ∀ s e, Catalog.store_all now items c !! s = Some e → vp e.1.
Proof.
  intros Hi. revert c. induction Hi as [|v items Hv _ IH]; intros c Hc; [exact Hc|].
  apply IH. intros s e. destruct (decide (v_sku v = s)) as [->|Hne].
  - rewrite lookup_insert_eq. by intros [= <-].
  - rewrite lookup_insert_ne by done. apply Hc.
Qed.

Lemma before_null_holds vs : (∀ v, Some v ∈ vs → vp v) → Forall vp (Catalog.before_null vs).
Proof.
  induction vs as [|[v|] vs IH]; intros Hv; cbn; try constructor; [apply Hv; by left|].
  apply IH. intros x Hx. apply Hv. by right.
Qed.

Lemma conforms_getVariants T baseUrl skus : conforms T (Forall vp) (Catalog.getVariants baseUrl skus).
Proof.
  unfold Catalog.getVariants. apply conforms_now. intros now _.
  apply (conforms_bind _ (λ s, Forall vp s.1)); [apply conforms_read; intros p Hp; by apply scan_holds|].
  intros [out missing] Hout. destruct missing as [|s r]; [exact Hout|].
  apply (conforms_bind _ (λ o, Forall vp o.1)).
  - apply conforms_try; [|by constructor].
    apply (conforms_bind _ (λ _, True)); [by apply conforms_lift|]. intros q _.
    apply (conforms_bind _ (λ res, match body res with Ok vs => ∀ v, Some v ∈ vs → vp v | Err _ => True end)).
    { apply conforms_await; [done| |done]. by intros [st [vs|e]]. }
    intros [st [vs|e]] Hvs; destruct (negb _); try exact I.
    apply (conforms_bind _ (λ items, ∀ v, Some v ∈ items → vp v)); [exact Hvs|]. intros items Hitems%before_null_holds.
    apply (conforms_bind _ (λ _, True)); [|done].
    apply conforms_local. intros p Hp. split; [|done]. intros s' e. by apply store_all_holds.
  - intros [vs [|]] Hvs; [by apply Forall_app|].
    apply (conforms_bind _ (λ c, ∀ s e, c !! s = Some e → vp e.1)); [by apply conforms_read|].
    intros c Hc. apply Forall_app. split; [done|]. apply Forall_app. split; [done|]. by apply stale_holds.
Qed.

Lemma conforms_record b : conforms (λ _, True) (λ _, True) (Pricing.record b).
Proof.
  unfold Pricing.record. apply conforms_now. intros now _.
  apply conforms_local. intros p Hp. destruct (CircuitBreaker.record _ now b (breaker p)). by split.
Qed.

Lemma conforms_calculate req : conforms (λ _, True) pp (Pricing.calculate req).
Proof.
  unfold Pricing.calculate. apply (conforms_bind _ (λ _, True)).
  { unfold Pricing.allow. apply conforms_now. intros now _.
    apply conforms_local. intros p Hp. destruct (CircuitBreaker.allow _ now (breaker p)) as [[a b] ?]. by split. }
  intros allowed _. destruct (negb allowed).
  { apply (conforms_bind _ (λ _, True)); [by apply conforms_await|done]. }
  split; [exact I|]. intros [[p|]|e] Hp; cbn [Pricing.on_reply];
    (apply (conforms_bind _ (λ _, True)); [apply conforms_record|]; intros [] _;
     apply (conforms_bind _ (λ _, True)); [by apply conforms_await|done]).
Qed.
End Peers.

(** What the catalogue sells, line by line. *)
Lemma by_sku_holds (vp : Variant → Prop) vs s v : Forall vp vs → Cart.by_sku vs !! s = Some v → vp v ∧ v_sku v = s.
Proof.
  intros Hvs. unfold Cart.by_sku.
  assert (∀ m : gmap jstr Variant, (∀ s v, m !! s = Some v → vp v ∧ v_sku v = s) → ∀ s v,
    foldl (λ m v, <[v_sku v := v]> m) m vs !! s = Some v → vp v ∧ v_sku v = s) as Hm; [|by apply Hm].
  induction Hvs as [|x vs Hx _ IH]; intros m Hm s' v'; cbn; [apply Hm|]. apply IH. intros s1 v1.
  destruct (decide (v_sku x = s1)) as [<-|Hne].
  - rewrite lookup_insert_eq. by intros [= <-].
  - rewrite lookup_insert_ne by done. apply Hm.
Qed.

Lemma hydrated_prices vs ls :
  Forall whole_variant vs → Forall (λ h, is_Some (Cart.h_unitPrice h)) (ls ≫= Cart.hydrate_line (Cart.by_sku vs)).
Proof.
  intros Hvs. induction ls as [|l ls IH]; [constructor|]. rewrite bind_cons. apply Forall_app. split; [|done].
  unfold Cart.hydrate_line. destruct (Cart.by_sku vs !! sku l) as [v|] eqn:Hv; [|constructor].
  apply (by_sku_holds whole_variant _ _ _ Hvs) in Hv as [? _]. by repeat constructor.
Qed.

(** C3. A cart can be shown when its dependencies fail: however the catalogue and
    the pricing engine refuse, time out or answer with nothing, and whatever other
    requests do meanwhile, [price] throws nothing but a currency mismatch or the
    [TypeError] of an answer that lacks what the code reads in it; and the
    second not while every variant that is answered or cached has its price and
    every answer of the engine its lines, with their prices, and its promotions. *)
Theorem price_always_answers `{RedisServer R} baseUrl cart v :
  (∀ (Q : world R → world R → Prop) w e w',
     exec Q effect (Cart.price baseUrl cart v) w (Err e) w' → unpriceable (cart_currency cart) e) ∧
  conforms whole_variant whole_priced (λ _, True) (currency_mismatch (cart_currency cart)) (λ _, True)
    (Cart.price baseUrl cart v).
Proof.
  split; [intros Q w e w'; apply price_errors|]. unfold Cart.price.
  apply (conforms_bind _ _ _ _ (λ hl, Forall (λ h, is_Some (Cart.h_unitPrice h)) hl ∧ (length hl ≤ length (lines cart))%nat)).
  { unfold Cart.hydrate. destruct (lines cart) as [|l ls]; [split; [constructor|done]|].
    eapply conforms_bind; [apply conforms_getVariants|]. intros vs Hvs. split; [by apply hydrated_prices|apply hydrate_length]. }
  intros hl [Hhl Hlen].
  apply (conforms_bind _ _ _ _ (λ o, match o with Some p => whole_priced p | None => True end)).
  { apply conforms_try; [|done]. eapply conforms_bind; [apply conforms_calculate|done]. }
  intros [priced|] Hw.
  - destruct (coupons_ok priced) as [_ [Ha Hr]%(λ f, f Hw)].
    apply (conforms_bind _ _ _ _ (λ _, True)).
    { apply conforms_lift; [done|]. intros m Hm. exfalso.
      destruct (priced_lines_ok 0 cart priced hl Hlen) as [(? & ? & _)|[_ Hn]]; [congruence|by apply Hn]. }
    intros ls _. apply (conforms_bind _ _ _ _ (λ _, True)); [apply conforms_lift; [done|]; intros m Hm; by rewrite Hm in Ha|].
    intros a _. apply (conforms_bind _ _ _ _ (λ _, True)); [apply conforms_lift; [done|]; intros m Hm; by rewrite Hm in Hr|].
    intros b _. by apply conforms_now.
  - apply (conforms_bind _ _ _ _ (λ _, True)); [|intros; by apply conforms_now].
    apply conforms_lift; [done|]. intros m Hm. by apply (degraded_lines_err (cart_currency cart)) in Hm as [?|[_ ?]].
Qed.

(** * The clients of cart-service: cache and circuit breaker at work

    What the catalogue cache and the pricing client guarantee when the service
    behind them fails, in the deterministic world [drive]. *)

(** ** The catalogue cache *)

Section Catalogue.
Context `{RedisServer R} (clock : Z) (bytes : list N).
Context (engine : CalculateRequest → result exn (option PricedCart)) (baseUrl : jstr).
Implicit Types w : world R.

Definition cached w (s : jstr) : option (Variant * Z) := cache (process w) !! s.

(** The catalogue does not give a usable answer. *)
Definition unreachable (catalogue : jstr → result exn (response (list (option Variant)))) : Prop :=
  ∀ url, match catalogue url with
         | Err _ => True
         | Ok r => ok r = false ∨ is_ok (body r) = false
         end.

Lemma scan_fresh c now skus :
  Forall (λ s, ∃ e, c !! s = Some e ∧ Catalog.fresh now e = true) skus →
  (Catalog.scan c now skus).2 = [] ∧
  Forall2 (λ s v, ∃ at_, c !! s = Some (v, at_)) skus (Catalog.scan c now skus).1.
Proof.
  induction 1 as [|s skus (e & He & Hf) _ [IH1 IH2]]; cbn; [by constructor|].
  destruct (Catalog.scan c now skus) as [out missing]. cbn in *. rewrite He, Hf. cbn.
  split; [done|]. constructor; [|done]. exists e.2. by destruct e.
Qed.

Lemma scan_cover c now skus s e :
  s ∈ skus → c !! s = Some e →
  e.1 ∈ (Catalog.scan c now skus).1 ∨ s ∈ (Catalog.scan c now skus).2.
Proof.
  intros Hs He. induction skus as [|s' skus IH]; [by apply elem_of_nil in Hs|]. cbn.
  destruct (Catalog.scan c now skus) as [out missing]. cbn in IH.
  apply elem_of_cons in Hs as [<-|Hs].
  - rewrite He. destruct (Catalog.fresh now e); cbn; set_solver.
  - destruct (IH Hs); destruct (c !! s') as [e'|]; [destruct (Catalog.fresh now e')|..|destruct (Catalog.fresh now e')|];
      cbn; set_solver.
Qed.

Lemma stale_elem c missing s e : s ∈ missing → c !! s = Some e → e.1 ∈ Catalog.stale c missing.
Proof.
  intros Hs He. unfold Catalog.stale. apply list_elem_of_bind. exists s. rewrite He. set_solver.
Qed.

(** What the run of [getVariants] comes to once the cache is scanned. *)
Lemma getVariants_run catalogue skus w :
  let run' {A} (p : prog A) := run (drive clock bytes catalogue engine) p in
  let out := (Catalog.scan (cache (process w)) clock skus).1 in
  let missing := (Catalog.scan (cache (process w)) clock skus).2 in
  match missing with
  | [] => run' (Catalog.getVariants baseUrl skus) w = (Ok out, w)
  | _ => unreachable catalogue →
         run' (Catalog.getVariants baseUrl skus) w =
         (Ok (out ++ Catalog.stale (cache (process w)) missing), w)
  end.
Proof.
  cbv zeta. unfold Catalog.getVariants. destruct w as [r p]. cbn.
  destruct (Catalog.scan (cache p) clock skus) as [out missing]. cbn.
  destruct missing as [|m ms]; [done|]. intros Hu. rewrite run_mbind, run_try.
  destruct (encodeURIComponent _) as [q|e]; cbn; [|done].
  specialize (Hu (baseUrl ++ "/v1/variants?skus=" ++ q)).
  destruct (catalogue _) as [res|e]; cbn; [|done].
  destruct (ok res) eqn:Hok; cbn; [|done]. destruct Hu as [?|Hb]; [done|].
  by destruct (body res).
Qed.

(** The catalogue cache: entries younger than a minute are answered without
    asking the catalogue at all, whatever it would say; and while the catalogue
    cannot be reached every product still held is answered, however old its entry,
    so that the cart stays readable.  The lookup never fails. *)
Theorem catalogue_cache_serves catalogue skus w :
  (Forall (λ s, ∃ e, cached w s = Some e ∧ Catalog.fresh clock e = true) skus →
   ∃ vs, run (drive clock bytes catalogue engine) (Catalog.getVariants baseUrl skus) w = (Ok vs, w) ∧
         Forall2 (λ s v, ∃ at_, cached w s = Some (v, at_)) skus vs) ∧
  (unreachable catalogue →
   ∃ vs, run (drive clock bytes catalogue engine) (Catalog.getVariants baseUrl skus) w = (Ok vs, w) ∧
         ∀ s e, s ∈ skus → cached w s = Some e → e.1 ∈ vs).
Proof.
  pose proof (getVariants_run catalogue skus w) as Hr. cbv zeta in Hr. split.
  - intros Hf. destruct (scan_fresh _ _ _ Hf) as [Hm Hv]. rewrite Hm in Hr. by eexists.
  - intros Hu. destruct (Catalog.scan (cache (process w)) clock skus).2 eqn:Hm; [|specialize (Hr Hu)];
      (eexists; split; [exact Hr|]); intros s e Hs He;
      destruct (scan_cover (cache (process w)) clock skus s e Hs He) as [?|Hm'];
      rewrite ?Hm in *; rewrite ?elem_of_app; auto.
    + by apply elem_of_nil in Hm'.
    + right. by eapply stale_elem.
Qed.

End Catalogue.

(** ** The pricing client behind its breaker *)

Section Breaker.
Context `{RedisServer R} (bytes : list N) (catalogue : jstr → result exn (response (list (option Variant)))).
Implicit Types w : world R.

(** Calls one after the other, each caught the way [price] does. *)
Fixpoint calls (reqs : list CalculateRequest) : prog unit :=
  match reqs with
  | [] => mret tt
  | q :: r => _ ← try_catch (_ ← Pricing.calculate q; mret tt) (λ _, mret tt); calls r
  end.

Definition engine_fails (engine : CalculateRequest → result exn (option PricedCart)) : Prop :=
  ∀ q, match engine q with Ok (Some _) => False | _ => True end.

Definition failing (n : nat) (t : Z) (b : CircuitBreaker.breaker) : Prop :=
  CircuitBreaker.failures b = replicate n true ∧
  if Z.of_nat n <? 20 then CircuitBreaker.state b = CircuitBreaker.closed
  else CircuitBreaker.state b = CircuitBreaker.open ∧ CircuitBreaker.openedAt b = t.

Lemma record_failing n t b :
  (n < 20)%nat → failing n t b →
  failing (S n) t (CircuitBreaker.record Pricing.breaker_options t false b).1.
Proof.
  intros Hn [Hf Hs]. destruct b as [s f o]. cbn in Hf. subst f.
  assert (Z.of_nat n <? 20 = true) as Hlt by (apply Z.ltb_lt; lia). rewrite Hlt in Hs.
  cbn in Hs. subst s. unfold failing. clear Hlt.
  do 20 (destruct n as [|n]; [vm_compute; auto|]). lia.
Qed.

Lemma calculate_failing engine n t w q :
  engine_fails engine → (n < 20)%nat → failing n t (breaker (process w)) →
  ∃ w', run (drive t bytes catalogue engine)
          (try_catch (_ ← Pricing.calculate q; mret tt) (λ _, mret tt)) w = (Ok tt, w') ∧
        failing (S n) t (breaker (process w')).
Proof.
  intros He Hn Hf. pose proof (record_failing n t _ Hn Hf) as Hrec.
  assert (CircuitBreaker.state (breaker (process w)) = CircuitBreaker.closed) as Hs.
  { destruct Hf as [_ Hf]. assert (Z.of_nat n <? 20 = true) as Hlt by (apply Z.ltb_lt; lia).
    by rewrite Hlt in Hf. }
  destruct w as [r p]. cbn in *. unfold CircuitBreaker.allow. rewrite Hs. cbn.
  specialize (He q). destruct (CircuitBreaker.record _ t false (breaker p)) as [b' l] eqn:Hb.
  destruct (engine q) as [[res|]|e]; [done|..]; cbn; rewrite ?Hb; cbn; eexists; (split; [done|exact Hrec]).
Qed.

Lemma calls_failing engine t reqs n w :
  engine_fails engine → (n + length reqs ≤ 20)%nat → failing n t (breaker (process w)) →
  ∃ w', run (drive t bytes catalogue engine) (calls reqs) w = (Ok tt, w') ∧
        failing (n + length reqs) t (breaker (process w')).
Proof.
  intros He. revert n w. induction reqs as [|q reqs IH]; intros n w Hn Hf; cbn [length calls] in *.
  { exists w. by rewrite Nat.add_0_r. }
  destruct (calculate_failing engine n t w q He ltac:(lia) Hf) as (w1 & H1 & Hf1).
  rewrite run_mbind, H1. destruct (IH (S n) w1 ltac:(lia) Hf1) as (w2 & H2 & Hf2).
  exists w2. split; [exact H2|]. by replace (n + S (length reqs))%nat with (S n + length reqs)%nat by lia.
Qed.

(** Twenty failed calls in a row open the circuit, and from then on no call
    reaches the pricing engine for ten seconds: the client answers at once with
    the same error whatever engine stands behind it, and its state does not move. *)
Theorem failing_engine_is_shed engine reqs t t' w q engine' :
  engine_fails engine → length reqs = 20%nat → breaker (process w) = CircuitBreaker.init →
  t <= t' < t + 10000 →
  ∃ w', run (drive t bytes catalogue engine) (calls reqs) w = (Ok tt, w') ∧
        Pricing.breakerState (process w') = CircuitBreaker.open ∧
        run (drive t' bytes catalogue engine') (Pricing.calculate q) w' =
        (Err (Error "pricing-engine circuit is open"), w').
Proof.
  intros He Hl Hi Ht. destruct (calls_failing engine t reqs 0 w He ltac:(lia)) as (w' & H1 & Hf).
  { by rewrite Hi. }
  exists w'. split; [exact H1|]. rewrite Hl in Hf. destruct Hf as [_ [Hs Ho]]. split; [exact Hs|].
  destruct w' as [r p]. cbn in *. unfold CircuitBreaker.allow. rewrite Hs, Ho.
  replace (t' - t <? CircuitBreaker.probeAfterMs Pricing.breaker_options) with true; [cbn|].
  - by destruct p.
  - symmetry. apply Z.ltb_lt. cbn. lia.
Qed.
End Breaker.
