(* ===== verification/CartConcurrency.v ===== *)
(** * Concurrent mutations of a cart

    A mutation is run while other requests work on the same cart.  The only
    thing assumed of them is [rely]: a version, once written, only ever grows.
    The compare-and-swap then makes every successful mutation atomic. *)
From S2P Require Import Prelude JsNumber JsString JsDate Prog Primitives CircuitBreaker Redis.
From S2P Require Import CartTypes CartPeers Cart CartWorld.
Local Open Scope js_scope.
Local Open Scope Z_scope.

Module Concurrency.
(** ** Quiet programs: no write to the hash [k] *)

Definition quiet_cmd (k : jstr) {B} (c : eff B) : Prop :=
  match c with
  | EVALSHA _ k' _ _ _ | SET_EX k' _ _ | DEL k' => k' ≠ k
  | _ => True
  end.

Fixpoint quiet (k : jstr) {A} (p : prog A) : Prop :=
  match p with
  | Ret _ | Throw _ => True
  | Await c f => quiet_cmd k c ∧ ∀ r, quiet k (f r)
  end.

Lemma quiet_bind k {A B} (p : prog A) (f : A → prog B) :
  quiet k p → (∀ a, quiet k (f a)) → quiet k (p ≫= f).
Proof.
  intros Hp Hf. unfold mbind, prog_bind. induction p as [a|e|C c g IH]; cbn in *; [apply Hf|done|].
  destruct Hp as [? Hg]. split; [done|]. intros r. apply IH, Hg.
Qed.

Lemma quiet_try k {A} (p : prog A) h :
  quiet k p → (∀ e, quiet k (h e)) → quiet k (try_catch p h).
Proof.
  intros Hp Hh. induction p as [a|e|C c g IH]; cbn in *; [done|apply Hh|].
  destruct Hp as [? Hg]. split; [done|]. intros r. apply IH, Hg.
Qed.

Lemma quiet_of_result k {A} (r : result exn A) : quiet k (of_result r).
Proof. by destruct r. Qed.

Lemma quiet_await k {A} (c : eff A) : quiet_cmd k c → quiet k (await c).
Proof. intros Hc. split; [done|]. apply quiet_of_result. Qed.

Lemma quiet_local k {A} (f : proc → A * proc) : quiet k (local f).
Proof. by apply quiet_await. Qed.

Lemma quiet_lift k {A} (r : result jstr A) : quiet k (lift r).
Proof. by destruct r. Qed.

Lemma quiet_ret k {A} (a : A) : quiet k (mret a : prog A).
Proof. exact I. Qed.

Lemma quiet_throw k {A} e : quiet k (throw e : prog A).
Proof. exact I. Qed.

Create HintDb quiet discriminated.

(** Walks a program down to its commands; the programs it calls are hints. *)
Ltac quiet_step :=
  lazymatch goal with
  | |- ∀ _, _ => intros ?
  | |- quiet _ (_ ≫= _) => apply quiet_bind
  | |- quiet _ (try_catch _ _) => apply quiet_try
  | |- quiet _ (of_result _) => apply quiet_of_result
  | |- quiet _ (local _) => apply quiet_local
  | |- quiet _ (read _) => apply quiet_local
  | |- quiet _ (lift _) => apply quiet_lift
  | |- quiet _ (mret _) => exact I
  | |- quiet _ (throw _) => exact I
  | |- quiet _ (await _) => apply quiet_await; exact I
  | |- quiet _ (match _ with _ => _ end) => dmatch
  | |- quiet _ _ => solve [auto with quiet]
  end.
Ltac quiet_walk := repeat quiet_step.

Section Concurrency.
Context `{RedisLaws R} `{JsonCodec StoredCart} (baseUrl : jstr) (fuel : nat).
Implicit Types w : world R.

Lemma quiet_getVariants k url skus : quiet k (Catalog.getVariants url skus).
Proof. unfold Catalog.getVariants. quiet_walk. Qed.
Hint Resolve quiet_getVariants : quiet.

Lemma quiet_getVariant k url s : quiet k (Catalog.getVariant url s).
Proof. unfold Catalog.getVariant. quiet_walk. Qed.
Hint Resolve quiet_getVariant : quiet.

Lemma quiet_record k b : quiet k (Pricing.record b).
Proof. unfold Pricing.record. quiet_walk. Qed.
Hint Resolve quiet_record : quiet.

Lemma quiet_on_reply k req : quiet k (Await (CALCULATE req) Pricing.on_reply).
Proof. split; [exact I|]. unfold Pricing.on_reply. quiet_walk. Qed.
Hint Resolve quiet_on_reply : quiet.

Lemma quiet_calculate k req : quiet k (Pricing.calculate req).
Proof. unfold Pricing.calculate, Pricing.allow. quiet_walk. Qed.
Hint Resolve quiet_calculate : quiet.

Lemma quiet_price k cart v : quiet k (Cart.price baseUrl cart v).
Proof. unfold Cart.price, Cart.hydrate, Cart.degradedCart. quiet_walk. Qed.
Hint Resolve quiet_price : quiet.

Lemma quiet_load k cartId : quiet k (Cart.load cartId).
Proof. unfold Cart.load. quiet_walk. Qed.
Hint Resolve quiet_load : quiet.

(** ** The hash of one cart *)

Definition data k w : option jstr := hget k "data" (redis w).
Definition version k w : option jstr := hget k "version" (redis w).
Definition ver k w : option Z := version k w ≫= int_of_string.

(** A stored cart always has an integer version. *)
Definition versioned k w : Prop := is_Some (data k w) → is_Some (ver k w).

Definition same k w w' : Prop := data k w' = data k w ∧ version k w' = version k w.

(** What the other requests may do to the hash: leave it alone or move its
    version up. *)
Definition rely k w w' : Prop :=
  (∀ z, ver k w = Some z → same k w w' ∨ ∃ z', ver k w' = Some z' ∧ z < z') ∧
  (versioned k w → versioned k w').

Lemma same_refl k w : same k w w.
Proof. done. Qed.

Lemma same_rely k w w' : same k w w' → rely k w w'.
Proof.
  intros Hs. split; [auto|]. destruct Hs as [Hd Hv]. unfold versioned, ver. by rewrite Hd, Hv.
Qed.

Lemma rely_refl k w : rely k w w.
Proof. apply same_rely, same_refl. Qed.

Lemma rely_trans k w1 w2 w3 : rely k w1 w2 → rely k w2 w3 → rely k w1 w3.
Proof.
  intros [Ha V1] [Hb V2]. split; [|auto]. intros z Hz.
  destruct (Ha z Hz) as [[Hd Hv]|(z1 & Hz1 & Hlt)].
  - assert (ver k w2 = Some z) as Hz2 by (unfold ver; rewrite Hv; exact Hz).
    destruct (Hb z Hz2) as [[Hd' Hv']|Hgt]; [left|by right].
    split; congruence.
  - right. destruct (Hb z1 Hz1) as [[Hd' Hv']|(z2 & Hz2 & Hlt')].
    + exists z1. split; [|done]. unfold ver in *. by rewrite Hv'.
    + exists z2. split; [done|lia].
Qed.

#[local] Hint Resolve same_refl same_rely rely_refl : souq.

Lemma same_of_redis k w w' :
  (∀ f, hget k f (redis w') = hget k f (redis w)) → same k w w'.
Proof. intros Hf. split; apply Hf. Qed.

Lemma cas_script_other k k' v p t r f :
  k' ≠ k → hget k f (Cart.cas_script k' v p t r).2 = hget k f r.
Proof.
  intros Hk. unfold Cart.cas_script.
  destruct (hget k' "version" r); [case_decide|]; cbn;
    rewrite ?hget_expire_ne, ?hget_hset_ne by done; done.
Qed.

Lemma answers_same {B} (a : B) r' w res w' k :
  answers a r' w res w' → (∀ f, hget k f r' = hget k f (redis w)) → same k w w'.
Proof.
  intros [[_ ->]|(e & _ & _ & _ & [->| ->])] Hf; [|done|]; apply same_of_redis; exact Hf.
Qed.

Lemma quiet_effect k B (c : eff B) w res w' :
  quiet_cmd k c → effect B c w res w' → same k w w'.
Proof.
  destruct c; cbn; intros Hq He;
    try (by eapply answers_same in He; [exact He|]; intros f;
         rewrite ?hget_script_load, ?hget_rset, ?hget_rdel_ne by done);
    try (by destruct He as [-> _]); try (by subst).
  - destruct (_ && _); [|by destruct He as [-> _]].
    eapply answers_same in He; [exact He|]. intros f. by apply cas_script_other.
  - destruct He as [_ ->]. done.
Qed.

(** A quiet program preserves whatever the environment preserves. *)
Lemma triple_quiet k {A} (p : prog A) (P : world R → Prop) :
  quiet k p → (∀ w w', rely k w w' → P w → P w') →
  triple (rely k) effect P p (λ _, P) (λ _, P).
Proof.
  intros Hq HP w res w' Hw Hx. enough (P w') by (destruct res; done).
  revert w Hw Hx. induction p as [a|e|B c f IH]; intros w Hw.
  - by intros [_ ->].
  - by intros [_ ->].
  - destruct Hq as [Hc Hf]. intros (w1 & r & w2 & Henv & Heff & Hrest).
    eapply IH; [apply Hf| |exact Hrest]. eapply HP; [|eapply HP; [exact Henv|exact Hw]].
    apply same_rely. by eapply quiet_effect.
Qed.

(** A command on the memory of the process never throws. *)
Lemma triple_local k {A} (f : proc → A * proc) (P : world R → Prop) (T : exn → world R → Prop) :
  (∀ w w', rely k w w' → P w → P w') → triple (rely k) effect P (local f) (λ _, P) T.
Proof.
  intros HP. apply triple_await. cbn. intros w w1 res w2 Hw Henv [-> ->].
  eapply HP; [|by eapply HP]. apply same_rely. done.
Qed.

(** ** The compare-and-swap *)

(** The two outcomes of the script on the hash [k]. *)
Definition swapped k (payload : jstr) (n : Z) (r' : R) : Prop :=
  hget k "data" r' = Some payload ∧ hget k "version" r' = Some (string_of_int n).

Lemma cas_script_swap k v p t r z :
  0 < t → hget k "version" r = None ∨ hget k "version" r ≫= int_of_string = Some z ∧ int_of_string v = Some z →
  ∃ n, (Cart.cas_script k v p (string_of_int t) r).1 = n ∧
    swapped k p n (Cart.cas_script k v p (string_of_int t) r).2 ∧
       (n = 1 ∨ n = z + 1).
Proof.
  intros Ht Hv. unfold Cart.cas_script. destruct (hget k "version" r) as [c|] eqn:Hc; cbn in *.
  - destruct Hv as [?|[Hcz Hvz]]; [done|]. rewrite Hcz, Hvz. rewrite decide_False by auto. cbn.
    eexists. split; [done|]. split; [|by right].
    split; rewrite hget_expire by done; apply hget_hset_eq; done.
  - eexists. split; [done|]. split; [|by left].
    split; rewrite hget_expire by done; apply hget_hset_eq; done.
Qed.

(** A script that met the version [z] and answers [m] either refuses and
    changes nothing, or moved [z] to [z + 1]. *)
Lemma cas_script_met k v p t r z m r' :
  0 < t → hget k "version" r ≫= int_of_string = Some z →
  Cart.cas_script k v p (string_of_int t) r = (m, r') →
  (int_of_string v ≠ Some z ∧ m = -1 ∧ r' = r) ∨
  (int_of_string v = Some z ∧ m = z + 1 ∧ swapped k p (z + 1) r').
Proof.
  intros Ht Hz. unfold Cart.cas_script. destruct (hget k "version" r) as [c|]; [|done]. cbn in Hz.
  rewrite Hz. case_decide as Hd; intros [= <- <-].
  - left. auto.
  - right. split; [done|]. split; [done|].
    split; rewrite hget_expire by done; apply hget_hset_eq; done.
Qed.

Lemma cas_triple k n cartId v payload ttl w0 :
  k = Cart.key cartId →
  triple (rely k) effect (λ w, rely k w0 w) (Cart.cas n cartId v payload ttl)
    (λ m w', ∃ w1 w2, rely k w0 w1 ∧
       Cart.cas_script k (string_of_version v) payload (string_of_int ttl) (redis w1) = (m, redis w2) ∧
       rely k w2 w')
    (λ e _, e = NoFuel ∨ client_error e).
Proof.
  intros ->. assert (∀ w w', rely (Cart.key cartId) w w' →
    rely (Cart.key cartId) w0 w → rely (Cart.key cartId) w0 w') as Hst.
  { intros w w' Hw H'. by eapply rely_trans. }
  induction n as [|n IH]; cbn [Cart.cas]; [apply triple_throw; auto|].
  set (T := λ (e : exn) (_ : world R), e = NoFuel ∨ client_error e) in *.
  assert (Hload : triple (rely (Cart.key cartId)) effect (λ w, rely (Cart.key cartId) w0 w)
    (s' ← await (SCRIPT_LOAD Cart.CAS_SCRIPT); local (λ p, (tt, Cart.set_casSha (Some s') p)))
    (λ _ w, rely (Cart.key cartId) w0 w) T).
  { eapply triple_bind with (M := λ _ w, rely (Cart.key cartId) w0 w).
    - apply triple_await. cbn. intros w w1 res w2 Hw Henv He.
      assert (same (Cart.key cartId) w1 w2) as Hs.
      { eapply answers_same; [exact He|]. intros f. by rewrite hget_script_load. }
      destruct He as [[-> _]|(e & -> & Hce & _)]; [|by right].
      eapply Hst; [by apply same_rely|]. by eapply Hst.
    - intros s'. by apply triple_local. }
  eapply triple_bind; [by apply triple_local|]. intros sha0.
  eapply triple_bind.
  { destruct sha0 as [s|]; [destruct (truthy_str s)|]; [|exact Hload..].
    apply triple_ret. auto. }
  intros []. eapply triple_bind; [by apply triple_local|]. intros sha.
  apply triple_try with (M := λ e w, client_error e ∧
    (Cart.is_noscript e = true → rely (Cart.key cartId) w0 w)).
  - apply triple_await. cbn. intros w w1 res w2 Hw Henv.
    destruct (_ && _).
    + intros [[-> ->]|(e & -> & Hce & He & _)]; [|by split; [|congruence]].
      eexists w1, _. split; [by eapply rely_trans|]. cbn. split; [|apply rely_refl].
      by rewrite <- surjective_pairing.
    + intros [-> (e & -> & Hce)]. split; [done|]. intros _. by eapply rely_trans.
  - intros e. destruct (Cart.is_noscript e) eqn:He.
    + eapply triple_bind with (M := λ _ w, rely (Cart.key cartId) w0 w); [|intros _; apply IH].
      eapply triple_weaken; [by apply triple_local|naive_solver..].
    + apply triple_throw. intros w [Hce _]. by right.
Qed.

(** ** Mutations *)

(** [(c, z)] was read from the hash: it is still there, or its version has
    gone up. *)
Definition holds k (c : StoredCart) (z : Z) w : Prop :=
  data k w ≫= parse = Some c ∧ ver k w = Some z.
Definition seen k c z w : Prop := holds k c z w ∨ ∃ z', ver k w = Some z' ∧ z < z'.

Lemma seen_stable k c z w w' : rely k w w' → seen k c z w → seen k c z w'.
Proof.
  intros [Hr _] [[Hd Hv]|(z' & Hv & Hlt)].
  - destruct (Hr z Hv) as [[Hd' Hv']|Hgt]; [left|by right].
    split; [by rewrite Hd'|]. unfold ver in *. by rewrite Hv'.
  - right. destruct (Hr z' Hv) as [[Hd' Hv']|(z2 & ? & ?)].
    + exists z'. split; [|done]. unfold ver in *. by rewrite Hv'.
    + exists z2. split; [done|lia].
Qed.

(** The text of [c] was stored at version [z]. *)
Definition stored k (c : StoredCart) (z : Z) w : Prop :=
  data k w = Some (stringify c) ∧ ver k w = Some z.

(** The only write between [w0] and [w'] replaced [c] at version [z] by
    [c'] at version [z + 1]. *)
Definition atomically k (F : StoredCart → StoredCart → Prop) (z : Z) w0 w' : Prop :=
  ∃ w1 w2 c c', rely k w0 w1 ∧ holds k c z w1 ∧ F c c' ∧ stored k c' (z + 1) w2 ∧ rely k w2 w'.

(** What a mutation that throws leaves behind. *)
Definition untouched k w0 (e : exn) w' : Prop :=
  match e with CartStale _ _ | CartFull => rely k w0 w' | _ => True end.

Lemma load_triple k cartId w0 :
  k = Cart.key cartId → versioned k w0 →
  triple (rely k) effect (λ w, rely k w0 w) (Cart.load cartId)
    (λ r w, rely k w0 w ∧
       match r with Some (c, v) => ∀ z, v = Some z → seen k c z w | None => True end)
    (λ _ w, rely k w0 w).
Proof.
  intros -> Hver. unfold Cart.load.
  eapply triple_bind with (M := λ raw w, rely (Cart.key cartId) w0 w ∧
    raw = (data (Cart.key cartId) w, version (Cart.key cartId) w)).
  - apply triple_await. cbn. intros w w1 res w2 Hw Henv He.
    assert (rely (Cart.key cartId) w0 w2) as Hr.
    { eapply rely_trans; [by eapply rely_trans|]. apply same_rely. by eapply answers_same. }
    by destruct He as [[-> ->]|(e & -> & _)].
  - intros [d v]. cbn [fst snd]. destruct d as [d|]; [|by apply triple_ret; intros w [? _]].
    destruct (truthy_str d); [|by apply triple_ret; intros w [? _]].
    destruct (parse d) as [c|] eqn:Hp; [|by apply triple_throw; intros w [? _]].
    apply triple_ret. intros w [Hr [= Hd Hv]]. split; [done|]. intros z Hz. left.
    destruct Hr as [_ Hvd]. destruct (Hvd Hver) as [z' Hz']; [by rewrite <- Hd|].
    split; [by rewrite <- Hd|]. unfold ver in *. rewrite <- Hv in *. destruct v as [s|]; [|done].
    cbn in *. by destruct s.
Qed.

Lemma load_expecting_triple k cartId z w0 :
  k = Cart.key cartId → versioned k w0 →
  triple (rely k) effect (λ w, rely k w0 w) (Cart.load_expecting cartId z)
    (λ r w, r.2 = Some z ∧ rely k w0 w ∧ seen k r.1 z w) (λ _ w, rely k w0 w).
Proof.
  intros Hk Hver. unfold Cart.load_expecting.
  eapply triple_bind; [by apply load_triple|]. intros [[c v]|]; [|by apply triple_throw; intros w [? _]].
  case_decide as Hv; [by apply triple_throw; intros w [? _]|].
  apply triple_ret. intros w [Hr Hs]. subst. auto.
Qed.

(** The commit of [c'] over the cart [c] that was read at version [z]. *)
Lemma commit_triple k cartId z c c' (F : StoredCart → StoredCart → Prop) w0 :
  k = Cart.key cartId → 0 <= z → F c c' →
  triple (rely k) effect (λ w, rely k w0 w ∧ seen k c z w)
    (Cart.commit baseUrl fuel cartId (Some z) c')
    (λ r w', atomically k F z w0 w') (untouched k w0).
Proof.
  intros -> Hz HF w res w' [Hw Hs] Hx.
  apply exec_mbind in Hx as [(m & wm & Hc & Hx)|(e & -> & Hc)].
  2:{ pose proof (cas_triple _ _ _ _ _ _ w eq_refl _ _ _ (rely_refl _ _) Hc) as [->|[? ->]]; exact I. }
  pose proof (cas_triple _ _ _ _ _ _ w eq_refl _ _ _ (rely_refl _ _) Hc)
    as (w1 & w2 & Ha & Hcas & Hb).
  pose proof (seen_stable _ _ _ _ _ Ha Hs) as Hs1.
  assert (∃ z1, ver (Cart.key cartId) w1 = Some z1 ∧ (z1 = z → holds (Cart.key cartId) c z w1))
    as (z1 & Hz1 & Hholds).
  { destruct Hs1 as [Hh|(z' & ? & ?)]; [|by exists z'; split; [|lia]].
    exists z. split; [apply Hh|auto]. }
  destruct (cas_script_met _ _ _ _ _ z1 _ _ (Cart.ttlFor_pos c') Hz1 Hcas) as [(Hne & -> & Hr)|(Heq & -> & Hsw)].
  - rewrite decide_True in Hx by done.
    assert (rely (Cart.key cartId) w0 wm) as Hwm.
    { eapply rely_trans; [exact Hw|]. eapply rely_trans; [exact Ha|].
      eapply rely_trans; [|exact Hb]. apply same_rely. apply same_of_redis. by rewrite Hr. }
    apply exec_mbind in Hx as [(fr & wl & Hl & [-> ->])|(e & -> & Hl)]; cbn.
    + eapply (triple_quiet _ _ (λ w, rely (Cart.key cartId) w0 w) (quiet_load _ _)) in Hl; [done| |done].
      intros ????. by eapply rely_trans.
    + assert (rely (Cart.key cartId) w0 w') as Hr'; [|by destruct e].
      eapply (triple_quiet _ _ (λ w, rely (Cart.key cartId) w0 w) (quiet_load _ _)) in Hl; [done| |done].
      intros ????. by eapply rely_trans.
  - cbn in Heq. rewrite int_of_string_of_int in Heq. injection Heq as <-.
    rewrite decide_False in Hx by lia.
    destruct res as [r|e].
    + exists w1, w2, c, c'. split; [by eapply rely_trans|]. split; [auto|]. split; [done|].
      destruct Hsw as [Hd Hv]. split.
      { split; [exact Hd|].
        unfold ver, version. rewrite Hv. apply int_of_string_of_int. }
      eapply rely_trans; [exact Hb|].
      eapply (triple_quiet _ _ (λ w, rely (Cart.key cartId) wm w) (quiet_price _ _ _)) in Hx;
        [done| |apply rely_refl]. intros ????. by eapply rely_trans.
    + assert (∃ m, e = Error m) as [m ->]; [|exact I].
      by eapply (throws_price (λ e, ∃ m, e = Error m)) in Hx; [|eauto].
Qed.

(** ** The three mutations *)

(** What each mutation does to the cart it read. *)
Definition line_added (s : jstr) (q : Z) (c c' : StoredCart) : Prop :=
  ∃ product t t', v_status product = "ACTIVE" ∧
    if existsb (Cart.has_sku s) (lines c)
    then c' = Cart.touch t' (Cart.with_lines
           (Cart.update_first (Cart.has_sku s) (λ x, Z.min (x + q) MAX_QTY_PER_LINE) (lines c)) c)
    else Z.of_nat (length (lines c)) < MAX_LINES ∧ ∃ price, v_price product = Some price ∧
         c' = Cart.touch t' (Cart.with_lines (lines c ++ [{|
           sku := s; productId := v_productId product; quantity := Z.min q MAX_QTY_PER_LINE;
           addedAtPrice := amount price; addedAt := toISOString t |}]) c).

Definition line_updated (s : jstr) (q : Z) (c c' : StoredCart) : Prop :=
  ∃ t, if q =? 0
       then c' = Cart.touch t (Cart.with_lines
              (List.filter (λ l, negb (Cart.has_sku s l)) (lines c)) c)
       else existsb (Cart.has_sku s) (lines c) = true ∧
            c' = Cart.touch t (Cart.with_lines
              (Cart.update_first (Cart.has_sku s) (λ _, Z.min q MAX_QTY_PER_LINE) (lines c)) c).

Definition coupon_applied (code : jstr) (c c' : StoredCart) : Prop :=
  ∃ t, c' = Cart.touch t
         (Cart.with_coupons (Cart.add_coupon (toUpperCase (trim code)) (coupons c)) c).

(** Outcome of a mutation of the hash [k] read at version [z]: the update
    happened atomically, or the cart was not written. *)
Definition mutation_outcome k F z w (res : result exn Cart) w' : Prop :=
  match res with
  | Ok _ => atomically k F z w w'
  | Err e => untouched k w e w'
  end.

Definition reading k w0 c z w : Prop := rely k w0 w ∧ seen k c z w.

Lemma reading_stable k w0 c z w w' : rely k w w' → reading k w0 c z w → reading k w0 c z w'.
Proof.
  intros Hr [Ha Hb]. split; [by eapply rely_trans|by eapply seen_stable].
Qed.

Lemma untouched_rely k w0 e w : rely k w0 w → untouched k w0 e w.
Proof. by destruct e. Qed.

(** A quiet step of a mutation keeps what was read. *)
Lemma triple_reading k w0 c z {A} (p : prog A) :
  quiet k p →
  triple (rely k) effect (reading k w0 c z) p (λ _, reading k w0 c z) (untouched k w0).
Proof.
  intros Hq. eapply triple_weaken; [apply (triple_quiet k p _ Hq (reading_stable k w0 c z))|auto..].
  intros e w [Hr _]. by apply untouched_rely.
Qed.

Lemma triple_mutation k cartId z F w (body : StoredCart * option Z → prog Cart) res w' :
  k = Cart.key cartId → versioned k w →
  (∀ c, triple (rely k) effect (reading k w c z) (body (c, Some z))
          (λ _ w', atomically k F z w w') (untouched k w)) →
  exec (rely k) effect (loaded ← Cart.load_expecting cartId z; body loaded) w res w' →
  mutation_outcome k F z w res w'.
Proof.
  intros Hk Hv Hbody Hx.
  assert (triple (rely k) effect (λ w1, rely k w w1)
    (loaded ← Cart.load_expecting cartId z; body loaded)
    (λ _ w', atomically k F z w w') (untouched k w)) as Ht; [|exact (Ht w res w' (rely_refl k w) Hx)].
  eapply triple_bind.
  - eapply triple_weaken; [by apply load_expecting_triple|auto|intros a w1 Hw1; exact Hw1|].
    intros e w1. apply untouched_rely.
  - intros [c v]. cbn [fst snd]. apply triple_pure. intros ->. apply Hbody.
Qed.

Lemma commit_reading k cartId z c c' (F : StoredCart → StoredCart → Prop) w0 :
  k = Cart.key cartId → 0 <= z → F c c' →
  triple (rely k) effect (reading k w0 c z) (Cart.commit baseUrl fuel cartId (Some z) c')
    (λ _ w', atomically k F z w0 w') (untouched k w0).
Proof. apply commit_triple. Qed.

Lemma throw_reading k w0 c z {A} e (Q : A → world R → Prop) :
  triple (rely k) effect (reading k w0 c z) (throw e) Q (untouched k w0).
Proof. apply triple_throw. intros w [Hr _]. by apply untouched_rely. Qed.

Lemma triple_let k w0 c z {A B} (a : A) (f : A → prog B) (Q : B → world R → Prop) :
  triple (rely k) effect (reading k w0 c z) (f a) Q (untouched k w0) →
  triple (rely k) effect (reading k w0 c z) (mret a ≫= f) Q (untouched k w0).
Proof. done. Qed.

Lemma triple_clock k w0 c z {B} (f : Z → prog B) (Q : B → world R → Prop) :
  (∀ t, triple (rely k) effect (reading k w0 c z) (f t) Q (untouched k w0)) →
  triple (rely k) effect (reading k w0 c z) (await NOW ≫= f) Q (untouched k w0).
Proof.
  intros Hf. eapply triple_bind; [|exact Hf]. apply triple_reading. by apply quiet_await.
Qed.

Lemma triple_absurd k w0 {B} (p : prog B) (Q : B → world R → Prop) :
  triple (rely k) effect (λ _, False) p Q (untouched k w0).
Proof. by intros w res w'. Qed.

(** Adding a line is atomic under concurrency: whatever other requests do to
    the cart meanwhile, a successful [addLine] replaced exactly the cart that was
    stored at the version the client sent, by that cart with the line added, at
    the next version; a stale or full cart was not written at all. *)
Theorem addLine_atomic cartId s q z w res w' :
  0 <= z → versioned (Cart.key cartId) w →
  exec (rely (Cart.key cartId)) effect (Cart.addLine baseUrl fuel cartId s q z) w res w' →
  mutation_outcome (Cart.key cartId) (line_added s q) z w res w'.
Proof.
  intros Hz Hv. apply triple_mutation; [done..|]. intros c.
  eapply triple_bind; [apply triple_reading; auto with quiet|]. intros [product|]; [|apply throw_reading].
  case_decide as Hs; [apply throw_reading|].
  destruct (existsb (Cart.has_sku s) (lines c)) eqn:Hex; [|destruct (Z.leb_spec MAX_LINES (Z.of_nat (length (lines c))))].
  - apply triple_let. apply triple_clock. intros t. apply commit_reading; [done..|].
    exists product, t, t. split; [done|]. by rewrite Hex.
  - eapply triple_bind; [apply throw_reading|]. intros ls. by apply triple_absurd.
  - destruct (v_price product) as [price|] eqn:Hp; cbn [required lift];
      [|eapply triple_bind; [apply throw_reading|]; intros ls; by apply triple_absurd].
    eapply triple_bind with (M := λ ls w1, (∃ t, ls = lines c ++ _) ∧ reading (Cart.key cartId) w c z w1).
    { apply triple_clock. intros t. apply triple_ret. intros w1 Hw1. split; [by exists t|done]. }
    intros ls. apply triple_pure. intros [t ->]. apply triple_clock. intros t'.
    apply commit_reading; [done..|]. exists product, t, t'. split; [done|]. rewrite Hex. eauto.
Qed.

(** Changing or removing a line is atomic under concurrency, in the same
    sense: a successful [updateLine] replaced exactly the cart at the version the
    client sent by that cart with the line changed (dropped for quantity 0), and
    a stale cart was not written. *)
Theorem updateLine_atomic cartId s q z w res w' :
  0 <= z → versioned (Cart.key cartId) w →
  exec (rely (Cart.key cartId)) effect (Cart.updateLine baseUrl fuel cartId s q z) w res w' →
  mutation_outcome (Cart.key cartId) (line_updated s q) z w res w'.
Proof.
  intros Hz Hv. apply triple_mutation; [done..|]. intros c.
  destruct (q =? 0) eqn:Hq; [|destruct (existsb (Cart.has_sku s) (lines c)) eqn:Hex].
  - apply triple_let. apply triple_clock. intros t. apply commit_reading; [done..|].
    exists t. by rewrite Hq.
  - apply triple_let. apply triple_clock. intros t. apply commit_reading; [done..|].
    exists t. by rewrite Hq, Hex.
  - eapply triple_bind; [apply throw_reading|]. intros ls. by apply triple_absurd.
Qed.

(** Applying a coupon is atomic under concurrency, in the same sense; the
    stored code is the trimmed, upper-cased one and is stored once. *)
Theorem applyCoupon_atomic cartId code z w res w' :
  0 <= z → versioned (Cart.key cartId) w →
  exec (rely (Cart.key cartId)) effect (Cart.applyCoupon baseUrl fuel cartId code z) w res w' →
  mutation_outcome (Cart.key cartId) (coupon_applied code) z w res w'.
Proof.
  intros Hz Hv. apply triple_mutation; [done..|]. intros c.
  apply triple_clock. intros t. apply commit_reading; [done..|]. by exists t.
Qed.

End Concurrency.

#[export] Hint Resolve quiet_getVariants quiet_getVariant quiet_record quiet_on_reply quiet_calculate
  quiet_price quiet_load : quiet.
End Concurrency.
