(* ===== verification/CartSequential.v ===== *)
(** * A request alone

    What the handlers do when nothing else runs, in the deterministic world:
    the compare-and-swap terminates, a mutation sent with the current version is
    committed, and the guards refuse without writing. *)
From S2P Require Import Prelude JsNumber JsString JsDate Json Prog Primitives CircuitBreaker Redis.
From S2P Require Import CartTypes CartPeers Cart CartLines CartJson CartWorld CartPricing.
From S2P Require Import CartConcurrency.
Local Open Scope js_scope.
Local Open Scope Z_scope.

Module Sequential.
Section Sequential.
Context `{RedisLaws R} `{JsonCodec StoredCart} (baseUrl : jstr) (fuel : nat).
Context (clock : Z) (bytes : list N).
Context (catalogue : jstr → result exn (response (list (option Variant)))).
Context (engine : CalculateRequest → result exn (option PricedCart)).
Implicit Types w : world R.

Notation play := (run (drive clock bytes catalogue engine)).

(** ** The compare-and-swap *)

(** Two servers that hold the same hashes. *)
Definition same_hashes (r r' : R) : Prop := ∀ k f, hget k f r' = hget k f r.

Lemma cas_script_hashes k v p ttl (r r' : R) :
  0 < ttl → same_hashes r r' →
  (Cart.cas_script k v p (string_of_int ttl) r').1 = (Cart.cas_script k v p (string_of_int ttl) r).1 ∧
  same_hashes (Cart.cas_script k v p (string_of_int ttl) r).2
              (Cart.cas_script k v p (string_of_int ttl) r').2.
Proof.
  intros Ht Hs. unfold Cart.cas_script. rewrite Hs.
  assert (∀ kvs, same_hashes (expire k (string_of_int ttl) (hset k kvs r))
                             (expire k (string_of_int ttl) (hset k kvs r'))) as Hset.
  { intros kvs k' f. destruct (decide (k = k')) as [<-|Hk].
    - rewrite !hget_expire by done. destruct (assoc f kvs) as [v'|] eqn:Ha.
      + by rewrite !(hget_hset_eq _ _ _ _ _ Ha).
      + rewrite !hget_hset_other by done. apply Hs.
    - rewrite !hget_expire_ne, !hget_hset_ne by done. apply Hs. }
  destruct (hget k "version" r); [case_decide|]; cbn [fst snd]; auto.
Qed.

(** The world after [SCRIPT LOAD], with the digest remembered. *)
Definition loaded w : world R := {|
  redis := (script_load Cart.CAS_SCRIPT (redis w)).2;
  process := Cart.set_casSha (Some (cas_digest (redis w))) (process w) |}.

Definition known w : bool := Cart.truthy (casSha (process w)).
Definition forget w : world R := {| redis := redis w; process := Cart.set_casSha None (process w) |}.

(** One round of [cas]. *)
Lemma cas_round n i v p ttl w :
  play (Cart.cas (S n) i v p ttl) w =
  let w1 := if known w then w else loaded w in
  let sha := default "" (casSha (process w1)) in
  if script_exists sha (redis w1) && bool_decide (sha = cas_digest (redis w1))
  then let o := Cart.cas_script (Cart.key i) (string_of_version v) p (string_of_int ttl) (redis w1) in
       (Ok o.1, set_redis o.2 w1)
  else play (Cart.cas n i v p ttl) (forget w1).
Proof.
  assert (∀ w1, play (sha ← read casSha;
    try_catch (await (EVALSHA (default "" sha) (Cart.key i) (string_of_version v) p (string_of_int ttl)))
      (λ e, if Cart.is_noscript e then _ ← local (λ p, (tt, Cart.set_casSha None p)); Cart.cas n i v p ttl
            else throw e)) w1 =
    let sha := default "" (casSha (process w1)) in
    if script_exists sha (redis w1) && bool_decide (sha = cas_digest (redis w1))
    then let o := Cart.cas_script (Cart.key i) (string_of_version v) p (string_of_int ttl) (redis w1) in
         (Ok o.1, set_redis o.2 w1)
    else play (Cart.cas n i v p ttl) (forget w1)) as Hrest.
  { intros [r q]. cbn. by destruct (script_exists _ _ && _). }
  cbn [Cart.cas]. rewrite run_mbind. unfold known. destruct w as [r q]. cbn [run read local await drive of_result fst snd process].
  destruct (casSha q) as [s|] eqn:Hs; cbn [Cart.truthy]; [destruct (truthy_str s)|];
    rewrite run_mbind; apply Hrest.
Qed.

(** After a load, the next round is answered by the script. *)
Lemma cas_loaded n i v p ttl w :
  0 < ttl → known w = false →
  ∃ w', play (Cart.cas (S n) i v p ttl) w =
        (Ok (Cart.cas_script (Cart.key i) (string_of_version v) p (string_of_int ttl) (redis w)).1, w') ∧
        same_hashes (Cart.cas_script (Cart.key i) (string_of_version v) p (string_of_int ttl) (redis w)).2
                    (redis w').
Proof.
  intros Ht Hk. rewrite cas_round, Hk. cbv zeta. cbn [default loaded process casSha Cart.set_casSha redis].
  assert (same_hashes (redis w) (script_load Cart.CAS_SCRIPT (redis w)).2) as Hs
    by (intros k f; apply hget_script_load).
  destruct (cas_script_hashes (Cart.key i) (string_of_version v) p ttl _ _ Ht Hs) as [He Hh].
  rewrite bool_decide_eq_true_2 by apply script_digest. cbn [casSha default from_option].
  unfold cas_digest at 1. cbn [Datatypes.id]. rewrite script_loaded. cbn [andb].
  eexists. split; [by rewrite <- He|exact Hh].
Qed.

(** C7. Alone, the compare-and-swap always ends, with the answer of the script on
    the carts as they are: whether the digest is cached, was never loaded, or is
    stale because Redis lost its scripts, two rounds are enough. *)
Theorem cas_ends n i v p ttl w :
  0 < ttl →
  ∃ w', play (Cart.cas (S (S n)) i v p ttl) w =
        (Ok (Cart.cas_script (Cart.key i) (string_of_version v) p (string_of_int ttl) (redis w)).1, w') ∧
        same_hashes (Cart.cas_script (Cart.key i) (string_of_version v) p (string_of_int ttl) (redis w)).2
                    (redis w').
Proof.
  intros Ht. destruct (known w) eqn:Hk; [|by apply cas_loaded].
  rewrite cas_round, Hk. cbv zeta. destruct (_ && _).
  - eexists. split; [reflexivity|]. by intros k f.
  - exact (cas_loaded n i v p ttl (forget w) Ht eq_refl).
Qed.

(** ** Loading and committing *)

Notation data := Concurrency.data.
Notation ver := Concurrency.ver.
Notation holds := Concurrency.holds.
Notation stored := Concurrency.stored.
Notation same := Concurrency.same.

Lemma run_quiet k {A} (p : prog A) w : Concurrency.quiet k p → same k w (play p w).2.
Proof.
  revert w. induction p as [a|e|B c f IH]; intros w; cbn; [done..|]. intros [Hc Hf].
  pose proof (drive_effect clock bytes catalogue engine B c w) as He.
  apply Concurrency.quiet_effect with (k := k) in He; [|done].
  destruct (drive _ _ _ _ B c w) as [r w1]. cbn in He. destruct He as [Hd Hv].
  destruct (IH r w1 (Hf r)) as [Hd' Hv']. split; congruence.
Qed.

Lemma holds_same k c z w w' : same k w w' → holds k c z w → holds k c z w'.
Proof. intros [Hd Hv] [H2 H3]. unfold holds, ver in *. rewrite Hd, Hv. done. Qed.

Lemma load_run i c z w :
  holds (Cart.key i) c z w → play (Cart.load i) w = (Ok (Some (c, Some z)), w).
Proof.
  intros [Hd Hv]. unfold ver, Concurrency.version, Concurrency.data in *. cbn [mbind] in *.
  unfold Cart.load. rewrite run_mbind. cbn [run await drive of_result fst snd].
  destruct (hget (Cart.key i) "data" (redis w)) as [d|]; [|done]. cbn in Hd.
  destruct (truthy_str d) eqn:Ht; [|by destruct d; rewrite ?parse_empty in Hd]. rewrite Hd.
  destruct (hget (Cart.key i) "version" (redis w)) as [v|]; [|done]. cbn in Hv |- *.
  destruct v as [|x v]; [done|]. cbn [truthy_str]. by rewrite Hv.
Qed.

Lemma load_none i w :
  data (Cart.key i) w = None → play (Cart.load i) w = (Ok None, w).
Proof. intros Hd. unfold Cart.load. rewrite run_mbind.
  cbn [run await drive of_result fst snd]. unfold Concurrency.data in Hd. by rewrite Hd. Qed.

(** What [price] answers, if it does. *)
Definition answered (v : Z) (cur : jstr) (res : result exn Cart) : Prop :=
  match res with Ok r => k_version r = Some v | Err e => unpriceable cur e end.

Lemma price_run k c v w :
  same k w (play (Cart.price baseUrl c (Some v)) w).2 ∧
  answered v (cart_currency c) (play (Cart.price baseUrl c (Some v)) w).1.
Proof.
  split; [apply run_quiet, Concurrency.quiet_price|].
  pose proof (drive_exec clock bytes catalogue engine (Cart.price baseUrl c (Some v)) w) as Hx.
  destruct (play _ w) as [[r|e] w']; cbn [fst snd answered] in *;
    [|by apply price_errors in Hx].
  unfold Cart.price in Hx.
  apply exec_mbind in Hx as [(hl & w1 & _ & Hx)|(e & ? & _)]; [|done].
  apply exec_mbind in Hx as [(o & w2 & _ & Hx)|(e & ? & _)]; [|done].
  destruct o as [priced|]; unfold Cart.degradedCart in *.
  all: apply exec_mbind in Hx as [(ls & w3 & _ & Hx)|(e & ? & _)]; [|done].
  1: do 2 (apply exec_mbind in Hx as [(? & ? & _ & Hx)|(e & ? & _)]; [|done]).
  all: apply exec_mbind in Hx as [(t & w4 & _ & [Hr _])|(e & ? & _)]; [|done].
  all: by injection Hr as ->.
Qed.

Lemma commit_run i z c w :
  (2 ≤ fuel)%nat → ver (Cart.key i) w = Some z → 0 <= z →
  ∃ res w', play (Cart.commit baseUrl fuel i (Some z) c) w = (res, w') ∧
    stored (Cart.key i) c (z + 1) w' ∧ answered (z + 1) (cart_currency c) res.
Proof.
  intros Hf Hv Hz. destruct fuel as [|[|n]]; [lia..|]. unfold Cart.commit. rewrite run_mbind.
  destruct (cas_ends n i (Some z) (stringify c) (Cart.ttlFor c) w (Cart.ttlFor_pos c)) as (w1 & -> & Hs).
  destruct (Cart.cas_script _ _ _ _ _) as [m r1] eqn:Hc. cbn [fst snd] in *.
  destruct (Concurrency.cas_script_met _ _ _ _ _ z _ _ (Cart.ttlFor_pos c) Hv Hc)
    as [(Hne & _)|(_ & -> & Hd & Hv')].
  { cbn in Hne. by rewrite int_of_string_of_int in Hne. }
  rewrite decide_False by lia.
  destruct (price_run (Cart.key i) c (z + 1) w1) as [[Hd1 Hv1] Ha].
  eexists _, _. split; [apply surjective_pairing|]. split; [|exact Ha].
  unfold stored, ver, data, Concurrency.version in *. rewrite Hd1, Hv1, !Hs, Hd, Hv'.
  split; [done|]. apply int_of_string_of_int.
Qed.

(** ** Mutations sent with the current version *)

Lemma load_expecting_run i c z w :
  holds (Cart.key i) c z w → play (Cart.load_expecting i z) w = (Ok (c, Some z), w).
Proof.
  intros Hh. unfold Cart.load_expecting. rewrite run_mbind, (load_run _ _ _ _ Hh). cbn.
  by rewrite decide_False by auto.
Qed.

(** C4. A mutation sent with the version the cart has is committed when nothing
    else runs: [addLine] of an active product, with room or already in the cart,
    stores exactly the cart with the line added at the next version and answers
    with that version; the answer can fail only on a currency mismatch, after the
    write. *)
Theorem addLine_commits i s q c z product w :
  (2 ≤ fuel)%nat → 0 <= z → holds (Cart.key i) c z w →
  (play (Catalog.getVariant baseUrl s) w).1 = Ok (Some product) → v_status product = "ACTIVE" →
  existsb (Cart.has_sku s) (lines c) = true ∨
    Z.of_nat (length (lines c)) < MAX_LINES ∧ is_Some (v_price product) →
  ∃ c' res w', play (Cart.addLine baseUrl fuel i s q z) w = (res, w') ∧
    Concurrency.line_added s q c c' ∧ stored (Cart.key i) c' (z + 1) w' ∧
    answered (z + 1) (cart_currency c) res.
Proof.
  intros Hf Hz Hh Hp Ha Hr.
  pose proof (run_quiet (Cart.key i) (Catalog.getVariant baseUrl s) w (Concurrency.quiet_getVariant _ _ _)) as Hs.
  unfold Cart.addLine. rewrite run_mbind, (load_expecting_run _ _ _ _ Hh), run_mbind.
  destruct (play (Catalog.getVariant baseUrl s) w) as [o w1]. cbn in Hp, Hs. subst o.
  rewrite decide_False by auto. assert (ver (Cart.key i) w1 = Some z) as Hv by apply (holds_same _ _ _ _ _ Hs Hh).
  set (pr := default {| amount := NaN; currency := "" |} (v_price product)).
  set (ls := if existsb (Cart.has_sku s) (lines c)
    then Cart.update_first (Cart.has_sku s) (λ x, Z.min (x + q) MAX_QTY_PER_LINE) (lines c)
    else lines c ++ [{| sku := s; productId := v_productId product; quantity := Z.min q MAX_QTY_PER_LINE;
      addedAtPrice := amount pr; addedAt := toISOString clock |}]).
  exists (Cart.touch clock (Cart.with_lines ls c)).
  destruct (commit_run i z (Cart.touch clock (Cart.with_lines ls c)) w1 Hf Hv Hz)
    as (res & w' & Hc & Hst & Hans).
  exists res, w'. split; [|split; [|by split]].
  - rewrite run_mbind. unfold ls in Hc. destruct (existsb _ (lines c)); [exact Hc|].
    destruct (Z.leb_spec MAX_LINES (Z.of_nat (length (lines c)))); [destruct Hr as [|[? _]]; [done|lia]|].
    destruct Hr as [|[_ [p Hpr]]]; [done|]. unfold pr in Hc. rewrite Hpr in Hc |- *. exact Hc.
  - exists product, clock, clock. split; [done|]. unfold ls.
    destruct (existsb _ (lines c)); [done|]. destruct Hr as [|[? [p Hpr]]]; [done|]. split; [done|].
    exists p. split; [done|]. unfold pr. by rewrite Hpr.
Qed.

(** All three mutations answer [e] and leave the world as it was. *)
Definition refused i s q code z e w : Prop :=
  play (Cart.addLine baseUrl fuel i s q z) w = (Err e, w) ∧
  play (Cart.updateLine baseUrl fuel i s q z) w = (Err e, w) ∧
  play (Cart.applyCoupon baseUrl fuel i code z) w = (Err e, w).

(** The guards of the three mutations refuse before anything is written: a
    cart that does not exist is reported as such, a version that is not the stored
    one is answered with both versions, and in both cases the store is left
    exactly as it was. *)
Theorem mutations_guarded i s q code z c v w :
  (data (Cart.key i) w = None → refused i s q code z (Error "CART_NOT_FOUND") w) ∧
  (holds (Cart.key i) c v w → v ≠ z → refused i s q code z (CartStale (Some z) (Some v)) w).
Proof.
  assert (∀ e, play (Cart.load_expecting i z) w = (Err e, w) → refused i s q code z e w) as Hall.
  { intros e He. unfold refused, Cart.addLine, Cart.updateLine, Cart.applyCoupon. by rewrite !run_mbind, He. }
  split.
  - intros Hd. apply Hall. unfold Cart.load_expecting. by rewrite run_mbind, load_none.
  - intros Hh Hne. apply Hall. unfold Cart.load_expecting. rewrite run_mbind, (load_run _ _ _ _ Hh).
    cbn. by rewrite decide_True by congruence.
Qed.

(** Changing a line with the current version is committed when nothing else
    runs: quantity 0 removes the product, a positive quantity sets it, at most
    99; a product that is not in the cart is refused without a write. *)
Theorem updateLine_commits i s q c z w :
  (2 ≤ fuel)%nat → 0 <= z → holds (Cart.key i) c z w →
  if (q =? 0) || existsb (Cart.has_sku s) (lines c)
  then ∃ c' res w', play (Cart.updateLine baseUrl fuel i s q z) w = (res, w') ∧
    stored (Cart.key i) c' (z + 1) w' ∧ answered (z + 1) (cart_currency c) res ∧
    (∀ s', quantity_of s' (lines c') =
       if decide (s' = s) then Z.min q MAX_QTY_PER_LINE else quantity_of s' (lines c)) ∧
    coupons c' = coupons c
  else play (Cart.updateLine baseUrl fuel i s q z) w = (Err (Error "LINE_NOT_FOUND"), w).
Proof.
  intros Hf Hz Hh. unfold Cart.updateLine. rewrite run_mbind, (load_expecting_run _ _ _ _ Hh).
  assert (ver (Cart.key i) w = Some z) as Hv by apply Hh.
  destruct (Z.eqb_spec q 0) as [->|Hq]; [|destruct (existsb (Cart.has_sku s) (lines c)) eqn:He]; cbn [orb].
  - set (c' := Cart.touch clock (Cart.with_lines (List.filter (λ l, negb (Cart.has_sku s l)) (lines c)) c)).
    destruct (commit_run i z c' w Hf Hv Hz) as (res & w' & Hc & Hst & Hans).
    exists c', res, w'. split; [exact Hc|]. split; [done|]. split; [done|]. split; [|done].
    intros s'. apply quantity_of_filter.
  - set (c' := Cart.touch clock (Cart.with_lines
      (Cart.update_first (Cart.has_sku s) (λ _, Z.min q MAX_QTY_PER_LINE) (lines c)) c)).
    destruct (commit_run i z c' w Hf Hv Hz) as (res & w' & Hc & Hst & Hans).
    exists c', res, w'. split; [exact Hc|]. split; [done|]. split; [done|]. split; [|done].
    intros s'. apply quantity_of_update. by apply existsb_sku.
  - by rewrite run_mbind.
Qed.

End Sequential.
End Sequential.
