(* ===== verification/CartSystem.v ===== *)
(** * Many requests at once: the cart store

    [step] interleaves any number of requests to cart-service, command by
    command, with the expiry of keys.  [Inv] is what the stored carts satisfy in
    every reachable state. *)
From S2P Require Import Prelude JsNumber JsString JsDate Json Prog Primitives CircuitBreaker Redis.
From S2P Require Import CartTypes CartPeers Cart CartLines CartJson CartWorld.
Local Open Scope js_scope.
Local Open Scope Z_scope.

Module System.
Section System.
Context `{RedisLaws R} `{JsonCodec StoredCart} (baseUrl : jstr) (fuel : nat).
Implicit Types w : world R.

(** ** Requests *)

Inductive request :=
| Get (cartId : jstr)
| Create (user : option jstr) (currency country : jstr)
| AddLine (cartId s : jstr) (q expectedVersion : Z)
| UpdateLine (cartId s : jstr) (q expectedVersion : Z)
| ApplyCoupon (cartId code : jstr) (expectedVersion : Z)
| Merge (anonCartId user : jstr).

Definition handle (r : request) : prog (option Cart) :=
  let some (p : prog Cart) := c ← p; mret (Some c) in
  match r with
  | Get i => Cart.get baseUrl i
  | Create u cur country => some (Cart.create baseUrl fuel u cur country)
  | AddLine i s q v => some (Cart.addLine baseUrl fuel i s q v)
  | UpdateLine i s q v => some (Cart.updateLine baseUrl fuel i s q v)
  | ApplyCoupon i c v => some (Cart.applyCoupon baseUrl fuel i c v)
  | Merge i u => some (Cart.merge baseUrl fuel i u)
  end.

(** A cart id never looks like the key of a user index ([cart:user:...]). *)
Definition cart_id (i : jstr) : Prop := startsWith "user:" i = false.

(** What the routes validate before calling a handler. *)
Definition valid (r : request) : Prop :=
  match r with
  | Get i | ApplyCoupon i _ _ => cart_id i
  | Create _ _ _ => True
  | AddLine i _ q _ => cart_id i ∧ 1 <= q
  | UpdateLine i _ q _ => cart_id i ∧ 0 <= q
  | Merge i _ => cart_id i
  end.

(** ** The system *)

Record state := { threads : list (prog (option Cart)); shared : world R }.

(** One command of a running request. *)
Definition advance {A} (p : prog A) w (p' : prog A) w' : Prop :=
  match p with
  | Await c k => ∃ r, effect _ c w r w' ∧ p' = k r
  | _ => False
  end.

Inductive step : state → state → Prop :=
| step_arrive ts w req :
    valid req →
    step {| threads := ts; shared := w |} {| threads := ts ++ [handle req]; shared := w |}
| step_advance ts w n p p' w' :
    ts !! n = Some p → advance p w p' w' →
    step {| threads := ts; shared := w |} {| threads := <[n := p']> ts; shared := w' |}
| step_expire ts w k :
    step {| threads := ts; shared := w |}
         {| threads := ts; shared := set_redis (rdel k (redis w)) w |}.

(** ** The invariant *)

Definition holds_cart (i : jstr) (c : StoredCart) w : Prop :=
  (hget (Cart.key i) "data" (redis w) ≫= parse) = Some c.

(** A stored cart: under its own id, with well-formed lines. *)
Definition good (i : jstr) (c : StoredCart) : Prop := id c = i ∧ wf_lines (lines c).

Definition Inv w : Prop :=
  (∀ i c, cart_id i → holds_cart i c w → good i c) ∧
  (∀ u i, rget (Cart.userIndex u) (redis w) = Some i → cart_id i).

(** The JSON round trip keeps the id of a cart and its quantities: whatever
    else it may change ([null] for a price that is not finite), that is all the
    invariant needs. *)
Context (codec_shape : ∀ c c', parse (stringify c) = Some c' →
  id c' = id c ∧
  map (λ l, (sku l, quantity l)) (lines c') = map (λ l, (sku l, quantity l)) (lines c)).

(** ** Programs that keep the invariant *)

(** Every command the program can issue keeps [Inv], and it ends in [φ]. *)
Fixpoint safe {A} (φ : A → Prop) (p : prog A) : Prop :=
  match p with
  | Ret a => φ a
  | Throw _ => True
  | Await c k => ∀ w r w', Inv w → effect _ c w r w' → Inv w' ∧ safe φ (k r)
  end.

Lemma safe_bind {A B} (φ : A → Prop) (ψ : B → Prop) (p : prog A) (f : A → prog B) :
  safe φ p → (∀ a, φ a → safe ψ (f a)) → safe ψ (p ≫= f).
Proof.
  intros Hp Hf. unfold mbind, prog_bind. induction p as [a|e|C c k IH]; cbn in *; [by apply Hf|done|].
  intros w r w' Hw He. destruct (Hp w r w' Hw He) as [? Hk]. auto.
Qed.

Lemma safe_try {A} (φ : A → Prop) (p : prog A) h :
  safe φ p → (∀ e, safe φ (h e)) → safe φ (try_catch p h).
Proof.
  intros Hp Hh. induction p as [a|e|C c k IH]; cbn in *; [done|apply Hh|].
  intros w r w' Hw He. destruct (Hp w r w' Hw He) as [? Hk]. auto.
Qed.

Lemma safe_await {A} (φ : A → Prop) (c : eff A) :
  (∀ w r w', Inv w → effect _ c w r w' → Inv w' ∧ match r with Ok a => φ a | Err _ => True end) →
  safe φ (await c).
Proof.
  intros Hc w r w' Hw He. destruct (Hc w r w' Hw He). split; [done|]. by destruct r.
Qed.

Lemma safe_weaken {A} (φ ψ : A → Prop) (p : prog A) : (∀ a, φ a → ψ a) → safe φ p → safe ψ p.
Proof.
  intros Hi Hp. induction p as [a|e|C c k IH]; cbn in *; [auto|done|].
  intros w r w' Hw He. destruct (Hp w r w' Hw He). auto.
Qed.

Lemma safe_of_result {A} (r : result exn A) : safe (λ _, True) (of_result r).
Proof. by destruct r. Qed.

(** ** Commands that leave the store alone *)

Definition tame {B} (c : eff B) : Prop :=
  match c with EVALSHA _ _ _ _ _ | SET_EX _ _ _ | DEL _ => False | _ => True end.

Lemma inv_same w w' :
  (∀ k f, hget k f (redis w') = hget k f (redis w)) →
  (∀ k, rget k (redis w') = rget k (redis w)) → Inv w → Inv w'.
Proof.
  intros Hh Hr [Hc Hi]. split.
  - intros i c Hid Hd. apply Hc; [done|]. unfold holds_cart in *. by rewrite <- Hh.
  - intros u i. rewrite Hr. apply Hi.
Qed.

Lemma tame_effect {B} (c : eff B) w r w' : tame c → effect B c w r w' → Inv w → Inv w'.
Proof.
  assert (∀ w1 w2, redis w2 = redis w1 → Inv w1 → Inv w2) as Hsame.
  { intros w1 w2 Hr. apply inv_same; by rewrite Hr. }
  destruct c; cbn; intros Ht He; try done;
    try (destruct He as [[_ ->]|(e & _ & _ & _ & [->| ->])]; try done; by apply Hsame);
    try (by destruct He as [-> _]); try (by subst); try (by destruct He as [_ ->]; apply Hsame).
  destruct He as [[_ ->]|(e & _ & _ & _ & [->| ->])]; [|done|];
    apply inv_same; intros; cbn; by rewrite ?hget_script_load, ?rget_script_load.
Qed.

Lemma safe_tame {B} (c : eff B) : tame c → safe (λ _, True) (await c).
Proof.
  intros Ht. apply safe_await. intros w r w' Hw He. split; [by eapply tame_effect|by destruct r].
Qed.

Lemma safe_local {A} (f : proc → A * proc) : safe (λ _, True) (local f).
Proof. by apply safe_tame. Qed.

Lemma safe_read {A} (f : proc → A) : safe (λ _, True) (read f).
Proof. apply safe_local. Qed.

Lemma safe_lift {A} (r : result jstr A) : safe (λ _, True) (lift r).
Proof. by destruct r. Qed.

Create HintDb safe discriminated.

Ltac safe_step :=
  lazymatch goal with
  | |- ∀ _, _ => intros ?
  | |- safe _ (_ ≫= _) => apply (safe_bind (λ _, True))
  | |- safe _ (try_catch _ _) => apply safe_try
  | |- safe _ (of_result _) => apply safe_of_result
  | |- safe _ (local _) => apply safe_local
  | |- safe _ (read _) => apply safe_read
  | |- safe _ (lift _) => apply safe_lift
  | |- safe _ (mret _) => exact I
  | |- safe _ (throw _) => exact I
  | |- safe _ (await _) => apply safe_tame; exact I
  | |- safe _ (match _ with _ => _ end) => dmatch
  | |- safe _ _ => solve [eauto with safe]
  end.
Ltac safe_walk := repeat safe_step.

Notation neutral p := (safe (λ _, True) p).

Lemma safe_getVariants url skus : neutral (Catalog.getVariants url skus).
Proof. unfold Catalog.getVariants. safe_walk. Qed.
Hint Resolve safe_getVariants : safe.

Lemma safe_getVariant url s : neutral (Catalog.getVariant url s).
Proof. unfold Catalog.getVariant. safe_walk. Qed.
Hint Resolve safe_getVariant : safe.

Lemma safe_record b : neutral (Pricing.record b).
Proof. unfold Pricing.record. safe_walk. Qed.
Hint Resolve safe_record : safe.

Lemma safe_on_reply req : neutral (Await (CALCULATE req) Pricing.on_reply).
Proof.
  intros w r w' Hw He. split; [by eapply (tame_effect (CALCULATE req))|].
  unfold Pricing.on_reply. safe_walk.
Qed.
Hint Resolve safe_on_reply : safe.

Lemma safe_calculate req : neutral (Pricing.calculate req).
Proof. unfold Pricing.calculate, Pricing.allow. safe_walk. Qed.
Hint Resolve safe_calculate : safe.

Lemma safe_price cart v : neutral (Cart.price baseUrl cart v).
Proof. unfold Cart.price, Cart.hydrate, Cart.degradedCart. safe_walk. Qed.
Hint Resolve safe_price : safe.

(** ** Reading and writing carts *)

Lemma startsWith_app p s : startsWith p (p ++ s) = true.
Proof. induction p as [|c p IH]; cbn; [done|]. by rewrite N.eqb_refl. Qed.

Lemma key_inj i i' : Cart.key i = Cart.key i' → i = i'.
Proof. apply app_inv_head. Qed.

Lemma key_not_index i u : cart_id i → Cart.key i ≠ Cart.userIndex u.
Proof.
  intros Hi Heq. assert (i = "user:" ++ u) as ->.
  { apply (app_inv_head "cart:"). exact Heq. }
  unfold cart_id in Hi. by rewrite startsWith_app in Hi.
Qed.

Lemma wf_lines_shape ls ls' :
  map (λ l, (sku l, quantity l)) ls' = map (λ l, (sku l, quantity l)) ls → wf_lines ls → wf_lines ls'.
Proof.
  intros Heq.
  assert (map sku ls' = map sku ls ∧ map quantity ls' = map quantity ls) as [Hs Hq].
  { split; [apply (f_equal (map fst)) in Heq|apply (f_equal (map snd)) in Heq];
      by rewrite !map_map in Heq. }
  intros (Hn & Hl & Hf). split; [|split].
  - by rewrite Hs.
  - by rewrite <- (length_map sku), Hs, length_map.
  - change (λ l : StoredLine, quantity l) with quantity in *.
    apply (Forall_map quantity) in Hf. rewrite <- Hq in Hf. by apply Forall_map.
Qed.

Lemma cas_script_inv i c v ttl w :
  cart_id i → good i c → 0 < ttl → Inv w →
  Inv (set_redis (Cart.cas_script (Cart.key i) v (stringify c) (string_of_int ttl) (redis w)).2 w).
Proof.
  intros Hi [Hid Hwf] Httl Hw.
  assert (∀ n, Inv (set_redis (expire (Cart.key i) (string_of_int ttl) (hset (Cart.key i)
    [("data"%js, stringify c); ("version"%js, string_of_int n)] (redis w))) w)) as Hset.
  { intros n. destruct Hw as [Hc Hx]. split.
    - intros i' c' Hi' Hd. unfold holds_cart in Hd. cbn [redis set_redis] in Hd.
      destruct (decide (i' = i)) as [->|Hne].
      + rewrite hget_expire in Hd by done. erewrite hget_hset_eq in Hd by done. cbn in Hd.
        destruct (codec_shape _ _ Hd) as [Hid' Hl]. split; [congruence|].
        by eapply wf_lines_shape.
      + assert (Cart.key i ≠ Cart.key i') as Hk by by intros ?%key_inj.
        rewrite hget_expire_ne, hget_hset_ne in Hd by done. by apply Hc.
    - intros u i'. cbn [redis set_redis]. pose proof (key_not_index i u Hi).
      rewrite rget_expire_ne, rget_hset by done. apply Hx. }
  unfold Cart.cas_script. destruct (hget _ _ _) as [cur|]; [case_decide|]; cbn [snd]; auto.
Qed.

Lemma safe_cas n i c v ttl :
  cart_id i → good i c → 0 < ttl → neutral (Cart.cas n i v (stringify c) ttl).
Proof.
  intros Hi Hg Httl. induction n as [|n IH]; cbn [Cart.cas]; [done|].
  apply (safe_bind (λ _, True)); [apply safe_read|]. intros sha0 _.
  apply (safe_bind (λ _, True)); [safe_walk|]. intros _ _.
  apply (safe_bind (λ _, True)); [apply safe_read|]. intros sha _.
  apply safe_try.
  - apply safe_await. cbn. intros w r w' Hw He. split; [|by destruct r].
    destruct (_ && _); [|by destruct He as [-> _]].
    destruct He as [[_ ->]|(e & _ & _ & _ & [->| ->])]; [|done|]; by apply cas_script_inv.
  - intros e. destruct (Cart.is_noscript e); [|done].
    apply (safe_bind (λ _, True)); [apply safe_local|]. intros _ _. exact IH.
Qed.

Lemma safe_load i :
  cart_id i →
  safe (λ r, match r with Some (c, _) => good i c | None => True end) (Cart.load i).
Proof.
  intros Hi. unfold Cart.load.
  apply (safe_bind (λ raw, ∀ c, raw.1 ≫= parse = Some c → good i c)).
  - apply safe_await. intros w r w' Hw He. split; [exact (tame_effect (HMGET _) w r w' I He Hw)|].
    cbn in He. destruct He as [[-> _]|(e & -> & _)]; [|done]. intros c Hd. by apply Hw.
  - intros [d v] Hr. cbn [fst snd] in *. destruct d as [d|]; [|exact I].
    destruct (truthy_str d); [|exact I]. cbn in Hr. destruct (parse d) as [c|]; [|exact I]. by apply Hr.
Qed.

Lemma safe_load_expecting i z :
  cart_id i → safe (λ r, good i r.1) (Cart.load_expecting i z).
Proof.
  intros Hi. unfold Cart.load_expecting. eapply safe_bind; [by apply safe_load|].
  intros [[c v]|] Hg; [|exact I]. case_decide; [exact I|exact Hg].
Qed.

Lemma safe_commit i v c : cart_id i → good i c → neutral (Cart.commit baseUrl fuel i v c).
Proof.
  intros Hi Hg. unfold Cart.commit.
  apply (safe_bind (λ _, True)); [by apply safe_cas; [..|apply Cart.ttlFor_pos]|].
  intros next _. case_decide; [|apply safe_price].
  apply (safe_bind (λ _, True)); [|by intros ? _].
  eapply safe_weaken; [|by apply safe_load]. done.
Qed.

Lemma safe_index u i ttl : cart_id i → neutral (await (SET_EX (Cart.userIndex u) i ttl)).
Proof.
  intros Hi. apply safe_await. cbn. intros w r w' Hw He. split; [|by destruct r].
  assert (Inv (set_redis (rset (Cart.userIndex u) i ttl (redis w)) w)) as Hset.
  { destruct Hw as [Hc Hx]. split.
    - intros i' c Hi' Hd. apply Hc; [done|]. unfold holds_cart in *. cbn [redis set_redis] in Hd.
      rewrite hget_rset in Hd; [done|]. intros Hk. by eapply key_not_index.
    - intros u' i'. cbn [redis set_redis].
      destruct (decide (Cart.userIndex u = Cart.userIndex u')) as [->|Hne].
      + rewrite rget_rset_eq. by intros [= <-].
      + rewrite rget_rset_ne by done. apply Hx. }
  destruct He as [[_ ->]|(e & _ & _ & _ & [->| ->])]; done.
Qed.

Lemma del_inv k w : Inv w → Inv (set_redis (rdel k (redis w)) w).
Proof.
  intros [Hc Hx]. split.
  - intros i c Hi Hd. apply Hc; [done|]. unfold holds_cart in *. cbn [redis set_redis] in Hd.
    destruct (decide (k = Cart.key i)) as [->|Hne].
    + by rewrite hget_rdel_eq in Hd.
    + by rewrite hget_rdel_ne in Hd.
  - intros u i. cbn [redis set_redis]. destruct (decide (k = Cart.userIndex u)) as [->|Hne].
    + by rewrite rget_rdel_eq.
    + rewrite rget_rdel_ne by done. apply Hx.
Qed.

Lemma safe_del k : neutral (await (DEL k)).
Proof.
  apply safe_await. cbn. intros w r w' Hw He. split; [|by destruct r].
  destruct He as [[_ ->]|(e & _ & _ & _ & [->| ->])]; [|done|]; by apply del_inv.
Qed.

(** ** The handlers *)

Lemma good_touch i c now ls : good i c → wf_lines ls → good i (Cart.touch now (Cart.with_lines ls c)).
Proof. by intros [Hid _] Hl. Qed.

Lemma safe_now {A} (φ : A → Prop) (f : Z → prog A) : (∀ t, safe φ (f t)) → safe φ (await NOW ≫= f).
Proof. intros Hf. apply (safe_bind (λ _, True)); [by apply safe_tame|auto]. Qed.

Lemma safe_addLine i s q z :
  cart_id i → 1 <= q → neutral (Cart.addLine baseUrl fuel i s q z).
Proof.
  intros Hi Hq. unfold Cart.addLine. eapply safe_bind; [by apply safe_load_expecting|].
  intros [c v] Hg. cbn [fst] in Hg. eapply safe_bind; [apply safe_getVariant|].
  intros [product|] _; [|exact I]. case_decide; [exact I|].
  assert (wf_lines (lines c)) as Hw by apply Hg.
  apply (safe_bind wf_lines); [|intros ls Hls; apply safe_now; intros t; apply safe_commit; [done|by apply good_touch]].
  destruct (existsb _ _) eqn:He; [|destruct (Z.leb_spec MAX_LINES (Z.of_nat (length (lines c)))); [exact I|]].
  - apply update_first_wf; [done|]. left. apply existsb_sku in He.
    pose proof (quantity_of_pos s _ Hw He). unfold quantity_ok, MAX_QTY_PER_LINE in *. lia.
  - destruct (v_price product) as [price|]; [|exact I].
    apply safe_now. intros t. apply append_wf; [done|by apply existsb_sku_false| |done].
    unfold quantity_ok, MAX_QTY_PER_LINE. cbn. lia.
Qed.

Lemma safe_updateLine i s q z :
  cart_id i → 0 <= q → neutral (Cart.updateLine baseUrl fuel i s q z).
Proof.
  intros Hi Hq. unfold Cart.updateLine. eapply safe_bind; [by apply safe_load_expecting|].
  intros [c v] Hg. cbn [fst] in Hg. assert (wf_lines (lines c)) as Hw by apply Hg.
  apply (safe_bind wf_lines); [|intros ls Hls; apply safe_now; intros t; apply safe_commit; [done|by apply good_touch]].
  destruct (Z.eqb_spec q 0); [by apply filter_wf|]. destruct (existsb _ _); [|exact I].
  apply update_first_wf; [done|]. left. unfold quantity_ok, MAX_QTY_PER_LINE. lia.
Qed.

Lemma safe_applyCoupon i code z : cart_id i → neutral (Cart.applyCoupon baseUrl fuel i code z).
Proof.
  intros Hi. unfold Cart.applyCoupon. eapply safe_bind; [by apply safe_load_expecting|].
  intros [c v] Hg. apply safe_now. intros t. by apply safe_commit.
Qed.

Lemma safe_get i : cart_id i → neutral (Cart.get baseUrl i).
Proof.
  intros Hi. unfold Cart.get. eapply safe_bind; [by apply safe_load|].
  intros [[c v]|] _; [|exact I]. safe_walk.
Qed.

Lemma wf_nil : wf_lines [].
Proof. split; [constructor|split; [done|constructor]]. Qed.

Lemma safe_create u cur country : neutral (Cart.create baseUrl fuel u cur country).
Proof.
  unfold Cart.create. apply (safe_bind (λ _, True)); [unfold Cart.ulid; safe_walk|]. intros l _.
  assert (cart_id ("crt_" ++ l)) as Hid by done.
  apply safe_now. intros t. apply (safe_bind (λ _, True)).
  - apply safe_cas; [done| |apply Cart.ttlFor_pos]. split; [done|apply wf_nil].
  - intros _ _. apply (safe_bind (λ _, True)); [|intros _ _; apply safe_price].
    destruct u as [uid|]; [|exact I]. destruct (truthy_str uid); [|exact I]. by apply safe_index.
Qed.

Lemma safe_rget u :
  safe (λ o, ∀ i, o = Some i → cart_id i) (await (GET (Cart.userIndex u))).
Proof.
  apply safe_await. intros w r w' Hw He.
  split; [exact (tame_effect (GET _) w r w' I He Hw)|].
  cbn in He. destruct He as [[-> _]|(e & -> & _)]; [|done]. intros i. apply Hw.
Qed.

Lemma safe_merge i u : cart_id i → neutral (Cart.merge baseUrl fuel i u).
Proof.
  intros Hi. unfold Cart.merge. eapply safe_bind; [by apply safe_load|]. intros anon Ha.
  eapply safe_bind; [apply safe_rget|]. intros o Ho.
  apply (safe_bind (λ e : option (StoredCart * option Z),
    match e with Some (c, _) => ∃ j, cart_id j ∧ good j c | None => True end)).
  { destruct o as [j|]; [|exact I]. destruct (truthy_str j); [|exact I].
    eapply safe_weaken; [|by apply safe_load, Ho]. intros [[c v]|]; [|done].
    intros Hg. exists j. by split; [apply Ho|]. }
  intros [[ec ev]|] He; destruct anon as [[ac av]|].
  - destruct He as (j & Hj & Hid & Hw). rewrite <- Hid in Hj. apply safe_now. intros t.
    apply (safe_bind (λ _, True)).
    + apply safe_cas; [done| |done]. split; [done|]. apply merge_lines_wf; [done|apply Ha].
    + intros next _. apply (safe_bind (λ _, True)); [apply safe_del|intros _ _; apply safe_price].
  - apply safe_price.
  - destruct Ha as [Hid Ha]. rewrite <- Hid in Hi.
    apply (safe_bind (λ _, True)); [by apply safe_cas|]. intros next _.
    apply (safe_bind (λ _, True)); [by apply safe_index|intros _ _; apply safe_price].
  - apply safe_create.
Qed.

Lemma safe_some (p : prog Cart) : neutral p → neutral (c ← p; mret (Some c)).
Proof. intros Hp. apply (safe_bind (λ _, True)); [exact Hp|by intros]. Qed.

Lemma safe_handle req : valid req → neutral (handle req).
Proof.
  destruct req; unfold handle; cbn [valid]; intros Hv; try apply safe_some.
  - by apply safe_get.
  - apply safe_create.
  - destruct Hv. by apply safe_addLine.
  - destruct Hv. by apply safe_updateLine.
  - by apply safe_applyCoupon.
  - by apply safe_merge.
Qed.

(** ** Reachable states *)

Definition safe_state (s : state) : Prop :=
  Inv (shared s) ∧ Forall (λ p, neutral p) (threads s).

Lemma step_safe s s' : step s s' → safe_state s → safe_state s'.
Proof.
  intros Hs [Hw Ht]. destruct Hs as [ts w req Hv|ts w n p p' w' Hn Ha|ts w k]; cbn in *.
  - split; [done|]. apply Forall_app. split; [done|]. constructor; [|constructor]. by apply safe_handle.
  - pose proof (Forall_lookup_1 _ _ _ _ Ht Hn) as Hp. destruct p as [|?|B c f]; [done..|].
    destruct Ha as (r & He & ->). destruct (Hp w r w' Hw He) as [Hw' Hk].
    split; [done|]. by apply Forall_insert.
  - split; [by apply del_inv|done].
Qed.

Lemma steps_safe s s' : rtc step s s' → safe_state s → safe_state s'.
Proof. induction 1; [done|]. eauto using step_safe. Qed.

(** C2. However the commands of concurrent requests interleave, and whatever keys
    expire meanwhile, every stored cart stays well formed in every reachable
    state: it is stored under its own id, its products are distinct, there are at
    most 100 of them, each in a quantity between 1 and 99; and a user index only
    ever names a cart key. *)
Theorem cart_store_invariant s s' :
  threads s = [] → Inv (shared s) → rtc step s s' → Inv (shared s').
Proof.
  intros Ht Hi Hr. eapply (steps_safe _ _ Hr). split; [done|]. by rewrite Ht.
Qed.

End System.
End System.
