(* ===== verification/CartLinear.v ===== *)
(** * Carts are atomic objects

    The contract the cart service gives for one cart: a cell holding a version
    and a document, which each request reads, or replaces at most once, in one
    step, by what the request does to the cart it then holds ([spec_step]).

    [run] is [System.step], interleaved command by command, as long as the cart
    does not vanish (keys expire, and a login merge deletes the anonymous
    cart).  Every such run refines the contract: [Linear.carts_are_atomic].

    The proof is by rely and guarantee: [rg] follows a program command by
    command, under the interference [Concurrency.rely], and says of each command
    that it is a [move] of its request. *)
From S2P Require Import Prelude JsNumber JsString JsDate Json Prog Primitives CircuitBreaker Redis.
From S2P Require Import CartTypes CartPeers Cart CartLines CartWorld CartConcurrency.
From S2P Require Import CartSystem.
Local Open Scope js_scope.
Local Open Scope Z_scope.

Module Linear.
Import Concurrency System.

(** ** The contract *)

(** Where a request is: it did nothing yet, it took effect once and wrote that
    cart at that version, or it read what was there. *)
Inductive phase :=
| Pending
| Took (version : Z) (cart : StoredCart)
| Saw (found : option (Z * jstr)).

(** The answer shows that cart at that version; a line may be missing, when the
    catalogue no longer knows its product, but none is made up. *)
Definition shows (a : Cart) (version : option Z) (c : StoredCart) : Prop :=
  k_id a = id c ∧ k_userId a = userId c ∧ k_currency a = cart_currency c ∧ k_updatedAt a = updatedAt c ∧
  k_version a = version ∧
  map (λ l, (l_sku l, l_quantity l)) (k_lines a) `sublist_of` map (λ l, (sku l, quantity l)) (lines c).

Section Spec.
Context `{JsonCodec StoredCart} (i : jstr).

(** What a request may make of the cart [i], found at version [z]. *)
Definition changes (r : request) (z : Z) (c c' : StoredCart) : Prop :=
  match r with
  | AddLine j s q v => j = i ∧ v = z ∧ line_added s q c c'
  | UpdateLine j s q v => j = i ∧ v = z ∧ line_updated s q c c'
  | ApplyCoupon j code v => j = i ∧ v = z ∧ coupon_applied code c c'
  | Merge j u =>
      (j = i ∧ c' = Cart.with_userId (Some u) c) ∨
      (∃ anon t, good j anon ∧
         c' = Cart.touch t (Cart.with_coupons (Cart.merge_coupons (coupons c) (coupons anon))
                (Cart.with_lines (Cart.merge_lines (lines c) (lines anon)) c)))
  | Get _ | Create _ _ _ => False
  end.

Definition empty_cart (user : option jstr) (currency country : jstr) (t : Z) : StoredCart := {|
  id := i; userId := user; lines := []; cart_currency := currency; coupons := [];
  countryCode := country; createdAt := toISOString t; updatedAt := toISOString t |}.

(** The cart a request may store where there is none. *)
Definition creates (r : request) (c' : StoredCart) : Prop :=
  match r with
  | Create u currency country => ∃ t, c' = empty_cart u currency country t
  | Merge _ u => ∃ t, c' = empty_cart (Some u) "EGP" "EG" t
  | _ => False
  end.

(** The version and the document of the cart; the requests that arrived. *)
Record spec := { cell : option (Z * jstr); clients : list (request * phase) }.

Inductive spec_step : spec → spec → Prop :=
| spec_arrive x req :
    valid req →
    spec_step x {| cell := cell x; clients := clients x ++ [(req, Pending)] |}
| spec_change x n req z t c c' :
    clients x !! n = Some (req, Pending) → cell x = Some (z, t) → parse t = Some c →
    changes req z c c' →
    spec_step x {| cell := Some (z + 1, stringify c'); clients := <[n := (req, Took (z + 1) c')]> (clients x) |}
| spec_create x n req c' :
    clients x !! n = Some (req, Pending) → cell x = None → creates req c' →
    spec_step x {| cell := Some (1, stringify c'); clients := <[n := (req, Took 1 c')]> (clients x) |}
| spec_read x n :
    clients x !! n = Some (Get i, Pending) →
    spec_step x {| cell := cell x; clients := <[n := (Get i, Saw (cell x))]> (clients x) |}.

(** What an answer tells: a mutation that is answered took effect, on the version
    the client sent, and the answer shows what it wrote; a read shows what was
    there at one point of its run. *)
Definition answered (r : request) (a : option Cart) (g : phase) : Prop :=
  match r with
  | AddLine j _ _ v | UpdateLine j _ _ v | ApplyCoupon j _ v =>
      j = i → ∃ c k, g = Took (v + 1) c ∧ a = Some k ∧ shows k (Some (v + 1)) c
  | Get j =>
      j = i → ∃ found, g = Saw found ∧
      match a with
      | Some k => ∃ z t c, found = Some (z, t) ∧ parse t = Some c ∧ shows k (Some z) c
      | None => found = None
      end
  | Create _ _ _ | Merge _ _ => True
  end.

(** A request refused as stale or full changed nothing. *)
Definition refused (e : exn) (g : phase) : Prop :=
  match e with CartStale _ _ | CartFull => g = Pending | _ => True end.
End Spec.

Section Linear.
Context `{RedisLaws R} `{JsonCodec StoredCart} (baseUrl : jstr) (fuel : nat).
Implicit Types w : world R.
Context (i : jstr).
Notation k := (Cart.key i).

(** ** Runs in which the cart stays *)

Definition cell_of w : option (Z * jstr) :=
  match data k w, ver k w with Some t, Some z => Some (z, t) | _, _ => None end.

(** What the script leaves in the hash of a cart: both fields or none, a document
    that is not empty and versions from 1. *)
Definition sound w : Prop :=
  (data k w = None ∧ version k w = None) ∨
  ∃ t z, data k w = Some t ∧ version k w = Some (string_of_int z) ∧ t ≠ [] ∧ 1 <= z.

Definition kept w w' : Prop := is_Some (data k w) → is_Some (data k w').

(** The requests that arrived, in order, and where the system got to. *)
Inductive run : list request → state → state → Prop :=
| run_start s : run [] s s
| run_arrive rs s s' req :
    run rs s s' → valid req →
    run (rs ++ [req]) s {| threads := threads s' ++ [handle baseUrl fuel req]; shared := shared s' |}
| run_advance rs s s' n p p' w' :
    run rs s s' → threads s' !! n = Some p → advance p (shared s') p' w' → kept (shared s') w' →
    run rs s {| threads := <[n := p']> (threads s'); shared := w' |}
| run_expire rs s s' key :
    run rs s s' → kept (shared s') (set_redis (rdel key (redis (shared s'))) (shared s')) →
    run rs s {| threads := threads s'; shared := set_redis (rdel key (redis (shared s'))) (shared s') |}.

Lemma run_steps rs s s' : run rs s s' → rtc (step baseUrl fuel) s s'.
Proof.
  induction 1 as [s|rs s [ts w] req ? IH|rs s [ts w] n p p' w' ? IH|rs s [ts w] key ? IH];
    [done|eapply rtc_r; [exact IH|]; cbn in *..].
  - by apply step_arrive.
  - by eapply step_advance.
  - apply step_expire.
Qed.

(** ** Rely and guarantee *)

(** What one command of the request [r] may do to the cart. *)
Definition move (r : request) (g : phase) w (g' : phase) w' : Prop :=
  (same k w w' ∧ g' = g) ∨
  (∃ z c c', g = Pending ∧ holds k c z w ∧ changes i r z c c' ∧
     swapped k (stringify c') (z + 1) (redis w') ∧ 1 <= z ∧ g' = Took (z + 1) c') ∨
  (∃ c', g = Pending ∧ data k w = None ∧ version k w = None ∧ creates i r c' ∧
     swapped k (stringify c') 1 (redis w') ∧ g' = Took 1 c') ∨
  (same k w w' ∧ g = Pending ∧ r = Get i ∧ g' = Saw (cell_of w)).

Lemma swapped_ver w t n : swapped k t n (redis w) → ver k w = Some n.
Proof. intros [_ Hv]. unfold ver, version. rewrite Hv. apply int_of_string_of_int. Qed.

Lemma swapped_sound w c n : 1 <= n → swapped k (stringify c) n (redis w) → sound w.
Proof. intros Hn [Hd Hv]. right. exists (stringify c), n. split_and!; [done|done|apply stringify_nonempty|done]. Qed.

Lemma same_sound w w' : same k w w' → sound w → sound w'.
Proof. intros [Hd Hv]. unfold sound. by rewrite Hd, Hv. Qed.

Lemma same_cell w w' : same k w w' → cell_of w' = cell_of w.
Proof. intros [Hd Hv]. unfold cell_of, ver. by rewrite Hd, Hv. Qed.

Lemma move_sound r g w g' w' : move r g w g' w' → sound w → sound w'.
Proof.
  intros [[Hs _]|[(z & c & c' & _ & _ & _ & Hs & Hz & _)|[(c' & _ & _ & _ & _ & Hs & _)|[Hs _]]]] Hw;
    [by eapply same_sound|eapply swapped_sound; [|exact Hs]; lia..|by eapply same_sound].
Qed.

Lemma ver_versioned w z : ver k w = Some z → versioned k w.
Proof. intros Hv _. by exists z. Qed.

Lemma move_rely r g w g' w' : move r g w g' w' → rely k w w'.
Proof.
  intros [[Hs _]|[(z & c & c' & _ & [_ Hv] & _ & Hs & _)|[(c' & _ & _ & Hv & _ & Hs & _)|[Hs _]]]];
    [by apply same_rely|split|split|by apply same_rely];
    try (intros _; eapply ver_versioned, swapped_ver, Hs).
  - intros z0 Hz0. right. exists (z + 1). split; [by eapply swapped_ver|]. simplify_eq. lia.
  - intros z0. unfold ver. by rewrite Hv.
Qed.

(** The program keeps to the moves of [r], and ends in [Q], or throws in [T]. *)
Fixpoint rg {A} (r : request) (Q : A → phase → world R → Prop) (T : exn → phase → world R → Prop)
    (p : prog A) (g : phase) w : Prop :=
  match p with
  | Ret a => Q a g w
  | Throw e => T e g w
  | Await c f => ∀ w1 res w2,
      rely k w w1 → sound w1 → Inv w1 → effect _ c w1 res w2 → kept w1 w2 →
      ∃ g', move r g w1 g' w2 ∧ rg r Q T (f res) g' w2
  end.

Section Rules.
Context (r : request).
Implicit Types g : phase.

Lemma rg_bind {A B} (p : prog A) (f : A → prog B) Q T g w :
  rg r (λ a g' w', rg r Q T (f a) g' w') T p g w → rg r Q T (p ≫= f) g w.
Proof.
  unfold mbind, prog_bind. revert g w. induction p as [a|e|C c h IH]; intros g w; cbn; [done..|].
  intros Hp w1 res w2 Hr1 Hw1 Hi1 He1 Hk1. destruct (Hp w1 res w2 Hr1 Hw1 Hi1 He1 Hk1) as (g' & ? & ?). eauto.
Qed.

Lemma rg_try {A} (p : prog A) h Q T g w :
  rg r Q (λ e g' w', rg r Q T (h e) g' w') p g w → rg r Q T (try_catch p h) g w.
Proof.
  revert g w. induction p as [a|e|C c f IH]; intros g w; cbn; [done..|].
  intros Hp w1 res w2 Hr1 Hw1 Hi1 He1 Hk1. destruct (Hp w1 res w2 Hr1 Hw1 Hi1 He1 Hk1) as (g' & ? & ?). eauto.
Qed.

Lemma rg_await {A} (c : eff A) Q T g w :
  (∀ w1 res w2, rely k w w1 → sound w1 → Inv w1 → effect _ c w1 res w2 → kept w1 w2 →
     ∃ g', move r g w1 g' w2 ∧ match res with Ok a => Q a g' w2 | Err e => T e g' w2 end) →
  rg r Q T (await c) g w.
Proof.
  intros Hc w1 res w2 Hr1 Hw1 Hi1 He1 Hk1. destruct (Hc w1 res w2 Hr1 Hw1 Hi1 He1 Hk1) as (g' & ? & ?).
  exists g'. split; [done|]. by destruct res.
Qed.

(** A program that does not write to the cart leaves the request where it was. *)
Lemma rg_quiet {A} (p : prog A) (Q : A → phase → world R → Prop) (T : exn → phase → world R → Prop) g w :
  quiet k p →
  (∀ res w', rely k w w' → exec (λ _ _, True) effect p w res w' →
     match res with Ok a => Q a g w' | Err e => T e g w' end) →
  rg r Q T p g w.
Proof.
  revert w. induction p as [a|e|C c f IH]; intros w Hq HQ; cbn.
  - exact (HQ (Ok a) w (rely_refl k w) (conj eq_refl eq_refl)).
  - exact (HQ (Err e) w (rely_refl k w) (conj eq_refl eq_refl)).
  - destruct Hq as [Hc Hf]. intros w1 res w2 Hr1 _ _ He _.
    assert (same k w1 w2) as Hs by by eapply quiet_effect.
    exists g. split; [by left|]. apply IH; [apply Hf|]. intros res' w' Hr Hx. apply HQ.
    + eapply rely_trans; [exact Hr1|]. eapply rely_trans; [by apply same_rely|exact Hr].
    + exists w1, res, w2. auto.
Qed.

Lemma rg_weaken {A} (p : prog A) (Q Q' : A → phase → world R → Prop) T g w :
  rg r Q T p g w → (∀ a g w, Q a g w → Q' a g w) → rg r Q' T p g w.
Proof.
  intros Hp HQ. revert g w Hp. induction p as [a|e|C c f IH]; intros g w; cbn; [apply HQ|done|].
  intros Hp w1 res w2 Hr1 Hw1 Hi1 He1 Hk1. destruct (Hp w1 res w2 Hr1 Hw1 Hi1 He1 Hk1) as (g' & ? & ?). eauto.
Qed.

Lemma rg_skip {A} (p : prog A) Q T g w :
  quiet k p → (∀ a w', rely k w w' → Q a g w') → (∀ e w', rely k w w' → T e g w') → rg r Q T p g w.
Proof. intros Hq HQ HT. apply rg_quiet; [done|]. intros [a|e] w' Hr _; auto. Qed.

(** The same for the interference of others. *)
Lemma rg_rely {A} (p : prog A) (Q : A → phase → Prop) (T : exn → phase → Prop) g w w' :
  rely k w w' → rg r (λ a g _, Q a g) (λ e g _, T e g) p g w → rg r (λ a g _, Q a g) (λ e g _, T e g) p g w'.
Proof.
  destruct p as [a|e|C c f]; cbn; [done..|]. intros Hr Hp w1 res w2 Hr1.
  apply Hp. by eapply rely_trans.
Qed.
End Rules.

(** ** The commands on carts *)

Section Commands.
Context (r : request) (Hi : cart_id i).
Implicit Types g : phase.

(** What [load] knows about a cart it returns. *)
Definition loaded (j : jstr) (o : option (StoredCart * option Z)) w : Prop :=
  match o with
  | Some (c, v) => good j c ∧ (j = i → ∃ z, v = Some z ∧ seen k c z w)
  | None => True
  end.

Lemma loaded_stable j o w w' : rely k w w' → loaded j o w → loaded j o w'.
Proof.
  destruct o as [[c v]|]; [|done]. intros Hr [Hg Hs]. split; [done|]. intros Hj.
  destruct (Hs Hj) as (z & -> & Hz). exists z. split; [done|]. by eapply seen_stable.
Qed.

Lemma version_of_int z : Cart.version_of (Some (string_of_int z)) = Some z.
Proof.
  cbn. destruct (truthy_str (string_of_int z)) eqn:Ht; [apply int_of_string_of_int|].
  pose proof (int_of_string_of_int z) as Hz. by destruct (string_of_int z).
Qed.

(** What a [load] of the cart [i] found. *)
Definition read_as (o : option (StoredCart * option Z)) w : Prop :=
  match o with
  | Some (c, v) => ∃ z t, cell_of w = Some (z, t) ∧ parse t = Some c ∧ v = Some z
  | None => cell_of w = None
  end.

Lemma rg_load_mark j (mark : world R → phase) (Q : option (StoredCart * option Z) → phase → world R → Prop)
    (T : exn → phase → world R → Prop) g w :
  cart_id j → (∀ w1 w2, same k w1 w2 → move r g w1 (mark w1) w2) →
  (∀ o w1 w2, rely k w w2 → loaded j o w2 → (j = i → read_as o w1) → Q o (mark w1) w2) →
  (∀ e w1 w2, client_error e → T e (mark w1) w2) →
  rg r Q T (Cart.load j) g w.
Proof.
  intros Hj Hmark HQ HT. unfold Cart.load. apply rg_bind, rg_await. cbn [effect].
  intros w1 res w2 Hr Hw Hinv He _. exists (mark w1).
  assert (same k w1 w2) as Hs by by eapply answers_same.
  split; [by apply Hmark|]. destruct He as [[-> ->]|(e & -> & ? & _)]; [|by apply HT]. cbn [fst snd].
  assert (rely k w (set_redis (redis w1) w1)) as Hr' by (eapply rely_trans; [exact Hr|by apply same_rely]).
  assert (∀ d, hget (Cart.key j) "data" (redis w1) = d → match d with Some t => truthy_str t = false | None => True end →
    j = i → cell_of w1 = None) as Hnone.
  { intros d Hd Ht ->. destruct Hw as [[Hn Hv]|(t & z & Hn & Hv & Hne & _)].
    - unfold cell_of. by rewrite Hn.
    - unfold data in Hn. rewrite Hn in Hd. subst d. by destruct t. }
  destruct (hget (Cart.key j) "data" (redis w1)) as [d|] eqn:Hd.
  2:{ apply HQ; [done..|]. by apply (Hnone None). }
  destruct (truthy_str d) eqn:Ht.
  2:{ apply HQ; [done..|]. by apply (Hnone (Some d)). }
  destruct (parse d) as [c|] eqn:Hp; [|apply HT; by eexists].
  assert (holds_cart j c w1) as Hc by (unfold holds_cart; by rewrite Hd).
  assert (j = i → ∃ z, version k w1 = Some (string_of_int z)) as Hversion.
  { intros ->. destruct Hw as [[Hn _]|(t & z & _ & Hv & _)]; [unfold data in Hn; congruence|eauto]. }
  apply HQ; [done| |].
  - split; [by apply Hinv|]. intros Heq. destruct (Hversion Heq) as [z Hv]. subst j.
    unfold version in Hv. rewrite Hv. exists z. split; [apply version_of_int|]. left.
    unfold holds, ver, version, data in *. cbn [redis set_redis]. rewrite Hd, Hv. cbn.
    by rewrite int_of_string_of_int.
  - intros Heq. destruct (Hversion Heq) as [z Hv]. subst j. exists z, d. unfold cell_of, ver, data. rewrite Hd, Hv.
    cbn [mbind option_bind]. rewrite int_of_string_of_int. split; [done|]. split; [done|]. unfold version in Hv. rewrite Hv.
    apply version_of_int.
Qed.

Lemma rg_load j (Q : option (StoredCart * option Z) → phase → world R → Prop) T g w :
  cart_id j → (∀ o w', rely k w w' → loaded j o w' → Q o g w') → (∀ e w', T e g w') →
  rg r Q T (Cart.load j) g w.
Proof.
  intros Hj HQ HT. apply (rg_load_mark j (λ _, g)); [done| |auto..]. intros w1 w2 Hs. by left.
Qed.

(** A command on the memory of the process never throws. *)
Lemma rg_local {A} (f : proc → A * proc) (Q : A → phase → world R → Prop) T g w :
  (∀ a w', rely k w w' → Q a g w') → rg r Q T (local f) g w.
Proof.
  intros HQ. apply rg_await. intros w1 res w2 Hr _ _ [-> ->] _. exists g. split; [by left|].
  apply HQ. eapply rely_trans; [exact Hr|by apply same_rely].
Qed.

Lemma rg_script_load s (Q : jstr → phase → world R → Prop) (T : exn → phase → world R → Prop) g w :
  (∀ a w', rely k w w' → Q a g w') → (∀ e w', client_error e → T e g w') →
  rg r Q T (await (SCRIPT_LOAD s)) g w.
Proof.
  intros HQ HT. apply rg_await. intros w1 res w2 Hr _ _ He _. exists g.
  assert (same k w1 w2) as Hs.
  { eapply answers_same; [exact He|]. intros f. apply hget_script_load. }
  split; [by left|]. destruct He as [[-> _]|(e & -> & ? & _)]; [|by apply HT].
  apply HQ. eapply rely_trans; [exact Hr|by apply same_rely].
Qed.

(** The compare-and-swap moves as its script does. *)
Lemma rg_cas n j v payload ttl (Q : Z → phase → world R → Prop) (T : exn → phase → world R → Prop) g w :
  (∀ w1 o, rely k w w1 → sound w1 →
     o = Cart.cas_script (Cart.key j) (string_of_version v) payload (string_of_int ttl) (redis w1) →
     ∃ g', move r g w1 g' (set_redis o.2 w1) ∧ Q o.1 g' (set_redis o.2 w1)) →
  (∀ e g' w', e = NoFuel ∨ client_error e → T e g' w') →
  rg r Q T (Cart.cas n j v payload ttl) g w.
Proof.
  intros HQ HT. assert (∀ w0, rely k w w0 → rg r Q T (Cart.cas n j v payload ttl) g w0) as Hn;
    [|apply Hn, rely_refl].
  induction n as [|n IH]; intros w0 Hr; cbn [Cart.cas]; [by apply HT; left|].
  assert (∀ w1 w2, rely k w1 w2 → rely k w w1 → rely k w w2) as Htr.
  { intros w1 w2 Ha Hb. by eapply rely_trans. }
  apply rg_bind, rg_local. intros sha0 w1 Hr1. apply rg_bind.
  assert (∀ w1 Q', rely k w w1 → (∀ w', rely k w w' → Q' () g w') →
    rg r Q' T (s' ← await (SCRIPT_LOAD Cart.CAS_SCRIPT); local (λ p, (tt, Cart.set_casSha (Some s') p))) g w1) as Hload.
  { intros w1' Q' Hw1 HQ'. apply rg_bind, rg_script_load; [|by intros; apply HT; right].
    intros s' w2 ?. apply rg_local. intros [] w3 ?. apply HQ'. eauto. }
  assert (rely k w w1) as Hw1 by eauto.
  enough (∀ w1, rely k w w1 → rg r Q T
    (sha ← read casSha; try_catch (await (EVALSHA (default "" sha) (Cart.key j) (string_of_version v) payload
      (string_of_int ttl))) (λ e, if Cart.is_noscript e then
         _ ← local (λ p, (tt, Cart.set_casSha None p)); Cart.cas n j v payload ttl else throw e)) g w1) as Hgo.
  { destruct sha0 as [s|]; [destruct (truthy_str s)|]; [by apply Hgo|by apply Hload..]. }
  intros w2 Hw2. apply rg_bind, rg_local. intros sha w3 Hw3. apply rg_try, rg_await. cbn [effect].
  intros w4 res w5 Hr4 Hs4 _ He _.
  assert (rely k w w4) as Hw4 by eauto. destruct (_ && _).
  - destruct (HQ w4 _ Hw4 Hs4 eq_refl) as (g' & Hm & Hq).
    destruct He as [[-> ->]|(e & -> & ? & Hno & [->| ->])].
    + by exists g'.
    + exists g. split; [by left|]. rewrite Hno. apply HT. by right.
    + exists g'. split; [done|]. rewrite Hno. apply HT. by right.
  - destruct He as [-> (e & -> & ?)]. exists g. split; [by left|].
    destruct (Cart.is_noscript e); [|apply HT; by right].
    apply rg_bind, rg_local. intros _ w6 ?. apply IH. eauto.
Qed.

(** The script of another cart. *)
Lemma script_other j v payload ttl g w1 o :
  j ≠ i → o = Cart.cas_script (Cart.key j) v payload ttl (redis w1) → move r g w1 g (set_redis o.2 w1).
Proof.
  intros Hj ->. left. split; [|done]. apply same_of_redis. intros f. apply cas_script_other.
  by intros ?%key_inj.
Qed.

(** The script against the version [z] of a cart that was read. *)
Lemma script_seen c c' z ttl w1 o :
  0 < ttl → seen k c z w1 → sound w1 → changes i r z c c' →
  o = Cart.cas_script k (string_of_int z) (stringify c') (string_of_int ttl) (redis w1) →
  ∃ g', move r Pending w1 g' (set_redis o.2 w1) ∧
    (o.1 = -1 ∧ g' = Pending ∨ 1 <= z ∧ o.1 = z + 1 ∧ g' = Took (z + 1) c').
Proof.
  intros Httl Hs Hw Hc Ho.
  assert (∃ z1, ver k w1 = Some z1 ∧ (z1 = z → holds k c z w1)) as (z1 & Hz1 & Hh).
  { destruct Hs as [Hh|(z' & ? & ?)]; [|by exists z'; split; [|lia]]. exists z. split; [apply Hh|auto]. }
  assert (1 <= z1) as Hpos.
  { destruct Hw as [[_ Hn]|(t & z2 & _ & Hv & _ & ?)]; unfold ver in Hz1; [by rewrite Hn in Hz1|].
    rewrite Hv in Hz1. cbn in Hz1. rewrite int_of_string_of_int in Hz1. congruence. }
  destruct o as [m r']. symmetry in Ho.
  destruct (cas_script_met _ _ _ _ _ z1 _ _ Httl Hz1 Ho) as [(_ & -> & ->)|(Heq & -> & Hsw)].
  - exists Pending. split; [|by left]. left. by split; [apply same_of_redis|].
  - rewrite int_of_string_of_int in Heq. injection Heq as ->. exists (Took (z1 + 1) c').
    split; [|by right]. right; left. exists z1, c, c'. by split_and!; [|apply Hh| | | |].
Qed.

(** The script of a new cart: it never replaces one. *)
Lemma script_new c' ttl w1 o :
  0 < ttl → sound w1 → creates i r c' →
  o = Cart.cas_script k "0" (stringify c') (string_of_int ttl) (redis w1) →
  ∃ g', move r Pending w1 g' (set_redis o.2 w1).
Proof.
  intros Httl [[Hd Hv]|(t & z & Hd & Hv & _ & Hz)] Hc ->.
  - destruct (cas_script_swap k "0" (stringify c') ttl (redis w1) 0 Httl (or_introl Hv))
      as (n & _ & Hsw & Hn). exists (Took 1 c'). right; right; left. exists c'.
    by destruct Hn as [->| ->].
  - exists Pending. left. split; [|done]. apply same_of_redis. intros f.
    unfold Cart.cas_script. unfold version in Hv. rewrite Hv, int_of_string_of_int.
    rewrite decide_True; [done|]. intros [= ->]. by vm_compute in Hz.
Qed.

(** A key that is deleted while the cart stays is another one, or not there. *)
Lemma del_same key w :
  sound w → kept w (set_redis (rdel key (redis w)) w) → same k w (set_redis (rdel key (redis w)) w).
Proof.
  intros Hw Hkept. destruct (decide (key = k)) as [->|Hne].
  - destruct Hw as [[Hd Hv]|(t & z & Hd & _)].
    + split; unfold data, version; cbn [redis set_redis]; by rewrite hget_rdel_eq.
    + destruct Hkept as [t' Ht']; [by exists t|]. unfold data in Ht'. cbn [redis set_redis] in Ht'.
      by rewrite hget_rdel_eq in Ht'.
  - apply same_of_redis. intros f. by apply hget_rdel_ne.
Qed.

Lemma rg_del j (Q : unit → phase → world R → Prop) (T : exn → phase → world R → Prop) g w :
  cart_id j → (∀ w', rely k w w' → Q () g w') → (∀ e w', client_error e → T e g w') →
  rg r Q T (await (DEL (Cart.key j))) g w.
Proof.
  intros Hj HQ HT. apply rg_await. cbn [effect]. intros w1 res w2 Hr Hw _ He Hkept. exists g.
  assert (same k w1 w2) as Hs.
  { destruct He as [[_ ->]|(e & _ & _ & _ & [->| ->])]; [|done|]; by apply del_same. }
  split; [by left|]. assert (rely k w w2) by (eapply rely_trans; [exact Hr|by apply same_rely]).
  destruct He as [[-> _]|(e & -> & ? & _)]; auto.
Qed.
(** ** The handlers *)

Notation refusing := (λ e g _, refused e g).

Definition shown (c : CartLine) : jstr * Z := (l_sku c, l_quantity c).
Definition hydrated (l : Cart.HydratedLine) : jstr * Z := (Cart.h_sku l, Cart.h_quantity l).

Lemma degraded_lines_shown hl : ∀ s ls, Cart.degraded_lines s hl = Ok ls → map shown ls.1 = map hydrated hl.
Proof.
  induction hl as [|l hl IH]; intros s ls; cbn; [by intros [= <-]|].
  destruct (required _) as [u|]; [|done]. cbn.
  destruct (multiplyMoney _ _) as [t|]; [|done]. cbn. destruct (addMoney s t) as [s'|]; [|done]. cbn.
  destruct (Cart.degraded_lines s' hl) as [rest|] eqn:Hr; [|done]. cbn. intros [= <-]. cbn. by rewrite (IH _ _ Hr).
Qed.

Lemma priced_lines_shown cart priced hl :
  ∀ n ls, Cart.priced_lines n cart priced hl = Ok ls → map shown ls = map hydrated hl.
Proof.
  induction hl as [|l hl IH]; intros n ls; cbn; [by intros [= <-]|].
  destruct (p_lines priced) as [ps|]; [|done]. cbn [required mbind result_bind].
  destruct (lines cart !! n) as [st|]; [|done].
  destruct (Cart.priced_line l _ st) as [c|] eqn:Hc; [|done]. cbn.
  destruct (Cart.priced_lines (S n) cart priced hl) as [rest|] eqn:Hr; [|done]. cbn. intros [= <-].
  cbn. rewrite (IH _ _ Hr). f_equal. unfold Cart.priced_line in Hc.
  destruct (match mjoin (ps !! n) ≫= p_lineTotal with Some t => Ok t | None => _ end); [|discriminate Hc]. cbn [mbind result_bind] in Hc.
  destruct (required _); [|discriminate Hc]. by injection Hc as <-.
Qed.

Lemma hydrate_shown m ls :
  map hydrated (ls ≫= Cart.hydrate_line m) `sublist_of` map (λ l, (sku l, quantity l)) ls.
Proof.
  induction ls as [|l ls IH]; [constructor|]. rewrite bind_cons, map_app. unfold Cart.hydrate_line at 1.
  destruct (m !! sku l); cbn; by constructor.
Qed.

Lemma returns_lift {A} (P : A → Prop) (x : result jstr A) :
  (∀ a, x = Ok a → P a) → returns P (lift x).
Proof. destruct x; cbn; auto. Qed.

(** The answer priced from a cart shows that cart. *)
Lemma price_shows cart v : returns (λ a, shows a v cart) (Cart.price baseUrl cart v).
Proof.
  unfold Cart.price.
  apply (returns_bind (λ hl, map hydrated hl `sublist_of` map (λ l, (sku l, quantity l)) (lines cart))).
  { unfold Cart.hydrate. destruct (lines cart) as [|l ls] eqn:Hl; [constructor|]. rewrite <- Hl.
    apply (returns_bind (λ _, True)); [apply returns_any|]. intros vs _. apply hydrate_shown. }
  intros hl Hhl. apply (returns_bind (λ _, True)); [apply returns_any|]. intros [priced|] _.
  - apply (returns_bind (λ ls, map shown ls = map hydrated hl)).
    { apply returns_lift. intros ls. apply priced_lines_shown. }
    intros ls Hls. do 2 (apply (returns_bind (λ _, True)); [apply returns_any|]; intros ? _).
    apply (returns_bind (λ _, True)); [apply returns_any|]. intros now _.
    split_and!; [done..|]. cbn. unfold shown in Hls. by rewrite Hls.
  - unfold Cart.degradedCart. apply (returns_bind (λ ls, map shown ls.1 = map hydrated hl)).
    { apply returns_lift. intros ls. apply degraded_lines_shown. }
    intros ls Hls. apply (returns_bind (λ _, True)); [apply returns_any|]. intros now _.
    split_and!; [done..|]. cbn. unfold shown in Hls. by rewrite Hls.
Qed.

Lemma exec_returns {A} (P : A → Prop) (p : prog A) Q w a w' :
  returns P p → exec Q (effect (R := R)) p w (Ok a) w' → P a.
Proof.
  revert w. induction p as [b|e|C c f IH]; intros w Hp; cbn; [by intros [[= ->] _]|by intros [? _]|].
  intros (w1 & res & w2 & _ & _ & Hx). eapply IH; [apply Hp|exact Hx].
Qed.

Lemma rg_price cart v (Q : Cart → phase → world R → Prop) g w :
  (∀ c w', shows c v cart → Q c g w') → rg r Q refusing (Cart.price baseUrl cart v) g w.
Proof.
  intros HQ. apply rg_quiet; [apply quiet_price|]. intros [c|e] w' _ Hx.
  - apply HQ. exact (exec_returns (λ c, shows c v cart) _ _ _ _ _ (price_shows cart v) Hx).
  - eapply (throws_price (λ e, refused e g)); [by intros m|exact Hx].
Qed.

Lemma refused_client e g : e = NoFuel ∨ client_error e → refused e g.
Proof. by intros [->|[m ->]]. Qed.

Lemma rg_commit z c c' (Q : Cart → phase → world R → Prop) w :
  seen k c z w → changes i r z c c' →
  (∀ a w', shows a (Some (z + 1)) c' → Q a (Took (z + 1) c') w') →
  rg r Q refusing (Cart.commit baseUrl fuel i (Some z) c') Pending w.
Proof.
  intros Hs Hc HQ. unfold Cart.commit. apply rg_bind, rg_cas; [|by intros; apply refused_client].
  intros w1 o Hr Hw Ho.
  destruct (script_seen c c' z (Cart.ttlFor c') w1 o) as (g' & Hm & Hcase);
    [apply Cart.ttlFor_pos|by eapply seen_stable|done..|].
  exists g'. split; [done|]. destruct Hcase as [[-> ->]|(Hz & -> & ->)].
  - rewrite decide_True by done. apply rg_bind, rg_skip; [apply quiet_load|done|]. by intros [] ? ?.
  - rewrite decide_False by lia. apply rg_price. auto.
Qed.

Lemma rg_load_expecting z (Q : StoredCart * option Z → phase → world R → Prop) w :
  (∀ c w', seen k c z w' → Q (c, Some z) Pending w') →
  rg r Q refusing (Cart.load_expecting i z) Pending w.
Proof.
  intros HQ. unfold Cart.load_expecting. apply rg_bind, rg_load; [done| |by intros []].
  intros [[c v]|] w' _ Hl; [|exact I]. destruct Hl as [_ Hl]. destruct (Hl eq_refl) as (z' & -> & Hs).
  case_decide as Hd; [done|]. assert (z' = z) as -> by (destruct (decide (z' = z)); congruence).
  by apply HQ.
Qed.

(** Reading the clock and the catalogue. *)
Lemma rg_reading {A} (p : prog A) c z (Q : A → phase → world R → Prop) w :
  quiet k p → seen k c z w → (∀ a w', seen k c z w' → Q a Pending w') → rg r Q refusing p Pending w.
Proof.
  intros Hq Hs HQ. apply rg_skip; [done| |by intros []]. intros a w' Hr. apply HQ. by eapply seen_stable.
Qed.

(** A mutation of [i]: what it answers is the cart it wrote. *)
Definition wrote (z : Z) (a : Cart) (g : phase) (_ : world R) : Prop :=
  ∃ c, g = Took (z + 1) c ∧ shows a (Some (z + 1)) c.

Lemma rg_touch z c (F : Z → StoredCart) w :
  seen k c z w → (∀ t, changes i r z c (F t)) →
  rg r (wrote z) refusing (now ← await NOW; Cart.commit baseUrl fuel i (Some z) (F now)) Pending w.
Proof.
  intros Hs HF. apply rg_bind. eapply rg_reading; [by apply quiet_await|exact Hs|]. intros t w1 Hs1.
  eapply rg_commit; [done..|]. by eexists.
Qed.

Lemma rg_addLine s q z w :
  r = AddLine i s q z → rg r (wrote z) refusing (Cart.addLine baseUrl fuel i s q z) Pending w.
Proof.
  intros Hreq. unfold Cart.addLine. apply rg_bind, rg_load_expecting. intros c w1 Hs.
  apply rg_bind. eapply rg_reading; [apply quiet_getVariant|exact Hs|]. clear w w1 Hs.
  intros [product|] w Hs; [|exact I]. case_decide as Ha; [exact I|].
  destruct (existsb (Cart.has_sku s) (lines c)) eqn:He; [|destruct (Z.leb_spec MAX_LINES (Z.of_nat (length (lines c))))].
  - apply (rg_touch z c (λ t, Cart.touch t _)); [done|]. intros t. rewrite Hreq. split; [done|]. split; [done|].
    exists product, t, t. by rewrite He.
  - done.
  - destruct (v_price product) as [price|] eqn:Hp; [|exact I].
    apply rg_bind, (rg_bind _ (await NOW)). eapply rg_reading; [by apply quiet_await|exact Hs|]. intros t w1 Hs1.
    apply (rg_touch z c (λ t', Cart.touch t' _)); [done|]. intros t'. rewrite Hreq. split; [done|]. split; [done|].
    exists product, t, t'. rewrite He. eauto.
Qed.

Lemma rg_updateLine s q z w :
  r = UpdateLine i s q z → rg r (wrote z) refusing (Cart.updateLine baseUrl fuel i s q z) Pending w.
Proof.
  intros Hreq. unfold Cart.updateLine. apply rg_bind, rg_load_expecting. intros c w1 Hs.
  destruct (q =? 0) eqn:Hq; [|destruct (existsb (Cart.has_sku s) (lines c)) eqn:He; [|exact I]];
    (apply (rg_touch z c (λ t, Cart.touch t _)); [done|]; intros t; rewrite Hreq; split; [done|]; split; [done|];
     exists t; by rewrite Hq, ?He).
Qed.

Lemma rg_applyCoupon code z w :
  r = ApplyCoupon i code z → rg r (wrote z) refusing (Cart.applyCoupon baseUrl fuel i code z) Pending w.
Proof.
  intros Hreq. unfold Cart.applyCoupon. apply rg_bind, rg_load_expecting. intros c w1 Hs.
  apply (rg_touch z c (λ t, Cart.touch t _)); [done|]. intros t. rewrite Hreq. split; [done|]. split; [done|]. by exists t.
Qed.

Lemma rg_index u j ttl (Q : unit → phase → world R → Prop) g w :
  (∀ w', rely k w w' → Q () g w') → (∀ e, client_error e → refused e g) →
  rg r Q refusing (await (SET_EX (Cart.userIndex u) j ttl)) g w.
Proof.
  intros HQ HT. apply rg_quiet.
  - apply quiet_await. intros Hk. by eapply key_not_index.
  - intros [[]|e] w' Hr Hx; [by apply HQ|]. apply exec_await in Hx as (w1 & _ & He). cbn in He.
    destruct He as [[? _]|(e' & [= <-] & Hc & _)]; [done|by apply HT].
Qed.

Lemma client_refused g e : client_error e → refused e g.
Proof. by intros [m ->]. Qed.

Lemma rg_create u cur country w :
  (∀ t, creates i r (empty_cart i u cur country t)) →
  rg r (λ _ _ _, True) refusing (Cart.create baseUrl fuel u cur country) Pending w.
Proof.
  intros Hc. unfold Cart.create. apply rg_bind, rg_skip; [unfold Cart.ulid; quiet_walk| |by intros []].
  intros l w1 _. apply rg_bind, rg_skip; [by apply quiet_await| |by intros []]. intros t w2 _.
  set (c := {| id := _ |}). apply rg_bind, rg_cas; [|by intros; apply refused_client].
  intros w3 o _ Hw Ho. assert (∃ g', move r Pending w3 g' (set_redis o.2 w3)) as [g' Hm].
  { destruct (decide ("crt_" ++ l = i)) as [Heq|Hne].
    - rewrite Heq in Ho. eapply (script_new c); [apply Cart.ttlFor_pos|done| |exact Ho].
      subst c. rewrite Heq. apply Hc.
    - exists Pending. by eapply script_other. }
  exists g'. split; [done|]. apply rg_bind. destruct u as [uid|]; [|by apply rg_price].
  destruct (truthy_str uid); [|by apply rg_price].
  apply rg_index; [|apply client_refused]. intros w4 _. by apply rg_price.
Qed.

(** The swap of a merge, whichever cart it writes. *)
Lemma rg_merge_cas j v c c' ttl (Q : Z → phase → world R → Prop) w :
  0 < ttl → (j = i → ∃ z, v = Some z ∧ seen k c z w ∧ changes i r z c c') →
  (∀ m g' w', Q m g' w') →
  rg r Q refusing (Cart.cas fuel j v (stringify c') ttl) Pending w.
Proof.
  intros Httl Hc HQ. apply rg_cas; [|by intros; apply refused_client]. intros w1 o Hr Hw Ho.
  destruct (decide (j = i)) as [->|Hne].
  - destruct (Hc eq_refl) as (z & -> & Hs & Hch).
    edestruct (script_seen c c' z) as (g' & Hm & _); [done|by eapply seen_stable|done..|exact Ho|]. eauto.
  - exists Pending. split; [by eapply script_other|done].
Qed.

(** The cart of the user, if the index names one. *)
Lemma rg_existing o (Q : option (StoredCart * option Z) → phase → world R → Prop) w :
  (∀ j, o = Some j → cart_id j) →
  (∀ ex w', rely k w w' →
     match ex with Some (ec, _) => cart_id (id ec) ∧ loaded (id ec) ex w' | None => True end →
     Q ex Pending w') →
  rg r Q refusing (match o with Some j => if truthy_str j then Cart.load j else mret None | None => mret None end) Pending w.
Proof.
  intros Ho HQ. assert (Q None Pending w) as Hnone by (apply HQ; [apply rely_refl|done]).
  destruct o as [j|]; [|done]. destruct (truthy_str j); [|done].
  apply rg_load; [by apply Ho| |by intros []]. intros [[c v]|] w' Hr Hl; apply HQ; [done| |done..].
  destruct Hl as [[Hid Hg] Hs]. rewrite Hid. split; [by apply Ho|]. by split.
Qed.

Lemma rg_get_index u (Q : option jstr → phase → world R → Prop) w :
  (∀ o w', rely k w w' → (∀ j, o = Some j → cart_id j) → Q o Pending w') →
  rg r Q refusing (await (GET (Cart.userIndex u))) Pending w.
Proof.
  intros HQ. apply rg_await. cbn [effect]. intros w1 res w2 Hr _ [_ Hidx] He _. exists Pending.
  assert (same k w1 w2) as Hs by by eapply answers_same. split; [by left|].
  destruct He as [[-> _]|(e & -> & Hc & _)]; [|by apply client_refused].
  apply HQ; [eapply rely_trans; [exact Hr|by apply same_rely]|apply Hidx].
Qed.

Lemma rg_merge a u w :
  r = Merge a u → cart_id a → rg r (λ _ _ _, True) refusing (Cart.merge baseUrl fuel a u) Pending w.
Proof.
  intros Hreq Ha. unfold Cart.merge. apply rg_bind, rg_load; [done| |by intros []].
  intros anon w1 _ Hanon. apply rg_bind, rg_get_index. intros o w2 Hr2 Ho.
  apply rg_bind, rg_existing; [done|]. intros ex w3 Hr3 Hex.
  assert (loaded a anon w3) as Hanon' by (eapply loaded_stable; [exact Hr3|by eapply loaded_stable]).
  destruct ex as [[ec ev]|]; destruct anon as [[ac av]|].
  - destruct Hex as [Hidc [_ Hseen]]. destruct Hanon' as [Hac _].
    apply rg_bind, rg_skip; [by apply quiet_await| |by intros []]. intros t w4 Hr4.
    apply rg_bind, (rg_merge_cas _ _ ec); [done| |].
    + intros Hj. destruct (Hseen Hj) as (z & -> & Hs). exists z. split; [done|]. split; [by eapply seen_stable|].
      rewrite Hreq. right. by exists ac, t.
    + intros m g' w5. apply rg_bind, rg_del; [done| |by intros; apply client_refused].
      intros w6 _. by apply rg_price.
  - by apply rg_price.
  - destruct Hanon' as [[Hid _] Hseen]. apply rg_bind, (rg_merge_cas _ _ ac); [done| |].
    + cbn [id Cart.with_userId]. rewrite Hid. intros Hj. destruct (Hseen Hj) as (z & -> & Hs).
      exists z. split; [done|]. split; [done|]. rewrite Hreq. by left.
    + intros m g' w5. apply rg_bind, rg_index; [|apply client_refused]. intros w6 _. by apply rg_price.
  - apply rg_create. intros t. rewrite Hreq. by exists t.
Qed.

(** A request for another cart leaves this one alone. *)
Lemma quiet_cas n j v payload ttl : j ≠ i → quiet k (Cart.cas n j v payload ttl).
Proof.
  intros Hj. induction n as [|n IH]; cbn [Cart.cas]; [done|].
  apply quiet_bind; [apply quiet_local|]. intros sha0.
  apply quiet_bind; [quiet_walk|]. intros []. apply quiet_bind; [apply quiet_local|]. intros sha.
  apply quiet_try.
  - apply quiet_await. by intros ?%key_inj.
  - intros e. destruct (Cart.is_noscript e); [|done]. apply quiet_bind; [apply quiet_local|]. by intros [].
Qed.
#[local] Hint Resolve quiet_cas : quiet.

Lemma quiet_commit j v c : j ≠ i → quiet k (Cart.commit baseUrl fuel j v c).
Proof. intros Hj. unfold Cart.commit. quiet_walk. Qed.
#[local] Hint Resolve quiet_commit : quiet.

Lemma quiet_mutations j s q z code :
  j ≠ i →
  quiet k (Cart.addLine baseUrl fuel j s q z) ∧ quiet k (Cart.updateLine baseUrl fuel j s q z) ∧
  quiet k (Cart.applyCoupon baseUrl fuel j code z).
Proof.
  intros Hj. unfold Cart.addLine, Cart.updateLine, Cart.applyCoupon, Cart.load_expecting.
  split_and!; quiet_walk.
Qed.

Lemma quiet_get j : quiet k (Cart.get baseUrl j).
Proof. unfold Cart.get. quiet_walk. Qed.

(** Every request keeps to its moves. *)
Notation keeps p w := (rg r (λ a g _, answered i r a g) refusing p Pending w).

Lemma rg_some (p : prog Cart) (Q : Cart → phase → world R → Prop) w :
  (∀ a g w', Q a g w' → answered i r (Some a) g) →
  rg r Q refusing p Pending w → keeps (c ← p; mret (Some c)) w.
Proof. intros HQ Hp. apply rg_bind. eapply rg_weaken; [exact Hp|]. intros a g w'. apply HQ. Qed.

Lemma rg_mutation j z (p : prog Cart) w :
  (∀ a g, answered i r a g ↔
     (j = i → ∃ c a', g = Took (z + 1) c ∧ a = Some a' ∧ shows a' (Some (z + 1)) c)) →
  (j ≠ i → quiet k p) → (j = i → rg r (wrote z) refusing p Pending w) →
  keeps (c ← p; mret (Some c)) w.
Proof.
  intros Ha Hq Hp. destruct (decide (j = i)) as [Heq|Hne].
  - eapply rg_some; [|by apply Hp]. intros a g w' (c & -> & Hc). apply Ha. eauto.
  - apply (rg_some _ (λ _ _ _, True)); [|apply rg_skip; [auto|done|by intros []]].
    intros a g w' _. by apply Ha.
Qed.

Lemma rg_get w : r = Get i → keeps (Cart.get baseUrl i) w.
Proof.
  intros Hreq. unfold Cart.get. apply rg_bind, (rg_load_mark i (λ w, Saw (cell_of w))); [done| | |].
  - intros w1 w2 Hs. right; right; right. done.
  - intros o w1 w2 _ _ Hread. specialize (Hread eq_refl). destruct o as [[c v]|]; cbn in Hread.
    + destruct Hread as (z & t & Hcell & Hp & ->). apply rg_bind, rg_price. intros a w3 Ha.
      change (answered i r (Some a) (Saw (cell_of w1))). rewrite Hreq. intros _.
      exists (cell_of w1). split; [done|]. by exists z, t, c.
    + change (answered i r None (Saw (cell_of w1))). rewrite Hreq. intros _. by exists (cell_of w1).
  - intros e w1 w2. apply client_refused.
Qed.

Lemma rg_handle w : valid r → keeps (handle baseUrl fuel r) w.
Proof.
  destruct r as [j|u cur country|j s q z|j s q z|j code z|a u] eqn:Hreq; intros Hv; unfold handle.
  - rewrite <- Hreq. destruct (decide (j = i)) as [->|Hne]; [by apply rg_get|].
    apply rg_skip; [apply quiet_get| |by intros []]. intros o w' _. by rewrite Hreq; intros ?.
  - rewrite <- Hreq. eapply rg_some; [|apply rg_create; intros t; rewrite Hreq; by exists t].
    intros c g w' _. by rewrite Hreq.
  - rewrite <- Hreq. apply (rg_mutation j z); [by rewrite Hreq|by intros Hj; apply quiet_mutations|].
    intros ->. by apply rg_addLine.
  - rewrite <- Hreq. apply (rg_mutation j z); [by rewrite Hreq|by intros Hj; apply quiet_mutations|].
    intros ->. by apply rg_updateLine.
  - rewrite <- Hreq. apply (rg_mutation j z); [by rewrite Hreq|by intros Hj; apply quiet_mutations|].
    intros ->. by apply rg_applyCoupon.
  - rewrite <- Hreq. eapply rg_some; [|by apply rg_merge]. intros c g w' _. by rewrite Hreq.
Qed.
End Commands.

(** ** The simulation *)

Section Simulation.
Context (codec_shape : ∀ c c', parse (stringify c) = Some c' →
  id c' = id c ∧
  map (λ l, (sku l, quantity l)) (lines c') = map (λ l, (sku l, quantity l)) (lines c)).
Context (Hi : cart_id i).

Definition on_course (cl : request * phase) (p : prog (option Cart)) w : Prop :=
  rg cl.1 (λ a g _, answered i cl.1 a g) (λ e g _, refused e g) p cl.2 w.

Definition simulates (x : spec) (s : state) : Prop :=
  cell x = cell_of (shared s) ∧ sound (shared s) ∧ safe_state s ∧
  Forall2 (λ cl p, on_course cl p (shared s)) (clients x) (threads s).

Lemma spec_move x n req g g' w w' :
  clients x !! n = Some (req, g) → cell x = cell_of w → sound w → move req g w g' w' →
  rtc (spec_step i) x {| cell := cell_of w'; clients := <[n := (req, g')]> (clients x) |}.
Proof.
  intros Hn Hc Hw [[Hs ->]|[(z & c & c' & -> & [Hd Hv] & Hch & Hsw & _ & ->)|
    [(c' & -> & Hd & Hv & Hcr & Hsw & ->)|(Hs & -> & -> & ->)]]].
  - rewrite (same_cell w w') by done. rewrite <- Hc, list_insert_id by done. by destruct x.
  - pose proof (swapped_ver _ _ _ Hsw) as Hv'. destruct Hsw as [Hd' _].
    assert (cell_of w' = Some (z + 1, stringify c')) as -> by (unfold cell_of, data; by rewrite Hv', Hd').
    destruct (data k w) as [t|] eqn:Ht; [|done]. apply rtc_once. eapply spec_change; [done| |exact Hd|done].
    rewrite Hc. unfold cell_of. by rewrite Ht, Hv.
  - pose proof (swapped_ver _ _ _ Hsw) as Hv'. destruct Hsw as [Hd' _].
    assert (cell_of w' = Some (1, stringify c')) as -> by (unfold cell_of, data; by rewrite Hv', Hd').
    apply rtc_once. eapply spec_create; [done| |done]. rewrite Hc. unfold cell_of. by rewrite Hd.
  - rewrite (same_cell w w') by done. rewrite <- Hc. apply rtc_once. by apply spec_read.
Qed.

Lemma on_course_rely cls ts w w' :
  rely k w w' → Forall2 (λ cl p, on_course cl p w) cls ts → Forall2 (λ cl p, on_course cl p w') cls ts.
Proof. intros Hr Hcl. eapply Forall2_impl; [exact Hcl|]. intros cl p. by apply rg_rely. Qed.

Lemma run_simulates rs s s' :
  run rs s s' → threads s = [] → Inv (shared s) → sound (shared s) →
  ∃ x, rtc (spec_step i) {| cell := cell_of (shared s); clients := [] |} x ∧ simulates x s' ∧ map fst (clients x) = rs.
Proof.
  intros Hrun Hts Hinv Hsound.
  induction Hrun as [s|rs s s' req Hrun IH Hv|rs s s' n p p' w' Hrun IH Hn Ha Hk|rs s s' key Hrun IH Hk].
  - eexists. split; [done|]. split; [|done]. split; [done|]. split; [done|].
    split; [split; [done|]|]; rewrite Hts; constructor.
  - destruct (IH Hts Hinv Hsound) as (x & Hx & (Hc & Hw & Hsafe & Hcl) & <-).
    exists {| cell := cell x; clients := clients x ++ [(req, Pending)] |}.
    split; [eapply rtc_r; [exact Hx|by apply spec_arrive]|]. split; [|by cbn; rewrite map_app].
    split; [done|]. split; [done|]. split.
    + eapply (step_safe baseUrl fuel codec_shape); [|exact Hsafe]. destruct s'. by apply step_arrive.
    + cbn. apply Forall2_app; [done|]. constructor; [|constructor]. by apply rg_handle.
  - destruct (IH Hts Hinv Hsound) as (x & Hx & (Hc & Hw & Hsafe & Hcl) & <-).
    destruct (Forall2_lookup_r _ _ _ _ _ Hcl Hn) as ([req g] & Hcn & Hp).
    destruct p as [a|e|B c f]; [done..|]. destruct Ha as (res & He & ->).
    destruct (Hp (shared s') res w' (rely_refl _ _) Hw (proj1 Hsafe) He Hk) as (g' & Hm & Hp').
    eexists. split; [etransitivity; [exact Hx|by eapply spec_move]|].
    split; [|cbn [clients]; by rewrite list_fmap_insert, list_insert_id; [|rewrite list_lookup_fmap, Hcn]].
    split; [done|]. split; [by eapply move_sound|]. split.
    + eapply (step_safe baseUrl fuel codec_shape); [|exact Hsafe]. destruct s'. eapply step_advance; [done|by exists res].
    + apply Forall2_insert; [|exact Hp']. eapply on_course_rely; [by eapply move_rely|done].
  - destruct (IH Hts Hinv Hsound) as (x & Hx & (Hc & Hw & Hsafe & Hcl) & <-).
    pose proof (del_same key (shared s') Hw Hk) as Hs.
    exists x. split; [done|]. split; [|done]. split; [by rewrite same_cell with (w := shared s')|].
    split; [by eapply same_sound|]. split.
    + eapply (step_safe baseUrl fuel codec_shape); [|exact Hsafe]. destruct s'. apply step_expire.
    + eapply on_course_rely; [by apply same_rely|done].
Qed.

(** C1. Carts are atomic objects: however the commands of any requests
    interleave, whatever Redis rejects and whatever the catalogue and the engine
    answer, a run in which the cart does not vanish is a run of the contract.
    Each request took effect on the cart at most once, in one step, on the
    version and document then stored; a mutation that was answered did take
    effect, on exactly the version its client sent, and its answer shows the cart
    it wrote; one refused as stale or full did not; and a read shows the cart
    that was stored at one point of its run. *)
Theorem carts_are_atomic rs s s' :
  threads s = [] → Inv (shared s) → sound (shared s) → run rs s s' →
  ∃ x, rtc (spec_step i) {| cell := cell_of (shared s); clients := [] |} x ∧
    cell x = cell_of (shared s') ∧ map fst (clients x) = rs ∧
    ∀ n p, threads s' !! n = Some p → ∃ req g, clients x !! n = Some (req, g) ∧
      match p with Ret a => answered i req a g | Throw e => refused e g | Await _ _ => True end.
Proof.
  intros Hts Hinv Hsound Hrun. destruct (run_simulates rs s s' Hrun Hts Hinv Hsound) as (x & Hx & (Hc & _ & _ & Hcl) & Hrs).
  exists x. split_and!; [done..|]. intros n p Hn.
  destruct (Forall2_lookup_r _ _ _ _ _ Hcl Hn) as ([req g] & Hcn & Hp). exists req, g. split; [done|].
  by destruct p.
Qed.
End Simulation.
End Linear.
End Linear.
