(* ===== verification/CartHttp.v ===== *)
(** * What the HTTP surface of cart-service guarantees

    Only validated requests reach the cart service, every request is answered,
    failures are problem documents, minted identifiers are accepted, and a cart
    is answered as the contract says ([Conform]: what peers that keep the
    contract make [Cart.price] return). *)
From Stdlib Require Import QArith Qround.
From S2P Require Import Prelude JsNumber JsString JsDate Regex Zod Schemas Primitives Events Api.
From S2P Require Import Contracts.
From S2P Require Import Prog CircuitBreaker Redis CartTypes CartPeers Cart.
From S2P Require Import CartRoutes CartLines CartJson CartWorld CartPricing CartSystem.
Local Open Scope js_scope.
Local Open Scope Z_scope.

Module CartHttp.
Import Schemas.Schemas.
Import CartRoutes.CartRoutes.

Section Http.
Context `{Zod}.

Notation meaning := (interp is_email is_url is_uuid).

(** ** Requests *)

(** The call of a route, as a request to the cart service. *)
Definition request_of (c : call) : System.request :=
  match c with
  | Get i => System.Get i
  | Create u cur cc => System.Create u cur cc
  | AddLine i s q v => System.AddLine i s q v
  | UpdateLine i s q v => System.UpdateLine i s q v
  | ApplyCoupon i code v => System.ApplyCoupon i code v
  | Merge i u => System.Merge i u
  end.

(** [n] capital letters. *)
Definition capitals (n : nat) (s : jstr) : Prop := length s = n ∧ Forall (λ c, between 65 90 c = true) s.

(** What a validated request looks like, beyond what the cart service needs. *)
Definition well_formed (c : call) : Prop :=
  System.valid (request_of c) ∧
  match c with
  | Get i => Contracts.id_form "crt" i
  | AddLine i s q v => Contracts.id_form "crt" i ∧ Contracts.id_form "sku" s ∧ 1 <= q <= 99 ∧ 0 <= v
  | UpdateLine i s q v => Contracts.id_form "crt" i ∧ Contracts.id_form "sku" s ∧ 0 <= q <= 99 ∧ 0 <= v
  | ApplyCoupon i code v => Contracts.id_form "crt" i ∧ (length code ≤ 50)%nat ∧ 0 <= v
  | Create _ cur cc => capitals 3 cur ∧ capitals 2 cc
  | Merge i _ => Contracts.id_form "crt" i
  end.

Lemma parsed_form p v w : meaning (prefixedId p) v = Some w → Contracts.id_form p (the_string w).
Proof. by intros [-> (s & -> & Hs)%Contracts.accepts_id]%Contracts.parsed_id. Qed.

Lemma parsed_cart_id v w :
  meaning CartId v = Some w → System.cart_id (the_string w) ∧ Contracts.id_form "crt" (the_string w).
Proof.
  intros Hw%parsed_form. split; [|done]. by destruct Hw as (u & -> & _).
Qed.

Lemma parsed_int cs v w :
  meaning (ZNumber (NInt :: cs)) v = Some w →
  ∃ q z, w = VNum (Fin q) ∧ the_integer w = z ∧ (q == inject_Z z)%Q ∧
         forallb (check_number (Fin q)) cs = true.
Proof. intros (_ & q & -> & Hq & Hc)%parsed_integer. by exists q, (Qfloor q). 
Qed.

Lemma parsed_min a v w : meaning (int_min a) v = Some w → a <= the_integer w.
Proof.
  intros (q & z & -> & <- & Hq & Hc)%parsed_int. cbn [forallb check_number] in Hc.
  apply andb_true_iff in Hc as [Hc _]. by eapply nle_int_min.
Qed.

Lemma parsed_between a b v w :
  meaning (int_between a b) v = Some w → a <= the_integer w <= b.
Proof.
  intros (q & z & -> & <- & Hq & Hc)%parsed_int. cbn [forallb check_number] in Hc.
  apply andb_true_iff in Hc as [Ha [Hb _]%andb_true_iff].
  split; [by eapply nle_int_min|by eapply nle_int_max].
Qed.

Lemma parsed_upper n v w d :
  meaning (ZDefault (ZString [SRegex (rep n upper)]) (VStr d)) v = Some w → length d = n →
  capitals n (the_string w).
Proof.
  intros Hw Hd. cbn in Hw.
  assert (∀ t, (if matches (rep n upper) t && true then Some (VStr t) else None) = Some w →
    capitals n (the_string w)) as Hm.
  { intros t Ht. destruct (matches _ t) eqn:Hm; cbn in Ht; [|done]. injection Ht as <-.
    by apply matches_lang, lang_rep_chr in Hm. }
  destruct v; try done; by eapply Hm.
Qed.

Lemma parsed_coupon v w :
  meaning (ZTransform (ZString [SMin 1; SMax 50]) Api.normalise_coupon) v = Some w →
  (length (the_string w) ≤ 50)%nat.
Proof.
  intros Hw. change ((x ← meaning (ZString [SMin 1; SMax 50]) v; Some (Api.normalise_coupon x)) = Some w) in Hw.
  cbn -[Nat.leb] in Hw. destruct v as [| | | |t| |]; try done.
  destruct (1 <=? length t)%nat; [|done]. destruct (Nat.leb_spec (length t) 50) as [Hl|]; [|done].
  cbn in Hw. injection Hw as <-. cbn. unfold toUpperCase. rewrite length_map.
  pose proof (trim_length t). lia.
Qed.

Lemma AddBody_fields : AddBody =
  obj [("sku", Sku); ("quantity", int_between 1 99); ("version", int_min 0)].
Proof. reflexivity. Qed.

Lemma CouponBody_fields : CouponBody =
  obj [("code", ZTransform (ZString [SMin 1; SMax 50]) Api.normalise_coupon); ("version", int_min 0)].
Proof. reflexivity. Qed.


(** ** Problem documents *)

Lemma classify_code e : (classify e).1.2 ∈ ERROR_CODES ∧
  In (classify e).1.1 [404; 409; 422; 500] ∧
  ((classify e).1.1 = 500 → (classify e).2 = "The request could not be completed.").
Proof.
  unfold classify. destruct e; cbn -[In ERROR_CODES]; repeat case_decide; cbn -[In ERROR_CODES];
    (split; [by apply (bool_decide_unpack _); vm_compute|split; [cbn; auto|done]]).
Qed.

(** C10. Every failure is answered with a document the storefront's contract accepts:
    whatever the error, its code is registered, its status is 404, 409, 422 or
    500, a 500 never carries the cause, and both kinds of document (an error, and
    the issues of a refused request) satisfy [ProblemDetails]. *)
Theorem problem_documents_conform requestId now e issues :
  clock_ok now →
  accepts ProblemDetails (error_document requestId now e).2 ∧
  accepts ProblemDetails (validation_document requestId now issues).2 ∧
  (classify e).1.2 ∈ ERROR_CODES ∧ In (classify e).1.1 [404; 409; 422; 500] ∧
  ((classify e).1.1 = 500 → (classify e).2 = "The request could not be completed.").
Proof.
  intros Hn. destruct (classify_code e) as (Hc & Hs & H5). split_and!; [..|done|done|done].
  - unfold error_document. destruct (classify e) as [[st code] detail]. cbn [fst snd] in *.
    assert (100 <= st <= 599) as Hst by (cbn in Hs; lia).
    apply accepts_obj; [|reflexivity].
    repeat (apply Forall_cons; split); try apply accepts_any_string;
      try apply accepts_optional_absent; try (apply accepts_optional, accepts_any_string).
    + by apply accepts_status.
    + by apply accepts_code.
    + by apply accepts_timestamp.
    + constructor.
  - apply accepts_obj; [|reflexivity].
    repeat (apply Forall_cons; split); try apply accepts_any_string; try apply accepts_optional_absent.
    + by apply accepts_status.
    + apply accepts_code. by apply (bool_decide_unpack _); vm_compute.
    + by apply accepts_timestamp.
    + apply accepts_optional, accepts_array; [|done]. apply Forall_map, Forall_true. intros i.
      apply accepts_obj; [|reflexivity]. repeat (apply Forall_cons; split); try apply accepts_any_string.
      constructor.
    + constructor.
Qed.

(** A request over the limit: the document built for it satisfies the contract,
    with the status 429 and a code of the registry.  But when the limiter throws
    what it built, as its documentation says, the error handler, which knows it
    by no message, answers 500 instead. *)
Lemma limited_requests_are_answered_500 requestId now ttl :
  clock_ok now →
  accepts ProblemDetails (rate_limited requestId now ttl) ∧
  prop "status" (rate_limited requestId now ttl) = vint 429 ∧
  foreign_document requestId now (rate_limited requestId now ttl) =
    (500, problem requestId now 500 "INTERNAL_ERROR" "The request could not be completed.").
Proof.
  intros Hn. split; [|by split]. apply accepts_obj; [|reflexivity].
  repeat (apply Forall_cons; split); try apply accepts_any_string;
    try apply accepts_optional_absent; try (apply accepts_optional, accepts_any_string).
  - by apply accepts_status.
  - apply accepts_code. by apply (bool_decide_unpack _); vm_compute.
  - by apply accepts_timestamp.
  - constructor.
Qed.

(** The one failure that is not a problem document: the 404 of
    [GET /v1/carts/:cartId] lacks a type, a title and a timestamp, and the
    contract of the storefront refuses it. *)
Theorem missing_cart_is_refused requestId :
  (missing_cart requestId).1 = 404 ∧ ¬ accepts ProblemDetails (missing_cart requestId).2.
Proof.
  split; [done|]. intros (kvs & [= <-] & Hf & _)%accepts_object.
  specialize (Hf "type" str (or_introl eq_refl)). apply accepts_string in Hf as (t & Ht & _).
  vm_compute in Ht. done.
Qed.

(** The cart a lost merge answers with is refused by the contract as well: its
    version is -1, and a cart's version is never negative. *)
Theorem negative_version_is_refused c v :
  k_version c = Some v → v < 0 → ¬ accepts Api.Cart (cart_value c).
Proof.
  intros Hv Hlt (kvs & Hk & Hf & _)%accepts_object.
  specialize (Hf "version" (int_min 0) ltac:(cbn; tauto)).
  change (prop "version" (cart_value c)) with
    (match k_version c with Some v => vint v | None => VNull end) in Hf.
  rewrite Hv in Hf. apply accepts_number in Hf as (x & [= <-] & _ & Hc).
  cbn [forallb check_number] in Hc. apply andb_true_iff in Hc as [_ [Hc _]%andb_true_iff].
  unfold jint in Hc. rewrite nle_Fin in Hc. apply Qle_bool_iff in Hc. rewrite <- Zle_Qle in Hc. lia.
Qed.

(** ** Identifiers *)

Lemma crockford_is_ulid c : c ∈ Cart.CROCKFORD → ulid_unit c = true.
Proof.
  assert (forallb ulid_unit Cart.CROCKFORD = true) as Hall by reflexivity.
  rewrite forallb_forall in Hall. rewrite list_elem_of_In. apply Hall.
Qed.

(** The identifiers cart-service mints are the ones the contract accepts: the
    id of a created cart is a valid [CartId], and no other kind of identifier. *)
Theorem minted_ids_accepted ts bytes prefix :
  length bytes = 16%nat → length prefix = 3%nat →
  accepts (prefixedId prefix) (VStr ("crt_" ++ Cart.ulid_of ts bytes)) ↔ prefix = "crt".
Proof.
  intros Hb Hp.
  assert (accepts CartId (VStr ("crt_" ++ Cart.ulid_of ts bytes))) as Ha.
  { apply Contracts.accepts_id. eexists. split; [done|]. exists (Cart.ulid_of ts bytes). split; [done|].
    split; [by apply ulid_length|]. unfold Cart.ulid_of. apply Forall_app. split.
    - apply Forall_rev. eapply Forall_impl; [apply ulid_time_elem|]. apply crockford_is_ulid.
    - apply Forall_map, Forall_true. intros b. apply crockford_is_ulid, crockford_elem, N.mod_lt. lia. }
  split; [|by intros ->]. intros (s & [= Heq] & u & -> & _)%Contracts.accepts_id.
  destruct prefix as [|a [|b [|c [|? ?]]]]; try done. cbn in Heq. by injection Heq as <- <- <- _.
Qed.

(** ** Every request is answered *)

Section Serve.
Context `{RedisServer R} `{JsonCodec StoredCart} (baseUrl : jstr) (fuel : nat).

Definition served (requestId : jstr) (out : Z * jsval) : Prop :=
  (∃ c, out = (200, cart_value c) ∨ out = (201, cart_value c)) ∨ out = missing_cart requestId.
Definition failed (requestId : jstr) (out : Z * jsval) : Prop :=
  (∃ e t, out = error_document requestId t e) ∨ (∃ issues t, out = validation_document requestId t issues).

Lemma handle_served requestId c (Q : world R → world R → Prop) w out w' :
  exec Q effect (handle baseUrl fuel requestId c) w (Ok out) w' → served requestId out.
Proof.
  assert (∀ (p : prog CartTypes.Cart) w, exec Q effect (c ← p; mret (200, cart_value c)) w (Ok out) w' →
    served requestId out) as Hreply.
  { intros p w0 [(k & w1 & _ & [Hr _])|(e & ? & _)]%exec_mbind; [|done].
    injection Hr as ->. left. exists k. by left. }
  destruct c; unfold handle; try apply Hreply.
  - intros [(o & w1 & _ & Hx)|(e & ? & _)]%exec_mbind; [|done]. destruct o as [k|].
    + apply exec_mbind in Hx as [([] & w2 & _ & [Hr _])|(e & ? & _)]; [|done].
      injection Hr as ->. left. exists k. by left.
    + destruct Hx as [Hr _]. injection Hr as ->. by right.
  - intros [(k & w1 & _ & Hx)|(e & ? & _)]%exec_mbind; [|done].
    apply exec_mbind in Hx as [([] & w2 & _ & [Hr _])|(e & ? & _)]; [|done].
    injection Hr as ->. left. exists k. by right.
Qed.

(** Every request is answered, whatever happens to it: no error escapes a
    route.  The answer is a cart, or the 404 of a missing cart, or a document of
    the error handler; and a request refused by validation touches nothing. *)
Theorem every_request_is_answered r requestId header params body (Q : world R → world R → Prop) w res w' :
  exec Q effect (serve baseUrl fuel r requestId header params body) w res w' →
  ∃ out, res = Ok out ∧ (served requestId out ∨ failed requestId out) ∧
    (is_ok (dispatch r header params body) = false → (∀ a b, Q a b → a = b) →
     w' = w ∧ out.1 = 422).
Proof.
  unfold serve. destruct (dispatch r header params body) as [c|issues]; cbn [is_ok].
  - intros [(out & -> & Hx)|(e & w1 & _ & Hx)]%exec_try.
    + exists out. split; [done|]. split; [|done]. left. by eapply handle_served.
    + apply exec_mbind in Hx as [([] & w2 & _ & Hx)|(e' & _ & Hx)].
      * apply exec_mbind in Hx as [(t & w3 & _ & [-> _])|(e' & _ & Hx)].
        -- eexists. split; [done|]. split; [|done]. right. left. eauto.
        -- by apply (throws_now (λ _, False)) in Hx.
      * exfalso. destruct e; try (by destruct Hx as [? _]). by apply (throws_inc (λ _, False)) in Hx.
  - intros [(t & w1 & Hn & [-> ->])|(e' & _ & Hx)]%exec_mbind.
    + eexists. split; [done|]. split; [right; right; eauto|]. intros _ HQ. split; [|done].
      apply exec_await in Hn as (w2 & Hq & Hn & _). apply HQ in Hq. by subst.
    + by apply (throws_now (λ _, False)) in Hx.
Qed.
End Serve.

(** ** What is answered is what the contract says *)

Section Conform.
Context (baseUrl : jstr).

Definition currency_ok (c : jstr) : Prop := lang (rep 3 upper) c.
Definition money_ok (m : Primitives.Money) : Prop := accepts Schemas.Money (money_value m).
Definition image_ok (o : option jstr) : Prop := accepts (ZNullable (ZString [SUrl])) (opt_str o).

(** A price in whole minor units, of which 100 lines of 99 add up exactly. *)
Definition list_price (m : Primitives.Money) : Prop :=
  ∃ p c, m = minor p c ∧ 0 <= p < 2 ^ 39 ∧ currency_ok c.

(** What the catalogue sells, and what the engine computes, when they keep the
    contract too. *)
Definition variant_ok (v : Variant) : Prop :=
  accepts Sku (VStr (v_sku v)) ∧ accepts ProductId (VStr (v_productId v)) ∧ image_ok (v_image v) ∧
  ∀ m, v_price v = Some m → list_price m.

Definition priced_ok (p : PricedCart) : Prop :=
  (∀ ls l m, p_lines p = Some ls → Some l ∈ ls →
     unitEffectivePrice l = Some m ∨ CartTypes.p_lineTotal l = Some m → money_ok m) ∧
  Forall money_ok [p_subtotal p; p_discountTotal p; p_shippingTotal p; p_taxTotal p; p_grandTotal p] ∧
  (∀ ps a, appliedPromotions p = Some ps → Some a ∈ ps → money_ok (promo_discount a)).

(** A time at which the dates of a cart can be written. *)
Definition expressible (t : Z) : Prop := clock_ok (t + CART_TTL_SECONDS * 1000) ∧ 0 <= t.

Notation conforms := (CartPricing.conforms variant_ok priced_ok expressible (λ _, True)).

(** *** Money *)

Lemma currency_upper c : currency_ok c → accepts CurrencyCode (VStr c).
Proof. intros Hc. apply accepts_regex. by exists c. Qed.

Lemma money_minor z c : Z.abs z < 2 ^ 53 → currency_ok c → money_ok (minor z c).
Proof.
  intros Hz Hc. apply accepts_fields; [by apply (bool_decide_unpack _); vm_compute|].
  repeat constructor; cbn.
  - apply accepts_number. exists (jint z). split; [done|]. split; [done|].
    cbn [forallb check_number]. rewrite is_integer_jint. unfold jint, is_safe_integer. rewrite Qfloor_Z.
    rewrite (proj2 (Qeq_bool_iff _ _)) by reflexivity. destruct (Z.leb_spec (Z.abs z) (2 ^ 53 - 1)); [done|lia].
  - by apply currency_upper.
Qed.

Lemma money_zero c : currency_ok c → money_ok (zeroMoney c).
Proof. apply (money_minor 0). lia. Qed.

(** *** Lines *)

Definition hydrated_ok (h : Cart.HydratedLine) : Prop :=
  accepts Sku (VStr (Cart.h_sku h)) ∧ accepts ProductId (VStr (Cart.h_productId h)) ∧
  image_ok (Cart.h_image h) ∧ (∀ m, Cart.h_unitPrice h = Some m → list_price m) ∧ quantity_ok (Cart.h_quantity h).

Definition line_ok (l : CartLine) : Prop := accepts Api.CartLine (line_value l).

Lemma line_accepted h unit total b :
  hydrated_ok h → money_ok unit → money_ok total →
  line_ok {| l_sku := Cart.h_sku h; l_productId := Cart.h_productId h; l_title := Cart.h_title h;
             l_image := Cart.h_image h; l_quantity := Cart.h_quantity h; l_unitPrice := unit;
             l_lineTotal := total; l_priceChanged := b |}.
Proof.
  intros (Hs & Hp & Hi & _ & Hq) Hu Ht. apply accepts_fields; [by apply (bool_decide_unpack _); vm_compute|].
  repeat (apply Forall2_cons; split; [split; [done|]|]); [..|constructor]; try done.
  - apply accepts_any_string.
  - by apply accepts_int_between.
  - apply accepts_meaning. by eexists.
Qed.

Lemma list_price_ok m : list_price m → money_ok m.
Proof. intros (p & c & -> & Hp & Hc). apply money_minor; [lia|done]. Qed.

(** A line at list price comes to at most 2^46 minor units. *)
Lemma line_total h m :
  hydrated_ok h → Cart.h_unitPrice h = Some m →
  ∃ t c, multiplyMoney m (jint (Cart.h_quantity h)) = Ok (minor t c) ∧ 0 <= t < 2 ^ 46 ∧ currency_ok c.
Proof.
  intros (_ & _ & _ & Hm & Hq) Hu. destruct (Hm m Hu) as (p & c & -> & Hp & Hc). unfold quantity_ok, MAX_QTY_PER_LINE in Hq.
  assert (0 <= p * Cart.h_quantity h < 2 ^ 46) as Ht by nia.
  exists (p * Cart.h_quantity h), c. rewrite multiplyMoney_minor by lia. done.
Qed.

Lemma degraded_lines_conform hl : Forall hydrated_ok hl → ∀ z c r,
  currency_ok c → 0 <= z → z + Z.of_nat (length hl) * 2 ^ 46 < 2 ^ 53 →
  Cart.degraded_lines (minor z c) hl = Ok r → Forall line_ok r.1 ∧ money_ok r.2.
Proof.
  induction 1 as [|h hl Hh _ IH]; intros z c r Hc Hz Hb; cbn [Cart.degraded_lines].
  - intros [= <-]. split; [constructor|]. cbn [length] in Hb. apply money_minor; [lia|done].
  - destruct (Cart.h_unitPrice h) as [u|] eqn:Hu; [|done]. cbn [required mbind result_bind].
    destruct (line_total h u Hh Hu) as (t & ct & Ht & Htb & Hct). rewrite Ht. cbn [mbind result_bind length] in *.
    unfold addMoney. case_decide as Hcur; [done|]. cbn [currency minor] in Hcur. subst ct.
    cbn [amount currency minor mbind result_bind]. rewrite jint_add by lia.
    change {| amount := jint (z + t); currency := c |} with (minor (z + t) c).
    destruct (Cart.degraded_lines (minor (z + t) c) hl) as [rest|e] eqn:Hr; [|done]. intros [= <-].
    destruct (IH (z + t) c rest Hc ltac:(lia) ltac:(lia) Hr) as [Hls Hsum]. split; [|done].
    constructor; [|done]. apply line_accepted; [done|apply list_price_ok; destruct Hh as (_ & _ & _ & Hm & _); by apply Hm|].
    apply money_minor; [lia|done].
Qed.

Lemma priced_lines_conform cart priced hl : Forall hydrated_ok hl → priced_ok priced → ∀ n ls,
  Cart.priced_lines n cart priced hl = Ok ls → Forall line_ok ls.
Proof.
  intros Hhl (Hpl & _). induction Hhl as [|h hl Hh _ IH]; intros n ls; cbn [Cart.priced_lines]; [by intros [= <-]|].
  destruct (p_lines priced) as [ps|] eqn:Hps; [|done]. cbn [required mbind result_bind].
  destruct (lines cart !! n) as [st|]; [|done].
  destruct (Cart.priced_line h (mjoin (ps !! n)) st) as [l|] eqn:Hl; [|done]. cbn [mbind result_bind].
  destruct (Cart.priced_lines (S n) cart priced hl) as [rest|] eqn:Hr; [|done]. intros [= <-].
  constructor; [|by eapply IH].
  assert (∀ pl m, mjoin (ps !! n) = Some pl → unitEffectivePrice pl = Some m ∨ CartTypes.p_lineTotal pl = Some m → money_ok m) as Hmoney.
  { intros pl m Hp. apply (Hpl ps); [done|]. destruct (ps !! n) as [o|] eqn:Ho; [|done]. cbn in Hp. subst o. by eapply list_elem_of_lookup_2. }
  assert (∀ m, Cart.h_unitPrice h = Some m → money_ok m) as Hunit.
  { intros m Hm. apply list_price_ok. destruct Hh as (_ & _ & _ & Hlp & _). by apply Hlp. }
  unfold Cart.priced_line in Hl.
  destruct (match mjoin (ps !! n) ≫= CartTypes.p_lineTotal with Some t => Ok t | None => _ end) as [t|] eqn:Ht; [|discriminate Hl].
  cbn [mbind result_bind] in Hl. match type of Hl with context [required ?o] => destruct (required o) as [u|] eqn:Hu end; [|discriminate Hl].
  injection Hl as <-.
  apply line_accepted; [done|..].
  - destruct (mjoin (ps !! n)) as [pl|]; [destruct (unitEffectivePrice pl) eqn:E|destruct (Cart.h_unitPrice h)]; try done; injection Hu as <-; eauto.
  - destruct (mjoin (ps !! n) ≫= CartTypes.p_lineTotal) as [t'|] eqn:E; [injection Ht as <-|].
    + destruct (mjoin (ps !! n)) as [pl|]; [|done]. cbn in E. eauto.
    + destruct (Cart.h_unitPrice h) as [m|] eqn:Em; [|done]. cbn [required mbind result_bind] in Ht.
      destruct (line_total h m Hh Em) as (t0 & ct & Ht0 & Htb & Hct). rewrite Ht0 in Ht. injection Ht as <-.
      apply money_minor; [lia|done].
Qed.

Lemma hydrate_conforms vs ls :
  Forall variant_ok vs → Forall (λ l, quantity_ok (quantity l)) ls →
  Forall hydrated_ok (ls ≫= Cart.hydrate_line (Cart.by_sku vs)).
Proof.
  intros Hvs. induction 1 as [|l ls Hl _ IH]; [constructor|]. rewrite bind_cons. apply Forall_app. split; [|done].
  unfold Cart.hydrate_line. destruct (Cart.by_sku vs !! sku l) as [v|] eqn:Hv; [|constructor].
  apply (by_sku_holds variant_ok vs _ _ Hvs) in Hv as [(Hs & Hp & Hi & Hm) Heq]. constructor; [|constructor].
  rewrite Heq in Hs. by split_and!.
Qed.

(** *** The cart *)

Lemma accepts_defaulted s d v : v ≠ VUndef → accepts s v → accepts (ZDefault s d) v.
Proof. intros Hv. rewrite !accepts_meaning. cbn. by destruct v. Qed.


(** A stored cart of an identified user, or of nobody. *)
Definition presentable (c : StoredCart) : Prop :=
  accepts CartId (VStr (id c)) ∧ accepts (ZNullable UserId) (opt_str (userId c)) ∧ wf_lines (lines c) ∧
  currency_ok (cart_currency c) ∧ ∃ t, clock_ok t ∧ updatedAt c = toISOString t.

Lemma hydrated_conform cart :
  presentable cart →
  conforms (λ hl, Forall hydrated_ok hl ∧ (length hl ≤ 100)%nat) (Cart.hydrate baseUrl cart).
Proof.
  intros (_ & _ & (_ & Hlen & Hq) & _). unfold Cart.hydrate. unfold MAX_LINES in Hlen.
  destruct (lines cart) as [|l ls] eqn:Hl; [split; [constructor|cbn; lia]|]. rewrite <- Hl in *.
  eapply conforms_bind; [apply conforms_getVariants|]. intros vs Hvs. split; [by apply hydrate_conforms|].
  pose proof (hydrate_length (Cart.by_sku vs) (lines cart)). lia.
Qed.

Lemma expiry_ok cart t : 0 <= t → clock_ok (t + CART_TTL_SECONDS * 1000) → clock_ok (t + Cart.ttlFor cart * 1000).
Proof.
  unfold clock_ok, Cart.ttlFor, CART_TTL_SECONDS, ANON_CART_TTL_SECONDS. destruct (Cart.truthy _); lia.
Qed.

(** What the two forms of a priced cart share. *)
Lemma cart_accepted c k v t :
  presentable c → 0 <= v → 0 <= t → clock_ok (t + CART_TTL_SECONDS * 1000) →
  k_id k = id c → k_userId k = userId c → k_currency k = cart_currency c → k_version k = Some v →
  k_updatedAt k = updatedAt c → k_expiresAt k = toISOString (t + Cart.ttlFor c * 1000) →
  Forall line_ok (k_lines k) →
  Forall money_ok [k_subtotal k; k_discountTotal k; k_shippingTotal k; k_taxTotal k; k_total k] →
  Forall (λ a, money_ok a.1.2) (k_appliedCoupons k) →
  accepts Api.Cart (cart_value k).
Proof.
  intros (Hid & Hu & _ & Hc & tu & Htu & Hup) Hv Ht Hclock Eid Eu Ec Ev Eup Eex Hls Hm Ha.
  repeat (apply Forall_cons in Hm as [? Hm]).
  unfold cart_value. rewrite Eid, Eu, Ec, Ev, Eup, Eex, Hup.
  apply accepts_fields; [by apply (bool_decide_unpack _); vm_compute|].
  repeat (apply Forall2_cons; split; [split; [done|]|]); [..|constructor]; cbn [snd fst]; try done.
  - apply accepts_array; [|done]. by apply Forall_map.
  - apply accepts_defaulted; [done|]. apply accepts_array; [|by rewrite length_map]. apply Forall_map.
    eapply Forall_impl; [exact Ha|]. intros [[code d] n] Hd. apply accepts_fields; [by apply (bool_decide_unpack _); vm_compute|].
    repeat (apply Forall2_cons; split; [split; [done|]|]); [apply accepts_any_string|exact Hd|apply accepts_any_string|constructor].
  - apply accepts_defaulted; [done|]. apply accepts_array; [|by rewrite length_map]. apply Forall_map, Forall_true.
    intros [code d]. apply accepts_fields; [by apply (bool_decide_unpack _); vm_compute|].
    repeat (apply Forall2_cons; split; [split; [done|]|]); [apply accepts_any_string..|constructor].
  - apply accepts_any_string.
  - apply accepts_defaulted; [done|]. apply accepts_meaning. by eexists.
  - destruct (k_rulesVersion k); apply accepts_meaning; by eexists.
  - apply accepts_number. exists (jint v). split; [done|]. split; [done|].
    cbn [forallb check_number]. rewrite is_integer_jint, nle_jint. by destruct (Z.leb_spec 0 v); [|lia].
  - by apply accepts_timestamp, expiry_ok.
  - by apply accepts_timestamp.
Qed.

Lemma money_zeros c m : currency_ok c → money_ok m → Forall money_ok [m; zeroMoney c; zeroMoney c; zeroMoney c; m].
Proof. intros Hc Hm. pose proof (money_zero c Hc). by repeat constructor. Qed.

Lemma applied_ok priced l :
  (∀ ps a, appliedPromotions priced = Some ps → Some a ∈ ps → money_ok (promo_discount a)) →
  Cart.applied_coupons priced = Ok l → Forall (λ a, money_ok a.1.2) l.
Proof.
  intros Ha. unfold Cart.applied_coupons. destruct (appliedPromotions priced) as [ps|]; [|done]. cbn [required mbind result_bind].
  destruct (mapM_required ps) as [(xs & -> & ->)|[-> _]]; [|done]. cbn [mbind result_bind]. intros [= <-].
  apply Forall_bind, Forall_forall. intros a Hin. assert (money_ok (promo_discount a)) as Hd.
  { eapply Ha; [done|]. by apply list_elem_of_fmap_2. }
  cbn. destruct (couponCode a) as [code|]; [destruct (truthy_str code)|]; [|constructor..].
  by apply Forall_singleton.
Qed.

(** C11. What cart-service answers is what the contract says: a stored cart with proper
    identifiers, at a version that is not negative, is priced into a document
    that [Cart] accepts, by the engine or at list price, whatever is cached; so
    long as the catalogue and the engine keep the contract themselves, and the
    cache then still holds only such products. *)
Theorem cart_answers_conform cart v :
  presentable cart → 0 <= v →
  conforms (λ k, accepts Api.Cart (cart_value k)) (Cart.price baseUrl cart (Some v)).
Proof.
  intros Hp Hv. assert (currency_ok (cart_currency cart)) as Hc by apply Hp. unfold Cart.price.
  eapply conforms_bind; [by apply hydrated_conform|]. intros hl [Hhl Hlen].
  apply (conforms_bind _ _ _ _ (λ o, match o with Some p => priced_ok p | None => True end)).
  { apply conforms_try; [|done]. eapply conforms_bind; [apply conforms_calculate|done]. }
  intros [priced|] Hpriced.
  - apply (conforms_bind _ _ _ _ (Forall line_ok)).
    { apply conforms_lift; [|done]. intros ls. by apply priced_lines_conform. }
    intros ls Hls. destruct Hpriced as (_ & Hm & Ha).
    apply (conforms_bind _ _ _ _ (Forall (λ a, money_ok a.1.2))).
    { apply conforms_lift; [|done]. intros l. by apply applied_ok. }
    intros applied Happ. apply (conforms_bind _ _ _ _ (λ _, True)); [by apply conforms_lift|]. intros rejected _.
    apply conforms_now. intros t [Hclock Ht]. by apply (cart_accepted cart _ v t).
  - apply (conforms_bind _ _ _ _ (λ ls, Forall line_ok ls.1 ∧ money_ok ls.2)).
    { apply conforms_lift; [|done]. intros ls Hls. eapply degraded_lines_conform; [exact Hhl|exact Hc|..|exact Hls]; lia. }
    intros ls [Hls Hm]. apply conforms_now. intros t [Hclock Ht].
    apply (cart_accepted cart _ v t); try done; cbn. by apply money_zeros.
Qed.

End Conform.

End Http.
End CartHttp.
