(* ===== verification/CartExamples.v ===== *)
(** * Running the cart service

    A concrete world, in which the theorems on concurrent carts are applied to
    the runs of real handlers; concrete messages of the contracts; and schedules
    of several requests: a race that goes well, and three behaviours that the
    comments of [cart.ts] do not expect ([Races]). *)
From Stdlib Require Import QArith.
From S2P Require Import Prelude JsNumber JsString JsDate Json Regex Zod Schemas Events Api.
From S2P Require Import Contracts Prog Primitives.
From S2P Require Import CircuitBreaker Redis CartTypes CartPeers Cart CartRoutes CartLines.
From S2P Require Import CartJson CartWorld.
From S2P Require Import CartPricing CartConcurrency CartSequential CartSystem CartLinear CartHttp.
Local Open Scope js_scope.
Local Open Scope Z_scope.

Definition start_process : proc := {|
  casSha := None; breaker := CircuitBreaker.init; cache := ∅ |}.
Definition start_world : world redis_model := {| redis := empty_redis; process := start_process |}.

Definition sample_variant : Variant := {|
  v_sku := "SKU-1"; v_productId := "prd_1"; v_title := "Mug"; v_image := None;
  v_price := Some (minor 500 "EGP"); v_status := "ACTIVE"; v_categoryPath := ["home"];
  v_brand := None; v_attributes := [] |}.

(** The catalogue sells one product; the pricing engine is down. *)
Definition sample_catalogue (url : jstr) : result exn (response (list (option Variant))) :=
  Ok {| status := 200; body := Ok [Some sample_variant] |}.
Definition engine_down (req : CalculateRequest) : result exn (option PricedCart) :=
  Err (ServiceError 14 "unavailable").

Definition play {A} (p : prog A) (w : world redis_model) : result exn A * world redis_model :=
  run (drive 1700000000000 [] sample_catalogue engine_down) p w.

Definition base : jstr := "http://catalog".
Definition cart0 : jstr := "crt_01HF7YAT000000000000000000".
Definition created : world redis_model := (play (Cart.create base 2 None "EGP" "EG") start_world).2.
Definition filled : world redis_model := (play (Cart.addLine base 2 cart0 "SKU-1" 2 1) created).2.

Example created_cart : (k_id <$> (play (Cart.create base 2 None "EGP" "EG") start_world).1) = Ok cart0.
Proof. vm_compute. reflexivity. Qed.
Example filled_cart :
  (k_subtotal <$> (play (Cart.addLine base 2 cart0 "SKU-1" 2 1) created).1) = Ok (minor 1000 "EGP").
Proof. vm_compute. reflexivity. Qed.

(** A run of a handler is one of its executions among other requests. *)
Lemma play_exec {A} (k : jstr) (p : prog A) (w : world redis_model) :
  exec (Concurrency.rely k) effect p w (play p w).1 (play p w).2.
Proof.
  eapply exec_mono; [|done|apply drive_exec]. intros a b <-. apply Concurrency.rely_refl.
Qed.

Lemma versioned_created : Concurrency.versioned (Cart.key cart0) created.
Proof. intros _. exists 1. vm_compute. reflexivity. Qed.

Lemma versioned_filled : Concurrency.versioned (Cart.key cart0) filled.
Proof. intros _. exists 2. vm_compute. reflexivity. Qed.

Lemma addLine_atomic_witness :
  let r := play (Cart.addLine base 2 cart0 "SKU-1" 2 1) created in
  is_ok r.1 = true ∧
  Concurrency.mutation_outcome (Cart.key cart0) (Concurrency.line_added "SKU-1" 2) 1 created r.1 r.2.
Proof.
  split; [vm_compute; reflexivity|].
  apply (Concurrency.addLine_atomic base 2); [done|apply versioned_created|apply play_exec].
Defined.

Lemma updateLine_atomic_witness :
  let r := play (Cart.updateLine base 2 cart0 "SKU-1" 7 2) filled in
  is_ok r.1 = true ∧
  Concurrency.mutation_outcome (Cart.key cart0) (Concurrency.line_updated "SKU-1" 7) 2 filled r.1 r.2.
Proof.
  split; [vm_compute; reflexivity|].
  apply (Concurrency.updateLine_atomic base 2); [done|apply versioned_filled|apply play_exec].
Defined.

Lemma applyCoupon_atomic_witness :
  let r := play (Cart.applyCoupon base 2 cart0 " save10 " 2) filled in
  is_ok r.1 = true ∧
  Concurrency.mutation_outcome (Cart.key cart0) (Concurrency.coupon_applied " save10 ") 2 filled r.1 r.2.
Proof.
  split; [vm_compute; reflexivity|].
  apply (Concurrency.applyCoupon_atomic base 2); [done|apply versioned_filled|apply play_exec].
Defined.

(** Running one request to its end is a sequence of steps of the system. *)
Lemma steps_run (p : prog (option Cart)) (w : world redis_model) :
  ∃ p', rtc (System.step base 2) {| System.threads := [p]; System.shared := w |}
            {| System.threads := [p']; System.shared := (play p w).2 |}.
Proof.
  unfold play. revert w. induction p as [a|e|B c f IH]; intros w; cbn; [by eexists..|].
  pose proof (drive_effect 1700000000000 [] sample_catalogue engine_down B c w) as He.
  destruct (drive _ _ _ _ B c w) as [r w1] eqn:Hd. cbn in He. destruct (IH r w1) as [p' Hp].
  exists p'. eapply rtc_l; [|exact Hp].
  change [f r] with (<[0%nat := f r]> [Await c f]). eapply System.step_advance; [done|]. by exists r.
Qed.

Lemma start_inv : System.Inv start_world.
Proof. by split; intros; cbn in *; unfold System.holds_cart in *; cbn in *. Qed.

Lemma cart_store_invariant_witness :
  ∃ s', rtc (System.step base 2) {| System.threads := []; System.shared := start_world |} s' ∧
        is_Some (hget (Cart.key cart0) "data" (redis (System.shared s'))) ∧
        System.Inv (System.shared s').
Proof.
  destruct (steps_run (System.handle base 2 (System.Create None "EGP" "EG")) start_world) as [p' Hp].
  eexists. assert (∀ s', rtc (System.step base 2) {| System.threads := []; System.shared := start_world |} s' →
    System.Inv (System.shared s')) as Hinv.
  { intros s' Hs. eapply (System.cart_store_invariant base 2 CartJson.codec_shape _ _ _ _ Hs). }
  split; [|split; [|apply Hinv]].
  - eapply rtc_l; [exact (System.step_arrive base 2 [] start_world (System.Create None "EGP" "EG") I)|exact Hp].
  - cbn [System.shared]. apply (bool_decide_unpack _). vm_compute. exact I.
  - eapply rtc_l; [exact (System.step_arrive base 2 [] start_world (System.Create None "EGP" "EG") I)|exact Hp].
  Unshelve. all: [> reflexivity | apply start_inv].
Defined.

(** ** Requests alone *)

Definition cart_filled : StoredCart := {|
  id := cart0; userId := None;
  lines := [{| sku := "SKU-1"; productId := "prd_1"; quantity := 2; addedAtPrice := jint 500;
               addedAt := toISOString 1700000000000 |}];
  cart_currency := "EGP"; coupons := []; countryCode := "EG";
  createdAt := toISOString 1700000000000; updatedAt := toISOString 1700000000000 |}.

Lemma holds_filled : Concurrency.holds (Cart.key cart0) cart_filled 2 filled.
Proof. split; vm_compute; reflexivity. Qed.

Lemma cas_ends_witness :
  ∃ w', play (Cart.cas 2 cart0 (Some 2) "{}" 60) filled = (Ok 3, w').
Proof.
  destruct (Sequential.cas_ends 1700000000000 [] sample_catalogue engine_down 0 cart0 (Some 2) "{}" 60 filled)
    as (w' & Hw & _); [reflexivity|]. exists w'. etrans; [exact Hw|]. f_equal; vm_compute; reflexivity.
Defined.

Lemma addLine_commits_witness :
  ∃ c' res w', play (Cart.addLine base 2 cart0 "SKU-1" 5 2) filled = (res, w') ∧
    Concurrency.line_added "SKU-1" 5 cart_filled c' ∧
    Concurrency.stored (Cart.key cart0) c' 3 w'.
Proof.
  destruct (Sequential.addLine_commits base 2 1700000000000 [] sample_catalogue engine_down
    cart0 "SKU-1" 5 cart_filled 2 sample_variant filled) as (c' & res & w' & H1 & H2 & H3 & _).
  - lia.
  - lia.
  - apply holds_filled.
  - vm_compute. reflexivity.
  - reflexivity.
  - left. reflexivity.
  - exists c', res, w'. exact (conj H1 (conj H2 H3)).
Defined.

Lemma updateLine_commits_witness :
  ∃ c' res w', play (Cart.updateLine base 2 cart0 "SKU-1" 0 2) filled = (res, w') ∧
    Concurrency.stored (Cart.key cart0) c' 3 w' ∧ quantity_of "SKU-1" (lines c') = 0.
Proof.
  destruct (Sequential.updateLine_commits base 2 1700000000000 [] sample_catalogue engine_down
    cart0 "SKU-1" 0 cart_filled 2 filled ltac:(lia) ltac:(lia) holds_filled)
    as (c' & res & w' & H1 & H2 & _ & H3 & _).
  exists c', res, w'. split; [exact H1|]. split; [exact H2|]. by rewrite (H3 "SKU-1").
Defined.

Lemma mutations_guarded_witness :
  play (Cart.addLine base 2 cart0 "SKU-1" 1 7) filled = (Err (CartStale (Some 7) (Some 2)), filled) ∧
  play (Cart.addLine base 2 cart0 "SKU-1" 1 1) start_world = (Err (Error "CART_NOT_FOUND"), start_world).
Proof.
  split.
  - destruct (Sequential.mutations_guarded base 2 1700000000000 [] sample_catalogue engine_down
      cart0 "SKU-1" 1 "" 7 cart_filled 2 filled) as [_ Hs].
    assert (2 ≠ 7) as Hne by done. destruct (Hs holds_filled Hne) as [Ha _]. exact Ha.
  - destruct (Sequential.mutations_guarded base 2 1700000000000 [] sample_catalogue engine_down
      cart0 "SKU-1" 1 "" 1 cart_filled 2 start_world) as [Hs _].
    destruct (Hs eq_refl) as [Ha _]. exact Ha.
Defined.

(** ** Prices *)

(** A cart in another currency than the product. *)
Definition foreign_cart : StoredCart := {|
  id := cart0; userId := None; lines := lines cart_filled; cart_currency := "USD"; coupons := [];
  countryCode := "US"; createdAt := ""; updatedAt := "" |}.

Lemma price_always_answers_witness :
  (play (Cart.price base foreign_cart (Some 1)) start_world).1 = Err (Error "cannot add USD to EGP") ∧
  unpriceable "USD" (Error "cannot add USD to EGP").
Proof.
  assert ((play (Cart.price base foreign_cart (Some 1)) start_world).1
          = Err (Error "cannot add USD to EGP")) as He by (vm_compute; reflexivity).
  split; [exact He|].
  destruct (price_always_answers (R := redis_model) base foreign_cart (Some 1)) as [Ha _].
  apply (Ha eq start_world _ (play (Cart.price base foreign_cart (Some 1)) start_world).2).
  rewrite <- He. apply drive_exec.
Defined.

Definition silent_engine : PricedCart := {|
  p_lines := Some []; p_subtotal := minor 0 "EGP"; p_discountTotal := minor 0 "EGP";
  p_shippingTotal := minor 0 "EGP"; p_taxTotal := minor 0 "EGP"; p_grandTotal := minor 0 "EGP";
  appliedPromotions := Some []; rejectedPromotions := Some []; p_rulesVersion := ""; p_degraded := false |}.
Definition sample_hl : list Cart.HydratedLine :=
  lines cart_filled ≫= Cart.hydrate_line (Cart.by_sku [sample_variant]).
Definition flagged : list CartLine :=
  match Cart.priced_lines 0 cart_filled silent_engine sample_hl with Ok ls => ls | Err _ => [] end.

Lemma price_flag_correct_witness :
  map l_priceChanged flagged = [false] ∧ Forall2 flag_right (lines cart_filled) flagged.
Proof.
  split; [vm_compute; reflexivity|].
  apply (price_flag_correct cart_filled silent_engine (Cart.by_sku [sample_variant])).
  - constructor; [|constructor]. exists sample_variant. vm_compute. reflexivity.
  - vm_compute. reflexivity.
Defined.

(** ** Clients *)

Definition warm_world : world redis_model := {|
  redis := empty_redis;
  process := {| casSha := None; breaker := CircuitBreaker.init;
                cache := {[ "SKU-1"%js := (sample_variant, 1000) ]} |} |}.
Definition catalogue_down (url : jstr) : result exn (response (list (option Variant))) :=
  Err (Error "ECONNREFUSED").

Lemma catalogue_cache_serves_witness :
  (∃ vs, run (drive 2000 [] catalogue_down engine_down) (Catalog.getVariants base ["SKU-1"]) warm_world
         = (Ok vs, warm_world) ∧ length vs = 1%nat) ∧
  (∃ vs, run (drive 9000000 [] catalogue_down engine_down) (Catalog.getVariants base ["SKU-1"]) warm_world
         = (Ok vs, warm_world) ∧ sample_variant ∈ vs).
Proof.
  split.
  - destruct (catalogue_cache_serves 2000 [] engine_down base catalogue_down ["SKU-1"] warm_world)
      as [(vs & H1 & H2) _].
    + constructor; [|constructor]. exists (sample_variant, 1000). split; vm_compute; reflexivity.
    + exists vs. split; [exact H1|]. by apply Forall2_length in H2.
  - destruct (catalogue_cache_serves 9000000 [] engine_down base catalogue_down ["SKU-1"] warm_world)
      as [_ (vs & H1 & H2)]; [by intros url|].
    exists vs. split; [exact H1|]. apply (H2 "SKU-1" (sample_variant, 1000)); [set_solver|].
    vm_compute. reflexivity.
Defined.

(** A reply of the engine without its lines, as an older build would send it. *)
Definition linesless : PricedCart := {|
  p_lines := None; p_subtotal := minor 0 "EGP"; p_discountTotal := minor 0 "EGP";
  p_shippingTotal := minor 0 "EGP"; p_taxTotal := minor 0 "EGP"; p_grandTotal := minor 0 "EGP";
  appliedPromotions := Some []; rejectedPromotions := Some []; p_rulesVersion := ""; p_degraded := false |}.

(** The reply is not the failure that [price] falls back from: the cart cannot
    be shown, though it can while the engine is down. *)
Theorem half_a_reply_is_fatal :
  (run (drive 1700000000000 [] sample_catalogue (λ _, Ok (Some linesless)))
     (Cart.price base cart_filled (Some 2)) start_world).1 = Err (Error no_object) ∧
  is_ok (play (Cart.price base cart_filled (Some 2)) start_world).1 = true.
Proof. split; vm_compute; reflexivity. Qed.

Definition a_request : CalculateRequest := Cart.calculate_request cart_filled [].

Lemma failing_engine_is_shed_witness :
  ∃ w', run (drive 5000 [] sample_catalogue engine_down) (calls (repeat a_request 20)) start_world
          = (Ok tt, w') ∧ Pricing.breakerState (process w') = CircuitBreaker.open.
Proof.
  destruct (failing_engine_is_shed [] sample_catalogue engine_down (repeat a_request 20) 5000 5000
    start_world a_request engine_down) as (w' & H1 & H2 & _); [by intros q|reflexivity|reflexivity|lia|].
  exists w'. exact (conj H1 H2).
Defined.

(** ** Contracts and routes on concrete messages *)

Import Schemas.Schemas Events.Events CartRoutes.CartRoutes.

Definition ulid26 : jstr := "01J8Z3K9S2M4P6R8T0V2X4Y6A8".
Definition sample_money : jsval := VObj [("amount", vint 4999); ("currency", VStr "EUR")].

Definition sample_confirmed : jsval := VObj [
  ("specversion", VStr "1.0"); ("id", VStr ulid26); ("source", VStr "souq/order-service");
  ("time", VStr "2026-08-17T10:00:00.000Z"); ("type", VStr "souq.order.confirmed.v1");
  ("data", VObj [
     ("orderId", VStr ("ord_" ++ ulid26)); ("userId", VStr ("usr_" ++ ulid26));
     ("paymentId", VStr ("pay_" ++ ulid26)); ("reservationId", VStr ("rsv_" ++ ulid26));
     ("total", sample_money); ("confirmedAt", VStr "2026-08-17T10:00:00Z")])].

(** Deciding acceptance by running the reference instance. *)
Lemma accepted_by_run s v : is_ok (safeParse s v) = true → accepts s v.
Proof. done. Qed.

Lemma ids_never_confused_witness :
  accepts UserId (VStr ("usr_" ++ ulid26)) ∧ ¬ accepts ProductId (VStr ("usr_" ++ ulid26)).
Proof.
  assert (accepts UserId (VStr ("usr_" ++ ulid26))) as Ha by (vm_compute; reflexivity).
  split; [exact Ha|]. intros Hp.
  pose proof (proj2 (Contracts.ids_never_confused Contracts.user Contracts.product (VStr ("usr_" ++ ulid26))) Ha Hp) as Hk.
  discriminate Hk.
Defined.

Lemma message_has_one_topic_witness :
  accepts (SCHEMA_BY_TOPIC orderEvents) sample_confirmed ∧
  ∃ ty, prop "type" sample_confirmed = VStr ty ∧ ty ∈ Contracts.types_of orderEvents.
Proof.
  assert (accepts (SCHEMA_BY_TOPIC orderEvents) sample_confirmed) as Ha by (vm_compute; reflexivity).
  split; [exact Ha|].
  destruct (Contracts.message_has_one_topic orderEvents orderEvents sample_confirmed Ha Ha) as (_ & Ht & _).
  exact Ht.
Defined.

Lemma order_confirmed_has_no_items_witness :
  accepts OrderEvent sample_confirmed ∧ prop "items" (prop "data" sample_confirmed) = VUndef.
Proof.
  assert (accepts OrderEvent sample_confirmed) as Ha by (vm_compute; reflexivity).
  split; [exact Ha|].
  destruct (Contracts.order_confirmed_has_no_items sample_confirmed Ha eq_refl) as [Hi _]. exact Hi.
Defined.

Definition line_params : jsval := VObj [("cartId", VStr ("crt_" ++ ulid26))].
Definition line_body : jsval := VObj [
  ("sku", VStr ("sku_" ++ ulid26)); ("quantity", vint 2); ("version", vint 1)].


Lemma problem_documents_conform_witness :
  accepts ProblemDetails (error_document "req-1" 1700000000000 CartFull).2.
Proof.
  destruct (CartHttp.problem_documents_conform "req-1" 1700000000000 CartFull []) as [Ha _].
  - unfold clock_ok. lia.
  - exact Ha.
Defined.

Definition lost_cart : CartTypes.Cart := {|
  k_id := "crt_" ++ ulid26; k_userId := None; k_lines := []; k_subtotal := minor 0 "EGP";
  k_discountTotal := minor 0 "EGP"; k_shippingTotal := minor 0 "EGP"; k_taxTotal := minor 0 "EGP";
  k_total := minor 0 "EGP"; k_appliedCoupons := []; k_rejectedCoupons := []; k_currency := "EGP";
  k_pricingDegraded := true; k_rulesVersion := None; k_version := Some (-1);
  k_expiresAt := toISOString 0; k_updatedAt := toISOString 0 |}.

Lemma negative_version_is_refused_witness : ¬ accepts Api.Cart (cart_value lost_cart).
Proof. apply (CartHttp.negative_version_is_refused lost_cart (-1)); [reflexivity|lia]. Defined.

Lemma minted_ids_accepted_witness :
  accepts (prefixedId "crt") (VStr ("crt_" ++ Cart.ulid_of 1700000000000 (repeat 7%N 16))).
Proof.
  apply (CartHttp.minted_ids_accepted 1700000000000 (repeat 7%N 16) "crt"); reflexivity.
Defined.

Lemma cart_answers_conform_witness :
  CartHttp.presentable cart_filled ∧
  conforms CartHttp.variant_ok CartHttp.priced_ok CartHttp.expressible (λ _, True)
    (λ k, accepts Api.Cart (cart_value k)) (Cart.price base cart_filled (Some 2)).
Proof.
  assert (CartHttp.presentable cart_filled) as Hp.
  { split; [by apply accepted_by_run; vm_compute|]. split; [by apply accepted_by_run; vm_compute|].
    split; [split; [repeat constructor; set_solver|split; [cbn; unfold MAX_LINES; lia|]]|].
    { repeat constructor; cbn; unfold quantity_ok, MAX_QTY_PER_LINE; lia. }
    split; [apply matches_lang; vm_compute; reflexivity|].
    exists 1700000000000. split; [unfold clock_ok; lia|reflexivity]. }
  split; [exact Hp|]. apply (CartHttp.cart_answers_conform base cart_filled 2 Hp). lia.
Defined.

Lemma every_request_is_answered_witness :
  let r := play (serve base 2 PostCarts "req-1" None VUndef VUndef) start_world in
  ∃ out, r.1 = Ok out ∧ (CartHttp.served "req-1" out ∨ CartHttp.failed "req-1" out).
Proof.
  destruct (CartHttp.every_request_is_answered base 2 PostCarts "req-1" None VUndef VUndef eq start_world
    (play (serve base 2 PostCarts "req-1" None VUndef VUndef) start_world).1
    (play (serve base 2 PostCarts "req-1" None VUndef VUndef) start_world).2) as (out & H1 & H2 & _).
  - apply drive_exec.
  - exists out. exact (conj H1 H2).
Defined.

(** ** Where the cart service loses its footing

    Three behaviours of [cart.ts] that its comments do not expect, each as a
    concrete run: a login merge that lost the race, a commit over an expired
    cart, and the price flag of a cart with a product the catalogue dropped. *)

Module Races.

(** ** Schedules *)

(** The first [n] commands of a request, at the time [t]. *)
Fixpoint go (t : Z) (n : nat) {A} (p : prog A) (w : world redis_model) : prog A * world redis_model :=
  match n, p with
  | S n, Await c f =>
      let '(r, w') := drive t [] sample_catalogue engine_down _ c w in go t n (f r) w'
  | _, _ => (p, w)
  end.

(** One line of a schedule: a request arrives, the thread [j] runs [n]
    commands, or a key expires. *)
Inductive action := Arrive (r : System.request) | Run (t : Z) (j n : nat) | Expire (k : jstr).

Definition act (s : System.state (R := redis_model)) (a : action) : System.state :=
  match a with
  | Arrive r => {| System.threads := System.threads s ++ [System.handle base 2 r];
                   System.shared := System.shared s |}
  | Run t j n =>
      match System.threads s !! j with
      | Some p => let o := go t n p (System.shared s) in
                  {| System.threads := <[j := o.1]> (System.threads s); System.shared := o.2 |}
      | None => s
      end
  | Expire k => {| System.threads := System.threads s;
                   System.shared := set_redis (rdel k (redis (System.shared s))) (System.shared s) |}
  end.

Definition allowed (a : action) : Prop := match a with Arrive r => System.valid r | _ => True end.

Lemma go_steps t n ts w j p :
  ts !! j = Some p →
  rtc (System.step base 2) {| System.threads := ts; System.shared := w |}
    {| System.threads := <[j := (go t n p w).1]> ts; System.shared := (go t n p w).2 |}.
Proof.
  revert ts w p. induction n as [|n IH]; intros ts w p Hj; cbn; [by rewrite list_insert_id|].
  destruct p as [a|e|B c f]; cbn; [by rewrite list_insert_id..|].
  pose proof (drive_effect t [] sample_catalogue engine_down B c w) as He.
  destruct (drive _ _ _ _ B c w) as [r w1] eqn:Hd. cbn in He.
  eapply rtc_l; [eapply (System.step_advance base 2 ts w j _ (f r) w1 Hj); by exists r|].
  assert (<[j := f r]> ts !! j = Some (f r)) as Hj'.
  { apply list_lookup_insert_eq. by eapply lookup_lt_Some. }
  specialize (IH _ w1 _ Hj'). by rewrite list_insert_insert_eq in IH.
Qed.

Lemma schedule_steps l s :
  Forall allowed l → rtc (System.step base 2) s (foldl act s l).
Proof.
  intros Hl. revert s. induction Hl as [|a l Ha _ IH]; intros s; cbn; [done|].
  etrans; [|apply IH]. destruct s as [ts w]. destruct a as [r|t j n|k].
  - apply rtc_once. by constructor.
  - cbn. destruct (ts !! j) as [p|] eqn:Hj; [by apply go_steps|done].
  - apply rtc_once. apply (System.step_expire base 2).
Qed.

Definition start : System.state := {| System.threads := []; System.shared := start_world |}.

(** What the thread [j] answered. *)
Definition answer (s : System.state (R := redis_model)) (j : nat) : option (option Cart) :=
  match System.threads s !! j with Some (Ret r) => Some r | _ => None end.
Definition version_in (s : System.state (R := redis_model)) (i : jstr) : option jstr :=
  hget (Cart.key i) "version" (redis (System.shared s)).
Definition quantities_in (s : System.state (R := redis_model)) (i : jstr) : option (list (jstr * Z)) :=
  c ← hget (Cart.key i) "data" (redis (System.shared s)) ≫= parse;
  Some (map (λ l, (sku l, quantity l)) (lines c)).

Definition mine : jstr := "crt_01HF7YAT000000000000000000".
Definition anon : jstr := "crt_01HF7YAT010000000000000000".

(** ** A race of two additions *)

(** Schedules in which the cart [i] stays. *)
Definition present (i : jstr) (w : world redis_model) : bool :=
  match Concurrency.data (Cart.key i) w with Some _ => true | None => false end.
Definition stays (i : jstr) (w w' : world redis_model) : bool := negb (present i w) || present i w'.

Fixpoint go_stays (i : jstr) (t : Z) (n : nat) {A} (p : prog A) (w : world redis_model) : bool :=
  match n, p with
  | S n, Await c f =>
      let '(r, w') := drive t [] sample_catalogue engine_down _ c w in
      stays i w w' && go_stays i t n (f r) w'
  | _, _ => true
  end.

Definition act_stays (i : jstr) (s : System.state) (a : action) : bool :=
  match a with
  | Arrive _ => true
  | Run t j n =>
      match System.threads s !! j with Some p => go_stays i t n p (System.shared s) | None => true end
  | Expire _ => stays i (System.shared s) (System.shared (act s a))
  end.

Fixpoint schedule_stays (i : jstr) (s : System.state) (l : list action) : bool :=
  match l with [] => true | a :: l => act_stays i s a && schedule_stays i (act s a) l end.

Definition arrivals (l : list action) : list System.request :=
  l ≫= λ a, match a with Arrive r => [r] | _ => [] end.

Lemma stays_kept i w w' : stays i w w' = true → Linear.kept i w w'.
Proof.
  unfold stays, present, Linear.kept. destruct (Concurrency.data _ w); [|by intros _ [? ?]].
  by destruct (Concurrency.data _ w').
Qed.

Lemma go_run i rs s t n ts w j p :
  Linear.run base 2 i rs s {| System.threads := ts; System.shared := w |} →
  ts !! j = Some p → go_stays i t n p w = true →
  Linear.run base 2 i rs s
    {| System.threads := <[j := (go t n p w).1]> ts; System.shared := (go t n p w).2 |}.
Proof.
  revert ts w p. induction n as [|n IH]; intros ts w p Hr Hj Hs; cbn; [by rewrite list_insert_id|].
  destruct p as [a|e|B c f]; cbn; [by rewrite list_insert_id..|]. cbn in Hs.
  pose proof (drive_effect t [] sample_catalogue engine_down B c w) as He.
  destruct (drive _ _ _ _ B c w) as [r w1] eqn:Hd. cbn in He.
  apply andb_true_iff in Hs as [Hs1 Hs2].
  assert (<[j := f r]> ts !! j = Some (f r)) as Hj'.
  { apply list_lookup_insert_eq. by eapply lookup_lt_Some. }
  pose proof (Linear.run_advance base 2 i rs s _ j _ (f r) w1 Hr Hj (ex_intro _ r (conj He eq_refl)) (stays_kept _ _ _ Hs1)) as Hr'.
  specialize (IH _ w1 (f r) Hr' Hj' Hs2). by rewrite list_insert_insert_eq in IH.
Qed.

Lemma schedule_run i rs s s' l :
  Linear.run base 2 i rs s s' → Forall allowed l → schedule_stays i s' l = true →
  Linear.run base 2 i (rs ++ arrivals l) s (foldl act s' l).
Proof.
  intros Hr Hl. revert rs s' Hr. induction Hl as [|a l Ha _ IH]; intros rs [ts w] Hr Hs; cbn [foldl].
  - cbn. by rewrite app_nil_r.
  - cbn [schedule_stays] in Hs. apply andb_true_iff in Hs as [Hs1 Hs2].
    replace (rs ++ arrivals (a :: l)) with ((rs ++ arrivals [a]) ++ arrivals l);
      [|unfold arrivals; cbn; by rewrite app_nil_r, <- app_assoc].
    apply IH; [|done]. destruct a as [r|t j n|key]; cbn [act arrivals].
    + by apply (Linear.run_arrive base 2 i rs s _ r).
    + cbn in Hs1 |- *. rewrite app_nil_r. destruct (ts !! j) as [p|] eqn:Hj; [|done]. by apply go_run.
    + cbn. rewrite app_nil_r. apply (Linear.run_expire base 2 i rs s _ key Hr). by apply stays_kept.
Qed.

(** Two browsers add to the cart they both read at version 1; the second one
    overtakes the first; then the cart is read. *)
Definition overtaking : list action := [
  Arrive (System.Create None "EGP" "EG"); Run 1700000000000 0 99;
  Arrive (System.AddLine mine "SKU-1" 2 1); Arrive (System.AddLine mine "SKU-1" 3 1);
  Arrive (System.Get mine); Run 1700000000001 1 2; Run 1700000000002 2 99; Run 1700000000003 1 99;
  Run 1700000000004 3 99].

Lemma carts_are_atomic_witness :
  let s := foldl act start overtaking in
  Linear.run base 2 mine (arrivals overtaking) start s ∧
  quantities_in s mine = Some [("SKU-1", 3)] ∧
  ∃ x, rtc (Linear.spec_step mine) {| Linear.cell := None; Linear.clients := [] |} x ∧
    Linear.cell x = Linear.cell_of mine (System.shared s) ∧
    snd <$> Linear.clients x !! 1%nat = Some Linear.Pending ∧
    (∃ c, snd <$> Linear.clients x !! 2%nat = Some (Linear.Took 2 c)) ∧
    (∃ t, snd <$> Linear.clients x !! 3%nat = Some (Linear.Saw (Some (2, t)))).
Proof.
  intros s. assert (Linear.run base 2 mine (arrivals overtaking) start s) as Hrun.
  { apply (schedule_run mine [] start start overtaking); [constructor| |vm_compute; reflexivity].
    by repeat (apply Forall_cons_2; [done|]). }
  split; [done|]. split; [vm_compute; reflexivity|].
  destruct (Linear.carts_are_atomic base 2 mine CartJson.codec_shape eq_refl (arrivals overtaking) start s
    eq_refl start_inv (or_introl (conj eq_refl eq_refl)) Hrun) as (x & Hx & Hc & Hrs & Hall).
  exists x. split; [exact Hx|]. split; [exact Hc|].
  assert (∀ n, fst <$> Linear.clients x !! n = arrivals overtaking !! n) as Hreq.
  { intros n. rewrite <- Hrs. symmetry. apply list_lookup_fmap. }
  split; [|split].
  - assert (∃ v v', System.threads s !! 1%nat = Some (Throw (CartStale v v'))) as (v & v' & Ht).
    { eexists _, _. vm_compute. reflexivity. }
    destruct (Hall _ _ Ht) as (req & g & Hg & Href). rewrite Hg. cbn in Href |- *. by rewrite Href.
  - assert (∃ a, System.threads s !! 2%nat = Some (Ret a)) as (a & Ht).
    { eexists. vm_compute. reflexivity. }
    destruct (Hall _ _ Ht) as (req & g & Hg & Hans). pose proof (Hreq 2%nat) as Hr2. rewrite Hg in Hr2.
    cbn in Hr2. injection Hr2 as ->. rewrite Hg. destruct (Hans eq_refl) as (c & a' & -> & _). by exists c.
  - assert (∃ a, System.threads s !! 3%nat = Some (Ret (Some a)) ∧ k_version a = Some 2) as (a & Ht & Ha).
    { eexists. split; vm_compute; reflexivity. }
    destruct (Hall _ _ Ht) as (req & g & Hg & Hans). pose proof (Hreq 3%nat) as Hr3. rewrite Hg in Hr3.
    cbn in Hr3. injection Hr3 as ->. rewrite Hg.
    destruct (Hans eq_refl) as (found & -> & z & t & c & -> & _ & Hshows). exists t.
    assert (z = 2) as -> by (destruct Hshows as (_ & _ & _ & _ & Hv & _); congruence). done.
Defined.

(** ** A merge that lost the race *)

(** The user has an empty cart and a cart from before the login with two mugs.
    The merge reads both; a coupon is applied to the user's cart; the merge goes
    on. *)
Definition lost_merge : list action := [
  Arrive (System.Create (Some "u1") "EGP" "EG"); Run 1700000000000 0 99;
  Arrive (System.Create None "EGP" "EG"); Run 1700000000001 1 99;
  Arrive (System.AddLine anon "SKU-1" 2 1); Run 1700000000002 2 99;
  Arrive (System.Merge anon "u1"); Run 1700000000003 3 4;
  Arrive (System.ApplyCoupon mine "SAVE10" 1); Run 1700000000004 4 99;
  Run 1700000000005 3 99].

(** A login merge that loses the race loses the customer's items: [merge]
    does not look at the answer of its compare-and-swap, so when another request
    changed the user's cart first it writes nothing, deletes the anonymous cart
    all the same, and answers with the merged cart at version -1.  Here the two
    mugs are in the answer and in neither stored cart. *)
Theorem merge_can_lose_items :
  ∃ s cart, rtc (System.step base 2) start s ∧
    answer s 3 = Some (Some cart) ∧ k_version cart = Some (-1) ∧
    map (λ l, (l_sku l, l_quantity l)) (k_lines cart) = [("SKU-1", 2)] ∧
    quantities_in s mine = Some [] ∧ version_in s mine = Some "2" ∧
    quantities_in s anon = None.
Proof.
  exists (foldl act start lost_merge). eexists. split; [|split; [vm_compute; reflexivity|]].
  - apply schedule_steps. by repeat (apply Forall_cons_2; [done|]).
  - repeat split.
Qed.

(** ** A commit over an expired cart *)

Definition resurrection : list action := [
  Arrive (System.Create None "EGP" "EG"); Run 1700000000000 0 99;
  Arrive (System.AddLine mine "SKU-1" 2 1); Run 1700000000001 1 99;
  Arrive (System.AddLine mine "SKU-1" 1 2); Run 1700000000002 2 1;
  Expire (Cart.key mine); Run 1700000000003 2 99].

(** A cart that expired, or that a merge deleted, while a mutation was under
    way comes back: the script treats a missing version as a match, so the
    mutation is stored at version 1 and succeeds instead of being refused as
    stale. *)
Theorem commit_resurrects_expired_cart :
  ∃ s cart, rtc (System.step base 2) start s ∧
    answer s 2 = Some (Some cart) ∧ k_version cart = Some 1 ∧
    version_in s mine = Some "1" ∧ quantities_in s mine = Some [("SKU-1", 3)].
Proof.
  exists (foldl act start resurrection). eexists. split; [|split; [vm_compute; reflexivity|]].
  - apply schedule_steps. by repeat (apply Forall_cons_2; [done|]).
  - repeat split.
Qed.

(** ** The price flag of a cart with a dropped product *)

Definition line_at (s : jstr) (p : Z) : StoredLine := {|
  sku := s; productId := "prd_1"; quantity := 1; addedAtPrice := jint p;
  addedAt := "2024-01-01T00:00:00.000Z" |}.
Definition cart_of_lines (ls : list StoredLine) : StoredCart := {|
  id := mine; userId := None; lines := ls; cart_currency := "EGP"; coupons := [];
  countryCode := "EG"; createdAt := ""; updatedAt := "" |}.
Definition priced_mug : PricedCart := {|
  p_lines := Some [Some {| unitEffectivePrice := Some (minor 500 "EGP"); p_lineTotal := Some (minor 500 "EGP");
                 lineDiscount := minor 0 "EGP" |}];
  p_subtotal := minor 500 "EGP"; p_discountTotal := minor 0 "EGP"; p_shippingTotal := minor 0 "EGP";
  p_taxTotal := minor 0 "EGP"; p_grandTotal := minor 500 "EGP"; appliedPromotions := Some [];
  rejectedPromotions := Some []; p_rulesVersion := "1"; p_degraded := false |}.

(** When the catalogue has dropped a product, the flags shift: the priced line
    is compared with the stored line at its own index, which is another line.
    Here the mug still costs what it did when it was added, and is flagged. *)
Theorem price_flag_misaligned :
  let cart := cart_of_lines [line_at "GONE" 900; line_at "SKU-1" 500] in
  let hl := lines cart ≫= Cart.hydrate_line (Cart.by_sku [sample_variant]) in
  ∃ l, Cart.priced_lines 0 cart priced_mug hl = Ok [l] ∧
    l_sku l = "SKU-1" ∧ neqb (amount (l_unitPrice l)) (jint 500) = true ∧ l_priceChanged l = true.
Proof. eexists. repeat split; vm_compute; reflexivity. Qed.
End Races.
