(* ===== verification/Mongo.v ===== *)
(** * The MongoDB interface review-service relies on

    A collection maps the [_id] of a document to the document; an operation on
    one document is atomic.  What an update document ([$set], [$inc],
    [$setOnInsert]) does to a document is not part of the repository:
    [UpdateLanguage] is its interface and [UpdateLaws] its documented effect
    on the fields the service writes.  [reference_updates] satisfies the laws
    and is what the examples evaluate. *)
From stdpp Require Import list.
From S2P Require Import Prelude JsNumber JsString Zod.
Local Open Scope js_scope.
Local Open Scope Z_scope.

(** ** Update documents *)

(** One entry of [$set], [$inc] or [$setOnInsert]; the key may be dotted. *)
Inductive update_op :=
| OSet (key : jstr) (v : jsval)
| OInc (key : jstr) (n : num)
| OSetOnInsert (key : jstr) (v : jsval).

Definition op_key (o : update_op) : jstr :=
  match o with OSet k _ | OInc k _ | OSetOnInsert k _ => k end.

Definition path_of (key : jstr) : list jstr := split_on 46 key.
(** The field of the document an entry changes. *)
Definition root_of (o : update_op) : jstr := default "" (head (path_of (op_key o))).

(** An entry takes effect: [$setOnInsert] only when the document is created. *)
Definition effective (inserting : bool) (o : update_op) : bool :=
  match o with OSetOnInsert _ _ => inserting | _ => true end.

(** Exactly one of the entries changes the field [f]. *)
Definition sole (f : jstr) (o : update_op) (ops : list update_op) : Prop :=
  ∃ before after, ops = before ++ o :: after ∧ root_of o = f ∧
    Forall (λ p, root_of p ≠ f) (before ++ after).

Class UpdateLanguage := {
  (** The document after the update; [None] is a write error. *)
  apply_update : bool → list update_op → jsval → option jsval
}.

(** A number a counter can be incremented from: absent counts as zero. *)
Definition counter (v : jsval) : option num :=
  match v with VUndef => Some (jint 0) | VNum x => Some x | _ => None end.

(** [n] added to element [i] of an array of numbers. *)
Definition bump_at (l : list jsval) (i : nat) (n : num) : option (list jsval) :=
  match l !! i with Some (VNum x) => Some (<[i := VNum (nadd x n)]> l) | _ => None end.

(** Two entries conflict when one path leads to the other. *)
Definition conflict (o o' : update_op) : Prop :=
  path_of (op_key o) `prefix_of` path_of (op_key o') ∨ path_of (op_key o') `prefix_of` path_of (op_key o).

Fixpoint unconflicted (ops : list update_op) : Prop :=
  match ops with [] => True | o :: r => Forall (λ o', ¬ conflict o o') r ∧ unconflicted r end.

(** The entry has a meaning on the document: a counter is a number or absent,
    an embedded document is one or absent, an array index is in range. *)
Definition fits (kvs : list (jstr * jsval)) (o : update_op) : Prop :=
  match path_of (op_key o) with
  | [f] => match o with OInc _ _ => is_Some (counter (prop f (VObj kvs))) | _ => True end
  | [f; s] =>
      match o, prop f (VObj kvs) with
      | OInc _ n, VArr l => ∃ i, s = string_of_int (Z.of_nat i) ∧ is_Some (bump_at l i n)
      | OInc _ _, VObj sub => is_Some (counter (prop s (VObj sub)))
      | _, VUndef => True
      | (OSet _ _ | OSetOnInsert _ _), VObj _ => True
      | _, _ => False
      end
  | _ => False
  end.

Class UpdateLaws `{UpdateLanguage} := {
  update_object ins ops d d' : apply_update ins ops d = Some d' → ∃ kvs, d' = VObj kvs;
  update_untouched ins ops d d' f :
    apply_update ins ops d = Some d' →
    Forall (λ o, effective ins o = true → root_of o ≠ f) ops → prop f d' = prop f d;
  update_set ins ops d d' f v :
    apply_update ins ops d = Some d' → sole f (OSet f v) ops → path_of f = [f] → v ≠ VUndef →
    prop f d' = v;
  update_set_on_insert ops d d' f v :
    apply_update true ops d = Some d' → sole f (OSetOnInsert f v) ops → path_of f = [f] → v ≠ VUndef →
    prop f d' = v;
  update_inc ins ops d d' f n x :
    apply_update ins ops d = Some d' → sole f (OInc f n) ops → path_of f = [f] →
    counter (prop f d) = Some x → prop f d' = VNum (nadd x n);
  update_inc_array ins ops d d' f k i n l l' :
    apply_update ins ops d = Some d' → sole f (OInc k n) ops →
    path_of k = [f; string_of_int (Z.of_nat i)] →
    prop f d = VArr l → bump_at l i n = Some l' → prop f d' = VArr l';
  (** A dotted key creates an embedded document, never an array. *)
  update_inc_absent ins ops d d' f k s n :
    apply_update ins ops d = Some d' → sole f (OInc k n) ops → path_of k = [f; s] →
    prop f d = VUndef → prop f d' = VObj [(s, VNum (nadd (jint 0) n))];
  (** Dotted keys leave an embedded document one. *)
  update_embedded ins ops d d' f sub :
    apply_update ins ops d = Some d' → prop f d = VObj sub →
    Forall (λ o, root_of o = f → length (path_of (op_key o)) = 2%nat) ops → ∃ sub', prop f d' = VObj sub';
  (** Without an effective entry the document stays as it is. *)
  update_none ins ops kvs :
    Forall (λ o, effective ins o = false) ops → apply_update ins ops (VObj kvs) = Some (VObj kvs);
  (** Entries that do not conflict and fit the document are never refused. *)
  update_ok ins ops kvs :
    unconflicted ops → Forall (fits kvs) ops → is_Some (apply_update ins ops (VObj kvs))
}.

(** ** A reference *)

(** [o[f] = v] *)
Fixpoint put (f : jstr) (v : jsval) (kvs : list (jstr * jsval)) : list (jstr * jsval) :=
  match kvs with
  | [] => [(f, v)]
  | (k, w) :: r => if decide (f = k) then (f, v) :: r else (k, w) :: put f v r
  end.

Lemma get_put_eq f v kvs : get f (put f v kvs) = Some v.
Proof.
  induction kvs as [|[k w] r IH]; cbn; [by rewrite decide_True|].
  case_decide; cbn; [by rewrite decide_True|by rewrite decide_False].
Qed.
Lemma get_put_ne f g v kvs : f ≠ g → get g (put f v kvs) = get g kvs.
Proof.
  intros Hn. induction kvs as [|[k w] r IH]; cbn; [by rewrite decide_False by done|].
  case_decide as Hf; cbn; [subst; by rewrite !decide_False by done|]. by rewrite IH.
Qed.

(** The value an entry gives a field that holds [v]. *)
Definition new_value (o : update_op) (v : jsval) : option jsval :=
  match o with
  | OSet _ w | OSetOnInsert _ w => Some w
  | OInc _ n => (λ x, VNum (nadd x n)) <$> counter v
  end.

(** The element an array index names. *)
Definition index_named (s : jstr) (l : list jsval) : option nat :=
  list_find (λ i, s = string_of_int (Z.of_nat i)) (seq 0 (length l)) ≫= λ p, Some p.2.

(** What an entry makes of the field [f] that holds [v], down the path [rest]. *)
Definition deep_value (o : update_op) (rest : list jstr) (v : jsval) : option jsval :=
  match rest with
  | [] => new_value o v
  | [s] =>
      match o, v with
      | OInc _ n, VArr l => i ← index_named s l; VArr <$> bump_at l i n
      | _, VUndef => (λ w, VObj [(s, w)]) <$> new_value o VUndef
      | _, VObj sub => (λ w, VObj (put s w sub)) <$> new_value o (prop s v)
      | _, _ => None
      end
  | _ => None
  end.

Definition apply_one (inserting : bool) (d : option jsval) (o : update_op) : option jsval :=
  d ≫= λ d,
  if effective inserting o then
    match d, path_of (op_key o) with
    | VObj kvs, f :: rest => (λ w, VObj (put f w kvs)) <$> deep_value o rest (prop f d)
    | _, _ => None
    end
  else match d with VObj _ => Some d | _ => None end.

#[export] Instance reference_updates : UpdateLanguage := {|
  apply_update ins ops d :=
    foldl (apply_one ins) (match d with VObj _ => Some d | _ => None end) ops
|}.

Lemma prop_put_eq f v kvs : prop f (VObj (put f v kvs)) = v.
Proof. cbn. by rewrite get_put_eq. Qed.
Lemma prop_put_ne f g v kvs : f ≠ g → prop g (VObj (put f v kvs)) = prop g (VObj kvs).
Proof. intros Hn. cbn. by rewrite get_put_ne. Qed.

Lemma apply_none ins ops : foldl (apply_one ins) None ops = None.
Proof. by induction ops. Qed.

(** One entry: an effective one changes its root, and only that. *)
Lemma apply_one_root ins d o d' :
  apply_one ins (Some d) o = Some d' → effective ins o = true →
  ∃ f rest w, path_of (op_key o) = f :: rest ∧ root_of o = f ∧
    deep_value o rest (prop f d) = Some w ∧ prop f d' = w ∧ (∀ g, g ≠ f → prop g d' = prop g d).
Proof.
  unfold apply_one, root_of. cbn. intros Ha He; rewrite He in Ha. destruct d as [| | | | | |kvs]; try done.
  destruct (path_of (op_key o)) as [|f rest]; [done|].
  apply fmap_Some in Ha as (w & Hw & ->). exists f, rest, w.
  rewrite prop_put_eq. repeat (split; [done|]). intros g Hg. by apply prop_put_ne.
Qed.

Lemma apply_one_other ins d o d' f :
  apply_one ins (Some d) o = Some d' → (effective ins o = true → root_of o ≠ f) → prop f d' = prop f d.
Proof.
  intros Ha Hf. destruct (effective ins o) eqn:He.
  - destruct (apply_one_root _ _ _ _ Ha He) as (g & rest & w & _ & Hr & _ & _ & Ho).
    apply Ho. rewrite <- Hr. intros ->. by apply Hf.
  - unfold apply_one in Ha. cbn in Ha. rewrite He in Ha. by destruct d; try done; injection Ha as <-.
Qed.

Lemma apply_one_object ins d o d' : apply_one ins (Some d) o = Some d' → ∃ kvs, d' = VObj kvs.
Proof.
  unfold apply_one. cbn. destruct (effective ins o).
  - destruct d as [| | | | | |kvs]; try done. destruct (path_of _) as [|f rest]; [done|].
    intros (w & _ & ->)%fmap_Some. eauto.
  - destruct d; try done. intros [= <-]. eauto.
Qed.

Lemma apply_all_object ins ops d d' :
  foldl (apply_one ins) (Some d) ops = Some d' → (∃ kvs, d = VObj kvs) → ∃ kvs, d' = VObj kvs.
Proof.
  revert d. induction ops as [|o ops IH]; intros d Ha Hd; cbn [foldl] in Ha; [naive_solver|].
  destruct (apply_one ins (Some d) o) as [d1|] eqn:H1; [|by rewrite apply_none in Ha].
  eapply IH; [exact Ha|]. by eapply apply_one_object.
Qed.

Lemma apply_all_other ins ops d d' f :
  foldl (apply_one ins) (Some d) ops = Some d' →
  Forall (λ o, effective ins o = true → root_of o ≠ f) ops → prop f d' = prop f d.
Proof.
  revert d. induction ops as [|o ops IH]; intros d Ha Hf; cbn [foldl] in Ha; [by injection Ha as ->|].
  inversion_clear Hf as [|? ? Ho Hr].
  destruct (apply_one ins (Some d) o) as [d1|] eqn:H1; [|by rewrite apply_none in Ha].
  rewrite (IH d1 Ha Hr). by eapply apply_one_other.
Qed.

Lemma apply_all_embedded ins ops d d' f sub :
  foldl (apply_one ins) (Some d) ops = Some d' → prop f d = VObj sub →
  Forall (λ o, root_of o = f → length (path_of (op_key o)) = 2%nat) ops → ∃ sub', prop f d' = VObj sub'.
Proof.
  revert d sub. induction ops as [|o ops IH]; intros d sub Ha Hs Hf; cbn [foldl] in Ha.
  { injection Ha as ->. eauto. }
  inversion_clear Hf as [|? ? Ho Hr].
  destruct (apply_one ins (Some d) o) as [d1|] eqn:H1; [|by rewrite apply_none in Ha].
  assert (∃ sub1, prop f d1 = VObj sub1) as [sub1 Hs1]; [|by eapply IH].
  destruct (decide (effective ins o = true ∧ root_of o = f)) as [[He Hrt]|Hn].
  - destruct (apply_one_root _ _ _ _ H1 He) as (g & rest & w & Hp & Hg & Hw & Hv & _).
    specialize (Ho Hrt). rewrite Hrt in Hg. subst g. rewrite Hp in Ho.
    destruct rest as [|s [|? ?]]; try done. cbn [deep_value] in Hw. rewrite Hs in Hw.
    exists (match w with VObj k => k | _ => [] end). rewrite Hv.
    by destruct o; apply fmap_Some in Hw as (x & _ & ->).
  - exists sub. rewrite <- Hs. eapply apply_one_other; [exact H1|]. intros He Hrt. by apply Hn.
Qed.

(** The only entry that changes a field decides what the field holds. *)
Lemma apply_all_sole ins ops d d' f o :
  foldl (apply_one ins) (Some d) ops = Some d' → sole f o ops → effective ins o = true →
  ∃ rest, path_of (op_key o) = f :: rest ∧ deep_value o rest (prop f d) = Some (prop f d').
Proof.
  intros Ha (before & after & -> & Hr & Hf) He. rewrite foldl_app in Ha. cbn [foldl] in Ha.
  apply Forall_app in Hf as [Hb Hf].
  destruct (foldl (apply_one ins) (Some d) before) as [d1|] eqn:H1; [|by rewrite apply_none in Ha].
  destruct (apply_one ins (Some d1) o) as [d2|] eqn:H2; [|by rewrite apply_none in Ha].
  destruct (apply_one_root _ _ _ _ H2 He) as (g & rest & w & Hp & Hg & Hw & Hv & _).
  rewrite Hr in Hg. subst g. exists rest. split; [done|].
  rewrite (apply_all_other _ _ _ _ f Ha) by (eapply Forall_impl; [exact Hf|]; auto).
  rewrite Hv, <- Hw. f_equal. symmetry. eapply apply_all_other; [exact H1|].
  eapply Forall_impl; [exact Hb|]. auto.
Qed.

Lemma index_named_ok i l : (i < length l)%nat → index_named (string_of_int (Z.of_nat i)) l = Some i.
Proof.
  intros Hi. unfold index_named.
  assert (list_find (λ j, string_of_int (Z.of_nat i) = string_of_int (Z.of_nat j)) (seq 0 (length l))
          = Some (i, i)) as ->; [|done].
  apply list_find_Some. split; [by apply lookup_seq|]. split; [done|].
  intros j y [-> Hj]%lookup_seq Hlt Hs. apply string_of_int_inj in Hs. lia.
Qed.

Lemma bump_at_length l i n l' : bump_at l i n = Some l' → (i < length l)%nat.
Proof. unfold bump_at. intros H. apply lookup_lt_is_Some. destruct (l !! i); [eauto|done]. Qed.

(** An entry that fits has an effect. *)
Lemma fits_applies ins kvs o : fits kvs o → is_Some (apply_one ins (Some (VObj kvs)) o).
Proof.
  unfold fits, apply_one. cbn [mbind option_bind]. destruct (effective ins o); [|by eexists].
  destruct (path_of (op_key o)) as [|f [|s [|? ?]]]; try done; rewrite fmap_is_Some; cbn [deep_value].
  - destruct o; cbn; [by eexists| |by eexists]. by rewrite fmap_is_Some.
  - destruct (prop f (VObj kvs)) eqn:Hp; destruct o; cbn [new_value]; try done; try by eexists.
    + intros (i & -> & Hb). destruct Hb as [l' Hb].
      rewrite index_named_ok by (by eapply bump_at_length). cbn. rewrite Hb. by eexists.
    + by rewrite !fmap_is_Some.
Qed.

(** It leaves the entries it does not conflict with fitting. *)
Lemma fits_preserved ins kvs o kvs' o' :
  apply_one ins (Some (VObj kvs)) o = Some (VObj kvs') → ¬ conflict o o' → fits kvs o' → fits kvs' o'.
Proof.
  intros Ha Hc Hf. destruct (decide (effective ins o = true ∧ root_of o = root_of o')) as [[He Hr]|Hn].
  2:{ assert (∀ f, f = root_of o' → prop f (VObj kvs') = prop f (VObj kvs)) as Hp.
      { intros f ->. eapply apply_one_other; [exact Ha|]. intros He Hr. by apply Hn. }
      unfold fits, root_of in *.
      destruct (path_of (op_key o')) as [|f [|s [|? ?]]]; try done; rewrite (Hp f) by done; done. }
  destruct (apply_one_root _ _ _ _ Ha He) as (f & rest & w & Hp & Hf0 & Hw & Hv & _).
  rewrite Hr in Hf0. unfold root_of in Hf0. unfold conflict in Hc. rewrite Hp in Hc. unfold fits in *.
  destruct (path_of (op_key o')) as [|g [|s' [|? ?]]]; try done; cbn in Hf0; subst g.
  { exfalso. apply Hc. right. by exists rest. }
  destruct rest as [|s [|? ?]]; [|clear Hr|done].
  { exfalso. apply Hc. left. by exists [s']. }
  assert (s ≠ s') as Hs. { intros ->. apply Hc. by left. }
  clear Ha Hp. rewrite Hv. cbn [deep_value] in Hw.
  destruct (prop f (VObj kvs)) as [| | | | |l|sub] eqn:Hold; destruct o; try done;
    try (apply fmap_Some in Hw as (x & Hx & ->)); try (destruct o'; try done; cbn [counter prop get];
      first [by rewrite get_put_ne | by rewrite decide_False by done; eexists | idtac]).
  apply bind_Some in Hw as (i & Hi & (l' & Hl & ->)%fmap_Some). destruct Hf as (i' & -> & Hb).
  exists i'. split; [done|].
  assert (i ≠ i') as Hii.
  { intros <-. apply Hs. unfold index_named in Hi. apply bind_Some in Hi as ((j & y) & Hl' & [= <-]).
    apply list_find_Some in Hl' as (_ & -> & _). done. }
  unfold bump_at in Hl, Hb |- *. destruct (l !! i) as [[]|] eqn:E; try done. injection Hl as <-.
  rewrite list_lookup_insert_ne by done. destruct (l !! i') as [[]|]; try (by destruct Hb); by eexists.
Qed.

Lemma apply_all_ok ins ops kvs :
  unconflicted ops → Forall (fits kvs) ops → is_Some (foldl (apply_one ins) (Some (VObj kvs)) ops).
Proof.
  revert kvs. induction ops as [|o ops IH]; intros kvs Hu Hf; cbn [foldl]; [by eexists|].
  inversion_clear Hf as [|? ? Ho Hr]. destruct Hu as [Hc Hu].
  destruct (fits_applies ins _ _ Ho) as [d Hd]. destruct (apply_one_object _ _ _ _ Hd) as [kvs' ->].
  rewrite Hd. apply IH; [done|]. rewrite Forall_forall in Hc, Hr |- *.
  intros o' Ho'. eapply fits_preserved; eauto.
Qed.

(** The sole entry for [f] of an update of the reference. *)
Lemma reference_sole ins ops d d' f o rest :
  apply_update ins ops d = Some d' → sole f o ops → effective ins o = true →
  path_of (op_key o) = f :: rest → deep_value o rest (prop f d) = Some (prop f d').
Proof.
  cbn. intros Ha Hs He Hp. destruct d as [| | | | | |kvs]; try (by rewrite apply_none in Ha).
  destruct (apply_all_sole _ _ _ _ _ _ Ha Hs He) as (r & Hr & Hd). rewrite Hp in Hr. by injection Hr as ->.
Qed.

#[export] Instance reference_laws : UpdateLaws.
Proof.
  split.
  - cbn. intros ins ops d d' Ha. destruct d as [| | | | | |kvs]; try (by rewrite apply_none in Ha).
    eapply apply_all_object; eauto.
  - cbn. intros ins ops d d' f Ha Hf. destruct d as [| | | | | |kvs]; try (by rewrite apply_none in Ha).
    by eapply apply_all_other.
  - intros ins ops d d' f v Ha Hs Hp Hv. pose proof (reference_sole _ _ _ _ _ _ [] Ha Hs eq_refl Hp) as H.
    by injection H.
  - intros ops d d' f v Ha Hs Hp Hv. pose proof (reference_sole _ _ _ _ _ _ [] Ha Hs eq_refl Hp) as H.
    by injection H.
  - intros ins ops d d' f n x Ha Hs Hp Hx. pose proof (reference_sole _ _ _ _ _ _ [] Ha Hs eq_refl Hp) as H.
    cbn [deep_value new_value] in H. rewrite Hx in H. by injection H.
  - intros ins ops d d' f k i n l l' Ha Hs Hp Hl Hb.
    pose proof (reference_sole _ _ _ _ _ _ [_] Ha Hs eq_refl Hp) as H. cbn [deep_value] in H.
    rewrite Hl, index_named_ok in H by (by eapply bump_at_length). cbn in H. rewrite Hb in H. by injection H.
  - intros ins ops d d' f k s n Ha Hs Hp Hu.
    pose proof (reference_sole _ _ _ _ _ _ [_] Ha Hs eq_refl Hp) as H. cbn [deep_value] in H.
    rewrite Hu in H. by injection H.
  - cbn. intros ins ops d d' f sub Ha. destruct d as [| | | | | |kvs]; try (by rewrite apply_none in Ha).
    intros ? ?; by eapply apply_all_embedded.
  - cbn. intros ins ops kvs Hf. induction Hf as [|o ops Ho _ IH]; cbn [foldl]; [done|].
    unfold apply_one at 2. cbn [mbind option_bind]. by rewrite Ho.
  - intros ins ops kvs. apply apply_all_ok.
Qed.
