(* ===== verification/Rating.v ===== *)
(** * review-service: rating arithmetic (rating.ts)

    The histogram of a product, its average and count, and the change one
    review makes.  An array may have slots that were never assigned or that
    hold [undefined]; the theorems are about histograms of counts. *)
From Stdlib Require Import QArith Qround Lqa.
From S2P Require Import Prelude JsNumber JsString.
Local Open Scope js_scope.
Local Open Scope Z_scope.

Module Rating.

(** A slot of a JavaScript array. *)
Inductive slot := Hole | Undef | Val (x : num).

Definition Distribution := list slot.

Record RatingSummary := { average : num; count : num }.

Definition EMPTY_DISTRIBUTION : Distribution := replicate 5 (Val (jint 0)).

(** [None] is the [RangeError]. *)
Definition bucketFor (rating : num) : option num :=
  if negb (is_integer rating) || nlt rating (jint 1) || nlt (jint 5) rating then None
  else Some (nsub rating (jint 1)).

(** An element in arithmetic: [undefined] is [NaN]. *)
Definition number_of (s : slot) : num := match s with Val x => x | _ => NaN end.

(** [d.reduce((acc, n, index) => f(acc, n, index), acc)]: holes are skipped. *)
Fixpoint reduce (f : num → num → Z → num) (acc : num) (index : Z) (d : Distribution) : num :=
  match d with
  | [] => acc
  | Hole :: r => reduce f acc (index + 1) r
  | s :: r => reduce f (f acc (number_of s) index) (index + 1) r
  end.

Definition total (d : Distribution) : num := reduce (λ total n _, nadd total n) (jint 0) 0 d.
Definition weighted (d : Distribution) : num :=
  reduce (λ acc n index, nadd acc (nmul n (nadd (jint index) (jint 1)))) (jint 0) 0 d.

Definition summarise (distribution : Distribution) : RatingSummary :=
  let count := total distribution in
  if neqb count (jint 0) then {| average := jint 0; count := jint 0 |}
  else {| average := ndiv (nround (nmul (ndiv (weighted distribution) count) (jint 10))) (jint 10);
          count := count |}.

(** [Math.max(0, x)]. *)
Definition max0 (x : num) : num :=
  match x with NaN => NaN | _ => if nlt x (jint 0) then jint 0 else x end.

(** [[...d]]: a hole is copied as [undefined]. *)
Definition spread (d : Distribution) : Distribution :=
  map (λ s, match s with Hole => Undef | _ => s end) d.

(** [d[i] ?? 0] *)
Definition at_or_0 (d : Distribution) (i : nat) : num :=
  match d !! i with Some (Val x) => x | _ => jint 0 end.

(** [d[i] = x]: past the end the array grows, with holes up to [i]. *)
Definition assign (d : Distribution) (i : nat) (x : num) : Distribution :=
  if decide (i < length d)%nat then <[i := Val x]> d
  else d ++ replicate (i - length d) Hole ++ [Val x].

(** The array index a number denotes. *)
Definition index_of (x : num) : nat := match x with Fin q => Z.to_nat (Qfloor q) | _ => 0%nat end.

Definition applyDelta (distribution : Distribution) (rating delta : num) : option Distribution :=
  let next := spread distribution in
  index ← bucketFor rating;
  let i := index_of index in
  Some (assign next i (max0 (nadd (at_or_0 next i) delta))).

(** ** Histograms of counts *)

(** The array that holds the counts [c]. *)
Definition counts (c : list Z) : Distribution := map (λ z, Val (jint z)) c.

(** How many reviews there are and how many stars they gave. *)
Definition reviews_of (c : list Z) : Z := foldr Z.add 0 c.
Fixpoint stars_from (i : Z) (c : list Z) : Z :=
  match c with [] => 0 | n :: r => n * (i + 1) + stars_from (i + 1) r end.
Definition stars_of (c : list Z) : Z := stars_from 0 c.

(** Five counts that are not negative, of fewer than [2^40] reviews. *)
Definition histogram (c : list Z) : Prop :=
  length c = 5%nat ∧ Forall (λ n, 0 <= n) c ∧ reviews_of c < 2 ^ 40.

(** Tenths of a star, half a tenth rounded up. *)
Definition tenths (c : list Z) : Z := (20 * stars_of c + reviews_of c) / (2 * reviews_of c).

Example counts_42 : summarise (counts [0; 0; 1; 2; 2]) =
  {| average := rnd (42 # 10); count := jint 5 |}.
Proof. vm_compute. reflexivity. Qed.

(** A histogram spelt out. *)
Lemma histogram_inv c : histogram c → ∃ a b d e f, c = [a; b; d; e; f] ∧
  (0 <= a ∧ 0 <= b ∧ 0 <= d ∧ 0 <= e ∧ 0 <= f) ∧ a + b + d + e + f < 2 ^ 40 ∧
  reviews_of c = a + b + d + e + f ∧ stars_of c = a + 2 * b + 3 * d + 4 * e + 5 * f.
Proof.
  intros (Hl & Hf & Hn). destruct c as [|a [|b [|d [|e [|f [|? ?]]]]]]; try done.
  rewrite !Forall_cons in Hf. exists a, b, d, e, f. unfold stars_of.
  cbn [reviews_of stars_from foldr] in *. split_and!; try done; try lia; tauto.
Qed.

Lemma total_counts c : histogram c → total (counts c) = jint (reviews_of c).
Proof.
  intros (a & b & d & e & f & -> & Hp & Hn & -> & _)%histogram_inv.
  unfold total, counts. cbn [map reduce number_of].
  rewrite !jint_add by lia. f_equal.
Qed.

Lemma weighted_counts c : histogram c → weighted (counts c) = jint (stars_of c).
Proof.
  intros (a & b & d & e & f & -> & Hp & Hn & _ & ->)%histogram_inv.
  unfold weighted, counts. cbn [map reduce number_of].
  rewrite !(jint_add _ 1) by lia. rewrite !jint_mul by lia. rewrite !jint_add by lia.
  f_equal. lia.
Qed.

(** ** The rounding of the average is exact *)

Local Open Scope Q_scope.

(** A tie [(2 k - 1) / 20] between two tenths is rounded up, for each of the
    forty ties between one and five stars. *)
Definition tie (k : Z) : bool :=
  match nround (nmul (rnd (inject_Z (2 * k - 1) / inject_Z 20)) (jint 10)) with
  | Fin q => Qeq_bool q (inject_Z k)
  | _ => false
  end.

Lemma tie_up k : (11 <= k <= 50)%Z →
  nround (nmul (rnd (inject_Z (2 * k - 1) / inject_Z 20)) (jint 10)) = jint k.
Proof.
  intros Hk. assert (forallb tie (map (λ i, Z.of_nat i + 11)%Z (seq 0 40)) = true) as Hall
    by (vm_compute; reflexivity).
  rewrite forallb_forall in Hall. specialize (Hall k).
  assert (In k (map (λ i, Z.of_nat i + 11)%Z (seq 0 40))) as Hin.
  { apply in_map_iff. exists (Z.to_nat (k - 11)). split; [lia|]. apply in_seq. lia. }
  specialize (Hall Hin). unfold tie in Hall. destruct (nmul _ _) as [| |q]; try done. cbn in Hall |- *.
  apply Qeq_bool_iff in Hall. unfold jint. f_equal. f_equal.
  apply inject_Z_injective. exact Hall.
Qed.

(** Ten times the quotient, computed in binary64, is within [2^-46]. *)
Lemma ten_times_near w n : (0 < n < 2 ^ 40)%Z → (n <= w <= 5 * n)%Z →
  ∃ s, nmul (ndiv (jint w) (jint n)) (jint 10) = Fin s ∧
    10 * (inject_Z w / inject_Z n) - (1 # 2 ^ 46) <= s ∧
    s <= 10 * (inject_Z w / inject_Z n) + (1 # 2 ^ 46).
Proof.
  intros Hn Hw. rewrite ndiv_jint by lia. set (x := inject_Z w / inject_Z n).
  assert (1 <= x) as H1 by (change 1 with (inject_Z 1 / inject_Z 1); apply Qfrac_le; lia).
  assert (x <= 5) as H5 by (change 5 with (inject_Z 5 / inject_Z 1); apply Qfrac_le; lia).
  destruct (rnd_near x 5) as (r & -> & Hlo & Hhi); [apply frac_normal; lia|lra|done|].
  change (5 * Qpower 2 (-53)) with (5 # 9007199254740992) in Hlo, Hhi.
  cbn [nmul jint]. change (inject_Z 10) with 10.
  destruct (rnd_near (r * 10) 64) as (s & -> & Hlo' & Hhi'); [|lra..|].
  - split; rewrite Qabs.Qabs_pos by lra.
    + apply Qle_trans with 1; [discriminate|lra].
    + apply Qle_trans with 64; [lra|discriminate].
  - change (64 * Qpower 2 (-53)) with (64 # 9007199254740992) in Hlo', Hhi'.
    exists s. split; [done|]. change (2 ^ 46)%positive with 70368744177664%positive. split; lra.
Qed.

(** Away from the ties the error cannot move the result to another tenth. *)
Lemma round_tenths w n : (0 < n < 2 ^ 40)%Z → (n <= w <= 5 * n)%Z →
  nround (nmul (ndiv (jint w) (jint n)) (jint 10)) = jint ((20 * w + n) / (2 * n)).
Proof.
  intros Hn Hw. set (k := ((20 * w + n) / (2 * n))%Z).
  pose proof (Z.div_mod (20 * w + n) (2 * n) ltac:(lia)) as Hdm. fold k in Hdm.
  pose proof (Z.mod_pos_bound (20 * w + n) (2 * n) ltac:(lia)) as Hr.
  set (r := ((20 * w + n) mod (2 * n))%Z) in *.
  destruct (decide (r = 0%Z)) as [Hr0|Hr0].
  - assert (11 <= k <= 50)%Z as Hk by nia.
    rewrite <- (tie_up k Hk), ndiv_jint by lia. do 2 f_equal. apply rnd_proper.
    apply Qle_antisym; apply Qfrac_le; lia.
  - destruct (ten_times_near w n Hn Hw) as (s & -> & Hlo & Hhi).
    cbn [nround]. f_equal. f_equal.
    change (2 ^ 46)%positive with 70368744177664%positive in *.
    assert (inject_Z (20 * w) / inject_Z (2 * n) == 10 * (inject_Z w / inject_Z n)) as Hx.
    { rewrite !inject_Z_mult. field. intros H. apply (inject_Z_injective n 0) in H. lia. }
    rewrite <- Hx in Hlo, Hhi.
    assert (inject_Z ((2 * n) * k + 1 - n) / inject_Z (2 * n) <= inject_Z (20 * w) / inject_Z (2 * n)) as Ha
      by (apply Qfrac_le; nia).
    assert (inject_Z (20 * w) / inject_Z (2 * n) <= inject_Z ((2 * n) * k + n - 1) / inject_Z (2 * n)) as Hb
      by (apply Qfrac_le; nia).
    assert (inject_Z ((2 * n) * k + 1 - n) / inject_Z (2 * n) == inject_Z k - (1#2) + inject_Z 1 / inject_Z (2 * n)) as Ha'.
    { replace ((2 * n) * k + 1 - n)%Z with (2 * (n * k) + 1 - n)%Z by lia. unfold Z.sub.
      rewrite !inject_Z_plus, inject_Z_opp, !inject_Z_mult. field.
      intros H. apply (inject_Z_injective n 0) in H. lia. }
    assert (inject_Z ((2 * n) * k + n - 1) / inject_Z (2 * n) == inject_Z k + (1#2) - inject_Z 1 / inject_Z (2 * n)) as Hb'.
    { replace ((2 * n) * k + n - 1)%Z with (2 * (n * k) + n - 1)%Z by lia. unfold Z.sub.
      rewrite !inject_Z_plus, inject_Z_opp, !inject_Z_mult. field.
      intros H. apply (inject_Z_injective n 0) in H. lia. }
    assert (inject_Z 1 / inject_Z (2 ^ 41) <= inject_Z 1 / inject_Z (2 * n)) as Hm by (apply Qfrac_le; lia).
    change (inject_Z 1 / inject_Z (2 ^ 41)) with (1 # 2199023255552) in Hm.
    apply Qfloor_unique; [|rewrite inject_Z_plus; change (inject_Z 1) with 1]; lra.
Qed.

Local Close Scope Q_scope.

(** The summary of a histogram, and the range of its average. *)
Lemma summarise_counts c : histogram c →
  summarise (counts c) =
    (if reviews_of c =? 0 then {| average := jint 0; count := jint 0 |}
     else {| average := rnd (inject_Z (tenths c) / inject_Z 10); count := jint (reviews_of c) |}).
Proof.
  intros Hc. pose proof (histogram_inv c Hc) as (a & b & d & e & f & _ & Hp & Hn & Hr & Hs).
  unfold summarise. rewrite total_counts, weighted_counts by done.
  cbn [neqb jint]. destruct (Z.eqb_spec (reviews_of c) 0) as [->|H0]; [done|].
  assert (Qeq_bool (inject_Z (reviews_of c)) (inject_Z 0) = false) as ->.
  { destruct (Qeq_bool _ _) eqn:E; [|done]. apply Qeq_bool_iff in E. exfalso. apply H0, inject_Z_injective, E. }
  rewrite round_tenths by lia. by rewrite ndiv_jint.
Qed.

Lemma tenths_range c : histogram c → 0 < reviews_of c →
  10 <= tenths c <= 50 ∧
  2 * tenths c * reviews_of c - reviews_of c <= 20 * stars_of c < 2 * tenths c * reviews_of c + reviews_of c.
Proof.
  intros Hc H0. pose proof (histogram_inv c Hc) as (a & b & d & e & f & _ & Hp & Hn & Hr & Hs).
  unfold tenths.
  pose proof (Z.div_mod (20 * stars_of c + reviews_of c) (2 * reviews_of c) ltac:(lia)).
  pose proof (Z.mod_pos_bound (20 * stars_of c + reviews_of c) (2 * reviews_of c) ltac:(lia)). nia.
Qed.

(** C12. The rating a product page shows is the average of its reviews to the nearest
    tenth of a star, half a tenth up, exactly: binary64 arithmetic never moves
    it to another tenth, for any histogram of fewer than [2^40] reviews.  It is
    between one and five stars, and both numbers are zero without a review. *)
Theorem average_is_nearest_tenth c :
  histogram c →
  summarise (counts c) =
    (if reviews_of c =? 0 then {| average := jint 0; count := jint 0 |}
     else {| average := rnd (inject_Z (tenths c) / inject_Z 10); count := jint (reviews_of c) |}) ∧
  (0 < reviews_of c →
     10 <= tenths c <= 50 ∧
     2 * tenths c * reviews_of c - reviews_of c <= 20 * stars_of c < 2 * tenths c * reviews_of c + reviews_of c).
Proof. intros Hc. split; [by apply summarise_counts|by apply tenths_range]. Qed.

(** [c] with [delta] more reviews of [rating] stars, not less than none. *)
Definition bump (c : list Z) (rating delta : Z) : list Z :=
  alter (λ n, Z.max 0 (n + delta)) (Z.to_nat (rating - 1)) c.

(** A review changes the bucket of its own stars and no other: for one to five
    stars the bucket moves by [delta] and stops at zero, and a review that is
    published and withdrawn leaves the histogram as it was; any other rating is
    refused. *)
Theorem delta_moves_one_bucket c rating delta :
  histogram c → Z.abs delta < 2 ^ 40 →
  applyDelta (counts c) (jint rating) (jint delta) =
    (if (1 <=? rating) && (rating <=? 5) then Some (counts (bump c rating delta)) else None) ∧
  (0 <= delta → bump (bump c rating delta) rating (- delta) = c).
Proof.
  intros Hc Hd. pose proof (histogram_inv c Hc) as (a & b & d & e & f & -> & Hp & Hn & _ & _).
  assert (∀ x y : Z, nlt (jint x) (jint y) = (x <? y)) as Hlt.
  { intros x y. cbn. apply eq_true_iff_eq. rewrite negb_true_iff, Qle_bool_false, Z.ltb_lt.
    rewrite <- Zlt_Qlt. done. }
  assert (∀ x, max0 (jint x) = jint (Z.max 0 x)) as Hmax.
  { intros x. cbn [max0 jint]. change (Fin (inject_Z x)) with (jint x). rewrite Hlt.
    destruct (Z.ltb_spec x 0); f_equal; lia. }
  split.
  - unfold applyDelta, bucketFor. rewrite is_integer_jint, !Hlt. cbn [negb orb].
    destruct (Z.ltb_spec rating 1), (Z.ltb_spec 5 rating), (Z.leb_spec 1 rating), (Z.leb_spec rating 5);
      try lia; cbn [orb andb mbind option_bind]; try done.
    rewrite jint_sub by lia. cbn [index_of jint]. rewrite Qfloor_Z.
    assert (rating = 1 ∨ rating = 2 ∨ rating = 3 ∨ rating = 4 ∨ rating = 5) as [->|[->|[->|[->| ->]]]] by lia;
      unfold bump, at_or_0, spread, assign, counts;
      match goal with |- context [Z.to_nat (?r - 1)] =>
        let i := eval vm_compute in (Z.to_nat (r - 1)) in change (Z.to_nat (r - 1)) with i end;
      cbn [map lookup list_lookup];
      rewrite jint_add by lia; rewrite Hmax; reflexivity.
  - intros Hd0. unfold bump.
    destruct (Z.to_nat (rating - 1)) as [|[|[|[|[|n]]]]]; cbn; do 5 (f_equal; try lia); done.
Qed.

Lemma average_is_nearest_tenth_witness :
  histogram [0; 0; 1; 2; 2] ∧
  average (summarise (counts [0; 0; 1; 2; 2])) = rnd (inject_Z 42 / inject_Z 10).
Proof.
  assert (histogram [0; 0; 1; 2; 2]) as Hh.
  { split_and!; [reflexivity| |reflexivity]. repeat constructor; discriminate. }
  split; [exact Hh|]. destruct (average_is_nearest_tenth _ Hh) as [-> _]. reflexivity.
Defined.
End Rating.
