(* ===== verification/Cursor.v ===== *)
(** * Page cursors

    A cursor of the review listing is the creation date of the last review in
    ISO format, in base64url.  [DateParse] is the parser of dates: which texts
    it reads is left to the engine, but it reads what [toISOString] prints;
    [iso_dates] is one that does. *)
From S2P Require Import Prelude JsNumber JsString JsDate.
Local Open Scope js_scope.
Local Open Scope Z_scope.

Class DateParse := {
  (** The time value of [new Date(text)]; [NaN] is an invalid date. *)
  date_parse : jstr → num;
  date_parse_iso t : clock_ok t → date_parse (toISOString t) = jint t
}.

(** ** Base64, URL variant *)

Definition b64_digit (n : N) : N :=
  (if n <? 26 then 65 + n else if n <? 52 then 71 + n else if n <? 62 then n - 4
   else if n =? 62 then 45 else 95)%N.

(** Either alphabet is read; other code units are skipped. *)
Definition b64_value (c : N) : option N :=
  (if is_upper c then Some (c - 65) else if is_lower c then Some (c - 71)
   else if is_digit c then Some (c + 4) else if (c =? 45) || (c =? 43) then Some 62
   else if (c =? 95) || (c =? 47) then Some 63 else None)%N.

(** [buffer.toString('base64url')]: no padding. *)
Fixpoint b64_encode (bytes : list N) : jstr :=
  match bytes with
  | [] => []
  | [a] => [b64_digit (a / 4); b64_digit (a mod 4 * 16)]%N
  | [a; b] => [b64_digit (a / 4); b64_digit (a mod 4 * 16 + b / 16); b64_digit (b mod 16 * 4)]%N
  | a :: b :: c :: r =>
      ([b64_digit (a / 4); b64_digit (a mod 4 * 16 + b / 16);
        b64_digit (b mod 16 * 4 + c / 64); b64_digit (c mod 64)] ++ b64_encode r)%N
  end.

Fixpoint b64_groups (l : list N) : list N :=
  match l with
  | p :: q :: r :: s :: t =>
      ([p * 4 + q / 16; q mod 16 * 16 + r / 4; r mod 4 * 64 + s] ++ b64_groups t)%N
  | [p; q; r] => [p * 4 + q / 16; q mod 16 * 16 + r / 4]%N
  | [p; q] => [p * 4 + q / 16]%N
  | _ => []
  end.
(** [Buffer.from(s, 'base64url')] *)
Definition b64_decode (s : jstr) : list N := b64_groups (omap b64_value s).

(** Bytes of a text of ASCII characters, and back; other bytes are read as the
    replacement character. *)
Definition bytes_of (s : jstr) : list N := s ≫= utf8_bytes.
Definition text_of (bytes : list N) : jstr := map (λ b, if (b <? 128)%N then b else 65533%N) bytes.

Definition encode_cursor (t : Z) : jstr := b64_encode (bytes_of (toISOString t)).
Definition decode_cursor `{DateParse} (c : jstr) : num := date_parse (text_of (b64_decode c)).

(** ** Base64 round trip *)

Lemma b64_value_digit n : (n < 64)%N → b64_value (b64_digit n) = Some n.
Proof.
  intros Hn.
  assert (forallb (λ n, bool_decide (b64_value (b64_digit n) = Some n)) (map N.of_nat (seq 0 64)) = true) as Hall
    by (vm_compute; reflexivity).
  rewrite forallb_forall in Hall. specialize (Hall n). rewrite bool_decide_eq_true in Hall. apply Hall.
  apply in_map_iff. exists (N.to_nat n). split; [lia|]. apply in_seq. lia.
Qed.

Lemma list_ind3 {A} (P : list A → Prop) :
  P [] → (∀ a, P [a]) → (∀ a b, P [a; b]) → (∀ a b c l, P l → P (a :: b :: c :: l)) → ∀ l, P l.
Proof.
  intros H0 H1 H2 H3. assert (∀ n l, (length l < n)%nat → P l) as Hn.
  { intros n. induction n as [|n IH]; intros l Hl; [lia|].
    destruct l as [|a [|b [|c l]]]; auto. apply H3, IH. cbn in Hl. lia. }
  intros l. apply (Hn (S (length l))). lia.
Qed.

Lemma b64_round_trip bytes : Forall (λ b, (b < 256)%N) bytes → b64_decode (b64_encode bytes) = bytes.
Proof.
  unfold b64_decode. induction bytes as [|a|a b|a b c r IH] using list_ind3; intros Hf;
    rewrite ?Forall_cons in Hf; cbn [b64_encode app omap list_omap];
    rewrite ?b64_value_digit by (zify; Z.to_euclidean_division_equations; lia);
    cbn [b64_groups app]; [done|..]; repeat f_equal;
    try (zify; Z.to_euclidean_division_equations; lia).
  apply IH. tauto.
Qed.

(** ** A date parser *)

(** The day of a civil date: the inverse of [civil]. *)
Definition days_of (y m d : Z) : Z :=
  let y' := if m <=? 2 then y - 1 else y in
  let mp := if m <=? 2 then m + 9 else m - 3 in
  let yoe := y' mod 400 in
  yoe * 365 + yoe / 4 - yoe / 100 + ((153 * mp + 2) / 5 + d - 1) + y' / 400 * 146097 - 719468.

Lemma year_of_era doe : 0 <= doe < 146097 →
  let yoe := (doe - doe / 1460 + doe / 36524 - doe / 146096) / 365 in
  0 <= yoe <= 399 ∧ 0 <= doe - (365 * yoe + yoe / 4 - yoe / 100) <= 365.
Proof.
  intros Hd yoe. assert (0 <= yoe <= 399) by (subst yoe; Z.to_euclidean_division_equations; lia).
  split; [done|]. subst yoe.
  assert (doe / 36524 = 0 ∨ doe / 36524 = 1 ∨ doe / 36524 = 2 ∨ doe / 36524 = 3 ∨ doe / 36524 = 4)
    by (Z.to_euclidean_division_equations; lia).
  Z.to_euclidean_division_equations. lia.
Qed.

Lemma days_civil n :
  days_of (civil n).1.1 (civil n).1.2 (civil n).2 = n ∧ 1 <= (civil n).1.2 <= 12 ∧ 1 <= (civil n).2 <= 31.
Proof.
  unfold civil. pose proof (Z.div_mod (n + 719468) 146097 ltac:(lia)) as Hdm.
  pose proof (Z.mod_pos_bound (n + 719468) 146097 ltac:(lia)) as Hb.
  set (era := (n + 719468) / 146097) in *. set (doe := (n + 719468) mod 146097) in *. cbv zeta.
  destruct (year_of_era doe Hb) as [Hy Hdoy]. cbv zeta in Hdoy.
  set (yoe := (doe - doe / 1460 + doe / 36524 - doe / 146096) / 365) in *.
  set (doy := doe - (365 * yoe + yoe / 4 - yoe / 100)) in *.
  set (mp := (5 * doy + 2) / 153). cbn [fst snd].
  assert (0 <= mp <= 11) as Hmp by (subst mp; Z.to_euclidean_division_equations; lia).
  assert (0 <= doy - (153 * mp + 2) / 5 <= 30) as Hday by (subst mp; Z.to_euclidean_division_equations; lia).
  assert ((if (if mp <? 10 then mp + 3 else mp - 9) <=? 2 then 1 else 0) = (if mp <? 10 then 0 else 1)) as ->.
  { destruct (Z.ltb_spec mp 10); [destruct (Z.leb_spec (mp + 3) 2)|destruct (Z.leb_spec (mp - 9) 2)]; lia. }
  unfold days_of.
  destruct (Z.ltb_spec mp 10).
  - destruct (Z.leb_spec (mp + 3) 2); [lia|]. replace (yoe + era * 400 + 0) with (yoe + era * 400) by lia.
    rewrite Z.mod_add, Z.div_add, Z.mod_small, (Z.div_small yoe 400) by lia.
    replace (mp + 3 - 3) with mp by lia. split; [|lia]. unfold doy. lia.
  - destruct (Z.leb_spec (mp - 9) 2); [|lia]. replace (yoe + era * 400 + 1 - 1) with (yoe + era * 400) by lia.
    rewrite Z.mod_add, Z.div_add, Z.mod_small, (Z.div_small yoe 400) by lia.
    replace (mp - 9 + 9) with mp by lia. split; [|lia]. unfold doy. lia.
Qed.

(** Decimal digits as a number. *)
Definition value_of (s : jstr) : Z := foldl (λ a c, a * 10 + (Z.of_N c - 48)) 0 s.

Lemma value_of_digits n z : value_of (digits n z) = z mod 10 ^ Z.of_nat n.
Proof.
  revert z. induction n as [|n IH]; intros z; [by rewrite Z.mod_1_r|].
  cbn [digits]. unfold value_of. rewrite foldl_app. cbn [foldl]. fold (value_of (digits n (z / 10))).
  rewrite IH. pose proof (Z.mod_pos_bound z 10 ltac:(lia)).
  replace (Z.of_N (48 + Z.to_N (z mod 10)) - 48) with (z mod 10) by lia.
  replace (Z.of_nat (S n)) with (1 + Z.of_nat n) by lia. rewrite Z.pow_add_r by lia.
  change (10 ^ 1) with 10. rewrite Z.rem_mul_r by lia. lia.
Qed.

(** [YYYY-MM-DDTHH:mm:ss.sssZ] *)
Definition parse_iso (s : jstr) : num :=
  let part i n := value_of (take n (drop i s)) in
  if bool_decide (length s = 24%nat) then
    jint (((days_of (part 0%nat 4%nat) (part 5%nat 2%nat) (part 8%nat 2%nat) * 24 + part 11%nat 2%nat) * 60
           + part 14%nat 2%nat) * 60000 + part 17%nat 2%nat * 1000 + part 20%nat 3%nat)
  else NaN.

(** What [parse_iso] reads at its offsets. *)
Lemma parse_parts a b c d e f g :
  length a = 4%nat → length b = 2%nat → length c = 2%nat → length d = 2%nat → length e = 2%nat →
  length f = 2%nat → length g = 3%nat →
  parse_iso (a ++ "-" ++ b ++ "-" ++ c ++ "T" ++ d ++ ":" ++ e ++ ":" ++ f ++ "." ++ g ++ "Z") =
  jint (((days_of (value_of a) (value_of b) (value_of c) * 24 + value_of d) * 60
         + value_of e) * 60000 + value_of f * 1000 + value_of g).
Proof.
  intros. unfold parse_iso.
  destruct a as [|? [|? [|? [|? [|? ?]]]]]; try done. destruct b as [|? [|? [|? ?]]]; try done.
  destruct c as [|? [|? [|? ?]]]; try done. destruct d as [|? [|? [|? ?]]]; try done.
  destruct e as [|? [|? [|? ?]]]; try done. destruct f as [|? [|? [|? ?]]]; try done.
  destruct g as [|? [|? [|? [|? ?]]]]; try done.
Qed.

Lemma clock_days t : clock_ok t → 0 <= t / msPerDay < 2777778.
Proof. unfold clock_ok, msPerDay. intros Ht. Z.to_euclidean_division_equations. lia. Qed.

(** The parts of a day add up to it. *)
Lemma clock_parts t : clock_ok t →
  (((t / msPerDay * 24 + t mod msPerDay / 3600000 mod 10 ^ Z.of_nat 2) * 60
    + (t mod msPerDay / 60000) mod 60 mod 10 ^ Z.of_nat 2) * 60000
    + (t mod msPerDay / 1000) mod 60 mod 10 ^ Z.of_nat 2 * 1000 + (t mod msPerDay) mod 1000 mod 10 ^ Z.of_nat 3) = t.
Proof.
  unfold msPerDay. intros _. change (10 ^ Z.of_nat 2) with 100. change (10 ^ Z.of_nat 3) with 1000.
  pose proof (Z.div_mod t 86400000 ltac:(lia)) as Hdm. pose proof (Z.mod_pos_bound t 86400000 ltac:(lia)) as Hm.
  generalize dependent (t / 86400000). generalize dependent (t mod 86400000). intros ms Hms dd ->.
  Z.to_euclidean_division_equations. lia.
Qed.

Lemma parse_iso_correct t : clock_ok t → parse_iso (toISOString t) = jint t.
Proof.
  intros Ht. unfold toISOString. pose proof (clock_days t Ht) as Hdays.
  pose proof (civil_year_bounds (t / msPerDay) Hdays) as Hy. pose proof (days_civil (t / msPerDay)) as Hd.
  destruct (civil (t / msPerDay)) as [[y m] d]. cbn [fst snd] in Hy, Hd. destruct Hd as (Hd & Hm & Hdd).
  unfold year_string. replace ((0 <=? y) && (y <=? 9999)) with true by (symmetry; apply andb_true_iff; lia).
  rewrite parse_parts by apply digits_length. rewrite !value_of_digits.
  rewrite (Z.mod_small y), (Z.mod_small m), (Z.mod_small d), Hd by (cbn; lia).
  by rewrite clock_parts.
Qed.

#[export] Instance iso_dates : DateParse := {| date_parse := parse_iso; date_parse_iso := parse_iso_correct |}.

(** ** Cursors *)

Lemma iso_ascii t : clock_ok t → Forall (λ c, (c < 128)%N) (toISOString t).
Proof.
  intros Ht. destruct (iso_shape t Ht) as (y & mo & d & h & mi & s & ms & ->).
  assert (∀ n z, Forall (λ c, (c < 128)%N) (digits n z)) as Hd.
  { intros n z. eapply Forall_impl; [apply digits_are|]. intros c [_ Hc%N.leb_le]%andb_true_iff. lia. }
  rewrite !Forall_app. split_and!; first [apply Hd | by repeat constructor].
Qed.

Lemma ascii_bytes s : Forall (λ c, (c < 128)%N) s → bytes_of s = s ∧ text_of s = s.
Proof.
  induction 1 as [|c s Hc _ [IH1 IH2]]; [done|]. unfold bytes_of, text_of in *. cbn.
  unfold utf8_bytes at 1. destruct (N.ltb_spec c 128); [|lia]. cbn. rewrite IH1, IH2. done.
Qed.

(** The cursor of a date is read as that date. *)
Lemma cursor_round_trip `{DateParse} t : clock_ok t → decode_cursor (encode_cursor t) = jint t.
Proof.
  intros Ht. unfold decode_cursor, encode_cursor. destruct (ascii_bytes _ (iso_ascii t Ht)) as [-> Htext].
  rewrite b64_round_trip; [rewrite Htext; by apply date_parse_iso|].
  eapply Forall_impl; [by apply iso_ascii|]. cbn. lia.
Qed.
