(* ===== verification/Reviews.v ===== *)
(** * review-service: the reviews repository (reviews.ts)

    Documents are JavaScript objects; a [Date] is its time value.  [eff] lists
    what the methods of [ReviewsRepository] await; [autoModerate] is pure.
    Logging is dropped. *)
From Stdlib Require Import QArith Qround.
From S2P Require Import Prelude JsNumber JsString Regex Zod Prog Mongo Rating Cursor.
Local Open Scope js_scope.
Local Open Scope Z_scope.

Module Reviews.

(** ** Errors and commands *)

Inductive exn :=
| DuplicateReview (productId : jstr)
| ReviewNotFound (id : jstr)
| RangeError
| TypeError
| MongoError (code : Z).

Definition message (e : exn) : jstr :=
  match e with
  | DuplicateReview p => "you have already reviewed " ++ p
  | ReviewNotFound i => "review " ++ i ++ " not found"
  | _ => ""
  end.

Inductive coll := reviews | rating_summaries | purchases | helpful_votes.
#[export] Instance coll_eq_dec : EqDecision coll.
Proof. solve_decision. Defined.

(** The filter of the listing: published reviews of a product. *)
Record listing_filter := {
  f_productId : jstr;
  f_verified : bool;
  f_rating : option num;
  f_before : option num
}.

Inductive eff : Type → Type :=
| FIND_ONE (c : coll) (id : jstr) : eff (option jsval)
(* the number of documents the upsert created *)
| UPDATE_ONE (c : coll) (id : jstr) (ops : list update_op) (upsert : bool) : eff Z
| INSERT_ONE (c : coll) (doc : jsval) : eff unit
| REPLACE_ONE (c : coll) (id : jstr) (doc : jsval) : eff unit
(* findOneAndUpdate, the document after the update *)
| FIND_ONE_AND_UPDATE (c : coll) (id : jstr) (ops : list update_op) : eff (option jsval)
(* find, newest first *)
| FIND (f : listing_filter) (limit : Z) : eff (list jsval)
(* the aggregation pipeline of rebuildSummary: verifiedCount and the buckets *)
| AGGREGATE (productId : jstr) : eff (Z * list (Z * Z))
| NOW : eff Z
| RANDOM (n : nat) : eff (list N)
| INC (metric label : jstr) : eff unit.

Abbreviation prog := (Prog.prog eff exn).

(** ** Reading documents *)

Definition the_str (v : jsval) : jstr := match v with VStr s => s | _ => "" end.
Definition the_num (v : jsval) : num := match v with VNum x => x | _ => NaN end.
Definition is_str (s : jstr) (v : jsval) : bool :=
  match v with VStr t => bool_decide (t = s) | _ => false end.
Definition is_num (x : num) (v : jsval) : bool :=
  match v with VNum y => neqb y x | _ => false end.
Definition is_true (v : jsval) : bool := match v with VBool b => b | _ => false end.
(** [a ?? b] *)
Definition nullish (v d : jsval) : jsval := match v with VUndef | VNull => d | _ => v end.

(** ** Heuristics *)

Definition digit (c : N) : bool := is_digit c.
Definition word_or_dot (c : N) : bool := is_word c || (c =? 46)%N.

(** [/https?:\/\/|www\.|\.com\b/] *)
Definition url_pattern : pattern :=
  PAlt (PSeq (plit "http") (PSeq (popt (plit "s")) (plit "://")))
    (PAlt (plit "www.") (PSeq (plit ".com") PBoundary)).
(** [/\b\d{10,}\b|\b[\w.]+@[\w.]+\b/] *)
Definition contact_pattern : pattern :=
  PAlt (PSeq PBoundary (PSeq (pmany 10 (PChr digit)) PBoundary))
    (PSeq PBoundary (PSeq (pmany 1 (PChr word_or_dot))
      (PSeq (plit "@") (PSeq (pmany 1 (PChr word_or_dot)) PBoundary)))).
(** [/(.)\1{6,}/] *)
Definition repeated_pattern : pattern :=
  PCapture is_dot (λ c, pmany 6 (PChr (N.eqb c))).

Definition letter (c : N) : bool := is_upper c || is_lower c.

Definition autoModerate (title body : jstr) (rating : num) : list jstr :=
  let text := toLowerCase (title ++ " " ++ body) in
  let letters := List.filter letter body in
  (if test url_pattern text then ["CONTAINS_URL"] else []) ++
  (if test contact_pattern text then ["CONTAINS_CONTACT_DETAILS"] else []) ++
  (if neqb rating (jint 5) && (length (trim body) <? 25)%nat then ["SHORT_FIVE_STAR"] else []) ++
  (if (20 <? length letters)%nat && bool_decide (letters = toUpperCase letters) then ["ALL_CAPS"] else []) ++
  (if test repeated_pattern body then ["REPEATED_CHARACTERS"] else []).

(** ** The repository *)

Section Repository.
Context (sha256hex : jstr → jstr).

(** [`${v}`]; of the numbers, the integers. *)
Fixpoint template (v : jsval) : jstr :=
  match v with
  | VUndef => "undefined"
  | VNull => "null"
  | VBool b => if b then "true" else "false"
  | VNum (Fin q) => string_of_int (Qfloor q)
  | VNum NaN => "NaN"
  | VNum (Inf b) => (if b then "-" else "") ++ "Infinity"
  | VStr s => s
  | VArr l => join "," (map (λ x, match x with VUndef | VNull => "" | _ => template x end) l)
  | VObj _ => "[object Object]"
  end.

(** [createHash('sha256').update(`${a}:${b}`).digest('hex').slice(0, 32)] *)
Definition keyed (a b : jstr) : jstr := slice0 32 (sha256hex (a ++ ":" ++ b)).
Definition purchaseKey (userId productId : jstr) : jstr := keyed userId productId.

Definition recordPurchase (userId productId orderId : jsval) : prog unit :=
  now ← await NOW;
  _ ← await (UPDATE_ONE purchases (purchaseKey (template userId) (template productId))
    [OSetOnInsert "userId" userId; OSetOnInsert "productId" productId;
     OSetOnInsert "orderId" orderId; OSetOnInsert "purchasedAt" (vint now)] true);
  mret tt.

Definition hasPurchased (userId productId : jstr) : prog bool :=
  found ← await (FIND_ONE purchases (purchaseKey userId productId));
  mret (match found with Some _ => true | None => false end).

Record input := {
  i_id : jstr; i_productId : jstr; i_userId : jstr; i_authorName : jstr; i_rating : num;
  i_title : jstr; i_body : jstr; i_images : list jsval; i_locale : jstr
}.

Definition review_of (i : input) (verifiedPurchase : bool) (autoFlags : list jstr) (created updated : Z) : jsval :=
  VObj [("_id", VStr (i_id i)); ("productId", VStr (i_productId i)); ("userId", VStr (i_userId i));
        ("authorName", VStr (i_authorName i)); ("rating", VNum (i_rating i)); ("title", VStr (i_title i));
        ("body", VStr (i_body i)); ("images", VArr (i_images i)); ("verifiedPurchase", VBool verifiedPurchase);
        ("helpfulCount", vint 0); ("status", VStr "PENDING_MODERATION");
        ("moderation", VObj [("autoFlags", VArr (map VStr autoFlags))]); ("locale", VStr (i_locale i));
        ("createdAt", vint created); ("updatedAt", vint updated)].

(** [err.code === 11000] *)
Definition is_duplicate (e : exn) : bool := match e with MongoError c => c =? 11000 | _ => false end.

Definition create (i : input) : prog jsval :=
  verifiedPurchase ← hasPurchased (i_userId i) (i_productId i);
  let autoFlags := autoModerate (i_title i) (i_body i) (i_rating i) in
  created ← await NOW;
  updated ← await NOW;
  let review := review_of i verifiedPurchase autoFlags created updated in
  _ ← try_catch (await (INSERT_ONE reviews review))
    (λ e, if is_duplicate e then Throw (DuplicateReview (i_productId i)) else Throw e);
  mret review.

(** [`distribution.${bucketFor(rating)}`] *)
Definition bucket_key (bucket : num) : jstr := "distribution." ++ string_of_int (Z.of_nat (Rating.index_of bucket)).

(** An array of the database as a histogram: anything but an array has no
    [reduce].  Its elements are numbers or [null]. *)
Definition slot_of (v : jsval) : Rating.slot :=
  match v with VNum x => Rating.Val x | VNull => Rating.Val (jint 0) | _ => Rating.Undef end.
Definition distribution_of (v : jsval) : option Rating.Distribution :=
  match v with
  | VUndef | VNull => Some Rating.EMPTY_DISTRIBUTION
  | VArr l => Some (map slot_of l)
  | _ => None
  end.

(** The update documents of [applyRatingDelta] and [moderate]. *)
Definition delta_ops (productId : jstr) (bucket delta : num) (verified : bool) (now : Z) : list update_op :=
  [OInc (bucket_key bucket) delta; OInc "count" delta] ++
  (if verified then [OInc "verifiedCount" delta] else []) ++
  [OSet "updatedAt" (vint now); OSetOnInsert "_id" (VStr productId)].
Definition moderation_ops (decision : jstr) (moderatedBy : jsval) (reason : option jstr)
    (updated moderated : Z) : list update_op :=
  [OSet "status" (VStr decision); OSet "updatedAt" (vint updated);
   OSet "moderation.moderatedBy" moderatedBy; OSet "moderation.moderatedAt" (vint moderated)] ++
  match reason with
  | Some r => if truthy_str r then [OSet "moderation.reason" (VStr r)] else []
  | None => []
  end.

Definition applyRatingDelta (productId : jstr) (rating delta : num) (verified : bool) : prog unit :=
  match Rating.bucketFor rating with
  | None => Throw RangeError
  | Some b =>
      now ← await NOW;
      _ ← await (UPDATE_ONE rating_summaries productId (delta_ops productId b delta verified now) true);
      found ← await (FIND_ONE rating_summaries productId);
      match found with
      | None => mret tt
      | Some summary =>
          match distribution_of (prop "distribution" summary) with
          | None => Throw TypeError
          | Some distribution =>
              let s := Rating.summarise distribution in
              _ ← await (UPDATE_ONE rating_summaries productId
                [OSet "average" (VNum (Rating.average s)); OSet "count" (VNum (Rating.count s))] false);
              mret tt
          end
      end
  end.

Definition moderate (reviewId decision : jstr) (moderatedBy : jsval) (reason : option jstr) : prog unit :=
  found ← await (FIND_ONE reviews reviewId);
  match found with
  | None => Throw (ReviewNotFound reviewId)
  | Some before =>
      if is_str decision (prop "status" before) then mret tt
      else
        updated ← await NOW;
        moderated ← await NOW;
        _ ← await (UPDATE_ONE reviews reviewId (moderation_ops decision moderatedBy reason updated moderated) false);
        let wasCounted := is_str "PUBLISHED" (prop "status" before) in
        let nowCounted := bool_decide (decision = "PUBLISHED") in
        if Bool.eqb wasCounted nowCounted then mret tt
        else
          let delta := if nowCounted then jint 1 else jint (-1) in
          applyRatingDelta (the_str (prop "productId" before)) (the_num (prop "rating" before)) delta
            (is_true (prop "verifiedPurchase" before))
  end.

(** ** Listing *)

Record options := { o_limit : Z; o_cursor : option jstr; o_verifiedOnly : bool; o_rating : option num }.
Record page := { items : list jsval; nextCursor : option jstr; hasMore : bool }.

(** [createdAt] of a document as milliseconds. *)
Definition time_of (d : jsval) : Z :=
  match prop "createdAt" d with VNum (Fin q) => Qfloor q | _ => 0 end.

Definition listForProduct `{DateParse} (productId : jstr) (o : options) : prog page :=
  let filter := {|
    f_productId := productId;
    f_verified := o_verifiedOnly o;
    f_rating := match o_rating o with
                | Some x => if to_boolean (VNum x) then Some x else None
                | None => None
                end;
    f_before := match o_cursor o with
                | Some c => if truthy_str c then Some (decode_cursor c) else None
                | None => None
                end |} in
  found ← await (FIND filter (o_limit o + 1));
  let hasMore := o_limit o <? Z.of_nat (length found) in
  let items := if hasMore then removelast found else found in
  mret {| items := items;
          nextCursor := match last items with
                        | Some d => if hasMore then Some (encode_cursor (time_of d)) else None
                        | None => None
                        end;
          hasMore := hasMore |}.

Definition summary (productId : jstr) : prog (option jsval) := await (FIND_ONE rating_summaries productId).

(** ** Recovery *)

Definition fill_bucket (distribution : list num) (b : Z * Z) : list num :=
  if (1 <=? b.1) && (b.1 <=? 5) then <[Z.to_nat (b.1 - 1) := jint b.2]> distribution else distribution.

Definition rebuildSummary (productId : jstr) : prog jsval :=
  result ← await (AGGREGATE productId);
  let '(verifiedCount, buckets) := result in
  let distribution := foldl fill_bucket (replicate 5 (jint 0)) buckets in
  let slots := map Rating.Val distribution in
  let total := Rating.total slots in
  let weighted := Rating.weighted slots in
  now ← await NOW;
  let summary := VObj [
    ("_id", VStr productId);
    ("average", VNum (if nlt (jint 0) total
                      then ndiv (nround (nmul (ndiv weighted total) (jint 10))) (jint 10) else jint 0));
    ("count", VNum total);
    ("distribution", VArr (map VNum distribution));
    ("verifiedCount", vint verifiedCount);
    ("updatedAt", vint now)] in
  _ ← await (REPLACE_ONE rating_summaries productId summary);
  mret summary.

(** ** Votes *)

Definition helpful_count (found : option jsval) : jsval :=
  match found with Some d => nullish (prop "helpfulCount" d) (vint 0) | None => vint 0 end.

Definition markHelpful (reviewId userId : jstr) : prog jsval :=
  let voteId := keyed reviewId userId in
  upsertedCount ← await (UPDATE_ONE helpful_votes voteId [OSetOnInsert "_id" (VStr voteId)] true);
  if upsertedCount =? 0 then
    current ← await (FIND_ONE reviews reviewId);
    mret (helpful_count current)
  else
    updated ← await (FIND_ONE_AND_UPDATE reviews reviewId [OInc "helpfulCount" (jint 1)]);
    mret (helpful_count updated).
End Repository.
End Reviews.
