(* ===== verification/ReviewWorld.v ===== *)
(** * The database of review-service

    [db] holds the four collections; [effect] says what every awaited command
    may do, under the indexes [ensureIndexes] declares, and [drive] is one
    deterministic world.  Any command may be rejected, before or after its
    effect. *)
From Stdlib Require Import QArith Qround.
From stdpp Require Import sorting.
From S2P Require Import Prelude JsNumber JsString Zod Prog Mongo Rating Reviews.
Local Open Scope js_scope.
Local Open Scope Z_scope.

Import Reviews.Reviews.

Record db := {
  d_reviews : gmap jstr jsval;
  d_summaries : gmap jstr jsval;
  d_purchases : gmap jstr jsval;
  d_votes : gmap jstr jsval
}.

Definition empty_db : db := {| d_reviews := ∅; d_summaries := ∅; d_purchases := ∅; d_votes := ∅ |}.

Definition collection (c : coll) (w : db) : gmap jstr jsval :=
  match c with
  | reviews => d_reviews w | rating_summaries => d_summaries w
  | purchases => d_purchases w | helpful_votes => d_votes w
  end.

Definition store (c : coll) (id : jstr) (d : jsval) (w : db) : db :=
  match c with
  | reviews => {| d_reviews := <[id := d]> (d_reviews w); d_summaries := d_summaries w;
                  d_purchases := d_purchases w; d_votes := d_votes w |}
  | rating_summaries => {| d_reviews := d_reviews w; d_summaries := <[id := d]> (d_summaries w);
                  d_purchases := d_purchases w; d_votes := d_votes w |}
  | purchases => {| d_reviews := d_reviews w; d_summaries := d_summaries w;
                  d_purchases := <[id := d]> (d_purchases w); d_votes := d_votes w |}
  | helpful_votes => {| d_reviews := d_reviews w; d_summaries := d_summaries w;
                  d_purchases := d_purchases w; d_votes := <[id := d]> (d_votes w) |}
  end.

Lemma collection_store_eq c id d w : collection c (store c id d w) = <[id := d]> (collection c w).
Proof. by destruct c. Qed.
Lemma collection_store_ne c c' id d w : c ≠ c' → collection c' (store c id d w) = collection c' w.
Proof. by destruct c, c'. Qed.

(** ** The unique index *)

(** A review that counts against its author: pending or published. *)
Definition active (d : jsval) : bool :=
  is_str "PENDING_MODERATION" (prop "status" d) || is_str "PUBLISHED" (prop "status" d).

(** Two documents have the same value for a string key. *)
Definition same_key (k : jstr) (d d' : jsval) : bool := is_str (the_str (prop k d)) (prop k d').

(** No other active review is by the author of [d] and of its product. *)
Definition unclashed (id : jstr) (d : jsval) (w : db) : bool :=
  forallb (λ p, bool_decide (p.1 = id) || negb (active p.2) ||
                negb (same_key "productId" d p.2 && same_key "userId" d p.2))
    (map_to_list (d_reviews w)).

(** [one_review_per_user_per_product]: what the partial unique index lets in. *)
Definition one_per_user (id : jstr) (d : jsval) (w : db) : bool := negb (active d) || unclashed id d w.

(** The document may be stored in its collection. *)
Definition allowed (c : coll) (id : jstr) (d : jsval) (w : db) : bool :=
  match c with reviews => one_per_user id d w | _ => true end.

(** ** Queries *)

Definition listed (f : listing_filter) (d : jsval) : bool :=
  is_str (f_productId f) (prop "productId" d) && is_str "PUBLISHED" (prop "status" d) &&
  (if f_verified f then is_true (prop "verifiedPurchase" d) else true) &&
  match f_rating f with Some x => is_num x (prop "rating" d) | None => true end &&
  match f_before f with Some x => nlt (the_num (prop "createdAt" d)) x | None => true end.

(** The documents the filter finds, in no particular order. *)
Definition found_by (f : listing_filter) (w : db) : list jsval :=
  List.filter (listed f) (map_to_list (d_reviews w)).*2.

Definition newest_first (d d' : jsval) : Prop := time_of d' <= time_of d.
#[export] Instance newest_first_dec d d' : Decision (newest_first d d').
Proof. unfold newest_first. apply _. Defined.
#[export] Instance newest_first_total : Total newest_first.
Proof. intros d d'. unfold newest_first. lia. Qed.

(** An answer to [find(f).sort({createdAt: -1}).limit(n)]. *)
Definition answer_of (f : listing_filter) (limit : Z) (w : db) (l : list jsval) : Prop :=
  ∃ all, Permutation all (found_by f w) ∧ Sorted newest_first all ∧ l = take (Z.to_nat limit) all.

(** A published review of the product with this rating. *)
Definition rated (productId : jstr) (r : Z) (d : jsval) : bool :=
  is_str productId (prop "productId" d) && is_str "PUBLISHED" (prop "status" d) &&
  is_num (jint r) (prop "rating" d).
Definition counted (productId : jstr) (p : jsval → bool) (w : db) : Z :=
  Z.of_nat (size (filter (λ kd : jstr * jsval, p kd.2 = true) (d_reviews w))).
(** How many reviews of a product are published, by rating, and how many are verified. *)
Definition published (productId : jstr) (w : db) : list Z :=
  map (λ r, counted productId (rated productId r) w) [1; 2; 3; 4; 5].
Definition verified (productId : jstr) (d : jsval) : bool :=
  is_str productId (prop "productId" d) && is_str "PUBLISHED" (prop "status" d) &&
  is_true (prop "verifiedPurchase" d).

(** The buckets of the pipeline: one for every rating that occurs, in any order. *)
Definition buckets_of (productId : jstr) (w : db) (l : list (Z * Z)) : Prop :=
  NoDup l.*1 ∧ ∀ r n, (r, n) ∈ l ↔ 0 < n ∧ n = counted productId (rated productId r) w.

(** ** What the commands do *)

Section World.
Context `{UpdateLanguage}.

(** A rejection that is not a duplicate key. *)
Definition rejected (e : exn) : Prop := ∃ c, e = MongoError c ∧ c ≠ 11000.

Definition answers {B} (r : result exn B) (w' : db) (w : db) (res : result exn B) (w2 : db) : Prop :=
  (res = r ∧ w2 = w') ∨ (∃ e, res = Err e ∧ rejected e ∧ (w2 = w ∨ w2 = w')).

(** [updateOne({_id: id}, ops, {upsert})] *)
Definition update_one (c : coll) (id : jstr) (ops : list update_op) (upsert : bool) (w : db)
  : result exn Z * db :=
  let write ins d n :=
    match apply_update ins ops d with
    | Some d' => if allowed c id d' w then (Ok n, store c id d' w) else (Err (MongoError 11000), w)
    | None => (Err (MongoError 2), w)
    end in
  match collection c w !! id with
  | Some d => write false d 0
  | None => if upsert then write true (VObj [("_id", VStr id)]) 1 else (Ok 0, w)
  end.

Definition insert_one (c : coll) (doc : jsval) (w : db) : result exn unit * db :=
  let id := the_str (prop "_id" doc) in
  match collection c w !! id with
  | Some _ => (Err (MongoError 11000), w)
  | None => if allowed c id doc w then (Ok tt, store c id doc w) else (Err (MongoError 11000), w)
  end.

Definition find_and_update (c : coll) (id : jstr) (ops : list update_op) (w : db)
  : result exn (option jsval) * db :=
  let o := update_one c id ops false w in
  (match o.1 with Ok _ => Ok (collection c o.2 !! id) | Err e => Err e end, o.2).

Definition effect (B : Type) (c : eff B) (w : db) : result exn B → db → Prop :=
  match c in eff B return result exn B → db → Prop with
  | FIND_ONE c id => answers (Ok (collection c w !! id)) w w
  | UPDATE_ONE c id ops up => answers (update_one c id ops up w).1 (update_one c id ops up w).2 w
  | INSERT_ONE c doc => answers (insert_one c doc w).1 (insert_one c doc w).2 w
  | REPLACE_ONE c id doc => answers (Ok tt) (store c id doc w) w
  | FIND_ONE_AND_UPDATE c id ops => answers (find_and_update c id ops w).1 (find_and_update c id ops w).2 w
  | FIND f n => λ res w2, w2 = w ∧
      ((∃ l, res = Ok l ∧ answer_of f n w l) ∨ (∃ e, res = Err e ∧ rejected e))
  | AGGREGATE p => λ res w2, w2 = w ∧
      ((∃ l, res = Ok (counted p (verified p) w, l) ∧ buckets_of p w l) ∨ (∃ e, res = Err e ∧ rejected e))
  | NOW => λ res w2, w2 = w ∧ ∃ t, res = Ok t
  | RANDOM n => λ res w2, w2 = w ∧ ∃ l, res = Ok l ∧ length l = n
  | INC _ _ => λ res w2, w2 = w ∧ res = Ok tt
  end.

(** ** A deterministic world *)

Definition rating_of (d : jsval) : Z := match prop "rating" d with VNum (Fin q) => Qfloor q | _ => 0 end.
Definition all_buckets (productId : jstr) (w : db) : list (Z * Z) :=
  List.filter (λ b : Z * Z, 0 <? b.2)
    (map (λ r, (r, counted productId (rated productId r) w))
       (remove_dups (map rating_of (map_to_list (d_reviews w)).*2))).

Definition drive (clock : Z) (bytes : list N) (B : Type) (c : eff B) (w : db) : result exn B * db :=
  match c in eff B return result exn B * db with
  | FIND_ONE c id => (Ok (collection c w !! id), w)
  | UPDATE_ONE c id ops up => update_one c id ops up w
  | INSERT_ONE c doc => insert_one c doc w
  | REPLACE_ONE c id doc => (Ok tt, store c id doc w)
  | FIND_ONE_AND_UPDATE c id ops => find_and_update c id ops w
  | FIND f n => (Ok (take (Z.to_nat n) (merge_sort newest_first (found_by f w))), w)
  | AGGREGATE p => (Ok (counted p (verified p) w, all_buckets p w), w)
  | NOW => (Ok clock, w)
  | RANDOM n => (Ok (take n (bytes ++ replicate n 0%N)), w)
  | INC _ _ => (Ok tt, w)
  end.

(** It is one of the worlds [effect] allows. *)
Lemma found_answers f n w :
  answer_of f n w (take (Z.to_nat n) (merge_sort newest_first (found_by f w))).
Proof.
  exists (merge_sort newest_first (found_by f w)).
  split; [apply merge_sort_Permutation|]. split; [apply (Sorted_merge_sort newest_first)|done].
Qed.

Lemma rated_rating p r d : rated p r d = true → rating_of d = r.
Proof.
  unfold rated, rating_of, is_num. intros [_ Hr]%andb_true_iff.
  destruct (prop "rating" d) as [| | |[| |q]| | |]; try done. cbn in Hr.
  apply Qeq_bool_iff in Hr. rewrite Hr. apply Qfloor_Z.
Qed.

Lemma counted_pos p (q : jsval → bool) w : 0 < counted p q w → ∃ id d, d_reviews w !! id = Some d ∧ q d = true.
Proof.
  unfold counted. intros Hn.
  destruct (map_choose (filter (λ kd : jstr * jsval, q kd.2 = true) (d_reviews w))) as (id & d & Hd).
  - intros He. rewrite He, map_size_empty in Hn. lia.
  - apply map_lookup_filter_Some in Hd as [Hd Hq]. eauto.
Qed.

Lemma buckets_answer p w : buckets_of p w (all_buckets p w).
Proof.
  assert (∀ (l : list Z), (map (λ r, (r, counted p (rated p r) w)) l).*1 = l) as Hfst.
  { intros l. induction l as [|x l IH]; cbn; [done|]. by f_equal. }
  assert (∀ (l : list (Z * Z)) q, NoDup l.*1 → NoDup (List.filter q l).*1) as Hnodup.
  { intros l q. induction l as [|x l IH]; cbn; [done|]. intros [Hx Hl]%NoDup_cons.
    destruct (q x); cbn; [|by apply IH]. apply NoDup_cons. split; [|by apply IH].
    intros (y & Hy & Hin)%list_elem_of_fmap. apply Hx. rewrite Hy. apply list_elem_of_fmap_2.
    apply list_elem_of_In, filter_In in Hin as [Hin _]. by apply list_elem_of_In. }
  split; [apply Hnodup; rewrite Hfst; apply NoDup_remove_dups|].
  intros r n. unfold all_buckets. rewrite list_elem_of_In, filter_In, in_map_iff. cbn [snd].
  rewrite Z.ltb_lt. split.
  - intros [(x & [= <- <-] & _) Hn]. done.
  - intros [Hn ->]. split; [|done]. exists r. split; [done|]. rewrite <- list_elem_of_In, elem_of_remove_dups.
    destruct (counted_pos _ _ _ Hn) as (id & d & Hd & Hr). apply rated_rating in Hr. subst r.
    apply list_elem_of_In, in_map, list_elem_of_In, list_elem_of_fmap.
    exists (id, d). split; [done|]. by apply elem_of_map_to_list.
Qed.

Lemma mongo_effect clock bytes B (c : eff B) w :
  effect B c w (drive clock bytes B c w).1 (drive clock bytes B c w).2.
Proof.
  destruct c; cbn; unfold answers; try (left; split; done).
  - split; [done|]. left. eexists. split; [done|]. apply found_answers.
  - split; [done|]. left. eexists. split; [done|]. apply buckets_answer.
  - eauto.
  - split; [done|]. eexists. split; [done|]. rewrite length_take, length_app, length_replicate. lia.
  - done.
Qed.

(** What it does alone, a method may do among other requests. *)
Lemma mongo_exec clock bytes {A} (p : prog A) (Q : db → db → Prop) w res w' :
  (∀ w, Q w w) → run (drive clock bytes) p w = (res, w') → exec Q effect p w res w'.
Proof.
  intros HQ Hr. pose proof (run_exec (drive clock bytes) p w) as He. rewrite Hr in He.
  eapply exec_mono; [| |exact He]; [by intros a b ->|].
  intros B c a r b Hd. pose proof (mongo_effect clock bytes B c a) as H1. rewrite Hd in H1. exact H1.
Qed.
End World.
