(* ===== verification/ReviewSummary.v ===== *)
(** * The rating summary follows the published reviews

    Alone, moderating a review of a product that has a summary keeps that
    summary equal to what the published reviews say; so does rebuilding it.

    [ReviewRaces] is about two moderators of one review at once. *)
From Stdlib Require Import QArith Qround.
From S2P Require Import Prelude JsNumber JsString Zod Prog Mongo Rating Reviews ReviewWorld.
Local Open Scope js_scope.
Local Open Scope Z_scope.

Import Reviews.Reviews.

Module Summary.
Section Summary.
Context `{UpdateLaws}.
Implicit Types w : db.

(** ** Counting documents *)

Definition b2z (b : bool) : Z := if b then 1 else 0.

Lemma size_filter_fresh (p : jsval → bool) (id : jstr) (d : jsval) (m : gmap jstr jsval) : m !! id = None →
  Z.of_nat (size (filter (λ kd : jstr * jsval, p kd.2 = true) (<[id := d]> m))) =
  b2z (p d) + Z.of_nat (size (filter (λ kd : jstr * jsval, p kd.2 = true) m)).
Proof.
  intros Hm. destruct (p d) eqn:Hp; cbn [b2z].
  - rewrite map_filter_insert_True by done.
    rewrite map_size_insert_None; [lia|]. by apply map_lookup_filter_None_2; left.
  - rewrite map_filter_insert_False by (cbn; congruence). by rewrite delete_id.
Qed.

(** Replacing one review changes a count by that review alone. *)
Lemma counted_store (productId : jstr) (p : jsval → bool) (id : jstr) (d d' : jsval) w :
  d_reviews w !! id = Some d →
  counted productId p (store reviews id d' w) = counted productId p w - b2z (p d) + b2z (p d').
Proof.
  intros Hd. unfold counted. cbn [store d_reviews].
  pose proof (size_filter_fresh p id d (delete id (d_reviews w)) (lookup_delete_eq _ _)) as H1.
  pose proof (size_filter_fresh p id d' (delete id (d_reviews w)) (lookup_delete_eq _ _)) as H2.
  rewrite insert_delete_id in H1 by done. rewrite insert_delete_eq in H2. lia.
Qed.

(** ** A review *)

Record review_shape (d : jsval) (productId : jstr) (r : Z) (status : jstr) (v : bool) : Prop := {
  sh_productId : prop "productId" d = VStr productId;
  sh_rating : prop "rating" d = vint r;
  sh_status : prop "status" d = VStr status;
  sh_verified : prop "verifiedPurchase" d = VBool v;
  sh_moderation : ∃ kvs sub, d = VObj kvs ∧ prop "moderation" d = VObj sub;
  sh_range : 1 <= r <= 5
}.

Lemma neqb_jint (a b : Z) : neqb (jint a) (jint b) = (a =? b).
Proof.
  cbn. apply eq_true_iff_eq. rewrite Qeq_bool_iff, Z.eqb_eq. apply inject_Z_injective.
Qed.

Lemma rated_shape d p r st v p' r' : review_shape d p r st v →
  rated p' r' d = bool_decide (p = p') && bool_decide (st = "PUBLISHED") && (r =? r').
Proof.
  intros [Hp Hr Hs _ _ _]. unfold rated, is_str, is_num.
  rewrite Hp, Hs, Hr. unfold vint. by rewrite neqb_jint.
Qed.

Lemma verified_shape d p r st v p' : review_shape d p r st v →
  verified p' d = bool_decide (p = p') && bool_decide (st = "PUBLISHED") && v.
Proof. intros [Hp _ Hs Hv _ _]. unfold verified, is_str, is_true. by rewrite Hp, Hs, Hv. Qed.

(** ** The update of a moderation *)

Lemma moderation_compatible decision by_ reason t1 t2 :
  unconflicted (moderation_ops decision by_ reason t1 t2).
Proof.
  assert (∀ r : list update_op, r = [] ∨ (∃ x, r = [OSet "moderation.reason" x]) →
    unconflicted ([OSet "status" (VStr decision); OSet "updatedAt" (vint t1);
      OSet "moderation.moderatedBy" by_; OSet "moderation.moderatedAt" (vint t2)] ++ r)) as Hr.
  { intros r [->|[x ->]]; cbn [app unconflicted]; rewrite !Forall_cons;
      unfold conflict; cbn [op_key]; split_and!; try exact I; try constructor;
      apply (bool_decide_unpack _); vm_compute; exact I. }
  apply Hr. destruct reason as [x|]; [|by left]. destruct (truthy_str x); [right; eauto|by left].
Qed.

Lemma moderation_roots decision by_ reason t1 t2 :
  ∃ rest, moderation_ops decision by_ reason t1 t2 = OSet "status" (VStr decision) :: rest ∧
    Forall (λ o, root_of o = "updatedAt" ∨ root_of o = "moderation" ∧ length (path_of (op_key o)) = 2%nat) rest.
Proof.
  unfold moderation_ops. cbn [app]. eexists. split; [done|].
  repeat (apply Forall_cons; split; [vm_compute; auto|]).
  destruct reason as [x|]; [|constructor]. destruct (truthy_str x); [|constructor].
  apply Forall_cons. split; [vm_compute; auto|constructor].
Qed.

(** A moderation sets the status and leaves what is counted alone. *)
Lemma moderated_review d p r st v decision by_ reason t1 t2 :
  review_shape d p r st v →
  ∃ d', apply_update false (moderation_ops decision by_ reason t1 t2) d = Some d' ∧
    review_shape d' p r decision v ∧ prop "userId" d' = prop "userId" d.
Proof.
  intros [Hp Hr Hs Hv (kvs & sub & -> & Hm) Hrange].
  destruct (update_ok false (moderation_ops decision by_ reason t1 t2) kvs) as [d' Hd'].
  { apply moderation_compatible. }
  { unfold moderation_ops. apply Forall_app. split.
    - repeat (apply Forall_cons; split); try exact I; try constructor;
        unfold fits; change (path_of (op_key _)) with ["moderation"; "moderatedBy"] || change (path_of (op_key _)) with ["moderation"; "moderatedAt"];
        cbn iota; rewrite Hm; exact I.
    - destruct reason as [x|]; [|constructor]. destruct (truthy_str x); constructor; [|constructor].
      unfold fits. change (path_of (op_key _)) with ["moderation"; "reason"]. cbn iota. rewrite Hm. exact I. }
  exists d'. split; [done|].
  destruct (moderation_roots decision by_ reason t1 t2) as (rest & Hops & Hroots).
  assert (∀ f, f ≠ "status" → f ≠ "updatedAt" → f ≠ "moderation" → prop f d' = prop f (VObj kvs)) as Hsame.
  { intros f H1 H2 H3. eapply update_untouched; [exact Hd'|]. rewrite Hops. apply Forall_cons. split.
    - intros _. cbn. by apply not_eq_sym.
      - eapply Forall_impl; [exact Hroots|]. intros o [->|[-> _]] _; by apply not_eq_sym. }
  split; [|by apply Hsame]. split; rewrite ?Hsame by done; try done.
  - eapply update_set; [exact Hd'| |done|done]. exists [], rest. split; [done|]. split; [done|].
    eapply Forall_impl; [exact Hroots|]. by intros o [->|[-> _]].
  - destruct (update_object _ _ _ _ Hd') as [kvs' ->].
    destruct (update_embedded _ _ _ _ "moderation" sub Hd' Hm) as [sub' Hsub]; [|by exists kvs', sub'].
    rewrite Hops. apply Forall_cons. split; [done|].
    eapply Forall_impl; [exact Hroots|]. by intros o [->|[_ ?]].
Qed.

(** ** The update of a summary *)

Record summary_shape (s : jsval) (c : list Z) (v : Z) : Prop := {
  su_distribution : prop "distribution" s = VArr (map vint c);
  su_count : prop "count" s = vint (Rating.reviews_of c);
  su_verified : prop "verifiedCount" s = vint v;
  su_object : ∃ kvs, s = VObj kvs
}.

(** The same without its count: what a summary keeps while others are at work. *)
Record tallies (s : jsval) (c : list Z) (v : Z) : Prop := {
  ta_distribution : prop "distribution" s = VArr (map vint c);
  ta_count : ∃ x, prop "count" s = VNum x;
  ta_verified : prop "verifiedCount" s = vint v;
  ta_object : ∃ kvs, s = VObj kvs
}.

Lemma shape_tallies s c v : summary_shape s c v → tallies s c v.
Proof. intros [Hd Hc Hv Ho]. split; [done| |done|done]. by eexists. Qed.

Lemma bucket_of r : 1 <= r <= 5 →
  ∃ b, Rating.bucketFor (jint r) = Some b ∧
    path_of (bucket_key b) = ["distribution"; string_of_int (Z.of_nat (Z.to_nat (r - 1)))].
Proof.
  intros Hr. assert (r = 1 ∨ r = 2 ∨ r = 3 ∨ r = 4 ∨ r = 5) as [->|[->|[->|[->| ->]]]] by lia;
    eexists; (split; [reflexivity|vm_compute; reflexivity]).
Qed.

Lemma delta_compatible p b δ v t x : path_of (bucket_key b) = ["distribution"; x] →
  unconflicted (delta_ops p b δ v t).
Proof.
  intros Hb. unfold delta_ops. destruct v; cbn [app unconflicted]; rewrite !Forall_cons;
    unfold conflict; cbn [op_key]; rewrite !Hb; split_and!; try exact I; try constructor;
    apply (bool_decide_unpack _); vm_compute; exact I.
Qed.

(** The fields of a summary that the entries of [delta_ops] are about. *)
Lemma delta_sole p b δ v t x : path_of (bucket_key b) = ["distribution"; x] →
  sole "distribution" (OInc (bucket_key b) δ) (delta_ops p b δ v t) ∧
  sole "count" (OInc "count" δ) (delta_ops p b δ v t) ∧
  (if v then sole "verifiedCount" (OInc "verifiedCount" δ) (delta_ops p b δ v t)
   else Forall (λ o, root_of o ≠ "verifiedCount") (delta_ops p b δ v t)).
Proof.
  intros Hb. assert (root_of (OInc (bucket_key b) δ) = "distribution") as Hroot.
  { unfold root_of. cbn [op_key]. by rewrite Hb. }
  unfold delta_ops. split_and!.
  - exists [], (tail (delta_ops p b δ v t)). split; [done|]. split; [done|].
    destruct v; repeat constructor; vm_compute; congruence.
  - exists [OInc (bucket_key b) δ], (tail (tail (delta_ops p b δ v t))). split; [done|]. split; [done|].
    apply Forall_cons. split; [by rewrite Hroot|]. destruct v; repeat constructor; vm_compute; congruence.
  - destruct v.
    + exists [OInc (bucket_key b) δ; OInc "count" δ], [OSet "updatedAt" (vint t); OSetOnInsert "_id" (VStr p)].
      split; [done|]. split; [done|]. apply Forall_cons. split; [by rewrite Hroot|].
      repeat constructor; vm_compute; congruence.
    + apply Forall_cons. split; [by rewrite Hroot|]. repeat constructor; vm_compute; congruence.
Qed.

Lemma fits_counter k x δ kvs : path_of k = [k] → prop k (VObj kvs) = VNum x → fits kvs (OInc k δ).
Proof. intros Hk Hp. unfold fits. cbn [op_key]. rewrite Hk, Hp. by eexists. Qed.

Lemma bump_counts c i δ : (i < length c)%nat →
  Forall (λ n, Z.abs n < 2 ^ 50) c → Z.abs δ < 2 ^ 50 →
  bump_at (map vint c) i (jint δ) = Some (map vint (alter (λ n, n + δ) i c)).
Proof.
  intros [n Hn]%lookup_lt_is_Some Hf Hd. unfold bump_at. rewrite list_lookup_fmap, Hn. cbn [fmap option_fmap option_map].
  rewrite Forall_lookup in Hf. pose proof (Hf _ _ Hn) as Hsmall. cbn beta in Hsmall.
  change (vint n) with (VNum (jint n)). cbv iota beta.
  rewrite jint_add by lia. f_equal. apply list_eq. intros j.
  destruct (decide (i = j)) as [->|Hj].
  - rewrite list_lookup_insert_eq by (rewrite length_map; by eapply lookup_lt_Some).
    by rewrite list_lookup_fmap, list_lookup_alter_eq, Hn.
  - by rewrite list_lookup_insert_ne, !list_lookup_fmap, list_lookup_alter_ne.
Qed.

(** The size of the numbers a summary holds. *)
Definition small (c : list Z) (v : Z) : Prop :=
  Forall (λ n, 0 <= n) c ∧ Rating.reviews_of c < 2 ^ 40 ∧ 0 <= v < 2 ^ 40.

Lemma small_counts c v : small c v → Forall (λ n, Z.abs n < 2 ^ 50) c.
Proof.
  intros (Hp & Hs & _). assert (∀ n, n ∈ c → 0 <= n <= Rating.reviews_of c) as Hb.
  { clear Hs. induction Hp as [|n c Hn Hc IH]; intros x; [by intros ?%not_elem_of_nil|].
    assert (0 <= Rating.reviews_of c).
    { clear -Hc. unfold Rating.reviews_of. induction Hc; cbn; lia. }
    cbn. fold (Rating.reviews_of c). intros [->|Hx]%elem_of_cons; [lia|]. specialize (IH _ Hx). lia. }
  apply Forall_forall. intros n Hn. specialize (Hb n Hn). lia.
Qed.

Lemma delta_fits s c m p b δ v t r kvs : tallies s c m → s = VObj kvs → small c m → Z.abs δ < 2 ^ 50 →
  length c = 5%nat → 1 <= r <= 5 →
  path_of (bucket_key b) = ["distribution"; string_of_int (Z.of_nat (Z.to_nat (r - 1)))] →
  Forall (fits kvs) (delta_ops p b (jint δ) v t).
Proof.
  intros [Hd [x Hc] Hv _] -> Hs%small_counts Hδ Hl Hr Hb. unfold delta_ops.
  apply Forall_cons. split.
  { unfold fits. cbn [op_key]. rewrite Hb, Hd. exists (Z.to_nat (r - 1)). split; [done|].
    rewrite bump_counts by (done || lia). by eexists. }
  apply Forall_cons. split; [by eapply fits_counter|]. apply Forall_app. split.
  - destruct v; repeat constructor. by eapply fits_counter.
  - repeat constructor.
Qed.

Lemma reviews_of_alter c i δ : (i < length c)%nat →
  Rating.reviews_of (alter (λ n, n + δ) i c) = Rating.reviews_of c + δ.
Proof.
  revert i. induction c as [|n c IH]; intros [|i] Hi; cbn in *; try lia.
  specialize (IH i ltac:(lia)). unfold Rating.reviews_of in *. rewrite IH. lia.
Qed.

(** A delta moves the bucket of the rating and the verified counter. *)
Lemma tallied_delta s c m p b δ v t r : tallies s c m → small c m → Z.abs δ <= 1 →
  length c = 5%nat → 1 <= r <= 5 →
  path_of (bucket_key b) = ["distribution"; string_of_int (Z.of_nat (Z.to_nat (r - 1)))] →
  ∃ s', apply_update false (delta_ops p b (jint δ) v t) s = Some s' ∧
    tallies s' (alter (λ n, n + δ) (Z.to_nat (r - 1)) c) (m + (if v then δ else 0)).
Proof.
  intros Hsh Hsm Hδ Hl Hr Hb. pose proof Hsh as [Hd [x Hc] Hv [kvs ->]].
  pose proof (small_counts _ _ Hsm) as Hbig. destruct Hsm as (Hpos & Hn & Hm).
  destruct (update_ok false (delta_ops p b (jint δ) v t) kvs) as [s' Hs'].
  { by eapply delta_compatible. }
  { eapply delta_fits; try done; lia. }
  destruct (delta_sole p b (jint δ) v t _ Hb) as (H1 & H2 & H3).
  exists s'. split; [done|]. split.
  - eapply update_inc_array; [done|exact H1|exact Hb|exact Hd|]. apply bump_counts; [lia|done|lia].
  - eexists. eapply update_inc; [done|exact H2|done|by rewrite Hc].
  - destruct v.
    + erewrite update_inc; [|done|exact H3|done|by rewrite Hv]. by rewrite jint_add by lia.
    + rewrite Z.add_0_r, <- Hv. eapply update_untouched; [done|]. eapply Forall_impl; [exact H3|]. auto.
  - by eapply update_object.
Qed.

(** And the count, when it was right. *)
Lemma counted_summary s c m p b δ v t r : summary_shape s c m → small c m → Z.abs δ <= 1 →
  length c = 5%nat → 1 <= r <= 5 →
  path_of (bucket_key b) = ["distribution"; string_of_int (Z.of_nat (Z.to_nat (r - 1)))] →
  ∃ s', apply_update false (delta_ops p b (jint δ) v t) s = Some s' ∧
    summary_shape s' (alter (λ n, n + δ) (Z.to_nat (r - 1)) c) (m + (if v then δ else 0)).
Proof.
  intros Hsh Hsm Hδ Hl Hr Hb.
  destruct (tallied_delta s c m p b δ v t r (shape_tallies _ _ _ Hsh) Hsm Hδ Hl Hr Hb) as (s' & Hs' & [Hd' _ Hv' Ho']).
  destruct (delta_sole p b (jint δ) v t _ Hb) as (_ & H2 & _). destruct Hsm as (Hpos & Hn & _).
  assert (0 <= Rating.reviews_of c) as Hn0.
  { clear -Hpos. unfold Rating.reviews_of. induction Hpos; cbn; lia. }
  exists s'. split; [done|]. split; [done| |done|done].
  erewrite update_inc; [|done|exact H2|done|by rewrite (su_count _ _ _ Hsh)]. rewrite jint_add by lia.
  by rewrite reviews_of_alter by lia.
Qed.

(** ** What the counts become *)

Definition change (st decision : jstr) : Z :=
  b2z (bool_decide (decision = "PUBLISHED")) - b2z (bool_decide (st = "PUBLISHED")).

Lemma five_alter (f : Z → Z) r δ : 1 <= r <= 5 →
  map (λ x, f x + (if r =? x then δ else 0)) [1; 2; 3; 4; 5] =
  alter (λ n, n + δ) (Z.to_nat (r - 1)) (map f [1; 2; 3; 4; 5]).
Proof.
  intros Hr. assert (r = 1 ∨ r = 2 ∨ r = 3 ∨ r = 4 ∨ r = 5) as [->|[->|[->|[->| ->]]]] by lia;
    match goal with |- context [Z.to_nat (?r - 1)] =>
      let i := eval vm_compute in (Z.to_nat (r - 1)) in change (Z.to_nat (r - 1)) with i end;
    cbn; by rewrite !Z.add_0_r.
Qed.

Lemma published_store w id d d' p r st decision v p' :
  d_reviews w !! id = Some d → review_shape d p r st v → review_shape d' p r decision v →
  published p' (store reviews id d' w) =
  (if bool_decide (p = p') then alter (λ n, n + change st decision) (Z.to_nat (r - 1)) (published p' w)
   else published p' w).
Proof.
  intros Hd Hs Hs'. unfold published, change.
  pose proof (sh_range _ _ _ _ _ Hs) as Hr.
  rewrite (map_ext _ (λ x, counted p' (rated p' x) w +
      (if bool_decide (p = p') && (r =? x) then
        b2z (bool_decide (decision = "PUBLISHED")) - b2z (bool_decide (st = "PUBLISHED")) else 0))).
  2:{ intros x. rewrite (counted_store _ _ _ _ _ _ Hd), (rated_shape _ _ _ _ _ _ _ Hs), (rated_shape _ _ _ _ _ _ _ Hs').
      destruct (bool_decide (p = p')), (bool_decide (st = _)), (bool_decide (decision = _)), (r =? x); cbn; lia. }
  destruct (bool_decide (p = p')); cbn [andb].
  - by apply five_alter.
  - apply map_ext. intros x. lia.
Qed.

Lemma verified_store w id d d' p r st decision v p' :
  d_reviews w !! id = Some d → review_shape d p r st v → review_shape d' p r decision v →
  counted p' (verified p') (store reviews id d' w) =
  counted p' (verified p') w + (if bool_decide (p = p') then (if v then change st decision else 0) else 0).
Proof.
  intros Hd Hs Hs'. unfold change.
  rewrite (counted_store _ _ _ _ _ _ Hd), (verified_shape _ _ _ _ _ _ Hs), (verified_shape _ _ _ _ _ _ Hs').
  destruct (bool_decide (p = p')), (bool_decide (st = _)), (bool_decide (decision = _)), v; cbn; lia.
Qed.

Definition fits_in (w : db) : Prop := Z.of_nat (size (d_reviews w)) < 2 ^ 37.

Lemma counted_bounds p q w : 0 <= counted p q w <= Z.of_nat (size (d_reviews w)).
Proof.
  unfold counted. split; [lia|]. apply inj_le. apply map_size_filter || apply map_subseteq_size, map_filter_subseteq.
Qed.

Lemma small_published p w : fits_in w → small (published p w) (counted p (verified p) w).
Proof.
  intros Hw. unfold fits_in in Hw. unfold small, published, Rating.reviews_of. cbn [map foldr].
  pose proof (counted_bounds p (rated p 1) w). pose proof (counted_bounds p (rated p 2) w).
  pose proof (counted_bounds p (rated p 3) w). pose proof (counted_bounds p (rated p 4) w).
  pose proof (counted_bounds p (rated p 5) w). pose proof (counted_bounds p (verified p) w).
  split; [|lia]. repeat constructor; lia.
Qed.

Lemma published_histogram p w : fits_in w → Rating.histogram (published p w).
Proof. intros Hw. destruct (small_published p w Hw) as (? & ? & _). by split_and!. Qed.

(** One more review leaves a histogram one. *)
Lemma small_total p w : fits_in w → Rating.reviews_of (published p w) < 2 ^ 40 - 2 ^ 20.
Proof.
  intros Hw. unfold fits_in in Hw. unfold published, Rating.reviews_of. cbn [map foldr].
  pose proof (counted_bounds p (rated p 1) w). pose proof (counted_bounds p (rated p 2) w).
  pose proof (counted_bounds p (rated p 3) w). pose proof (counted_bounds p (rated p 4) w).
  pose proof (counted_bounds p (rated p 5) w). lia.
Qed.

Lemma histogram_alter p w r : fits_in w → 1 <= r <= 5 →
  Rating.histogram (alter (λ n, n + 1) (Z.to_nat (r - 1)) (published p w)).
Proof.
  intros Hw Hr. destruct (small_published p w Hw) as (Hf & _ & _). pose proof (small_total p w Hw).
  split; [by rewrite length_alter|]. split.
  - rewrite Forall_lookup in Hf |- *. intros i x Hx.
    destruct (decide (Z.to_nat (r - 1) = i)) as [<-|Hi].
    + rewrite list_lookup_alter_eq in Hx. apply fmap_Some in Hx as (y & Hy & ->). specialize (Hf _ _ Hy). cbn in Hf. lia.
    + rewrite list_lookup_alter_ne in Hx by done. by eapply Hf.
  - rewrite reviews_of_alter by (cbn [length published map]; lia). lia.
Qed.

(** ** An exact summary *)

(** The summary [s] of a product says what its published reviews say. *)
Definition exact (p : jstr) (w : db) (s : jsval) : Prop :=
  summary_shape s (published p w) (counted p (verified p) w) ∧
  prop "average" s = VNum (Rating.average (Rating.summarise (Rating.counts (published p w)))).

Definition summaries_exact (w : db) : Prop := ∀ p s, d_summaries w !! p = Some s → exact p w s.

Lemma distribution_counts c : distribution_of (VArr (map vint c)) = Some (Rating.counts c).
Proof. cbn. unfold Rating.counts. by rewrite map_map. Qed.

Lemma summarise_count c : Rating.histogram c →
  Rating.count (Rating.summarise (Rating.counts c)) = jint (Rating.reviews_of c).
Proof.
  intros Hc. unfold Rating.summarise. rewrite Rating.total_counts by done. cbn zeta.
  rewrite neqb_jint. destruct (Z.eqb_spec (Rating.reviews_of c) 0) as [->|]; done.
Qed.

(** The second update of [applyRatingDelta]. *)
Definition averaged (S : Rating.RatingSummary) : list update_op :=
  [OSet "average" (VNum (Rating.average S)); OSet "count" (VNum (Rating.count S))].

Lemma tallied_average s c m S : tallies s c m →
  ∃ s', apply_update false (averaged S) s = Some s' ∧ tallies s' c m ∧
    prop "average" s' = VNum (Rating.average S) ∧ prop "count" s' = VNum (Rating.count S).
Proof.
  intros [Hd Hc Hv [kvs ->]]. destruct (update_ok false (averaged S) kvs) as [s' Hs'].
  { cbn [unconflicted averaged]. rewrite !Forall_cons. unfold conflict. cbn [op_key]. split_and!; try constructor;
      apply (bool_decide_unpack _); vm_compute; exact I. }
  { repeat constructor. }
  assert (∀ f, f ≠ "average" → f ≠ "count" → prop f s' = prop f (VObj kvs)) as Hsame.
  { intros f H1 H2. eapply update_untouched; [exact Hs'|]. repeat constructor; intros _; by apply not_eq_sym. }
  assert (prop "count" s' = VNum (Rating.count S)) as Hcount.
  { eapply update_set; [exact Hs'| |done|done].
    exists [OSet "average" (VNum (Rating.average S))], []. split; [done|]. split; [done|]. by repeat constructor. }
  exists s'. split; [done|]. split; [split|split]; rewrite ?Hsame by done; try done.
  - by eexists.
  - by eapply update_object.
  - eapply update_set; [exact Hs'| |done|done].
    exists [], [OSet "count" (VNum (Rating.count S))]. split; [done|]. split; [done|]. by repeat constructor.
Qed.

Lemma average_summary s c m : summary_shape s c m → Rating.histogram c →
  let S := Rating.summarise (Rating.counts c) in
  ∃ s', apply_update false (averaged S) s = Some s' ∧ summary_shape s' c m ∧ prop "average" s' = VNum (Rating.average S).
Proof.
  intros Hsh Hh S. destruct (tallied_average s c m S (shape_tallies _ _ _ Hsh)) as (s' & Hs' & [Hd _ Hv Ho] & Ha & Hn).
  exists s'. split; [done|]. split; [|done]. split; [done| |done|done]. rewrite Hn. unfold S. by rewrite (summarise_count c Hh).
Qed.

(** ** The unique index *)

Lemma unclashed_agree id d w w' :
  (∀ id', id' ≠ id → d_reviews w' !! id' = d_reviews w !! id') → unclashed id d w' = unclashed id d w.
Proof.
  assert (∀ w w', (∀ id', id' ≠ id → d_reviews w' !! id' = d_reviews w !! id') →
    unclashed id d w = true → unclashed id d w' = true) as Hone.
  { intros u u' Hu. unfold unclashed. rewrite !forallb_forall. intros Hall [i x] Hin.
    destruct (bool_decide_reflect (i = id)) as [->|Hi]; cbn [fst snd]; [by rewrite bool_decide_eq_true_2|].
    apply (Hall (i, x)). apply list_elem_of_In, elem_of_map_to_list.
    apply list_elem_of_In, elem_of_map_to_list in Hin. by rewrite <- Hu. }
  intros Hw. apply eq_true_iff_eq. split; apply Hone; [|done]. intros i Hi. symmetry. by apply Hw.
Qed.

Lemma unclashed_author id d d' w : prop "productId" d' = prop "productId" d → prop "userId" d' = prop "userId" d →
  unclashed id d' w = unclashed id d w.
Proof. intros Hp Hu. unfold unclashed, same_key. by rewrite Hp, Hu. Qed.

(** ** Moderating alone *)

Section Alone.
Context (clock : Z) (bytes : list N).

Lemma run_update c id ops up d d' w :
  collection c w !! id = Some d → apply_update false ops d = Some d' → allowed c id d' w = true →
  run (drive clock bytes) (await (UPDATE_ONE c id ops up)) w = (Ok 0, store c id d' w).
Proof. intros Hd Ha Hw. rewrite run_await. cbn [drive]. unfold update_one. by rewrite Hd, Ha, Hw. Qed.

Lemma store_store c id d d' w : store c id d' (store c id d w) = store c id d' w.
Proof. destruct c; cbn; by rewrite insert_insert_eq. Qed.

Lemma run_delta p r δ v w s c m :
  d_summaries w !! p = Some s → summary_shape s c m → small c m → Z.abs δ <= 1 → length c = 5%nat → 1 <= r <= 5 →
  Rating.histogram (alter (λ n, n + δ) (Z.to_nat (r - 1)) c) →
  ∃ s', run (drive clock bytes) (applyRatingDelta p (jint r) (jint δ) v) w =
      (Ok tt, store rating_summaries p s' w) ∧
    summary_shape s' (alter (λ n, n + δ) (Z.to_nat (r - 1)) c) (m + (if v then δ else 0)) ∧
    prop "average" s' =
      VNum (Rating.average (Rating.summarise (Rating.counts (alter (λ n, n + δ) (Z.to_nat (r - 1)) c)))).
Proof.
  intros Hs Hsh Hsm Hδ Hl Hr Hh. destruct (bucket_of r Hr) as (b & Hb & Hpath).
  destruct (counted_summary s c m p b δ v clock r Hsh Hsm Hδ Hl Hr Hpath) as (s1 & H1 & Hsh1).
  destruct (average_summary s1 _ _ Hsh1 Hh) as (s2 & H2 & Hsh2 & Hav).
  exists s2. split; [|done]. unfold applyRatingDelta. rewrite Hb.
  rewrite run_mbind, run_await. cbn [drive].
  rewrite run_mbind, (run_update rating_summaries p _ true s s1 w Hs H1 eq_refl).
  rewrite run_mbind, run_await. cbn [drive]. rewrite collection_store_eq, lookup_insert_eq.
  rewrite (su_distribution _ _ _ Hsh1), distribution_counts.
  rewrite run_mbind, (run_update rating_summaries p _ false s1 s2).
  - by rewrite store_store.
  - by rewrite collection_store_eq, lookup_insert_eq.
  - exact H2.
  - done.
Qed.

(** With this decision a review is one of those its author may have one of. *)
Definition holds_place (decision : jstr) : bool :=
  bool_decide (decision = "PENDING_MODERATION") || bool_decide (decision = "PUBLISHED").

(** The unique index lets the decision in. *)
Definition has_room (decision id : jstr) (d : jsval) (w : db) : bool :=
  negb (holds_place decision) || unclashed id d w.

Lemma active_shape d p r st v : review_shape d p r st v → active d = holds_place st.
Proof.
  intros Hsh. unfold active, holds_place. rewrite (sh_status _ _ _ _ _ Hsh). cbn [is_str].
  f_equal; by apply bool_decide_ext.
Qed.

(** The first steps of a moderation that changes the status. *)
Lemma run_moderate_start id decision by_ reason w d p r st v :
  d_reviews w !! id = Some d → review_shape d p r st v → st ≠ decision →
  ∃ d', review_shape d' p r decision v ∧ unclashed id d' w = unclashed id d w ∧
    run (drive clock bytes) (moderate id decision by_ reason) w =
      (if negb (has_room decision id d w) then (Err (MongoError 11000), w)
       else if Bool.eqb (bool_decide (st = "PUBLISHED")) (bool_decide (decision = "PUBLISHED"))
       then (Ok tt, store reviews id d' w)
       else run (drive clock bytes)
              (applyRatingDelta p (jint r) (jint (change st decision)) v) (store reviews id d' w)).
Proof.
  intros Hd Hsh Hne.
  destruct (moderated_review d p r st v decision by_ reason clock clock Hsh) as (d' & Ha & Hsh' & Hu).
  assert (unclashed id d' w = unclashed id d w) as Hun'.
  { apply unclashed_author; [|done]. by rewrite (sh_productId _ _ _ _ _ Hsh'), (sh_productId _ _ _ _ _ Hsh). }
  assert (allowed reviews id d' w = has_room decision id d w) as Hroom.
  { cbn [allowed]. unfold one_per_user, has_room. by rewrite Hun', (active_shape _ _ _ _ _ Hsh'). }
  exists d'. split; [done|]. split; [done|]. unfold moderate.
  rewrite run_mbind, run_await. cbn [drive collection]. rewrite Hd.
  destruct Hsh as [Hp Hr Hs Hv _ Hrange]. rewrite Hs. cbn [is_str]. rewrite (bool_decide_eq_false_2 _ Hne).
  rewrite run_mbind, run_await. cbn [drive]. rewrite run_mbind, run_await. cbn [drive].
  destruct (has_room decision id d w) eqn:E; cbn [negb].
  - rewrite run_mbind, (run_update reviews id _ false d d' w Hd Ha Hroom).
    rewrite Hp, Hr, Hv. cbn [the_str the_num is_true vint].
    unfold change. destruct (bool_decide (st = "PUBLISHED")) eqn:E1, (bool_decide (decision = "PUBLISHED")) eqn:E2;
      cbn [Bool.eqb b2z]; try done.
  - rewrite run_mbind, run_await. cbn [drive]. unfold update_one. cbn [collection]. by rewrite Hd, Ha, Hroom.
Qed.

(** A moderation alone, and what becomes of everything it counts. *)
Lemma moderate_alone id decision by_ reason w d p r st v :
  summaries_exact w → fits_in w →
  d_reviews w !! id = Some d → review_shape d p r st v → st = decision ∨ has_room decision id d w = true →
  is_Some (d_summaries w !! p) →
  ∃ w', run (drive clock bytes) (moderate id decision by_ reason) w = (Ok tt, w') ∧
    summaries_exact w' ∧
    (∃ d', d_reviews w' !! id = Some d' ∧ review_shape d' p r decision v ∧
       unclashed id d' w' = unclashed id d w) ∧
    (∀ id', id' ≠ id → d_reviews w' !! id' = d_reviews w !! id') ∧
    fits_in w' ∧ is_Some (d_summaries w' !! p).
Proof.
  intros He Hfit Hd Hsh Hun [s Hs]. destruct (decide (st = decision)) as [->|Hne].
  { exists w. split; [|by eauto 12]. unfold moderate. rewrite run_mbind, run_await. cbn [drive collection].
    rewrite Hd, (sh_status _ _ _ _ _ Hsh). cbn [is_str]. by rewrite bool_decide_eq_true_2. }
  destruct Hun as [?|Hroom]; [done|].
  destruct (run_moderate_start id decision by_ reason w d p r st v Hd Hsh Hne) as (d' & Hsh' & Hun' & ->).
  rewrite Hroom. cbn [negb]. set (w1 := store reviews id d' w).
  assert (d_reviews w1 !! id = Some d') as Hd1 by apply lookup_insert_eq.
  assert (∀ id', id' ≠ id → d_reviews w1 !! id' = d_reviews w !! id') as Hothers
    by (intros id' ?; by apply lookup_insert_ne).
  rewrite <- (unclashed_agree id d' w w1 Hothers) in Hun'.
  assert (fits_in w1) as Hfit1.
  { unfold fits_in in *. cbn [w1 store d_reviews]. by rewrite map_size_insert_Some by eauto. }
  pose proof (λ p', published_store w id d d' p r st decision v p' Hd Hsh Hsh') as Hpub.
  pose proof (λ p', verified_store w id d d' p r st decision v p' Hd Hsh Hsh') as Hver.
  fold w1 in Hpub, Hver.
  assert (∀ p', change st decision = 0 ∨ p ≠ p' →
    published p' w1 = published p' w ∧ counted p' (verified p') w1 = counted p' (verified p') w) as Hkept.
  { intros p' Hp'. rewrite Hpub, Hver. destruct (bool_decide_reflect (p = p')) as [<-|]; [|by rewrite Z.add_0_r].
    destruct Hp' as [->|]; [|done]. rewrite list_alter_id by (intros; lia). destruct v; by rewrite Z.add_0_r. }
  destruct (Bool.eqb _ _) eqn:Hsame.
  - apply Bool.eqb_prop in Hsame. exists w1. split; [done|]. split; [|by eauto 12]. intros p' s' Hs'.
    unfold exact. destruct (Hkept p') as [-> ->]; [left; unfold change; rewrite Hsame; lia|]. by apply He.
  - pose proof (Hpub p) as Hpp. pose proof (Hver p) as Hvp. rewrite bool_decide_eq_true_2 in Hpp, Hvp by done.
    destruct (run_delta p r (change st decision) v w1 s (published p w) (counted p (verified p) w))
      as (s' & -> & Hshape & Hav);
      [exact Hs|apply He; exact Hs|by apply small_published| |done|exact (sh_range _ _ _ _ _ Hsh)| |].
    { unfold change. destruct (bool_decide _), (bool_decide _); cbn; lia. }
    { rewrite <- Hpp. by apply published_histogram. }
    rewrite <- Hpp in Hshape, Hav. rewrite <- Hvp in Hshape.
    exists (store rating_summaries p s' w1). split; [done|].
    split; [|split; [by eauto|]; split; [done|]; split; [done|]; cbn; rewrite lookup_insert_eq; by eexists].
    intros p' s2 Hs2. cbn [store d_summaries] in Hs2.
    destruct (decide (p = p')) as [<-|Hp'].
    + rewrite lookup_insert_eq in Hs2. injection Hs2 as <-. exact (conj Hshape Hav).
    + rewrite lookup_insert_ne in Hs2 by done. destruct (Hkept p' (or_intror Hp')) as [H1 H2].
      destruct (He p' s2 Hs2) as [H3 H4]. rewrite <- H1 in H3, H4. rewrite <- H2 in H3. exact (conj H3 H4).
Qed.

(** C13. The rating of a product is what its published reviews say.  A review of
    the shape the service stores, whose product has a summary, is moderated
    alone, with every summary exact (five buckets, count, verified count and the
    rounded average) and fewer than 2^37 reviews.  If it already has the status
    decided, or the decision is not to publish it, or its author has no other
    pending or published review of the product, the moderation succeeds: the
    review has the status decided, no other review changes, and every summary is
    exact again, in whichever direction the review moved.  Otherwise, as when a
    rejected review is published after its author has written another, the
    unique index refuses the write and the database is as it was. *)
Theorem moderation_keeps_summaries id decision by_ reason w d p r st v :
  decision ∈ ["PUBLISHED"; "REJECTED"] →
  summaries_exact w → fits_in w →
  d_reviews w !! id = Some d → review_shape d p r st v →
  is_Some (d_summaries w !! p) →
  let o := run (drive clock bytes) (moderate id decision by_ reason) w in
  (st = decision ∨ decision = "REJECTED" ∨ unclashed id d w = true →
     o.1 = Ok tt ∧ summaries_exact o.2 ∧
     (∃ d', d_reviews o.2 !! id = Some d' ∧ review_shape d' p r decision v) ∧
     (∀ id', id' ≠ id → d_reviews o.2 !! id' = d_reviews w !! id')) ∧
  (st ≠ decision ∧ decision = "PUBLISHED" ∧ unclashed id d w = false → o = (Err (MongoError 11000), w)).
Proof.
  intros Hdec He Hf Hd Hs HS o. split.
  - intros Hor. destruct (moderate_alone id decision by_ reason w d p r st v He Hf Hd Hs)
      as (w' & Hrun & ? & (d' & ? & ? & _) & ? & _); [|done|].
    + destruct Hor as [?|[->|Hu]]; [by left|by right|right]. unfold has_room. by rewrite Hu, orb_true_r.
    + unfold o. rewrite Hrun. cbn. eauto 6.
  - intros (Hne & -> & Hu). unfold o. destruct (run_moderate_start id _ by_ reason w d p r st v Hd Hs Hne) as (d' & _ & _ & ->).
    unfold has_room. by rewrite Hu.
Qed.

(** ** A product without a summary *)

(** The update that creates a summary puts an object where the histogram belongs. *)
Lemma created_summary p b x δ v t : path_of (bucket_key b) = ["distribution"; x] →
  ∃ s, apply_update true (delta_ops p b (jint δ) v t) (VObj [("_id", VStr p)]) = Some s ∧
    distribution_of (prop "distribution" s) = None ∧ prop "average" s = VUndef.
Proof.
  intros Hb. destruct (update_ok true (delta_ops p b (jint δ) v t) [("_id", VStr p)]) as [s Hs].
  { by eapply delta_compatible. }
  { unfold delta_ops. apply Forall_cons. split; [unfold fits; cbn [op_key]; by rewrite Hb|].
    apply Forall_cons. split; [by eexists|]. apply Forall_app. split; [|by repeat constructor].
    destruct v; repeat constructor. by eexists. }
  exists s. split; [done|]. destruct (delta_sole p b (jint δ) v t x Hb) as (H1 & _ & _). split.
  - by rewrite (update_inc_absent _ _ _ _ _ _ _ _ Hs H1 Hb eq_refl).
  - rewrite (update_untouched _ _ _ _ "average" Hs); [done|]. unfold delta_ops.
    apply Forall_cons. split; [intros _; unfold root_of; cbn [op_key]; by rewrite Hb|].
    destruct v; repeat constructor; vm_compute; congruence.
Qed.

(** The first publication of a product fails: without a summary, publishing a
    review throws a TypeError after the review was published; the summary it
    leaves has an object for a histogram and no average, and publishing again
    reports success without repairing it. *)
Theorem first_publication_fails id by_ reason w d p r st v :
  d_reviews w !! id = Some d → review_shape d p r st v → unclashed id d w = true →
  st ≠ "PUBLISHED" → d_summaries w !! p = None →
  ∃ w' d' s, run (drive clock bytes) (moderate id "PUBLISHED" by_ reason) w = (Err TypeError, w') ∧
    d_reviews w' !! id = Some d' ∧ prop "status" d' = VStr "PUBLISHED" ∧
    d_summaries w' !! p = Some s ∧ prop "average" s = VUndef ∧
    distribution_of (prop "distribution" s) = None ∧
    run (drive clock bytes) (moderate id "PUBLISHED" by_ reason) w' = (Ok tt, w').
Proof.
  intros Hd Hsh Hun Hst Hs.
  destruct (run_moderate_start id "PUBLISHED" by_ reason w d p r st v Hd Hsh Hst) as (d' & Hsh' & _ & ->).
  unfold has_room. rewrite Hun. cbn [holds_place negb orb].
  rewrite (bool_decide_eq_false_2 _ Hst). cbn [Bool.eqb bool_decide].
  replace (bool_decide ("PUBLISHED" = "PUBLISHED")) with true by (symmetry; by apply bool_decide_eq_true_2).
  cbn [Bool.eqb]. destruct (bucket_of r (sh_range _ _ _ _ _ Hsh)) as (b & Hb & Hpath).
  destruct (created_summary p b _ (change st "PUBLISHED") v clock Hpath) as (s & Ha & Hdist & Hav).
  set (w1 := store reviews id d' w). exists (store rating_summaries p s w1), d', s.
  assert (d_reviews (store rating_summaries p s w1) !! id = Some d') as Hd1 by apply lookup_insert_eq.
  split_and!; [|exact Hd1|exact (sh_status _ _ _ _ _ Hsh')|by apply lookup_insert_eq|done|done|].
  - unfold applyRatingDelta. rewrite Hb. rewrite run_mbind, run_await. cbn [drive].
    rewrite run_mbind, run_await. cbn [drive]. unfold update_one.
    change (collection rating_summaries w1) with (d_summaries w). rewrite Hs, Ha. cbn [allowed].
    rewrite run_mbind, run_await. cbn [drive]. rewrite collection_store_eq, lookup_insert_eq, Hdist. done.
  - unfold moderate. rewrite run_mbind, run_await. cbn [drive collection].
    rewrite Hd1, (sh_status _ _ _ _ _ Hsh'). cbn [is_str]. by rewrite bool_decide_eq_true_2.
Qed.
End Alone.
End Summary.
End Summary.

(** * Two moderators at once

    [moderate] reads the review, writes its status and then moves the counts by
    what it had read: another moderation that runs in between is counted too. *)

Import Reviews.Reviews.

Module ReviewRaces.
Section Races.
Context `{UpdateLaws}.
Implicit Types w : db.

(** Another moderation may run, from its beginning to its end. *)
Definition another_moderation (w w' : db) : Prop :=
  w' = w ∨ ∃ t id decision by_ reason, run (drive t []) (moderate id decision by_ reason) w = (Ok tt, w').

(** A review published by two moderators at once is counted twice: when the
    second publication runs after the first has read the review, both move the
    counts, and the summary counts one review more than are published. *)
Theorem double_publication_counts_twice id by_ reason by_2 reason2 w d p r st v :
  Summary.summaries_exact w → Summary.fits_in w →
  d_reviews w !! id = Some d → Summary.review_shape d p r st v → unclashed id d w = true →
  st ≠ "PUBLISHED" → is_Some (d_summaries w !! p) →
  ∃ w1 w' s, run (drive 0 []) (moderate id "PUBLISHED" by_2 reason2) w = (Ok tt, w1) ∧
    exec another_moderation effect (moderate id "PUBLISHED" by_ reason) w (Ok tt) w' ∧
    d_summaries w' !! p = Some s ∧
    prop "count" s = vint (Rating.reviews_of (published p w') + 1).
Proof.
  intros He Hfit Hd Hsh Hun Hst HS.
  destruct (Summary.moderate_alone 0 [] id "PUBLISHED" by_2 reason2 w d p r st v He Hfit Hd Hsh
    (or_intror (eq_trans (orb_comm _ _) (f_equal (λ b, b || _) Hun))) HS)
    as (w1 & Hrun & He1 & (d1 & Hd1 & Hsh1 & Hun1) & _ & Hfit1 & [s1 Hs1]).
  destruct (Summary.moderated_review d1 p r _ v "PUBLISHED" by_ reason 0 0 Hsh1) as (d2 & Ha2 & Hsh2 & Hu2).
  set (w2 := store reviews id d2 w1).
  pose proof (λ p', Summary.published_store w1 id d1 d2 p r _ _ v p' Hd1 Hsh1 Hsh2) as Hpub.
  specialize (Hpub p). unfold Summary.change in Hpub. rewrite Z.sub_diag, bool_decide_eq_true_2 in Hpub by done.
  rewrite list_alter_id in Hpub by (intros; lia). fold w2 in Hpub.
  destruct (He1 p s1 Hs1) as [Hs1sh _].
  assert (Rating.histogram (alter (λ n, n + 1) (Z.to_nat (r - 1)) (published p w1))) as Hh.
  { apply Summary.histogram_alter; [done|exact (Summary.sh_range _ _ _ _ _ Hsh)]. }
  destruct (Summary.run_delta 0 [] p r 1 v w2 s1 (published p w1) (counted p (verified p) w1))
    as (s' & Hrun2 & Hshape & _); [exact Hs1|done|by apply Summary.small_published|done|done| |done|].
  { exact (Summary.sh_range _ _ _ _ _ Hsh). }
  exists w1, (store rating_summaries p s' w2), s'. split; [exact Hrun|]. split; [|split].
  - unfold moderate. apply exec_mbind. left. exists (Some d), w. split.
    { apply exec_await. exists w. split; [by left|]. left. cbn [collection]. by rewrite Hd. }
    destruct Hsh as [Hp Hrt Hst' Hv _ _]. rewrite Hst'. cbn [is_str]. rewrite (bool_decide_eq_false_2 _ Hst).
    apply exec_mbind. left. exists 0, w1. split.
    { apply exec_await. exists w1. split; [|split; [done|by eexists]]. right. by repeat eexists. }
    apply (mongo_exec 0 []); [by left|].
    rewrite run_mbind, run_await. cbn [drive].
    rewrite run_mbind, (Summary.run_update 0 [] reviews id _ false d1 d2 w1 Hd1 Ha2).
    + rewrite Hp, Hrt, Hv. cbn [the_str the_num is_true vint].
      replace (bool_decide ("PUBLISHED" = "PUBLISHED")) with true by (symmetry; by apply bool_decide_eq_true_2).
      cbn [Bool.eqb]. exact Hrun2.
    + cbn [allowed]. unfold one_per_user. apply orb_true_iff. right.
      rewrite <- Hun, <- Hun1. apply Summary.unclashed_author; [|exact Hu2].
      by rewrite (Summary.sh_productId _ _ _ _ _ Hsh1), (Summary.sh_productId _ _ _ _ _ Hsh2).
  - by apply lookup_insert_eq.
  - rewrite (Summary.su_count _ _ _ Hshape).
    change (published p (store rating_summaries p s' w2)) with (published p w2). rewrite Hpub.
    rewrite Summary.reviews_of_alter; [done|]. cbn [length published map].
    pose proof (Summary.sh_range _ _ _ _ _ Hsh1). lia.
Qed.
End Races.
End ReviewRaces.
