(* ===== verification/ReviewConcurrency.v ===== *)
(** * Many moderators at once

    [step] interleaves any number of moderations of different reviews, command
    by command, at any times, while MongoDB carries every command out.

    A moderation writes the status of its review and counts it in two commands.
    The proof keeps a shadow of the reviews in which a review that was written
    and not yet counted still has its old status: the histograms are always
    exact for the shadow, and the shadow is the collection itself when no
    moderation is under way. *)
From Stdlib Require Import QArith.
From S2P Require Import Prelude JsNumber JsString Zod Prog Mongo Rating Reviews ReviewWorld.
From S2P Require Import ReviewSummary.
Local Open Scope js_scope.
Local Open Scope Z_scope.

Import Reviews.Reviews.

Module Moderations.
Import Summary.
Section Moderations.
Context `{UpdateLaws}.
Implicit Types w : db.
Implicit Types R : gmap jstr jsval.

(** ** The system *)

(** A moderation, with what its review says of its product. *)
Record job := {
  j_id : jstr; j_decision : jstr; j_by : jsval; j_reason : option jstr;
  j_product : jstr; j_rating : Z; j_verified : bool
}.
Definition task (j : job) : prog unit := moderate (j_id j) (j_decision j) (j_by j) (j_reason j).

Record system := { moderators : list (prog unit); database : db }.

(** One command of one moderator, at the time [t]. *)
Inductive step : system → system → Prop :=
| step_command ts w n B (c : eff B) k t :
    ts !! n = Some (Await c k) →
    step {| moderators := ts; database := w |}
         {| moderators := <[n := k (drive t [] B c w).1]> ts; database := (drive t [] B c w).2 |}.

(** ** What holds meanwhile *)

(** Where a moderation is: it knows nothing, it knows the old status, it has
    written the new one and owes its count, or it owes nothing any more. *)
Inductive phase := Begun | Known (st : jstr) | Owing (st : jstr) | Settled.

Definition reviewed (j : job) (st : jstr) R : Prop :=
  ∃ d, R !! j_id j = Some d ∧ review_shape d (j_product j) (j_rating j) st (j_verified j).

Definition fact (j : job) (g : phase) R w : Prop :=
  is_Some (d_summaries w !! j_product j) ∧
  match g with
  | Begun => (∃ st, reviewed j st (d_reviews w)) ∧ R !! j_id j = d_reviews w !! j_id j
  | Known st => reviewed j st (d_reviews w) ∧ R !! j_id j = d_reviews w !! j_id j
  | Owing st => reviewed j (j_decision j) (d_reviews w) ∧ reviewed j st R
  | Settled => reviewed j (j_decision j) (d_reviews w) ∧ R !! j_id j = d_reviews w !! j_id j
  end.

(** A database with these reviews. *)
Definition shadow R : db :=
  {| d_reviews := R; d_summaries := ∅; d_purchases := ∅; d_votes := ∅ |}.

(** No two reviews are by one author of one product, whatever their status. *)
Definition one_author R : Prop :=
  ∀ i i' d d', R !! i = Some d → R !! i' = Some d' →
    same_key "productId" d d' = true → same_key "userId" d d' = true → i = i'.

Definition sound R w : Prop :=
  one_author (d_reviews w) ∧ fits_in (shadow R) ∧
  ∀ p s, d_summaries w !! p = Some s → tallies s (published p (shadow R)) (counted p (verified p) (shadow R)).

(** What the others may rely on. *)
Definition frame (j : job) R w R' w' : Prop :=
  (∀ i, i ≠ j_id j → d_reviews w' !! i = d_reviews w !! i ∧ R' !! i = R !! i) ∧
  (∀ p, is_Some (d_summaries w !! p) → is_Some (d_summaries w' !! p)).

(** Every command of the program keeps this up, and it ends settled. *)
Fixpoint keeps (j : job) (p : prog unit) (g : phase) : Prop :=
  match p with
  | Ret _ => g = Settled
  | Throw _ => False
  | Await c k => ∀ t R w, sound R w → fact j g R w →
      ∃ g' R', frame j R w R' (drive t [] _ c w).2 ∧ sound R' (drive t [] _ c w).2 ∧
        fact j g' R' (drive t [] _ c w).2 ∧ keeps j (k (drive t [] _ c w).1) g'
  end.

Lemma frame_refl j R w : frame j R w R w.
Proof. by split. Qed.

Lemma fact_frame j j' g R w R' w' : j_id j' ≠ j_id j → frame j R w R' w' → fact j' g R w → fact j' g R' w'.
Proof.
  intros Hne [Hr Hs] [Hsum Hf]. destruct (Hr _ Hne) as [E1 E2]. split; [by apply Hs|].
  assert (∀ st, reviewed j' st (d_reviews w) → reviewed j' st (d_reviews w')) as H1
    by (intros st (d & ? & ?); exists d; by rewrite E1).
  assert (∀ st, reviewed j' st R → reviewed j' st R') as H2 by (intros st (d & ? & ?); exists d; by rewrite E2).
  destruct g; destruct Hf as [Ha Hb]; rewrite ?E1, ?E2; (split; [|by auto]); auto.
  destruct Ha as [st Hst]. eauto.
Qed.

(** A command that changes nothing. *)
Lemma keeps_await {B} (c : eff B) (f : B → prog unit) j g :
  (∀ t R w, sound R w → fact j g R w →
     ∃ a w' g' R', drive t [] _ c w = (Ok a, w') ∧ frame j R w R' w' ∧ sound R' w' ∧ fact j g' R' w' ∧ keeps j (f a) g') →
  keeps j (await c ≫= f) g.
Proof.
  intros Hc t R w Hs Hf. destruct (Hc t R w Hs Hf) as (a & w' & g' & R' & -> & ? & ? & ? & ?).
  exists g', R'. by split_and!.
Qed.

Lemma keeps_now (f : Z → prog unit) j g : (∀ t, keeps j (f t) g) → keeps j (await NOW ≫= f) g.
Proof.
  intros Hf. apply keeps_await. intros t R w Hs Hfact. exists t, w, g, R. split; [done|].
  split; [apply frame_refl|]. by split_and!.
Qed.

(** ** The parts of a moderation *)

Lemma unclashed_alone i d w : one_author (d_reviews w) → d_reviews w !! i = Some d → unclashed i d w = true.
Proof.
  intros Ho Hd. unfold unclashed. apply forallb_forall. intros [i' d'] Hin.
  apply list_elem_of_In, elem_of_map_to_list in Hin. cbn [fst snd].
  destruct (same_key "productId" d d') eqn:E1, (same_key "userId" d d') eqn:E2; cbn [andb negb]; rewrite ?orb_true_r; try done.
  rewrite (bool_decide_eq_true_2 (i' = i)); [done|]. symmetry. by eapply Ho.
Qed.

Lemma one_author_store R i d d' :
  R !! i = Some d → prop "productId" d' = prop "productId" d → prop "userId" d' = prop "userId" d →
  one_author R → one_author (<[i := d']> R).
Proof.
  intros Hd Hp Hu Ho i1 i2 d1 d2 H1 H2 E1 E2.
  assert (∀ x y, <[i := d']> R !! x = Some y → ∃ y', R !! x = Some y' ∧
    prop "productId" y' = prop "productId" y ∧ prop "userId" y' = prop "userId" y) as Hback.
  { intros x y. destruct (decide (i = x)) as [<-|Hne].
    - rewrite lookup_insert_eq. intros [= <-]. by exists d.
    - rewrite lookup_insert_ne by done. intros Hy. by exists y. }
  destruct (Hback _ _ H1) as (y1 & Hy1 & P1 & U1), (Hback _ _ H2) as (y2 & Hy2 & P2 & U2).
  eapply Ho; [exact Hy1|exact Hy2|..]; unfold same_key in *; congruence.
Qed.

(** The summaries matter to [sound] only through their counts. *)
Lemma sound_tallies R R' w p s s' w' :
  sound R w → one_author (d_reviews w') → fits_in (shadow R') →
  d_summaries w !! p = Some s → d_summaries w' = <[p := s']> (d_summaries w) →
  tallies s' (published p (shadow R')) (counted p (verified p) (shadow R')) →
  (∀ p', p ≠ p' → published p' (shadow R') = published p' (shadow R) ∧
     counted p' (verified p') (shadow R') = counted p' (verified p') (shadow R)) →
  sound R' w'.
Proof.
  intros (_ & _ & Ht) Ho Hf Hs Hw Hs' Hother. split_and!; [done|done|]. intros p' x. rewrite Hw.
  destruct (decide (p = p')) as [<-|Hp].
  - rewrite lookup_insert_eq. by intros [= <-].
  - rewrite lookup_insert_ne by done. destruct (Hother p' Hp) as [-> ->]. apply Ht.
Qed.

Lemma fits_insert R i d d' : R !! i = Some d → fits_in (shadow R) → fits_in (shadow (<[i := d']> R)).
Proof. intros Hd. unfold fits_in. cbn [shadow d_reviews]. by rewrite map_size_insert_Some by eauto. Qed.

(** The status is written. *)
Lemma status_written j st R w t updated moderated :
  sound R w → fact j (Known st) R w →
  ∃ d', review_shape d' (j_product j) (j_rating j) (j_decision j) (j_verified j) ∧
    drive t [] _ (UPDATE_ONE reviews (j_id j)
      (moderation_ops (j_decision j) (j_by j) (j_reason j) updated moderated) false) w =
      (Ok 0, store reviews (j_id j) d' w) ∧
    one_author (d_reviews (store reviews (j_id j) d' w)).
Proof.
  intros (Ho & _ & _) [_ [(d & Hd & Hsh) _]].
  destruct (moderated_review _ _ _ _ _ (j_decision j) (j_by j) (j_reason j) updated moderated Hsh)
    as (d' & Ha & Hsh' & Hu).
  assert (prop "productId" d' = prop "productId" d) as Hp
    by by rewrite (sh_productId _ _ _ _ _ Hsh), (sh_productId _ _ _ _ _ Hsh').
  exists d'. split; [done|]. split; [|by apply one_author_store with d].
  cbn [drive]. unfold update_one. cbn [collection]. rewrite Hd, Ha. cbn [allowed]. unfold one_per_user.
  by rewrite (unclashed_author _ _ _ _ Hp Hu), (unclashed_alone _ _ _ Ho Hd), orb_true_r.
Qed.

(** Writing the status alone leaves the shadow behind. *)
Lemma written_owing j st R w d' :
  sound R w → fact j (Known st) R w →
  review_shape d' (j_product j) (j_rating j) (j_decision j) (j_verified j) →
  one_author (d_reviews (store reviews (j_id j) d' w)) →
  let w' := store reviews (j_id j) d' w in frame j R w R w' ∧ sound R w' ∧ fact j (Owing st) R w'.
Proof.
  intros (_ & Hf & Ht) [Hs [(d & Hd & Hsh) Heq]] Hsh' Ho w'. split_and!; [split|by split_and!|split; [done|split]].
  - intros i Hi. split; [by apply lookup_insert_ne|done].
  - done.
  - exists d'. split; [by apply lookup_insert_eq|done].
  - exists d. by rewrite Heq.
Qed.

(** The shadow catches up, where the counts stay as they are. *)
Lemma owing_settled j st R w : change st (j_decision j) = 0 → sound R w → fact j (Owing st) R w →
  ∃ R', frame j R w R' w ∧ sound R' w ∧ fact j Settled R' w.
Proof.
  intros Hc (Ho & Hf & Ht) [Hs [(d' & Hd' & Hsh') (d & Hd & Hsh)]].
  exists (<[j_id j := d']> R). split_and!; [split|split_and!|split; [done|split]].
  - intros i Hi. split; [done|by apply lookup_insert_ne].
  - done.
  - done.
  - by eapply fits_insert.
  - intros p s Hps. change (shadow (<[j_id j := d']> R)) with (store reviews (j_id j) d' (shadow R)).
    rewrite (published_store (shadow R) _ _ _ _ _ _ _ _ _ Hd Hsh Hsh'), (verified_store (shadow R) _ _ _ _ _ _ _ _ _ Hd Hsh Hsh'), Hc.
    rewrite list_alter_id by (intros; lia).
    replace (_ + _) with (counted p (verified p) (shadow R)) by (destruct (bool_decide _), (j_verified j); lia).
    destruct (bool_decide _); by apply Ht.
  - by exists d'.
  - by rewrite lookup_insert_eq.
Qed.

(** The review is counted. *)
Lemma review_counted j st R w t t' b : sound R w → fact j (Owing st) R w →
  path_of (bucket_key b) = ["distribution"; string_of_int (Z.of_nat (Z.to_nat (j_rating j - 1)))] →
  ∃ w' R', drive t [] _ (UPDATE_ONE rating_summaries (j_product j)
      (delta_ops (j_product j) b (jint (change st (j_decision j))) (j_verified j) t') true) w = (Ok 0, w') ∧
    frame j R w R' w' ∧ sound R' w' ∧ fact j Settled R' w'.
Proof.
  intros Hsound [[s Hs] [(d' & Hd' & Hsh') (d & Hd & Hsh)]] Hb. pose proof Hsound as (Ho & Hf & Ht).
  destruct (tallied_delta s _ _ (j_product j) b (change st (j_decision j)) (j_verified j) t' (j_rating j)
    (Ht _ _ Hs) (small_published _ _ Hf)) as (s' & Ha & Hs');
    [unfold change; repeat destruct (bool_decide _); cbn; lia|done|exact (sh_range _ _ _ _ _ Hsh)|done|].
  exists (store rating_summaries (j_product j) s' w), (<[j_id j := d']> R).
  split; [cbn [drive]; unfold update_one; cbn [collection]; by rewrite Hs, Ha|].
  pose proof (λ p, published_store (shadow R) _ _ _ _ _ _ _ _ p Hd Hsh Hsh') as Hpub.
  pose proof (λ p, verified_store (shadow R) _ _ _ _ _ _ _ _ p Hd Hsh Hsh') as Hver.
  change (store reviews (j_id j) d' (shadow R)) with (shadow (<[j_id j := d']> R)) in *.
  split_and!; [split| |split; [|split]].
  - intros i Hi. split; [done|by apply lookup_insert_ne].
  - intros p Hp. cbn [store d_summaries]. destruct (decide (j_product j = p)) as [<-|];
      [rewrite lookup_insert_eq; by eexists|by rewrite lookup_insert_ne].
  - eapply (sound_tallies R); [done|done|by eapply fits_insert|exact Hs|reflexivity|..].
    + by rewrite Hpub, Hver, bool_decide_eq_true_2 by done.
    + intros p Hp. rewrite Hpub, Hver, bool_decide_eq_false_2 by done. by rewrite Z.add_0_r.
  - cbn [store d_summaries]. rewrite lookup_insert_eq. by eexists.
  - by exists d'.
  - by rewrite lookup_insert_eq.
Qed.

(** The average is written, from a histogram that may be old by now. *)
Lemma average_written j R w t S : sound R w → fact j Settled R w →
  ∃ w', drive t [] _ (UPDATE_ONE rating_summaries (j_product j) (averaged S) false) w = (Ok 0, w') ∧
    frame j R w R w' ∧ sound R w' ∧ fact j Settled R w'.
Proof.
  intros Hsound [[s Hs] Hd]. pose proof Hsound as (Ho & Hf & Ht).
  destruct (tallied_average s _ _ S (Ht _ _ Hs)) as (s' & Ha & Hs' & _).
  exists (store rating_summaries (j_product j) s' w).
  split; [cbn [drive]; unfold update_one; cbn [collection]; by rewrite Hs, Ha|].
  split_and!; [split| |split; [|done]].
  - done.
  - intros p Hp. cbn [store d_summaries]. destruct (decide (j_product j = p)) as [<-|];
      [rewrite lookup_insert_eq; by eexists|by rewrite lookup_insert_ne].
  - by eapply (sound_tallies R R).
  - cbn [store d_summaries]. rewrite lookup_insert_eq. by eexists.
Qed.

(** ** A moderation *)

Lemma keeps_delta j st R0 w0 : fact j (Owing st) R0 w0 →
  keeps j (applyRatingDelta (j_product j) (jint (j_rating j)) (jint (change st (j_decision j))) (j_verified j)) (Owing st).
Proof.
  intros [_ [_ (d0 & _ & Hsh0)]]. destruct (bucket_of (j_rating j) (sh_range _ _ _ _ _ Hsh0)) as (b & Hb & Hpath).
  unfold applyRatingDelta. rewrite Hb. apply keeps_now. intros t'.
  apply keeps_await. intros t R w Hs Hf.
  destruct (review_counted j st R w t t' b Hs Hf Hpath) as (w' & R' & Hrun & Hframe & Hs' & Hf').
  exists 0, w', Settled, R'. split_and!; [done..|].
  apply keeps_await. clear -H H0. intros t R w Hs [[s Hsum] Hf]. exists (Some s), w, Settled, R.
  split; [cbn [drive collection]; by rewrite Hsum|]. split; [apply frame_refl|]. split; [done|].
  split; [split; [by eexists|done]|].
  destruct Hs as (_ & _ & Ht). rewrite (ta_distribution _ _ _ (Ht _ _ Hsum)), distribution_counts.
  apply keeps_await. clear -H H0. intros t R' w' Hs Hf.
  destruct (average_written j R' w' t (Rating.summarise (Rating.counts (published (j_product j) (shadow R)))) Hs Hf)
    as (w2 & Hrun & Hframe & Hs' & Hf').
  exists 0, w2, Settled, R'. by split_and!.
Qed.

Lemma keeps_task j : keeps j (task j) Begun.
Proof.
  unfold task, moderate. apply keeps_await. intros t R w Hs [Hsum [[st (d & Hd & Hsh)] Heq]].
  assert (reviewed j st (d_reviews w)) as Hst by by exists d.
  destruct (decide (st = j_decision j)) as [->|Hne].
  { exists (Some d), w, Settled, R. cbn [drive collection]. rewrite Hd. split; [done|]. split; [apply frame_refl|].
    split; [done|]. split; [by split|]. rewrite (sh_status _ _ _ _ _ Hsh). cbn [is_str]. by rewrite bool_decide_eq_true_2. }
  exists (Some d), w, (Known st), R. cbn [drive collection]. rewrite Hd. split; [done|]. split; [apply frame_refl|].
  split; [done|]. split; [by split|]. rewrite (sh_status _ _ _ _ _ Hsh). cbn [is_str].
  rewrite (bool_decide_eq_false_2 (st = j_decision j)) by done.
  apply keeps_now. intros t1. apply keeps_now. intros t2.
  destruct Hsh as [-> -> _ -> _ _]. cbn [the_str the_num is_true vint].
  apply keeps_await. clear -H H0. intros t R w Hs Hf.
  destruct (status_written j st R w t t1 t2 Hs Hf) as (d' & Hsh' & Hrun & Ho).
  destruct (written_owing j st R w d' Hs Hf Hsh' Ho) as (Hframe & Hs' & Hf').
  destruct (Bool.eqb _ _) eqn:E.
  - apply Bool.eqb_prop in E. destruct (owing_settled j st R _ ltac:(unfold change; rewrite E; lia) Hs' Hf') as (R' & Hframe' & Hs2 & Hf2).
    exists 0, (store reviews (j_id j) d' w), Settled, R'. split; [done|]. split; [|by split_and!].
    destruct Hframe as [F1 F2], Hframe' as [F3 F4]. split; [|auto].
    intros i Hi. destruct (F1 i Hi), (F3 i Hi). split; congruence.
  - exists 0, (store reviews (j_id j) d' w), (Owing st), R. split_and!; [done..|].
    replace (if bool_decide (j_decision j = "PUBLISHED") then jint 1 else jint (-1)) with (jint (change st (j_decision j)))
      by (unfold change; by destruct (bool_decide (st = _)), (bool_decide (j_decision j = _))).
    by eapply keeps_delta.
Qed.

(** ** All of them *)

(** At most [n] commands, whatever they answer. *)
Fixpoint within {A} (n : nat) (p : prog A) {struct p} : Prop :=
  match p with
  | Ret _ | Throw _ => True
  | Await _ k => match n with O => False | S m => ∀ r, within m (k r) end
  end.

Lemma within_await {A B} n (c : eff B) (f : B → prog A) : (∀ a, within n (f a)) → within (S n) (await c ≫= f).
Proof. intros Hf [a|e]; [apply Hf|exact I]. Qed.

Lemma within_task j : within 8 (task j).
Proof.
  unfold task, moderate. apply within_await. intros [d|]; [|done]. destruct (is_str _ _); [done|].
  do 3 (apply within_await; intros ?). destruct (Bool.eqb _ _); [done|]. unfold applyRatingDelta.
  destruct (Rating.bucketFor _); [|done]. do 2 (apply within_await; intros ?). apply within_await. intros [s|]; [|done].
  destruct (distribution_of _); [|done]. by apply within_await.
Qed.

(** Commands left to the moderators, at most. *)
Definition left (ts : list (prog unit)) (n : nat) : Prop :=
  ∃ ns, Forall2 within ns ts ∧ sum_list ns = n.

Lemma step_spends z z' n : step z z' → left (moderators z) n → ∃ m, (m < n)%nat ∧ left (moderators z') m.
Proof.
  intros [ts w i B c k t Hi] (ns & Hns & <-). cbn [moderators] in *.
  destruct (Forall2_lookup_r _ _ _ _ _ Hns Hi) as (b & Hb & Hw). destruct b as [|b]; [done|].
  exists (sum_list (<[i := b]> ns)). split.
  - clear -Hb. revert i Hb. induction ns as [|x ns IH]; intros [|i] Hb; try done; cbn in *.
    + injection Hb as ->. lia.
    + apply Nat.add_lt_mono_l, IH, Hb.
  - eexists. split; [|done]. apply Forall2_insert; [done|apply Hw].
Qed.

Lemma steps_left z z' n k : nsteps step k z z' → left (moderators z) n → (k ≤ n)%nat.
Proof.
  intros Hk. revert n. induction Hk as [z|k z1 z2 z3 Hs _ IH]; intros n Hn; [lia|].
  destruct (step_spends _ _ _ Hs Hn) as (m & Hm & Hl). specialize (IH _ Hl). lia.
Qed.

(** Every moderator is where its review and the shadow say. *)
Definition invariant (js : list job) (R0 : gmap jstr jsval) (z : system) : Prop :=
  length (moderators z) = length js ∧
  ∃ R, sound R (database z) ∧
    (∀ n j, js !! n = Some j → ∃ p g, moderators z !! n = Some p ∧ fact j g R (database z) ∧ keeps j p g) ∧
    (∀ i, i ∉ map j_id js → d_reviews (database z) !! i = R0 !! i ∧ R !! i = R0 !! i).

Lemma invariant_step js R0 z z' : NoDup (map j_id js) → step z z' → invariant js R0 z → invariant js R0 z'.
Proof.
  intros Hnd [ts w n B c k t Hn] (Hl & R & Hs & Hj & Ho). cbn [moderators database] in *.
  destruct (lookup_lt_is_Some_2 js n) as [j Hjn]; [rewrite <- Hl; by eapply lookup_lt_Some|].
  destruct (Hj _ _ Hjn) as (p & g & Hp & Hf & Hk). rewrite Hn in Hp. injection Hp as <-.
  destruct (Hk t R w Hs Hf) as (g' & R' & Hframe & Hs' & Hf' & Hk').
  split; [cbn [moderators]; by rewrite length_insert|]. exists R'. cbn [moderators database]. split_and!; [done| |].
  - intros m j' Hm. destruct (decide (n = m)) as [<-|Hne].
    + assert (j' = j) as -> by congruence. rewrite list_lookup_insert_eq by (by eapply lookup_lt_Some). eauto.
    + rewrite list_lookup_insert_ne by done. destruct (Hj _ _ Hm) as (p' & g2 & Hp' & Hf2 & Hk2).
      exists p', g2. split_and!; [done| |done]. eapply fact_frame; [|exact Hframe|done].
      intros Heq. apply Hne. eapply (NoDup_lookup (map j_id js)); [done|..];
        change (map j_id js) with (j_id <$> js); rewrite list_lookup_fmap; [by rewrite Hjn|by rewrite Hm, <- Heq].
  - intros i Hi. destruct Hframe as [Hfr _]. destruct (Hfr i) as [-> ->]; [|by apply Ho].
    intros ->. apply Hi. change (map j_id js) with (j_id <$> js). apply list_elem_of_fmap. exists j.
    split; [done|]. by eapply list_elem_of_lookup_2.
Qed.

Lemma invariant_steps js R0 z z' k :
  NoDup (map j_id js) → nsteps step k z z' → invariant js R0 z → invariant js R0 z'.
Proof. intros Hnd. induction 1; [done|]. eauto using invariant_step. Qed.

(** Every summary has the buckets and the verified count of these reviews. *)
Definition tallied w : Prop :=
  ∀ p s, d_summaries w !! p = Some s → tallies s (published p w) (counted p (verified p) w).

(** A review there is to moderate, of a product that has a summary. *)
Definition posed w (j : job) : Prop :=
  (∃ st, reviewed j st (d_reviews w)) ∧ is_Some (d_summaries w !! j_product j).

Lemma invariant_start js w :
  one_author (d_reviews w) → fits_in w → tallied w → Forall (posed w) js →
  invariant js (d_reviews w) {| moderators := map task js; database := w |}.
Proof.
  intros Ho Hf Ht Hj. split; [apply length_map|]. exists (d_reviews w). cbn [moderators database].
  split_and!; [by split_and!| |done]. intros n j Hn. exists (task j), Begun. rewrite Forall_lookup in Hj.
  destruct (Hj _ _ Hn) as [Hr Hs]. split_and!; [|by split_and!|apply keeps_task].
  change (map task js) with (task <$> js). by rewrite list_lookup_fmap, Hn.
Qed.

(** With everyone settled the shadow is the collection. *)
Lemma invariant_end js R0 z : Forall (λ p, p = Ret tt) (moderators z) → invariant js R0 z →
  tallied (database z) ∧ Forall (λ j, reviewed j (j_decision j) (d_reviews (database z))) js ∧
  ∀ i, i ∉ map j_id js → d_reviews (database z) !! i = R0 !! i.
Proof.
  intros Hd (Hl & R & (_ & _ & Ht) & Hj & Ho).
  assert (∀ n j, js !! n = Some j → fact j Settled R (database z)) as Hset.
  { intros n j Hn. destruct (Hj _ _ Hn) as (p & g & Hp & Hf & Hk). rewrite Forall_lookup in Hd.
    rewrite (Hd _ _ Hp) in Hk. cbn in Hk. by subst g. }
  assert (R = d_reviews (database z)) as HR.
  { apply map_eq. intros i. destruct (decide (i ∈ map j_id js)) as [Hi|Hi].
    - change (map j_id js) with (j_id <$> js) in Hi. apply list_elem_of_fmap in Hi as (j & -> & [n Hn]%list_elem_of_lookup_1).
      by destruct (Hset _ _ Hn) as [_ [_ ?]].
    - by destruct (Ho _ Hi) as [-> ->]. }
  split_and!.
  - intros p s Hps. specialize (Ht p s Hps). by rewrite HR in Ht.
  - apply Forall_lookup. intros n j Hn. by destruct (Hset _ _ Hn) as [_ [? _]].
  - intros i Hi. by destruct (Ho _ Hi).
Qed.

(** C14. Moderating many reviews at once keeps the histograms, where nothing else
    can refuse a moderation: every product concerned has a summary, an author has
    one review of a product, there are fewer than 2^37 reviews, and the summaries
    tally to begin with.  Then any number of moderations of different reviews,
    interleaved command by command at any times, never fail and are over after at
    most eight commands each; and then every review has the status decided for
    it, the other reviews are as they were, and the five buckets and the verified
    count of every summary are those of the reviews now published. *)
Theorem histograms_survive_interleaving js w k z :
  NoDup (map j_id js) → one_author (d_reviews w) → fits_in w → tallied w → Forall (posed w) js →
  nsteps step k {| moderators := map task js; database := w |} z →
  (k ≤ 8 * length js)%nat ∧
  (∀ p, p ∈ moderators z → p = Ret tt ∨ ∃ z', step z z') ∧
  (∀ p e, p ∈ moderators z → p ≠ Throw e) ∧
  (Forall (λ p, p = Ret tt) (moderators z) →
     tallied (database z) ∧
     Forall (λ j, reviewed j (j_decision j) (d_reviews (database z))) js ∧
     ∀ i, i ∉ map j_id js → d_reviews (database z) !! i = d_reviews w !! i).
Proof.
  intros Hnd Ho Hf Ht Hj Hk.
  pose proof (invariant_steps _ _ _ _ _ Hnd Hk (invariant_start js w Ho Hf Ht Hj)) as Hinv.
  assert (∀ p e, p ∈ moderators z → p ≠ Throw e) as Hthrow.
  { intros p e [n Hn]%list_elem_of_lookup_1 ->. destruct Hinv as (Hl & R & _ & Hall & _).
    destruct (lookup_lt_is_Some_2 js n) as [j Hjn]; [rewrite <- Hl; by eapply lookup_lt_Some|].
    destruct (Hall _ _ Hjn) as (p & g & Hp & _ & Hkp). rewrite Hn in Hp. by injection Hp as <-. }
  split_and!; [|intros p Hp|exact Hthrow|by intros Hd; apply invariant_end].
  - eapply steps_left; [exact Hk|]. exists (replicate (length js) 8%nat). cbn [moderators]. split.
    + clear. induction js as [|j js IH]; cbn; constructor; [apply within_task|done].
    + clear. induction js as [|j js IH]; cbn in *; lia.
  - destruct p as [[]|e|B c kk]; [by left|by destruct (Hthrow _ e Hp)|right].
    apply list_elem_of_lookup_1 in Hp as [n Hn]. destruct z as [ts wz]. eexists. by apply (step_command ts wz n B c kk 0).
Qed.

(** ** One schedule *)

(** The moderator [m.1] runs its next command at the time [m.2]. *)
Definition play_one (z : system) (m : nat * Z) : system :=
  match moderators z !! m.1 with
  | Some (Await c k) =>
      let o := drive m.2 [] _ c (database z) in
      {| moderators := <[m.1 := k o.1]> (moderators z); database := o.2 |}
  | _ => z
  end.
Definition play (l : list (nat * Z)) (z : system) : system := foldl play_one z l.

Lemma play_one_step z m : play_one z m = z ∨ step z (play_one z m).
Proof.
  destruct z as [ts w]. unfold play_one. cbn [moderators database].
  destruct (ts !! m.1) as [[a|e|B c k]|] eqn:E; [by left..| |by left]. right. by apply step_command.
Qed.

Lemma play_steps l z : ∃ k, nsteps step k z (play l z).
Proof.
  revert z. induction l as [|m l IH]; intros z; [exists O; constructor|].
  destruct (IH (play_one z m)) as [k Hk]. change (play (m :: l) z) with (play l (play_one z m)).
  destruct (play_one_step z m) as [E|E]; [exists k; by rewrite E in Hk |- *|].
  exists (S k). by eapply nsteps_l.
Qed.

End Moderations.
End Moderations.
