(* ===== verification/ReviewRepository.v ===== *)
(** * The repository alone: rebuilding, submitting and voting

    [rebuildSummary] computes the summary the incremental path maintains;
    [create] derives the verified badge from the recorded purchases and admits
    one review per user and product; a vote counts once. *)
From Stdlib Require Import QArith Qround.
From S2P Require Import Prelude JsNumber JsString Zod Prog Mongo Rating Reviews ReviewWorld.
From S2P Require Import ReviewSummary.
Local Open Scope js_scope.
Local Open Scope Z_scope.

Import Reviews.Reviews.

Module Repository.
Section Repository.
Context `{UpdateLaws} (clock : Z) (bytes : list N).
Implicit Types w : db.

(** ** Rebuilding *)

Lemma fill_length l d : length (foldl fill_bucket d l) = length d.
Proof.
  revert d. induction l as [|b l IH]; intros d; cbn; [done|]. rewrite IH. unfold fill_bucket.
  destruct (_ && _); [apply length_insert|done].
Qed.

Lemma fill_absent l d i : (∀ n, (Z.of_nat i + 1, n) ∉ l) → foldl fill_bucket d l !! i = d !! i.
Proof.
  revert d. induction l as [|[r n] l IH]; intros d Hi; cbn; [done|].
  rewrite IH by (intros m Hm; apply (Hi m); by right). unfold fill_bucket. cbn [fst snd].
  destruct (Z.leb_spec 1 r), (Z.leb_spec r 5); cbn [andb]; try done.
  rewrite list_lookup_insert_ne; [done|]. intros Heq. apply (Hi n). assert (r = Z.of_nat i + 1) as -> by lia. by left.
Qed.

Lemma fill_present l d i n : NoDup l.*1 → (Z.of_nat i + 1, n) ∈ l → (i < 5)%nat → length d = 5%nat →
  foldl fill_bucket d l !! i = Some (jint n).
Proof.
  revert d. induction l as [|[r m] l IH]; intros d Hn Hin Hi Hd; cbn in *; [by apply not_elem_of_nil in Hin|].
  apply NoDup_cons in Hn as [Hr Hn]. apply elem_of_cons in Hin as [[= <- <-]|Hin].
  - rewrite fill_absent.
    + unfold fill_bucket. cbn [fst snd].
      destruct (Z.leb_spec 1 (Z.of_nat i + 1)), (Z.leb_spec (Z.of_nat i + 1) 5); try lia. cbn [andb].
      replace (Z.to_nat (Z.of_nat i + 1 - 1)) with i by lia. rewrite list_lookup_insert_eq by lia. done.
    + intros m Hm. apply Hr. by apply (list_elem_of_fmap_2 fst) in Hm.
  - apply IH; [done|done|done|]. unfold fill_bucket. destruct (_ && _); [by rewrite length_insert|done].
Qed.

Lemma fill_published p w l : buckets_of p w l →
  foldl fill_bucket (replicate 5 (jint 0)) l = map jint (published p w).
Proof.
  intros [Hnd Hl]. apply list_eq_same_length with 5%nat; [by rewrite length_map|by rewrite fill_length|].
  intros i x y Hi Hx Hy.
  assert (published p w !! i = Some (counted p (rated p (Z.of_nat i + 1)) w)) as Hpub.
  { do 5 (destruct i as [|i]; [reflexivity|]). lia. }
  change (map jint (published p w)) with (jint <$> published p w) in Hy.
  rewrite list_lookup_fmap, Hpub in Hy. injection Hy as <-.
  destruct (decide (0 < counted p (rated p (Z.of_nat i + 1)) w)) as [Hpos|Hpos].
  - rewrite (fill_present _ _ i (counted p (rated p (Z.of_nat i + 1)) w)) in Hx; [congruence|done| |lia|done].
    by apply Hl.
  - rewrite fill_absent, lookup_replicate_2 in Hx by (lia || (intros n Hn; apply Hl in Hn; lia)).
    injection Hx as <-. f_equal. pose proof (Summary.counted_bounds p (rated p (Z.of_nat i + 1)) w). lia.
Qed.

Lemma run_rebuild p w : Summary.fits_in w →
  ∃ s, run (drive clock bytes) (rebuildSummary p) w = (Ok s, store rating_summaries p s w) ∧
    Summary.exact p w s.
Proof.
  intros Hw. unfold rebuildSummary.
  rewrite run_mbind, run_await. cbn [drive].
  rewrite (fill_published p w _ (buckets_answer p w)).
  change (map Rating.Val (map jint (published p w))) with (Rating.Val <$> (jint <$> published p w)).
  rewrite <- list_fmap_compose. change (_ <$> published p w) with (Rating.counts (published p w)).
  pose proof (Summary.published_histogram p w Hw) as Hh.
  rewrite run_mbind, run_await. cbn [drive]. rewrite run_mbind, run_await. cbn [drive].
  eexists. split; [reflexivity|].
  assert (map VNum (map jint (published p w)) = map vint (published p w)) as Hm by by rewrite map_map.
  split; [split|].
  - change (VArr (map VNum (map jint (published p w))) = VArr (map vint (published p w))). by rewrite Hm.
  - change (VNum (Rating.total (Rating.counts (published p w))) = vint (Rating.reviews_of (published p w))).
    by rewrite Rating.total_counts.
  - done.
  - by eexists.
  - change (prop "average" (VObj _)) with
      (VNum (if nlt (jint 0) (Rating.total (Rating.counts (published p w)))
             then ndiv (nround (nmul (ndiv (Rating.weighted (Rating.counts (published p w)))
                    (Rating.total (Rating.counts (published p w)))) (jint 10))) (jint 10) else jint 0)).
    unfold Rating.summarise. rewrite Rating.total_counts by done.
    rewrite nlt_jint, Summary.neqb_jint. destruct Hh as (_ & Hf & _).
    assert (0 <= Rating.reviews_of (published p w)) as Hn0.
    { clear -Hf. unfold Rating.reviews_of. induction Hf; cbn; lia. }
    destruct (Z.ltb_spec 0 (Rating.reviews_of (published p w))), (Z.eqb_spec (Rating.reviews_of (published p w)) 0);
      cbn [negb]; try lia; done.
Qed.

(** C15. Rebuilding a summary from scratch computes what the incremental path
    maintains: the rebuilt summary is exact, whatever was stored before, and
    agrees on histogram, count, average and verified count with a stored
    summary that is exact; no other summary changes. *)
Theorem rebuild_agrees_with_increments p w :
  Summary.fits_in w →
  ∃ s, run (drive clock bytes) (rebuildSummary p) w = (Ok s, store rating_summaries p s w) ∧
    Summary.exact p (store rating_summaries p s w) s ∧
    (∀ s0, Summary.exact p w s0 →
       ∀ f, f ∈ ["distribution"; "count"; "average"; "verifiedCount"] → prop f s = prop f s0) ∧
    (Summary.summaries_exact w → Summary.summaries_exact (store rating_summaries p s w)).
Proof.
  intros Hw. destruct (run_rebuild p w Hw) as (s & Hrun & He). exists s. split; [done|]. split; [exact He|]. split.
  - destruct He as [[H1 H2 H3 _] H4]. intros s0 [[G1 G2 G3 _] G4] f Hf.
    rewrite !elem_of_cons, elem_of_nil in Hf. destruct Hf as [->|[->|[->|[->|[]]]]]; congruence.
  - intros Hall p' s' Hs'. cbn [store d_summaries] in Hs'.
    destruct (decide (p = p')) as [<-|Hp].
    + rewrite lookup_insert_eq in Hs'. injection Hs' as <-. exact He.
    + rewrite lookup_insert_ne in Hs' by done. exact (Hall _ _ Hs').
Qed.

(** ** Submitting *)

(** The user has a pending or published review of the product. *)
Definition reviewed (userId productId : jstr) (w : db) : Prop :=
  ∃ id d, d_reviews w !! id = Some d ∧ active d = true ∧
    prop "productId" d = VStr productId ∧ prop "userId" d = VStr userId.

Lemma is_str_iff s v : is_str s v = true ↔ v = VStr s.
Proof.
  destruct v; cbn; try done. rewrite bool_decide_eq_true. split; [by intros ->|by intros [= ->]].
Qed.

Lemma unclashed_reviewed id d u p w :
  d_reviews w !! id = None → prop "productId" d = VStr p → prop "userId" d = VStr u →
  unclashed id d w = true ↔ ¬ reviewed u p w.
Proof.
  intros Hid Hp Hu. unfold unclashed, same_key. rewrite Hp, Hu. cbn [the_str]. rewrite forallb_forall. split.
  - intros Hall (i & x & Hx & Ha & Hxp & Hxu).
    specialize (Hall (i, x) ltac:(by apply list_elem_of_In, elem_of_map_to_list)). cbn [fst snd] in Hall.
    rewrite Ha, (proj2 (is_str_iff _ _) Hxp), (proj2 (is_str_iff _ _) Hxu) in Hall.
    rewrite orb_false_r in Hall. rewrite orb_false_r in Hall. apply bool_decide_eq_true in Hall. congruence.
  - intros Hn [i x] Hx%list_elem_of_In%elem_of_map_to_list. cbn [fst snd].
    destruct (active x) eqn:Ha; [|by rewrite orb_true_r].
    destruct (is_str p (prop "productId" x)) eqn:E1; [|by rewrite orb_true_r].
    destruct (is_str u (prop "userId" x)) eqn:E2; [|by rewrite orb_true_r].
    exfalso. apply Hn. exists i, x. apply is_str_iff in E1, E2. auto.
Qed.

Lemma found_decide {A B} (o : option A) (f : bool → B) :
  f (match o with Some _ => true | None => false end) = f (bool_decide (is_Some o)).
Proof. f_equal. destruct o; symmetry; [by apply bool_decide_eq_true_2|]. apply bool_decide_eq_false_2. by intros []. Qed.

Section Keyed.
Context (sha256hex : jstr → jstr).

(** What a submission stores: pending, flagged, and verified exactly when a
    purchase of the product by the user is on record. *)
Definition submitted (i : input) (w : db) : jsval :=
  review_of i (bool_decide (is_Some (d_purchases w !! purchaseKey sha256hex (i_userId i) (i_productId i))))
    (autoModerate (i_title i) (i_body i) (i_rating i)) clock clock.

Lemma run_create i w :
  run (drive clock bytes) (create sha256hex i) w =
  match insert_one reviews (submitted i w) w with
  | (Ok _, w') => (Ok (submitted i w), w')
  | (Err e, w') => (Err (if is_duplicate e then DuplicateReview (i_productId i) else e), w')
  end.
Proof.
  unfold create, hasPurchased. rewrite !run_mbind, run_await. cbn [drive collection].
  rewrite found_decide. cbn [run mret prog_ret].
  rewrite run_mbind, run_await. cbn [drive]. rewrite run_mbind, run_await. cbn [drive].
  fold (submitted i w). rewrite run_mbind, run_try, run_await. cbn [drive].
  destruct (insert_one _ _ _) as [[a|e] w']; [done|]. by destruct (is_duplicate e).
Qed.

(** C16. The verified badge cannot be claimed and a product is reviewed once: a
    submission stores a pending review whose badge says whether a purchase is on
    record, unless the user has a pending or published review of the product,
    which is refused as a duplicate and changes nothing. *)
Theorem submission_is_checked i w :
  d_reviews w !! i_id i = None →
  (reviewed (i_userId i) (i_productId i) w →
     run (drive clock bytes) (create sha256hex i) w = (Err (DuplicateReview (i_productId i)), w)) ∧
  (¬ reviewed (i_userId i) (i_productId i) w →
     run (drive clock bytes) (create sha256hex i) w =
       (Ok (submitted i w), store reviews (i_id i) (submitted i w) w)).
Proof.
  intros Hid.
  rewrite run_create.
  unfold insert_one. change (the_str (prop "_id" (submitted i w))) with (i_id i). cbn [collection]. rewrite Hid.
  cbn [allowed]. unfold one_per_user. change (active (submitted i w)) with true. cbn [negb orb].
  pose proof (unclashed_reviewed (i_id i) (submitted i w) (i_userId i) (i_productId i) w Hid eq_refl eq_refl) as Hu.
  destruct (unclashed _ _ _) eqn:E; (split; intros Hr).
  - exfalso. by apply (proj1 Hu).
  - done.
  - done.
  - apply Hu in Hr. congruence.
Qed.

(** ** Voting *)

Lemma single_ok o kvs : fits kvs o → is_Some (apply_update false [o] (VObj kvs)).
Proof. intros Hf. apply update_ok; [by split; [constructor|]|]. by repeat constructor. Qed.

Lemma sole_single f o : root_of o = f → sole f o [o].
Proof. intros Hr. exists [], []. split; [done|]. split; [done|]. constructor. Qed.

Lemma store_same c i d w : collection c w !! i = Some d → store c i d w = w.
Proof. destruct w, c; cbn; intros Hi; by rewrite insert_id. Qed.

(** A helpful vote counts once per person: the first vote of a user adds one to
    the count, and every further vote of that user is answered with the same
    count and changes nothing. *)
Theorem vote_counts_once id userId w d n kvs :
  d_votes w !! keyed sha256hex id userId = None →
  d_reviews w !! id = Some d → d = VObj kvs → prop "helpfulCount" d = vint n → Z.abs n < 2 ^ 50 →
  unclashed id d w = true →
  ∃ w', run (drive clock bytes) (markHelpful sha256hex id userId) w = (Ok (vint (n + 1)), w') ∧
    (∃ d', d_reviews w' !! id = Some d' ∧ prop "helpfulCount" d' = vint (n + 1) ∧
       ∀ f, f ≠ "helpfulCount" → prop f d' = prop f d) ∧
    run (drive clock bytes) (markHelpful sha256hex id userId) w' = (Ok (vint (n + 1)), w').
Proof.
  intros Hv Hd Hkvs Hn Hb Hun. set (key := keyed sha256hex id userId) in *.
  destruct (update_ok true [OSetOnInsert "_id" (VStr key)] [("_id", VStr key)]) as [vote Hvote];
    [by split; [constructor|]|by repeat constructor|].
  destruct (single_ok (OInc "helpfulCount" (jint 1)) kvs) as [d' Hd'].
  { apply Summary.fits_counter with (jint n); [done|]. by rewrite <- Hkvs. }
  rewrite <- Hkvs in Hd'.
  assert (prop "helpfulCount" d' = vint (n + 1)) as Hn'.
  { rewrite (update_inc _ _ _ _ _ _ (jint n) Hd' (sole_single "helpfulCount" (OInc "helpfulCount" (jint 1)) eq_refl) eq_refl); [|by rewrite Hn].
    by rewrite jint_add by lia. }
  assert (∀ f, f ≠ "helpfulCount" → prop f d' = prop f d) as Hother.
  { intros f Hf. eapply update_untouched; [exact Hd'|]. repeat constructor. intros _. by apply not_eq_sym. }
  set (w1 := store helpful_votes key vote w). exists (store reviews id d' w1).
  split; [|split].
  - unfold markHelpful. fold key. rewrite run_mbind, run_await. cbn [drive]. unfold update_one.
    cbn [collection]. rewrite Hv, Hvote. cbn [allowed]. fold w1. cbn [Z.eqb].
    rewrite run_mbind, run_await. cbn [drive]. unfold find_and_update, update_one.
    change (collection reviews w1) with (d_reviews w). rewrite Hd, Hd'.
    assert (allowed reviews id d' w1 = true) as ->.
    { cbn [allowed]. unfold one_per_user. apply orb_true_iff. right. rewrite <- Hun.
      change (unclashed id d' w1) with (unclashed id d' w). apply Summary.unclashed_author; by apply Hother. }
    cbn [fst snd]. rewrite collection_store_eq, lookup_insert_eq. cbn [helpful_count run mret prog_ret].
    by rewrite Hn'.
  - exists d'. split; [by apply lookup_insert_eq|done].
  - set (w2 := store reviews id d' w1). destruct (update_object _ _ _ _ Hvote) as [vkvs Hvk].
    assert (collection helpful_votes w2 !! key = Some vote) as Hk by apply lookup_insert_eq.
    assert (update_one helpful_votes key [OSetOnInsert "_id" (VStr key)] true w2 = (Ok 0, w2)) as Hsame.
    { unfold update_one. rewrite Hk. rewrite Hvk at 1. rewrite update_none by by repeat constructor.
      rewrite <- Hvk. cbn [allowed]. by rewrite store_same. }
    unfold markHelpful. fold key. rewrite run_mbind, run_await. cbn [drive]. rewrite Hsame. cbn [Z.eqb].
    rewrite run_mbind, run_await. cbn [drive].
    assert (collection reviews w2 !! id = Some d') as -> by apply lookup_insert_eq.
    cbn [helpful_count run mret prog_ret]. by rewrite Hn'.
Qed.
End Keyed.
End Repository.
End Repository.
