(* ===== verification/ReviewPages.v ===== *)
(** * Paging through the reviews of a product

    Pages are cut by the creation date of the last review shown.  With
    distinct dates, following the cursors lists every published review once. *)
From Stdlib Require Import QArith Qround.
From stdpp Require Import sorting.
From S2P Require Import Prelude JsNumber JsString JsDate Zod Prog Mongo Rating Cursor Reviews.
From S2P Require Import ReviewWorld.
Local Open Scope js_scope.
Local Open Scope Z_scope.

Import Reviews.Reviews.

Module Pages.

(** ** Sorted lists of reviews *)

Lemma newest_sorted_unique l l' : Permutation l l' → Sorted newest_first l → Sorted newest_first l' →
  NoDup (time_of <$> l) → l = l'.
Proof.
  intros Hp Hs Hs' Hn. apply Sorted_StronglySorted in Hs, Hs'; try (intros a b c; unfold newest_first; lia).
  revert l' Hp Hs'. induction Hs as [|d l Hs IH Hd]; intros l' Hp Hs'.
  { symmetry in Hp. by apply Permutation_nil_r in Hp. }
  destruct l' as [|d' l']; [by apply Permutation_nil_r in Hp|].
  inversion_clear Hs' as [|? ? Hs2 Hd']. cbn in Hn. apply NoDup_cons in Hn as [Hnd Hn].
  assert (d = d') as <-.
  { assert (d' ∈ d :: l) as H1 by (rewrite Hp; by left). assert (d ∈ d' :: l') as H2 by (rewrite <- Hp; by left).
    apply elem_of_cons in H1 as [->|H1]; [done|]. apply elem_of_cons in H2 as [->|H2]; [done|].
    rewrite Forall_forall in Hd, Hd'. specialize (Hd _ H1). specialize (Hd' _ H2). unfold newest_first in *.
    exfalso. apply Hnd. assert (time_of d = time_of d') as -> by lia. by apply list_elem_of_fmap_2. }
  f_equal. apply IH; [done|by apply Permutation_cons_inv in Hp|done].
Qed.

(** The reviews older than the one at [k] are the ones after it. *)
Lemma older_are_after (q : jsval → bool) l k d :
  Sorted newest_first l → NoDup (time_of <$> l) → l !! k = Some d →
  (∀ x, x ∈ l → q x = (time_of x <? time_of d)) → List.filter q l = drop (S k) l.
Proof.
  intros Hs. apply Sorted_StronglySorted in Hs; [|intros a b c; unfold newest_first; lia].
  revert k. induction Hs as [|x l Hs IH Hx]; intros k Hn Hk Hq; [done|].
  cbn in Hn. apply NoDup_cons in Hn as [Hxn Hn]. cbn [List.filter].
  rewrite (Hq x) by by left. destruct k as [|k]; cbn in Hk.
  - injection Hk as ->. rewrite Z.ltb_irrefl. cbn [drop].
    assert (∀ y, y ∈ l → q y = true) as Hall.
    { intros y Hy. rewrite (Hq y) by by right. apply Z.ltb_lt. rewrite Forall_forall in Hx.
      specialize (Hx y Hy). unfold newest_first in Hx.
      assert (time_of y ≠ time_of d); [|lia]. intros He. apply Hxn. rewrite <- He. by apply list_elem_of_fmap_2. }
    clear -Hall. induction l as [|y l IH]; [done|]. cbn. rewrite (Hall y) by by left. f_equal. apply IH.
    intros z Hz. apply Hall. by right.
  - assert (d ∈ l) as Hd by by eapply list_elem_of_lookup_2.
    rewrite Forall_forall in Hx. pose proof (Hx d Hd) as Hle. unfold newest_first in Hle.
    destruct (Z.ltb_spec (time_of x) (time_of d)); [lia|]. cbn [drop]. apply IH; [done|done|].
    intros y Hy. apply Hq. by right.
Qed.

Section Pages.
Context `{UpdateLanguage} `{DateParse} (clock : Z) (bytes : list N).
Context (productId : jstr) (limit : Z) (verifiedOnly : bool) (rating : option num) (w : db).

(** ** One page *)

Definition opts (cursor : option jstr) : options :=
  {| o_limit := limit; o_cursor := cursor; o_verifiedOnly := verifiedOnly; o_rating := rating |}.

Definition base : listing_filter := {|
  f_productId := productId; f_verified := verifiedOnly;
  f_rating := match rating with Some x => if to_boolean (VNum x) then Some x else None | None => None end;
  f_before := None |}.

(** The published reviews asked for, newest first. *)
Definition listing : list jsval := merge_sort newest_first (found_by base w).

(** The page that starts a list. *)
Definition page_of (l : list jsval) : page :=
  let n := Z.to_nat limit in
  {| items := take n l;
     nextCursor := if (n <? length l)%nat then (λ d, encode_cursor (time_of d)) <$> last (take n l) else None;
     hasMore := (n <? length l)%nat |}.

Lemma run_page cursor f :
  0 <= limit →
  f = {| f_productId := f_productId base; f_verified := f_verified base; f_rating := f_rating base;
         f_before := match cursor with
                     | Some c => if truthy_str c then Some (decode_cursor c) else None
                     | None => None
                     end |} →
  run (drive clock bytes) (listForProduct productId (opts cursor)) w =
    (Ok (page_of (merge_sort newest_first (found_by f w))), w).
Proof.
  intros Hl ->. unfold listForProduct. rewrite run_mbind, run_await. cbn [drive].
  match goal with |- context [found_by ?g w] => set (l := merge_sort newest_first (found_by g w)) end.
  match goal with |- context [page_of ?g] => change g with l end.
  cbn [run mret prog_ret]. do 2 f_equal. unfold page_of. cbn [opts o_limit].
  replace (Z.to_nat (limit + 1)) with (S (Z.to_nat limit)) by lia.
  assert ((limit <? Z.of_nat (length (take (S (Z.to_nat limit)) l))) = (Z.to_nat limit <? length l)%nat) as ->.
  { rewrite length_take. destruct (Nat.ltb_spec (Z.to_nat limit) (length l)), (Z.ltb_spec limit (Z.of_nat (S (Z.to_nat limit) `min` length l))); try done; lia. }
  destruct (Nat.ltb_spec (Z.to_nat limit) (length l)) as [Hlt|Hge].
  - assert (removelast (take (S (Z.to_nat limit)) l) = take (Z.to_nat limit) l) as ->.
    { destruct (lookup_lt_is_Some_2 l (Z.to_nat limit) Hlt) as [d Hd].
      rewrite (take_S_r _ _ _ Hd). apply removelast_last. }
    by destruct (last _).
  - rewrite !take_ge by lia. by destruct (last l).
Qed.

(** ** Following the cursors *)

(** A client that follows [nextCursor] until there is none. *)
Fixpoint walk (fuel : nat) (cursor : option jstr) : prog (list jsval) :=
  match fuel with
  | O => mret []
  | S n =>
      p ← listForProduct productId (opts cursor);
      match nextCursor p with
      | None => mret (items p)
      | Some c => rest ← walk n (Some c); mret (items p ++ rest)
      end
  end.

Definition dated (d : jsval) : Prop := ∃ t, prop "createdAt" d = vint t ∧ clock_ok t.

Lemma dated_time d : dated d → prop "createdAt" d = vint (time_of d) ∧ clock_ok (time_of d).
Proof. intros (t & Ht & Hc). assert (time_of d = t) as -> by (unfold time_of; rewrite Ht; apply Qfloor_Z). done. Qed.

Lemma cursor_truthy t : clock_ok t → truthy_str (encode_cursor t) = true.
Proof.
  intros Ht. unfold encode_cursor. destruct (ascii_bytes _ (iso_ascii t Ht)) as [-> _].
  destruct (iso_shape t Ht) as (y & mo & d & h & mi & s & ms & ->).
  pose proof (digits_length 4 y) as Hl. destruct (digits 4 y) as [|a [|b [|c r]]]; done.
Qed.

(** The filter of a later page. *)
Definition older_than (t : Z) : listing_filter := {|
  f_productId := f_productId base; f_verified := f_verified base; f_rating := f_rating base;
  f_before := Some (jint t) |}.

Lemma found_older t : found_by (older_than t) w =
  List.filter (λ d, nlt (the_num (prop "createdAt" d)) (jint t)) (found_by base w).
Proof.
  unfold found_by. induction (map_to_list (d_reviews w)).*2 as [|d l IH]; [done|]. cbn [List.filter].
  assert (listed (older_than t) d = listed base d && nlt (the_num (prop "createdAt" d)) (jint t)) as ->.
  { unfold listed, older_than. cbn [f_productId f_verified f_rating f_before base]. by rewrite andb_true_r. }
  destruct (listed base d); cbn [andb List.filter]; [|exact IH].
  destruct (nlt _ _); by rewrite IH.
Qed.

Lemma filter_permutation {A} (q : A → bool) l l' : Permutation l l' → Permutation (List.filter q l) (List.filter q l').
Proof.
  induction 1 as [|x l l' _ IH|x y l|l1 l2 l3 _ IH1 _ IH2]; cbn; [done| | |by etrans].
  - destruct (q x); [by constructor|done].
  - destruct (q x), (q y); [apply Permutation_swap|done..].
Qed.

Lemma sorted_drop (R : jsval → jsval → Prop) k l : StronglySorted R l → StronglySorted R (drop k l).
Proof.
  intros Hs. revert k. induction Hs as [|x l Hs IH Hx]; intros [|k]; cbn; try constructor; auto.
Qed.

Section Walk.
Context (Hdated : ∀ d, d ∈ found_by base w → dated d).
Context (Hdistinct : NoDup (time_of <$> found_by base w)).

Lemma listing_found : Permutation listing (found_by base w).
Proof. apply merge_sort_Permutation. Qed.
Lemma listing_sorted : Sorted newest_first listing.
Proof. apply (Sorted_merge_sort newest_first). Qed.
Lemma listing_distinct : NoDup (time_of <$> listing).
Proof. by rewrite listing_found. Qed.
Lemma listing_dated d : d ∈ listing → dated d.
Proof. rewrite listing_found. apply Hdated. Qed.

(** The later page starts right after the review of its cursor. *)
Lemma older_listing k d : listing !! k = Some d →
  merge_sort newest_first (found_by (older_than (time_of d)) w) = drop (S k) listing.
Proof.
  intros Hk. pose proof listing_sorted as Hs. pose proof listing_distinct as Hn.
  assert (List.filter (λ x, nlt (the_num (prop "createdAt" x)) (jint (time_of d))) listing = drop (S k) listing) as Hf.
  { apply older_are_after with d; [done|done|done|]. intros x Hx.
    destruct (dated_time x (listing_dated x Hx)) as [-> _]. cbn.
    apply eq_true_iff_eq. rewrite negb_true_iff, Qle_bool_false, Z.ltb_lt. by rewrite <- Zlt_Qlt. }
  symmetry. apply newest_sorted_unique.
  - rewrite merge_sort_Permutation, found_older, <- Hf. apply filter_permutation, listing_found.
  - apply StronglySorted_Sorted, sorted_drop, Sorted_StronglySorted; [|done].
    intros a b c; unfold newest_first; lia.
  - apply (Sorted_merge_sort newest_first).
  - rewrite fmap_drop. by eapply sublist_NoDup, sublist_drop.
Qed.

(** What is left of the listing when a cursor is followed. *)
Definition resumes (cursor : option jstr) (j : nat) : Prop :=
  match cursor with
  | None => j = 0%nat
  | Some c => ∃ k d, listing !! k = Some d ∧ c = encode_cursor (time_of d) ∧ j = S k
  end.

Lemma run_resumed cursor j : 0 < limit → resumes cursor j →
  run (drive clock bytes) (listForProduct productId (opts cursor)) w = (Ok (page_of (drop j listing)), w).
Proof.
  intros Hl Hr. destruct cursor as [c|].
  - destruct Hr as (k & d & Hk & -> & ->). rewrite <- older_listing with (d := d) by done.
    assert (dated d) as Hd by (apply listing_dated; by eapply list_elem_of_lookup_2).
    destruct (dated_time d Hd) as [_ Hc]. apply run_page; [lia|].
    rewrite cursor_truthy, cursor_round_trip by done. done.
  - rewrite Hr, drop_0. apply run_page; [lia|done].
Qed.

Lemma run_walk fuel cursor j : 0 < limit → resumes cursor j → (length listing - j < fuel)%nat →
  run (drive clock bytes) (walk fuel cursor) w = (Ok (drop j listing), w).
Proof.
  intros Hl. revert cursor j. induction fuel as [|n IH]; intros cursor j Hr Hf; [lia|].
  cbn [walk]. rewrite run_mbind, (run_resumed _ _ Hl Hr). unfold page_of at 1. cbn [nextCursor].
  destruct (Nat.ltb_spec (Z.to_nat limit) (length (drop j listing))) as [Hlt|Hge].
  - rewrite length_drop in Hlt.
    destruct (lookup_lt_is_Some_2 listing (j + (Z.to_nat limit - 1))) as [d Hd]; [lia|].
    assert (last (take (Z.to_nat limit) (drop j listing)) = Some d) as ->.
    { rewrite last_lookup, length_take, length_drop, lookup_take_lt, lookup_drop by lia. rewrite <- Hd. f_equal. lia. }
    cbn [fmap option_fmap option_map]. rewrite run_mbind, (IH _ (S (j + (Z.to_nat limit - 1)))).
    + cbn [run mret prog_ret page_of items]. do 2 f_equal.
      replace (S (j + (Z.to_nat limit - 1))) with (j + Z.to_nat limit)%nat by lia.
      rewrite <- drop_drop. apply take_drop.
    + exists (j + (Z.to_nat limit - 1))%nat, d. done.
    + lia.
  - cbn [run mret prog_ret page_of items]. by rewrite take_ge.
Qed.
End Walk.

(** C17. Paging shows every published review once: when the creation dates are
    distinct, a client that follows [nextCursor] gets, page by page, exactly the
    published reviews it asked for, newest first, and stops. *)
Theorem paging_is_complete fuel :
  0 < limit →
  (∀ d, d ∈ found_by base w → dated d) → NoDup (time_of <$> found_by base w) →
  (length (found_by base w) < fuel)%nat →
  ∃ all, run (drive clock bytes) (walk fuel None) w = (Ok all, w) ∧
    Permutation all (found_by base w) ∧ Sorted newest_first all.
Proof.
  intros Hl Hd Hn Hf. exists listing. split; [|split; [apply listing_found|apply listing_sorted]].
  assert (length listing = length (found_by base w)) as Hlen by (by rewrite listing_found).
  apply (run_walk Hd Hn fuel None 0); [done|done|lia].
Qed.
End Pages.
End Pages.
