(* ===== verification/ReviewRoutes.v ===== *)
(** * review-service: routes, error handler and consumer (index.ts)

    A request is its parameters, query, body and headers as JavaScript values;
    an answer is a status and a body.  The consumer is given the message after
    [JSON.parse]. *)
From Stdlib Require Import QArith Qround.
From S2P Require Import Prelude JsNumber JsString JsDate Zod Prog Mongo Rating Cursor Reviews.
From S2P Require Schemas Api Cart.
Local Open Scope js_scope.
Local Open Scope Z_scope.

Module ReviewRoutes.
Import Schemas.Schemas.
Import Reviews.Reviews.

(** ** Requests *)

Record request := {
  params : jsval; query : jsval; reqBody : jsval; ip : jstr; requestId : jstr;
  x_user_id : option jstr; x_user_name : option jstr; x_user_roles : option jstr;
  accept_language : option jstr
}.

Inductive route := ListReviews | GetRating | SubmitReview | VoteHelpful | ModerateReview.

Definition ProductParams : schema := ZObject [("productId", ProductId)] false.
Definition ReviewParams : schema := ZObject [("reviewId", ReviewId)] false.
Definition ListQuery : schema := ZObject [
  ("limit", ZDefault (ZCoerceNumber [NInt; NMin 1; NMax 50]) (vint 20));
  ("cursor", ZOptional str);
  ("verifiedOnly", ZDefault ZCoerceBoolean (VBool false));
  ("rating", ZOptional (ZCoerceNumber [NInt; NMin 1; NMax 5]))] false.
Definition ModerateBody : schema := ZObject [
  ("decision", ZEnum ["PUBLISHED"; "REJECTED"]);
  ("reason", ZOptional (ZString [SMax 500]))] false.

(** ** Reading validated fields *)

Definition str_at (k : jstr) (v : jsval) : jstr := the_str (prop k v).
Definition opt_str_at (k : jstr) (v : jsval) : option jstr :=
  match prop k v with VStr s => Some s | _ => None end.
Definition int_at (k : jstr) (v : jsval) : Z :=
  match prop k v with VNum (Fin q) => Qfloor q | _ => 0 end.

(** ** Problem documents *)

Definition problem (requestId : jstr) (now : Z) (status : Z) (code detail : jstr) : Z * jsval :=
  (status, VObj [
    ("type", VStr ("https://errors.souq.dev/review/" ++ replace_all 95 "-" (toLowerCase code)));
    ("title", VStr (toLowerCase (replace_all 95 " " code)));
    ("status", vint status); ("code", VStr code); ("detail", VStr detail);
    ("requestId", VStr requestId); ("timestamp", VStr (toISOString now))]).

Definition error_document (requestId : jstr) (now : Z) (e : exn) : Z * jsval :=
  match e with
  | DuplicateReview _ => problem requestId now 409 "REVIEW_ALREADY_EXISTS" (message e)
  | ReviewNotFound _ => problem requestId now 404 "REVIEW_NOT_FOUND" (message e)
  | _ => problem requestId now 500 "INTERNAL_ERROR" "The request could not be completed."
  end.

Definition validation_document (requestId : jstr) (now : Z) (issues : list issue) : Z * jsval :=
  (422, VObj [
    ("type", VStr "https://errors.souq.dev/review/validation-failed");
    ("title", VStr "Validation failed"); ("status", vint 422); ("code", VStr "VALIDATION_FAILED");
    ("requestId", VStr requestId); ("timestamp", VStr (toISOString now));
    ("errors", VArr (map (λ i, VObj [("field", VStr (join "." (path i)));
                                     ("message", VStr (Zod.message i))]) issues))]).

(** ** Answers *)

Definition opt_value (o : option jstr) : jsval := match o with Some s => VStr s | None => VNull end.

Definition page_value (p : page) : jsval :=
  VObj [("items", VArr (items p)); ("nextCursor", opt_value (nextCursor p)); ("hasMore", VBool (hasMore p))].

(** [summary ?? { productId, average: 0, ... }] *)
Definition zero_summary (productId : jsval) : jsval :=
  VObj [("productId", productId); ("average", vint 0); ("count", vint 0);
        ("distribution", VArr (replicate 5 (vint 0))); ("verifiedCount", vint 0)].

(** ** Handlers *)

Section Handlers.
Context `{Zod} `{DateParse} (sha256hex : jstr → jstr).

(** A handler that a [ZodError] ends, or that answers. *)
Definition handled : Type := result (list issue) (prog (Z * jsval)).

Definition list_reviews (r : request) : handled :=
  p ← safeParse ProductParams (params r);
  qs ← safeParse ListQuery (query r);
  Ok (page ← listForProduct (str_at "productId" p)
        {| o_limit := int_at "limit" qs; o_cursor := opt_str_at "cursor" qs;
           o_verifiedOnly := is_true (prop "verifiedOnly" qs);
           o_rating := match prop "rating" qs with VNum x => Some x | _ => None end |};
      mret (200, page_value page)).

Definition get_rating (r : request) : handled :=
  p ← safeParse ProductParams (params r);
  Ok (found ← summary (str_at "productId" p);
      mret (200, match found with
                 | Some s => s
                 | None => zero_summary (prop "productId" p)
                 end)).

(** [ulid()], the alphabet and layout of every other service. *)
Definition ulid : prog jstr :=
  ts ← await NOW;
  bytes ← await (RANDOM 16);
  mret (Cart.Cart.ulid_of ts bytes).

Fixpoint count_flags (flags : list jstr) : prog unit :=
  match flags with
  | [] => mret tt
  | f :: r => _ ← await (INC "souq_reviews_flagged_total" f); count_flags r
  end.

Definition submit_review (r : request) : handled :=
  match x_user_id r with
  | Some userId =>
      if truthy_str userId then
        b ← safeParse Api.Api.CreateReviewRequest (reqBody r);
        Ok (id ← ulid;
            review ← create sha256hex {|
              i_id := "rev_" ++ id; i_productId := str_at "productId" b; i_userId := userId;
              i_authorName := default "A customer" (x_user_name r);
              i_rating := the_num (prop "rating" b); i_title := str_at "title" b; i_body := str_at "body" b;
              i_images := match prop "images" b with VArr l => l | _ => [] end;
              i_locale := default "en-GB" (slice0 5 <$> accept_language r) |};
            _ ← await (INC "souq_reviews_submitted_total"
                  (if is_true (prop "verifiedPurchase" review) then "true" else "false"));
            _ ← count_flags (match prop "autoFlags" (prop "moderation" review) with VArr l => map the_str l | _ => [] end);
            mret (202, VObj [("reviewId", prop "_id" review); ("status", prop "status" review);
                             ("verifiedPurchase", prop "verifiedPurchase" review)]))
      else Ok (now ← await NOW; mret (problem (requestId r) now 401 "UNAUTHENTICATED" "Sign in to write a review."))
  | None => Ok (now ← await NOW; mret (problem (requestId r) now 401 "UNAUTHENTICATED" "Sign in to write a review."))
  end.

Definition vote_helpful (r : request) : handled :=
  p ← safeParse ReviewParams (params r);
  Ok (count ← markHelpful sha256hex (str_at "reviewId" p) (default (ip r) (x_user_id r));
      mret (200, VObj [("reviewId", prop "reviewId" p); ("helpfulCount", count)])).

(** [roles.includes('ADMIN') || roles.includes('SUPPORT')] *)
Definition may_moderate (r : request) : bool :=
  let roles := split_on 44 (default "" (x_user_roles r)) in
  bool_decide ("ADMIN" ∈ roles) || bool_decide ("SUPPORT" ∈ roles).

Definition moderate_review (r : request) : handled :=
  if may_moderate r then
    p ← safeParse ReviewParams (params r);
    b ← safeParse ModerateBody (reqBody r);
    Ok (_ ← moderate (str_at "reviewId" p) (str_at "decision" b)
          (match x_user_id r with Some u => VStr u | None => VUndef end) (opt_str_at "reason" b);
        _ ← await (INC "souq_reviews_moderated_total" (str_at "decision" b));
        mret (200, VObj [("reviewId", prop "reviewId" p); ("status", prop "decision" b)]))
  else Ok (now ← await NOW;
           mret (problem (requestId r) now 403 "FORBIDDEN" "Moderation requires the SUPPORT or ADMIN role.")).

Definition dispatch (t : route) (r : request) : handled :=
  match t with
  | ListReviews => list_reviews r
  | GetRating => get_rating r
  | SubmitReview => submit_review r
  | VoteHelpful => vote_helpful r
  | ModerateReview => moderate_review r
  end.

Definition serve (t : route) (r : request) : prog (Z * jsval) :=
  match dispatch t r with
  | Err issues => now ← await NOW; mret (validation_document (requestId r) now issues)
  | Ok p => try_catch p (λ e, now ← await NOW; mret (error_document (requestId r) now e))
  end.

(** ** The consumer of order events *)

Fixpoint record_all (userId orderId : jsval) (lines : list jsval) : prog unit :=
  match lines with
  | [] => mret tt
  | line :: rest => _ ← recordPurchase sha256hex userId (prop "productId" line) orderId; record_all userId orderId rest
  end.

(** What [for (const line of items)] runs over; [None] is not iterable. *)
Definition iterable (v : jsval) : option (list jsval) :=
  match v with
  | VArr l => Some l
  | VStr s => Some (map (λ c, VStr [c]) s)
  | VUndef | VNull => Some []
  | _ => None
  end.

(** [eachMessage]: [None] is a message without a value, [Some None] one that is
    not JSON. *)
Definition eachMessage (value : option (option jsval)) : prog unit :=
  match value with
  | None => mret tt
  | Some parsed =>
      try_catch
        (match parsed with
         | None => Throw TypeError
         | Some envelope =>
             if is_str "souq.order.confirmed.v1" (prop "type" envelope) then
               let data := prop "data" envelope in
               match iterable (prop "items" data) with
               | Some lines => record_all (prop "userId" data) (prop "orderId" data) lines
               | None => Throw TypeError
               end
             else mret tt
         end)
        (λ _, mret tt)
  end.
End Handlers.
End ReviewRoutes.
