(* ===== verification/ReviewHttp.v ===== *)
(** * review-service behind its routes

    What the routes let through, what the consumer makes of the events of the
    contract, and whether the answers are ones the contract accepts. *)
From Stdlib Require Import QArith Qround.
From S2P Require Import Prelude JsNumber JsString JsDate Regex Zod Prog Mongo Rating Cursor.
From S2P Require Import Schemas Events Api Contracts Cart Reviews ReviewWorld ReviewSummary.
From S2P Require Import ReviewRepository ReviewRoutes.
Local Open Scope js_scope.
Local Open Scope Z_scope.

Module ReviewHttp.
Import Schemas.Schemas Events.Events.
Import Reviews.Reviews ReviewRoutes.ReviewRoutes.

Section Http.
Context `{Zod} `{DateParse} `{UpdateLaws} (sha256hex : jstr → jstr).
Implicit Types w : db.

(** ** The consumer *)

(** No purchase is ever recorded: whatever event of the contract arrives on the
    order topic, the consumer awaits nothing, since the only event it records
    purchases from carries no items; so no review is ever verified. *)
Theorem no_purchase_is_recorded v :
  accepts OrderEvent v → eachMessage sha256hex (Some (Some v)) = mret tt.
Proof.
  intros Ha. unfold eachMessage. destruct (is_str _ (prop "type" v)) eqn:Ht; [|done].
  assert (prop "type" v = VStr "souq.order.confirmed.v1") as Hty.
  { destruct (prop "type" v); try done. cbn in Ht. apply bool_decide_eq_true in Ht. congruence. }
  rewrite (Contracts.confirmed_without_items v Ha Hty). done.
Qed.

(** ** The gate of moderation *)

(** Moderation needs the role: without [ADMIN] or [SUPPORT] among the roles of
    the gateway's header the request is answered 403 and the database is not
    touched, whatever the rest of the request holds. *)
Theorem moderation_needs_role r clock bytes w :
  may_moderate r = false →
  ∃ doc, run (drive clock bytes) (serve sha256hex ModerateReview r) w = (Ok (403, doc), w) ∧
    prop "code" doc = VStr "FORBIDDEN".
Proof. intros Hm. unfold serve, dispatch, moderate_review. rewrite Hm. eexists. split; [reflexivity|]. done. Qed.

(** ** Submissions *)

(** Numbers in lowest terms, as [JSON.parse] makes them. *)
Definition lowest (v : jsval) : Prop := match v with VNum (Fin q) => Qred q = q | _ => True end.

Lemma parsed_stars v x :
  interp is_email is_url is_uuid (int_between 1 5) v = Some x → lowest v → ∃ z, x = vint z ∧ 1 <= z <= 5.
Proof.
  intros (-> & q & -> & Hq & Hc)%parsed_integer Hl. cbn in Hl.
  assert (q = inject_Z (Qfloor q)) as Heq.
  { rewrite <- Hl at 1. by rewrite (Qred_complete _ _ Hq), Qred_inject_Z. }
  exists (Qfloor q). split; [unfold vint, jint; congruence|].
  cbn [forallb check_number] in Hc. apply andb_true_iff in Hc as [Ha [Hb _]%andb_true_iff].
  split; [by eapply nle_int_min|by eapply nle_int_max].
Qed.

Lemma submitted_shape clock i w p z :
  i_productId i = p → i_rating i = jint z → 1 <= z <= 5 →
  ∃ v, Summary.review_shape (Repository.submitted clock sha256hex i w) p z "PENDING_MODERATION" v.
Proof.
  intros Hp Hz Hr. eexists. split; [by rewrite <- Hp|unfold Repository.submitted; cbn; by rewrite Hz|done|done| |done].
  by repeat eexists.
Qed.

Lemma run_ulid clock bytes w : ∃ id, run (drive clock bytes) ulid w = (Ok id, w).
Proof. eexists. unfold ulid. rewrite run_mbind, run_await. cbn [drive]. rewrite run_mbind, run_await. reflexivity. Qed.

Lemma run_flags clock bytes flags w : run (drive clock bytes) (count_flags flags) w = (Ok tt, w).
Proof. induction flags as [|f l IH]; [done|]. cbn [count_flags]. by rewrite run_mbind, run_await. Qed.

(** What a submission that is answered 202 did. *)
Lemma run_submit r clock bytes w b w' :
  run (drive clock bytes) (serve sha256hex SubmitReview r) w = (Ok (202, b), w') →
  ∃ body i, safeParse Api.Api.CreateReviewRequest (reqBody r) = Ok body ∧
    i_productId i = str_at "productId" body ∧ i_rating i = the_num (prop "rating" body) ∧
    insert_one reviews (Repository.submitted clock sha256hex i w) w = (Ok tt, w').
Proof.
  unfold serve, dispatch, submit_review. destruct (x_user_id r) as [u|]; [|by intros [= ]].
  destruct (truthy_str u); [|by intros [= ]].
  destruct (safeParse _ _) as [body|issues]; [|by intros [= ]]. cbn [mbind result_bind].
  destruct (run_ulid clock bytes w) as [id Hid]. rewrite run_try, run_mbind, Hid, run_mbind.
  rewrite Repository.run_create.
  match goal with |- context [Repository.submitted clock sha256hex ?i w] => set (inp := i) end.
  destruct (insert_one reviews (Repository.submitted clock sha256hex inp w) w) as [[[]|e] w1] eqn:Hins.
  - rewrite run_mbind, run_await. cbn [drive]. rewrite run_mbind, run_flags. cbn [run mret prog_ret].
    intros [= _ <-]. exists body, inp. done.
  - cbn [run]. rewrite run_mbind, run_await. cbn [drive run mret prog_ret].
    destruct (if is_duplicate e then _ else e); by intros [= ].
Qed.

(** What the route lets in can be moderated: a submission answered 202 added one
    pending review, with a real product and one to five stars, so that the
    theorems about moderation apply to it; nothing else in the database changed. *)
Theorem submissions_can_be_moderated r clock bytes w b w' :
  lowest (prop "rating" (reqBody r)) →
  run (drive clock bytes) (serve sha256hex SubmitReview r) w = (Ok (202, b), w') →
  ∃ id d p z v, d_reviews w !! id = None ∧ w' = store reviews id d w ∧
    Summary.review_shape d p z "PENDING_MODERATION" v ∧ accepts ProductId (VStr p) ∧
    unclashed id d w' = true.
Proof.
  intros Hl (body & i & Hb & Hp & Hr & Hins)%run_submit.
  field_of Hb "rating"; field_of Hb "productId".
  apply parsed_stars in Hf as (z & Hz & Hrange); [|done]. apply Contracts.parsed_id in Hf0 as [Hpv Hpa].
  destruct (submitted_shape clock i w (i_productId i) z eq_refl) as [v Hsh]; [by rewrite Hr, Hz|done|].
  unfold insert_one in Hins. change (the_str (prop "_id" (Repository.submitted clock sha256hex i w))) with (i_id i) in Hins.
  cbn [collection] in Hins. destruct (d_reviews w !! i_id i) as [x|] eqn:Hid; [done|].
  destruct (allowed reviews _ _ w) eqn:Hall; [|done]. injection Hins as <-.
  exists (i_id i), (Repository.submitted clock sha256hex i w), (i_productId i), z, v.
  split; [done|]. split; [done|]. split; [done|]. split.
  - rewrite Hp. unfold str_at. destruct (proj1 (Contracts.accepts_id _ _) Hpa) as (t & Ht & _).
    rewrite Hpv. rewrite Ht in Hpa |- *. exact Hpa.
  - rewrite <- Hall. cbn [allowed]. unfold one_per_user.
    change (active (Repository.submitted clock sha256hex i w)) with true. cbn [negb orb].
    apply Summary.unclashed_agree. intros j Hj. by apply lookup_insert_ne.
Qed.

(** ** Answers *)

Lemma known_only shape v k :
  accepts (obj shape) v → k ∉ map fst shape → prop k v = VUndef.
Proof. apply Contracts.strict_absent. Qed.

(** The answers of review-service are not the ones the contract promises: a
    rating, stored or of a product without reviews, carries a verified count
    that [RatingSummary] refuses, and a page with a review in it is refused by
    [ReviewPage], since the documents have an [_id] and no [id]. *)
Theorem review_answers_refused :
  (∀ p, ¬ accepts Api.Api.RatingSummary (zero_summary p)) ∧
  (∀ s c n, Summary.summary_shape s c n → ¬ accepts Api.Api.RatingSummary s) ∧
  (∀ pg d, d ∈ items pg → prop "id" d = VUndef → ¬ accepts Api.Api.ReviewPage (page_value pg)) ∧
  (∀ i v fl c u, prop "id" (review_of i v fl c u) = VUndef).
Proof.
  assert (∀ s, prop "verifiedCount" s ≠ VUndef → ¬ accepts Api.Api.RatingSummary s) as Hv.
  { intros s Hs Ha. apply Hs. eapply known_only; [exact Ha|]. apply (bool_decide_unpack _). vm_compute. exact I. }
  split_and!; [|intros s c n [_ _ Hc _]| |done].
  - intros p. by apply Hv.
  - apply Hv. by rewrite Hc.
  - intros pg d Hd Hid (kvs & [= <-] & Hf & _)%accepts_object.
    specialize (Hf "items" (arr Api.Api.Review) ltac:(cbn; auto)).
    apply accepts_elements in Hf as (l & Hl & Hall). injection Hl as <-.
    rewrite Forall_forall in Hall. specialize (Hall d Hd). apply accepts_object in Hall as (kd & -> & Hr & _).
    specialize (Hr "id" ReviewId ltac:(cbn; auto)). rewrite Hid in Hr.
    by apply accepts_string in Hr as (t & Ht & _).
Qed.
End Http.
End ReviewHttp.
