(* ===== verification/ReviewFlags.v ===== *)
(** * What the moderation heuristics flag, and a review database

    [Flags] is about [autoModerate] of
    [services/review-service/src/repositories/reviews.ts].  After it the theorems
    on reviews are applied to a small database and to concrete requests. *)
From Stdlib Require Import QArith.
From S2P Require Import Prelude JsNumber JsString JsDate Regex Zod Schemas Events Api Contracts.
From S2P Require Import Prog Cart CartExamples.
From S2P Require Import Mongo Rating Cursor Reviews ReviewWorld ReviewSummary ReviewConcurrency.
From S2P Require Import ReviewRepository.
From S2P Require Import ReviewPages.
From S2P Require Import ReviewRoutes ReviewHttp.
Local Open Scope js_scope.
Local Open Scope Z_scope.

Import Reviews.Reviews.

Module Flags.

Lemma path_repeat n c p q : Regex.path (prep n (PChr (N.eqb c))) p q → p.2 = replicate n c ++ q.2.
Proof.
  revert p. induction n as [|n IH]; intros p Hp; cbn in Hp; inversion Hp; subst; [done|].
  match goal with H : Regex.path (PChr _) _ _ |- _ => inversion H; subst end.
  match goal with H : (c =? _)%N = true |- _ => apply N.eqb_eq in H; subst end.
  match goal with H : Regex.path (prep n _) _ _ |- _ => apply IH in H; cbn in H |- *; by rewrite H end.
Qed.

Lemma repeat_path n c prev s : ∃ q, Regex.path (prep n (PChr (N.eqb c))) (prev, replicate n c ++ s) q.
Proof.
  revert prev. induction n as [|n IH]; intros prev; [eexists; constructor|].
  destruct (IH (Some c)) as [q Hq]. exists q. eapply path_seq; [|exact Hq].
  constructor. apply N.eqb_refl.
Qed.

Lemma repeated_meaning body :
  test repeated_pattern body = true ↔ ∃ u c v, body = u ++ replicate 7 c ++ v ∧ is_dot c = true.
Proof.
  rewrite test_correct. split.
  - intros (u & v & q & -> & Hp). unfold repeated_pattern in Hp.
    remember (last u, v) as pos eqn:Hpos. inversion Hp as [| | | | | | | |f g c prev s q' Hc Hr Hf Hq]; subst.
    injection Hq as -> <-. unfold pmany in Hr. inversion Hr as [| |a b p m r Ha Hb| | | | | |]; subst.
    apply (path_repeat 6) in Ha. cbn [snd] in Ha. exists u, c, m.2. by rewrite Ha.
  - intros (u & c & v & -> & Hc). destruct (repeat_path 6 c (Some c) v) as [q Hq].
    exists u, (replicate 7 c ++ v), q. split; [done|]. cbn [replicate app].
    apply path_capture; [done|]. eapply path_seq; [exact Hq|constructor].
Qed.

Lemma flag_iff (s t : jstr) (b : bool) : s ∈ (if b then [t] else []) ↔ s = t ∧ b = true.
Proof. destruct b; [rewrite list_elem_of_singleton|rewrite elem_of_nil]; naive_solver. Qed.

Lemma shouting body : let letters := List.filter letter body in
  letters = toUpperCase letters ↔ Forall (λ c, is_lower c = false) body.
Proof.
  intros letters. unfold letters, toUpperCase. clear letters. induction body as [|c r IH]; cbn; [done|].
  rewrite Forall_cons. assert (upper_unit c = c ↔ is_lower c = false) as Hc.
  { unfold upper_unit. destruct (is_lower c) eqn:E; [|done]. split; [|done]. intros Heq.
    unfold is_lower in E. apply andb_true_iff in E as [E%N.leb_le _]. lia. }
  destruct (letter c) eqn:Hl.
  - cbn. rewrite <- IH. split; [intros [= H1 H2]; by rewrite <- Hc|intros [H1 H2]; f_equal; [symmetry; by apply Hc|done]].
  - unfold letter in Hl. apply orb_false_iff in Hl as [_ ->]. tauto.
Qed.

(** The heuristics flag what they say: a review is flagged for repeated
    characters exactly when its body has seven equal characters in a row (none of
    them a line break), for shouting exactly when it has more than twenty
    letters and none in lower case, and for being a short five-star review
    exactly when it has five stars and fewer than 25 characters after trimming. *)
Theorem flags_mean_what_they_say title body rating :
  ("REPEATED_CHARACTERS" ∈ autoModerate title body rating ↔
     ∃ u c v, body = u ++ replicate 7 c ++ v ∧ is_dot c = true) ∧
  ("ALL_CAPS" ∈ autoModerate title body rating ↔
     (20 < length (List.filter letter body))%nat ∧ Forall (λ c, is_lower c = false) body) ∧
  ("SHORT_FIVE_STAR" ∈ autoModerate title body rating ↔
     neqb rating (jint 5) = true ∧ (length (trim body) < 25)%nat).
Proof.
  unfold autoModerate. rewrite !elem_of_app, !flag_iff, !andb_true_iff, Nat.ltb_lt, Nat.ltb_lt, bool_decide_eq_true.
  rewrite repeated_meaning, shouting. split_and!; split; intros Hx;
    repeat match goal with H : _ ∨ _ |- _ => destruct H as [H|H] | H : _ ∧ _ |- _ => destruct H end;
    try done; auto 10.
Qed.
End Flags.

(** ** review-service on a small database

    One product, one review, one summary: every theorem about review-service
    at concrete inputs. *)

Import Reviews.Reviews ReviewRoutes.ReviewRoutes.

Definition plain_hash (s : jstr) : jstr := s.

Definition sample_input : input := {|
  i_id := "rev_1"; i_productId := "prd_1"; i_userId := "usr_1"; i_authorName := "A customer";
  i_rating := jint 4; i_title := "Good"; i_body := "Does what it should."; i_images := []; i_locale := "en-GB" |}.
Definition pending : jsval := review_of sample_input false [] 1000 1000.

Definition zero_counts : jsval := VObj [
  ("_id", VStr "prd_1"); ("average", vint 0); ("count", vint 0);
  ("distribution", VArr (replicate 5 (vint 0))); ("verifiedCount", vint 0)].

(** The database with the pending review, with and without a summary. *)
Definition unsummarised : db :=
  {| d_reviews := {[ "rev_1" := pending ]}; d_summaries := ∅; d_purchases := ∅; d_votes := ∅ |}.
Definition shop : db :=
  {| d_reviews := {[ "rev_1" := pending ]}; d_summaries := {[ "prd_1" := zero_counts ]};
     d_purchases := ∅; d_votes := ∅ |}.

Lemma pending_shape : Summary.review_shape pending "prd_1" 4 "PENDING_MODERATION" false.
Proof. split; try reflexivity; [by repeat eexists|lia]. Qed.

Lemma shop_fits : Summary.fits_in shop.
Proof. vm_compute. reflexivity. Qed.

Lemma shop_exact : Summary.summaries_exact shop.
Proof.
  intros p s Hs. cbn [shop d_summaries] in Hs. apply lookup_singleton_Some in Hs as [<- <-]. split; [split|]; try (vm_compute; reflexivity). by eexists.
Qed.

Lemma delta_moves_one_bucket_witness :
  Rating.histogram [0; 0; 1; 2; 2] ∧
  Rating.applyDelta (Rating.counts [0; 0; 1; 2; 2]) (jint 5) (jint (-1)) =
    Some (Rating.counts [0; 0; 1; 2; 1]).
Proof.
  assert (Rating.histogram [0; 0; 1; 2; 2]) as Hh.
  { split_and!; [reflexivity| |reflexivity]. repeat constructor; discriminate. }
  split; [exact Hh|].
  destruct (Rating.delta_moves_one_bucket [0; 0; 1; 2; 2] 5 (-1) Hh ltac:(lia)) as [-> _]. reflexivity.
Defined.

(** The author of a rejected review has written another, which is published. *)
Definition rejected_one : jsval := VObj [
  ("_id", VStr "rev_2"); ("productId", VStr "prd_1"); ("userId", VStr "usr_1"); ("rating", vint 4);
  ("status", VStr "REJECTED"); ("verifiedPurchase", VBool false); ("moderation", VObj [])].
Definition resubmitted : db := store reviews "rev_2" rejected_one shop.

Lemma rejected_shape : Summary.review_shape rejected_one "prd_1" 4 "REJECTED" false.
Proof. split; try reflexivity; [by repeat eexists|lia]. Qed.
Lemma resubmitted_fits : Summary.fits_in resubmitted.
Proof. vm_compute. reflexivity. Qed.
Lemma resubmitted_exact : Summary.summaries_exact resubmitted.
Proof.
  intros p s Hs. cbn [resubmitted shop store d_summaries] in Hs. apply lookup_singleton_Some in Hs as [<- <-].
  split; [split|]; try (vm_compute; reflexivity). by eexists.
Qed.

Lemma moderation_keeps_summaries_witness :
  (∃ w', run (drive 5 []) (moderate "rev_1" "PUBLISHED" (VStr "usr_9") None) shop = (Ok tt, w') ∧
    Summary.summaries_exact w') ∧
  run (drive 5 []) (moderate "rev_2" "PUBLISHED" (VStr "usr_9") None) resubmitted =
    (Err (MongoError 11000), resubmitted).
Proof.
  split.
  - destruct (Summary.moderation_keeps_summaries 5 [] "rev_1" "PUBLISHED" (VStr "usr_9") None shop pending
      "prd_1" 4 "PENDING_MODERATION" false ltac:(left) shop_exact shop_fits eq_refl pending_shape ltac:(by eexists))
      as [Hok _].
    destruct Hok as (Hr & He & _); [right; right; vm_compute; reflexivity|].
    destruct (run (drive 5 []) _ shop) as [res w']. cbn in Hr, He. subst res. exists w'. exact (conj eq_refl He).
  - destruct (Summary.moderation_keeps_summaries 5 [] "rev_2" "PUBLISHED" (VStr "usr_9") None resubmitted rejected_one
      "prd_1" 4 "REJECTED" false ltac:(left) resubmitted_exact resubmitted_fits eq_refl rejected_shape ltac:(by eexists))
      as [_ Hrefused].
    apply Hrefused. split; [discriminate|]. split; [reflexivity|vm_compute; reflexivity].
Defined.

Lemma first_publication_fails_witness :
  ∃ w', run (drive 5 []) (moderate "rev_1" "PUBLISHED" (VStr "usr_9") None) unsummarised = (Err TypeError, w').
Proof.
  destruct (Summary.first_publication_fails 5 [] "rev_1" (VStr "usr_9") None unsummarised pending
    "prd_1" 4 "PENDING_MODERATION" false eq_refl pending_shape ltac:(vm_compute; reflexivity)
    ltac:(discriminate) eq_refl) as (w' & _ & _ & Hr & _).
  exists w'. exact Hr.
Defined.

Lemma double_publication_counts_twice_witness :
  ∃ w' s, exec ReviewRaces.another_moderation effect
      (moderate "rev_1" "PUBLISHED" (VStr "usr_9") None) shop (Ok tt) w' ∧
    d_summaries w' !! "prd_1" = Some s ∧
    prop "count" s = vint (Rating.reviews_of (published "prd_1" w') + 1).
Proof.
  destruct (ReviewRaces.double_publication_counts_twice "rev_1" (VStr "usr_9") None (VStr "usr_8") None shop pending
    "prd_1" 4 "PENDING_MODERATION" false shop_exact shop_fits eq_refl pending_shape
    ltac:(vm_compute; reflexivity) ltac:(discriminate) ltac:(by eexists)) as (w1 & w' & s & _ & Hx & Hs & Hc).
  exists w', s. exact (conj Hx (conj Hs Hc)).
Defined.

Lemma rebuild_agrees_with_increments_witness :
  ∃ s, run (drive 5 []) (rebuildSummary "prd_1") shop = (Ok s, store rating_summaries "prd_1" s shop) ∧
    prop "average" s = prop "average" zero_counts.
Proof.
  destruct (Repository.rebuild_agrees_with_increments 5 [] "prd_1" shop shop_fits) as (s & Hr & _ & Hs & _).
  exists s. split; [exact Hr|]. apply (Hs zero_counts (shop_exact "prd_1" zero_counts eq_refl)).
  apply (bool_decide_unpack _). vm_compute. exact I.
Defined.

Definition second_input : input := {|
  i_id := "rev_2"; i_productId := "prd_1"; i_userId := "usr_1"; i_authorName := "A customer";
  i_rating := jint 5; i_title := "Again"; i_body := "And again, at length."; i_images := []; i_locale := "en-GB" |}.

Lemma submission_is_checked_witness :
  run (drive 5 []) (create plain_hash second_input) shop = (Err (DuplicateReview "prd_1"), shop).
Proof.
  destruct (Repository.submission_is_checked 5 [] plain_hash second_input shop eq_refl) as [Hdup _].
  apply Hdup. exists "rev_1", pending. split_and!; reflexivity.
Defined.

Lemma vote_counts_once_witness :
  ∃ w', run (drive 5 []) (markHelpful plain_hash "rev_1" "usr_2") shop = (Ok (vint 1), w') ∧
    run (drive 5 []) (markHelpful plain_hash "rev_1" "usr_2") w' = (Ok (vint 1), w').
Proof.
  destruct (Repository.vote_counts_once 5 [] plain_hash "rev_1" "usr_2" shop pending 0
    (match pending with VObj k => k | _ => [] end) eq_refl eq_refl eq_refl eq_refl ltac:(lia)
    ltac:(vm_compute; reflexivity)) as (w' & H1 & _ & H2).
  exists w'. exact (conj H1 H2).
Defined.

(** A database with two published reviews. *)
Definition published_input (n : jstr) : input := {|
  i_id := n; i_productId := "prd_1"; i_userId := n; i_authorName := "A customer";
  i_rating := jint 4; i_title := "Good"; i_body := "Does what it should."; i_images := []; i_locale := "en-GB" |}.
Definition set_status (s : jstr) (d : jsval) : jsval :=
  match d with VObj kvs => VObj (put "status" (VStr s) kvs) | _ => d end.
Definition published_review (n : jstr) (t : Z) : jsval :=
  set_status "PUBLISHED" (review_of (published_input n) false [] t t).
Definition two_reviews : db :=
  {| d_reviews := {[ "rev_1" := published_review "rev_1" 1000; "rev_2" := published_review "rev_2" 2000 ]};
     d_summaries := ∅; d_purchases := ∅; d_votes := ∅ |}.

Lemma paging_is_complete_witness :
  ∃ all, run (drive 5 []) (Pages.walk "prd_1" 1 false None 3 None) two_reviews = (Ok all, two_reviews) ∧
    length all = 2%nat.
Proof.
  destruct (Pages.paging_is_complete 5 [] "prd_1" 1 false None two_reviews 3) as (all & Hr & Hp & _).
  - lia.
  - intros d Hd.
    assert (forallb (λ d, match prop "createdAt" d with
                          | VNum (Fin q) => Z.eqb (Zpos (Qden q)) 1 && (0 <=? Qnum q) && (Qnum q <? 240 * 10 ^ 12)
                          | _ => false end)
      (found_by (Pages.base "prd_1" false None) two_reviews) = true) as Hall by (vm_compute; reflexivity).
    rewrite forallb_forall in Hall. specialize (Hall d (proj1 (list_elem_of_In _ _) Hd)).
    destruct (prop "createdAt" d) as [| | |[| |[n q]]| | |] eqn:Hc; try discriminate Hall.
    cbn [Qnum Qden] in Hall. apply andb_true_iff in Hall as [[Hq%Z.eqb_eq H0%Z.leb_le]%andb_true_iff Hlt%Z.ltb_lt].
    injection Hq as ->. exists n. split; [exact Hc|]. split; lia.
  - apply (bool_decide_unpack _). vm_compute. exact I.
  - vm_compute. lia.
  - exists all. split; [exact Hr|]. apply Permutation_length in Hp. rewrite Hp. reflexivity.
Defined.

Lemma no_purchase_is_recorded_witness :
  accepts Events.OrderEvent sample_confirmed ∧ eachMessage plain_hash (Some (Some sample_confirmed)) = mret tt.
Proof.
  assert (accepts Events.OrderEvent sample_confirmed) as Ha by (vm_compute; reflexivity).
  split; [exact Ha|]. exact (ReviewHttp.no_purchase_is_recorded plain_hash sample_confirmed Ha).
Defined.

Definition customer_request : request := {|
  params := VObj [("reviewId", VStr "rev_1")]; query := VObj [];
  reqBody := VObj [("decision", VStr "PUBLISHED")]; ip := "10.0.0.1"; requestId := "req";
  x_user_id := Some "usr_1"; x_user_name := None; x_user_roles := Some "CUSTOMER"; accept_language := None |}.

Lemma moderation_needs_role_witness :
  may_moderate customer_request = false ∧
  ∃ doc, run (drive 5 []) (serve plain_hash ModerateReview customer_request) shop = (Ok (403, doc), shop).
Proof.
  assert (may_moderate customer_request = false) as Hm by (vm_compute; reflexivity).
  split; [exact Hm|].
  destruct (ReviewHttp.moderation_needs_role plain_hash customer_request 5 [] shop Hm) as (doc & Hr & _).
  exists doc. exact Hr.
Defined.

Definition submit_request : request := {|
  params := VObj []; query := VObj [];
  reqBody := VObj [("productId", VStr ("prd_" ++ ulid26)); ("rating", vint 5); ("title", VStr "Good");
                   ("body", VStr "Does what it should.")];
  ip := "10.0.0.1"; requestId := "req";
  x_user_id := Some "usr_1"; x_user_name := None; x_user_roles := None; accept_language := None |}.

Lemma submissions_can_be_moderated_witness :
  ∃ w' p z v id d, w' = store reviews id d shop ∧
    Summary.review_shape d p z "PENDING_MODERATION" v.
Proof.
  assert (∃ b, (run (drive 5 []) (serve plain_hash SubmitReview submit_request) shop).1 = Ok (202, b)) as [b Hb]
    by (eexists; vm_compute; reflexivity).
  destruct (ReviewHttp.submissions_can_be_moderated plain_hash submit_request 5 [] shop b
    (run (drive 5 []) (serve plain_hash SubmitReview submit_request) shop).2) as (id & d & p & z & v & _ & Hw & Hs & _).
  - reflexivity.
  - rewrite <- Hb. apply surjective_pairing.
  - exists (run (drive 5 []) (serve plain_hash SubmitReview submit_request) shop).2, p, z, v, id, d.
    exact (conj Hw Hs).
Defined.

Lemma review_answers_refused_witness : ¬ accepts Api.Api.RatingSummary zero_counts.
Proof.
  destruct ReviewHttp.review_answers_refused as (_ & Hs & _).
  apply (Hs zero_counts [0; 0; 0; 0; 0] 0). split; try reflexivity. by eexists.
Defined.

(** ** Two moderators at work *)

Definition bad_input : input := {|
  i_id := "rev_2"; i_productId := "prd_1"; i_userId := "usr_2"; i_authorName := "Another customer";
  i_rating := jint 1; i_title := "Bad"; i_body := "It broke on the first day."; i_images := []; i_locale := "en-GB" |}.
Definition bad_review : jsval := review_of bad_input true [] 1000 1000.
Definition two_pending : db :=
  {| d_reviews := {[ "rev_1" := pending; "rev_2" := bad_review ]}; d_summaries := {[ "prd_1" := zero_counts ]};
     d_purchases := ∅; d_votes := ∅ |}.
Definition publications : list Moderations.job := [
  {| Moderations.j_id := "rev_1"; Moderations.j_decision := "PUBLISHED"; Moderations.j_by := VStr "usr_8";
     Moderations.j_reason := None; Moderations.j_product := "prd_1"; Moderations.j_rating := 4; Moderations.j_verified := false |};
  {| Moderations.j_id := "rev_2"; Moderations.j_decision := "PUBLISHED"; Moderations.j_by := VStr "usr_9";
     Moderations.j_reason := None; Moderations.j_product := "prd_1"; Moderations.j_rating := 1; Moderations.j_verified := true |}].
Definition both_begun : Moderations.system :=
  {| Moderations.moderators := map Moderations.task publications; Moderations.database := two_pending |}.

(** The first moderator stops before its last command while the second runs. *)
Definition overtaken : list (nat * Z) :=
  map (λ t, (0%nat, t)) [1; 2; 3; 4; 5; 6; 7] ++ map (λ t, (1%nat, t)) [8; 9; 10; 11; 12; 13; 14; 15] ++ [(0%nat, 16)].

Lemma two_authors : Moderations.one_author (d_reviews two_pending).
Proof.
  intros i i' d d' Hi Hi' _ Hu. cbn [two_pending d_reviews] in *.
  apply lookup_insert_Some in Hi as [[<- <-]|[_ [<- <-]%lookup_singleton_Some]];
    apply lookup_insert_Some in Hi' as [[<- <-]|[_ [<- <-]%lookup_singleton_Some]]; done || discriminate Hu.
Qed.

Lemma two_tallied : Moderations.tallied two_pending.
Proof.
  intros p s Hs. cbn [two_pending d_summaries] in Hs. apply lookup_singleton_Some in Hs as [<- <-].
  split; [vm_compute; reflexivity|by eexists|vm_compute; reflexivity|by eexists].
Qed.

Lemma two_posed : Forall (Moderations.posed two_pending) publications.
Proof.
  repeat constructor; try (eexists; reflexivity);
    exists "PENDING_MODERATION"; eexists; (split; [reflexivity|]); split; try reflexivity; (by repeat eexists) || lia.
Qed.

Lemma overtaken_done : Forall (λ p, p = Ret tt) (Moderations.moderators (Moderations.play overtaken both_begun)).
Proof.
  assert (Moderations.moderators (Moderations.play overtaken both_begun) = [Ret tt; Ret tt]) as -> by (vm_compute; reflexivity).
  by apply Forall_cons; split; [|apply Forall_cons; split; [|apply Forall_nil]].
Qed.

Lemma histograms_survive_interleaving_witness :
  Forall (λ p, p = Ret tt) (Moderations.moderators (Moderations.play overtaken both_begun)) ∧
  Moderations.tallied (Moderations.database (Moderations.play overtaken both_begun)).
Proof.
  split; [exact overtaken_done|]. destruct (Moderations.play_steps overtaken both_begun) as [k Hk].
  assert (NoDup (map Moderations.j_id publications)) as Hnd by (apply (bool_decide_unpack _); vm_compute; exact I).
  assert (Summary.fits_in two_pending) as Hf by (vm_compute; reflexivity).
  exact (proj1 (proj2 (proj2 (proj2 (Moderations.histograms_survive_interleaving publications two_pending k
    (Moderations.play overtaken both_begun) Hnd two_authors Hf two_tallied two_posed Hk))) overtaken_done)).
Defined.

(** What does not survive is the count and the average: the first moderator has
    read a histogram of one review, and writes what it says after the second has
    published its own.  Both reviews are in the buckets; the product shows one
    review and four stars. *)
Theorem average_drifts :
  ∃ k z s, nsteps Moderations.step k both_begun z ∧
    Forall (λ p, p = Ret tt) (Moderations.moderators z) ∧
    d_summaries (Moderations.database z) !! "prd_1" = Some s ∧
    prop "distribution" s = VArr (map vint [1; 0; 0; 1; 0]) ∧
    prop "count" s = vint 1 ∧ prop "average" s = vint 4.
Proof.
  destruct (Moderations.play_steps overtaken both_begun) as [k Hk].
  assert (∃ s, d_summaries (Moderations.database (Moderations.play overtaken both_begun)) !! "prd_1" = Some s ∧
    prop "distribution" s = VArr (map vint [1; 0; 0; 1; 0]) ∧ prop "count" s = vint 1 ∧ prop "average" s = vint 4)
    as (s & Hs) by (eexists; split_and!; vm_compute; reflexivity).
  exists k, (Moderations.play overtaken both_begun), s. split; [exact Hk|]. split; [exact overtaken_done|exact Hs].
Qed.
