(* ===== verification/Bff.v ===== *)
(** * storefront: the service client of the BFF (lib/bff.ts, lib/session.ts)

    [call] and what it is made of, the exchange of the refresh cookie for an
    access token, and [gather].  The network, the request scope of Next.js, the
    cookie jar, the clock and the random source are the commands of [eff];
    logging is dropped. *)
From Stdlib Require Import QArith Qround.
From S2P Require Import Prelude JsNumber JsString Zod Prog Schemas Api.
Local Open Scope js_scope.
Local Open Scope Z_scope.

Module Bff.

(** ** Services *)

Inductive ServiceName := identity | catalog | cart | order | search | recommendation | review.
#[export] Instance ServiceName_eq_dec : EqDecision ServiceName.
Proof. solve_decision. Defined.

Definition service_name (s : ServiceName) : jstr :=
  match s with
  | identity => "identity" | catalog => "catalog" | cart => "cart" | order => "order"
  | search => "search" | recommendation => "recommendation" | review => "review"
  end.

(** The URLs, read from the environment of the process. *)
Definition SERVICES (env : jstr → option jstr) (s : ServiceName) : option jstr :=
  env match s with
      | identity => "SOUQ_IDENTITY_URL" | catalog => "SOUQ_CATALOG_URL" | cart => "SOUQ_CART_URL"
      | order => "SOUQ_ORDER_URL" | search => "SOUQ_SEARCH_URL"
      | recommendation => "SOUQ_RECOMMENDATION_URL" | review => "SOUQ_REVIEW_URL"
      end.

Definition TIMEOUTS (s : ServiceName) : Z :=
  match s with
  | identity => 3000 | catalog => 3000 | cart => 3000 | order => 5000 | search => 2000
  | recommendation => 1000 | review => 3000
  end.

(** ** Errors *)

Record BffError := {
  status : Z;
  code : jstr;
  requestId : jstr;
  message : jstr;
  problem : option jsval
}.

Definition retriable (e : BffError) : bool :=
  (status e =? 0) || (status e =? 502) || (status e =? 503) || (status e =? 504).

(** What can be thrown: [OtherError] is any other [Error], [NotAnError] a value
    that is none, by its text. *)
Inductive exn :=
| Bff (e : BffError)
| ZodError (issues : list issue)
| AbortError
| OtherError (message : jstr)
| NotAnError (text : jstr).

Definition bff_error (status : Z) (code requestId message : jstr) : exn :=
  Bff {| status := status; code := code; requestId := requestId; message := message; problem := None |}.

(** [err instanceof Error ? err.message : String(err)] *)
Definition text_of (e : exn) : jstr :=
  match e with
  | Bff b => message b
  | ZodError _ => "ZodError"
  | AbortError => "This operation was aborted"
  | OtherError m | NotAnError m => m
  end.

(** ** Commands *)

(** What is handed to [fetch]; the timer aborts it after [o_timeout]. *)
Record outgoing := {
  o_method : jstr;
  o_url : jstr;
  o_headers : list (jstr * jstr);
  o_body : jsval;
  o_cache : option jstr;
  o_next : option (jsval * option (list jstr));
  o_timeout : Z
}.

(** What comes back: [r_json] is the body parsed, or [None] when it is not JSON. *)
Record response := { r_status : Z; x_request_id : option jstr; r_json : option jsval }.
Definition ok (r : response) : bool := (200 <=? r_status r) && (r_status r <=? 299).

Record cookie := {
  c_name : jstr; c_value : jstr; c_httpOnly : bool; c_secure : bool;
  c_sameSite : option jstr; c_path : jstr; c_maxAge : Z
}.

Inductive eff : Type → Type :=
| FETCH (o : outgoing) : eff response
(* the x-request-id of the incoming request; rejects outside a request *)
| REQUEST_ID : eff (option jstr)
| UUID : eff jstr
| NOW : eff Z
| RANDOM : eff num
| SLEEP (ms : num) : eff unit
(* the cookie jar of the request *)
| COOKIE (name : jstr) : eff (option jstr)
| SET_COOKIE (c : cookie) : eff unit
(* the exchange remembered for this request *)
| REMEMBERED : eff (option (result exn (option jstr)))
| REMEMBER (r : result exn (option jstr)) : eff unit.

Abbreviation prog := (Prog.prog eff exn).

(** ** Calls *)

Inductive method := GET | POST | PUT | PATCH | DELETE.
#[export] Instance method_eq_dec : EqDecision method.
Proof. solve_decision. Defined.
Definition method_name (m : method) : jstr :=
  match m with GET => "GET" | POST => "POST" | PUT => "PUT" | PATCH => "PATCH" | DELETE => "DELETE" end.

Record CallOptions := {
  service : ServiceName;
  path : jstr;
  schema : Zod.schema;
  opt_method : option method;
  body : jsval;
  idempotencyKey : option jstr;
  accessToken : option jstr;
  revalidate : jsval;
  tags : option (list jstr);
  attempts : option nat
}.

(** A call with only the required options. *)
Definition options (s : ServiceName) (p : jstr) (sch : Zod.schema) : CallOptions := {|
  service := s; path := p; schema := sch; opt_method := None; body := VUndef; idempotencyKey := None;
  accessToken := None; revalidate := VUndef; tags := None; attempts := None |}.
Definition post (b : jsval) (o : CallOptions) : CallOptions := {|
  service := service o; path := path o; schema := schema o; opt_method := Some POST; body := b;
  idempotencyKey := idempotencyKey o; accessToken := accessToken o; revalidate := revalidate o;
  tags := tags o; attempts := attempts o |}.
Definition with_method (m : method) (o : CallOptions) : CallOptions := {|
  service := service o; path := path o; schema := schema o; opt_method := Some m; body := body o;
  idempotencyKey := idempotencyKey o; accessToken := accessToken o; revalidate := revalidate o;
  tags := tags o; attempts := attempts o |}.
Definition with_token (t : option jstr) (o : CallOptions) : CallOptions := {|
  service := service o; path := path o; schema := schema o; opt_method := opt_method o; body := body o;
  idempotencyKey := idempotencyKey o; accessToken := t; revalidate := revalidate o;
  tags := tags o; attempts := attempts o |}.
Definition with_key (k : option jstr) (o : CallOptions) : CallOptions := {|
  service := service o; path := path o; schema := schema o; opt_method := opt_method o; body := body o;
  idempotencyKey := k; accessToken := accessToken o; revalidate := revalidate o;
  tags := tags o; attempts := attempts o |}.
Definition with_revalidate (v : jsval) (o : CallOptions) : CallOptions := {|
  service := service o; path := path o; schema := schema o; opt_method := opt_method o; body := body o;
  idempotencyKey := idempotencyKey o; accessToken := accessToken o; revalidate := v;
  tags := tags o; attempts := attempts o |}.
Definition with_attempts (n : nat) (o : CallOptions) : CallOptions := {|
  service := service o; path := path o; schema := schema o; opt_method := opt_method o; body := body o;
  idempotencyKey := idempotencyKey o; accessToken := accessToken o; revalidate := revalidate o;
  tags := tags o; attempts := Some n |}.

Definition is_undefined (v : jsval) : bool := match v with VUndef => true | _ => false end.
Definition truthy (o : option jstr) : option jstr :=
  match o with Some (c :: s) => Some (c :: s) | _ => None end.
Definition str_of (v : jsval) : jstr := match v with VStr s => s | _ => "" end.
Definition int_of (v : jsval) : Z := match v with VNum (Fin q) => Qfloor q | _ => 0 end.

Definition requestHeaders (o : CallOptions) (rid : jstr) : list (jstr * jstr) :=
  [("X-Request-Id", rid); ("X-Correlation-Id", rid); ("Accept", "application/json")] ++
  (if is_undefined (body o) then [] else [("Content-Type", "application/json")]) ++
  match truthy (accessToken o) with Some t => [("Authorization", "Bearer " ++ t)] | None => [] end ++
  match truthy (idempotencyKey o) with Some k => [("Idempotency-Key", k)] | None => [] end.

Definition request_of (o : CallOptions) (url m rid : jstr) : outgoing := {|
  o_method := m; o_url := url; o_headers := requestHeaders o rid; o_body := body o;
  o_cache := if is_undefined (revalidate o) then Some "no-store" else None;
  o_next := if is_undefined (revalidate o) then None else Some (revalidate o, tags o);
  o_timeout := TIMEOUTS (service o) |}.

Section Client.
Context `{Zod} (env : jstr → option jstr).

(** [schema.parse(v)]: throws what [safeParse] reports. *)
Definition parse (s : Zod.schema) (v : jsval) : result exn jsval :=
  match safeParse s v with Ok w => Ok w | Err issues => Err (ZodError issues) end.

Definition toProblem (r : response) (s : ServiceName) (rid : jstr) : BffError :=
  let plain m := {| status := r_status r; code := "INTERNAL_ERROR"; requestId := rid; message := m; problem := None |} in
  match r_json r with
  | None => plain (service_name s ++ " returned " ++ string_of_int (r_status r) ++ " with an unreadable body")
  | Some b =>
      match safeParse Schemas.ProblemDetails b with
      | Ok data => {|
          status := int_of (prop "status" data); code := str_of (prop "code" data);
          requestId := default rid (truthy (Some (str_of (prop "requestId" data))));
          message := match prop "detail" data with VStr d => d | _ => str_of (prop "title" data) end;
          problem := Some data |}
      | Err _ => plain (service_name s ++ " returned " ++ string_of_int (r_status r))
      end
  end.

(** What one response, or one failure to get one, amounts to. *)
Definition outcome (o : CallOptions) (rid : jstr) (r : result exn response) : result exn jsval :=
  match r with
  | Err AbortError =>
      Err (bff_error 504 "UPSTREAM_TIMEOUT" rid
             (service_name (service o) ++ " did not respond within " ++ string_of_int (TIMEOUTS (service o)) ++ "ms"))
  | Err e =>
      Err (bff_error 0 "UPSTREAM_UNAVAILABLE" rid
             ("could not reach " ++ service_name (service o) ++ ": " ++ text_of e))
  | Ok resp =>
      let up := default rid (x_request_id resp) in
      if negb (ok resp) then Err (Bff (toProblem resp (service o) up))
      else if r_status resp =? 204 then parse (schema o) VUndef
      else match r_json resp with
      | None =>
          Err (bff_error 502 "UPSTREAM_UNAVAILABLE" up
                 (service_name (service o) ++ " returned a non-JSON body with status " ++ string_of_int (r_status resp)))
      | Some payload =>
          match safeParse (schema o) payload with
          | Ok data => Ok data
          | Err _ =>
              Err (bff_error 502 "UPSTREAM_UNAVAILABLE" up
                     (service_name (service o) ++ " returned a response that does not match the contract"))
          end
      end
  end.

Definition once (o : CallOptions) (url m rid : jstr) : prog jsval :=
  Await (FETCH (request_of o url m rid)) (λ r, of_result (outcome o rid r)).

Definition incomingRequestId : prog (option jstr) :=
  try_catch (await REQUEST_ID) (λ _, mret None).

(** Exponential, at most two seconds; [attempt] counts from 1. *)
Definition ceiling (attempt : Z) : Z := Z.min (100 * 2 ^ (attempt - 1)) 2000.

(** The loop, with [n] attempts left. *)
Fixpoint retry (o : CallOptions) (url m rid : jstr) (n : nat) (attempt : Z) (lastError : option exn)
  : prog jsval :=
  match n with
  | O => Throw (default (bff_error 500 "INTERNAL_ERROR" rid "retry loop exited without a result") lastError)
  | S n' =>
      try_catch (once o url m rid) (λ err,
        match err with
        | Bff e =>
            if retriable e then
              match n' with
              | O => Throw err
              | S _ =>
                  x ← await RANDOM;
                  _ ← await (SLEEP (nmul x (jint (ceiling attempt))));
                  retry o url m rid n' (attempt + 1) (Some err)
              end
            else Throw err
        | _ => Throw err
        end)
  end.

(** [method === 'GET' || opts.idempotencyKey !== undefined] *)
Definition safeToRetry (o : CallOptions) : bool :=
  bool_decide (default GET (opt_method o) = GET) || bool_decide (is_Some (idempotencyKey o)).
Definition maxAttempts (o : CallOptions) : nat :=
  if safeToRetry o then default 3%nat (attempts o) else 1.

Definition call (o : CallOptions) : prog jsval :=
  match truthy (SERVICES env (service o)) with
  | None =>
      Throw (bff_error 500 "INTERNAL_ERROR" ""
               ("SOUQ_" ++ toUpperCase (service_name (service o)) ++ "_URL is not configured"))
  | Some base =>
      incoming ← incomingRequestId;
      rid ← match incoming with Some i => mret i | None => await UUID end;
      retry o (base ++ path o) (method_name (default GET (opt_method o))) rid (maxAttempts o) 1 None
  end.

(** ** The session *)

Definition REFRESH_COOKIE : jstr := "souq_rt".
Definition REFRESH_PATH : jstr := "/api/bff/auth".
Definition CART_COOKIE : jstr := "souq_cart".

(** A promise put in the per-request cache: whoever finds it there gets its
    outcome. *)
Definition remembered (p : prog (option jstr)) : prog (option jstr) :=
  r ← try_catch (t ← p; mret (Ok t)) (λ e, mret (Err e));
  _ ← await (REMEMBER r);
  of_result r.

Definition exchange (refreshToken : jstr) : prog (option jstr) :=
  try_catch
    (pair ← call (post (VObj [("refreshToken", VStr refreshToken)]) (options identity "/v1/auth/refresh" Api.TokenPair));
     mret (Some (str_of (prop "accessToken" pair))))
    (λ err, match err with
            | Bff e => if status e =? 401 then mret None else Throw err
            | _ => Throw err
            end).

Definition getAccessToken : prog (option jstr) :=
  refreshToken ← await (COOKIE REFRESH_COOKIE);
  match truthy refreshToken with
  | None => mret None
  | Some t =>
      cached ← await REMEMBERED;
      match cached with
      | Some r => of_result r
      | None => remembered (exchange t)
      end
  end.

Definition requireAccessToken : prog jstr :=
  token ← getAccessToken;
  match truthy token with
  | None => Throw (bff_error 401 "UNAUTHENTICATED" "" "this endpoint requires a signed-in user")
  | Some t => mret t
  end.

Definition getCartId : prog (option jstr) := await (COOKIE CART_COOKIE).
End Client.

Definition refreshCookieOptions (production : bool) (maxAgeSeconds : Z) (value : jstr) : cookie := {|
  c_name := REFRESH_COOKIE; c_value := value; c_httpOnly := true; c_secure := production;
  c_sameSite := Some "strict"; c_path := REFRESH_PATH; c_maxAge := maxAgeSeconds |}.

(** ** Fan-out *)

(** [gather] on the promises once they have all settled, in the order of their
    keys. *)
Fixpoint gather {A} (required : list jstr) (settled : list (jstr * result exn A))
  : result exn (list (jstr * option A)) :=
  match settled with
  | [] => Ok []
  | (key, Ok a) :: rest => out ← gather required rest; Ok ((key, Some a) :: out)
  | (key, Err e) :: rest =>
      if bool_decide (key ∈ required) then Err e
      else out ← gather required rest; Ok ((key, None) :: out)
  end.

End Bff.
