(* ===== verification/BffRoutes.v ===== *)
(** * storefront: the Route Handlers (app/api)

    One definition per exported handler, with the schemas its file declares,
    and [problemResponse], the catch block they share.  A request is its body
    after [request.json()], which may reject, its [Idempotency-Key] and its
    query; an answer is a status, headers, a JSON value and cookies. *)
From Stdlib Require Import QArith Qround.
From S2P Require Import Prelude JsNumber JsString JsDate Regex Zod Prog Schemas Api Bff.
Local Open Scope js_scope.
Local Open Scope Z_scope.

Module BffRoutes.
Import Bff.Bff.

(** ** Requests and answers *)

Record request := {
  q_json : result exn jsval;
  q_idempotency : option jstr;
  q_search : jstr → option jstr
}.

Record answer := {
  a_status : Z;
  a_headers : list (jstr * jstr);
  a_body : jsval;
  a_cookies : list cookie
}.

(** [NextResponse.json]: members that are [undefined] are not sent. *)
Fixpoint wire (v : jsval) : jsval :=
  match v with
  | VArr l => VArr (map wire l)
  | VObj kvs =>
      VObj ((fix members (l : list (jstr * jsval)) :=
               match l with
               | [] => []
               | (k, VUndef) :: r => members r
               | (k, x) :: r => (k, wire x) :: members r
               end) kvs)
  | _ => v
  end.
(** A status outside 200..599 is a [RangeError], one that forbids a body a
    [TypeError]. *)
Definition can_carry (s : Z) : bool :=
  (200 <=? s) && (s <=? 599) && negb (bool_decide (s ∈ [204; 205; 304])).
Definition json (s : Z) (headers : list (jstr * jstr)) (b : jsval) : prog answer :=
  if can_carry s
  then mret {| a_status := s; a_headers := headers; a_body := wire b; a_cookies := [] |}
  else Throw (OtherError "Response: invalid status code").
Definition empty (s : Z) (headers : list (jstr * jstr)) : answer := {|
  a_status := s; a_headers := headers; a_body := VNull; a_cookies := [] |}.

(** [{ ...o, k: v }] *)
Fixpoint set_member (k : jstr) (v : jsval) (kvs : list (jstr * jsval)) : list (jstr * jsval) :=
  match kvs with
  | [] => [(k, v)]
  | (k', x) :: r => if decide (k = k') then (k, v) :: r else (k', x) :: set_member k v r
  end.
Definition members (v : jsval) : list (jstr * jsval) := match v with VObj kvs => kvs | _ => [] end.
Definition spread (o : jsval) (more : list (jstr * jsval)) : jsval :=
  VObj (foldl (λ acc kv, set_member kv.1 kv.2 acc) (members o) more).

Definition NO_STORE : list (jstr * jstr) := [("Cache-Control", "private, no-store")].

(** ** Problem documents *)

Definition problem_headers (rid : jstr) : list (jstr * jstr) :=
  [("Content-Type", "application/problem+json"); ("X-Request-Id", rid); ("Cache-Control", "no-store")].

(** [error.status === 0 ? 502 : error.status] *)
Definition sent_status (e : BffError) : Z := if status e =? 0 then 502 else status e.

Definition problem_document (e : BffError) (instance rid : jstr) (now : Z) : jsval :=
  spread (default (VObj [
      ("type", VStr ("https://errors.souq.dev/bff/" ++ replace_all 95 "-" (toLowerCase (code e))));
      ("title", VStr "Request failed"); ("detail", VStr (message e))]) (problem e))
    [("status", vint (sent_status e)); ("code", VStr (code e)); ("instance", VStr instance);
     ("requestId", VStr rid); ("timestamp", VStr (toISOString now))].

Definition internal_document (instance rid : jstr) (now : Z) : jsval := VObj [
  ("type", VStr "https://errors.souq.dev/bff/internal-error"); ("title", VStr "Internal error");
  ("status", vint 500);
  ("detail", VStr ("Something went wrong. Quote request id " ++ rid ++ " if you contact support."));
  ("instance", VStr instance); ("code", VStr "INTERNAL_ERROR"); ("requestId", VStr rid);
  ("timestamp", VStr (toISOString now))].

Definition problemResponse (error : exn) (instance : jstr) : prog answer :=
  rid ← match error with
        | Bff e => match truthy (Some (requestId e)) with Some i => mret i | None => await UUID end
        | _ => await UUID
        end;
  now ← await NOW;
  match error with
  | Bff e => json (sent_status e) (problem_headers rid) (problem_document e instance rid now)
  | _ => json 500 (problem_headers rid) (internal_document instance rid now)
  end.

(** The documents written out in the handlers themselves. *)
Definition own_problem (s : Z) (doc : list (jstr * jsval)) : prog answer :=
  json s (NO_STORE ++ [("Content-Type", "application/problem+json")]) (VObj doc).

(** ** Health *)

Definition live : prog answer := json 200 [("Cache-Control", "no-store")] (VObj [("status", VStr "ok")]).

Definition REQUIRED : list jstr :=
  ["SOUQ_IDENTITY_URL"; "SOUQ_CATALOG_URL"; "SOUQ_CART_URL"; "SOUQ_ORDER_URL"; "SOUQ_SEARCH_URL"].
Definition ready (env : jstr → option jstr) : prog answer :=
  match filter (λ name, truthy (env name) = None) REQUIRED with
  | [] => json 200 [("Cache-Control", "no-store")] (VObj [("status", VStr "ready")])
  | missing => json 503 [("Cache-Control", "no-store")]
                 (VObj [("status", VStr "not-ready"); ("missing", VArr (map VStr missing))])
  end.

(** ** Schemas of the handlers *)

Definition ForgotPasswordRequest : Zod.schema := Schemas.obj [("email", ZString [SEmail; SMax 254])].
Definition AcceptedResponse : Zod.schema := ZPassthrough [("status", Schemas.str); ("message", Schemas.str)].
Definition EnrolStart : Zod.schema := Schemas.obj [("secret", Schemas.str); ("uri", Schemas.str)].
Definition EnrolComplete : Zod.schema := Schemas.obj [("recoveryCodes", Schemas.arr Schemas.str)].
Definition ChangePasswordRequest : Zod.schema := Schemas.obj [
  ("currentPassword", ZString [SMin 1; SMax 1024]); ("newPassword", ZString [SMin 1; SMax 1024])].
(** [z.object({ code: z.string().regex(/^\d{6}$/) })] *)
Definition CodeBody : Zod.schema := ZObject [("code", ZString [SRegex (rep 6 Schemas.digit)])] false.

Section Handlers.
Context `{Zod} (env : jstr → option jstr) (production : bool).

(** [S.parse(await request.json())] *)
Definition parsed (s : Zod.schema) (r : request) : prog jsval :=
  v ← of_result (q_json r); of_result (parse s v).

Definition encoded (s : jstr) : prog jstr :=
  match encodeURIComponent s with Ok t => mret t | Err m => Throw (OtherError m) end.

(** [try { p } catch (error) { return problemResponse(error, instance) }] *)
Definition handling (instance : jstr) (p : prog answer) : prog answer :=
  try_catch p (λ e, problemResponse e instance).

(** ** Signing in and out *)

Definition REFRESH_MAX_AGE : Z := 60 * 60 * 24 * 30.

Definition login (r : request) : prog answer :=
  handling "/api/bff/auth/login" (
    b ← parsed Api.LoginRequest r;
    result ← call env (post b (options identity "/v1/auth/login" Api.LoginResponse));
    let tokens := prop "tokens" result in
    _ ← match prop "refreshToken" tokens with
        | VStr (c :: t) => await (SET_COOKIE (refreshCookieOptions production REFRESH_MAX_AGE (c :: t)))
        | _ => mret tt
        end;
    json 200 NO_STORE (spread result [
      ("tokens", spread tokens [("refreshToken", VUndef); ("accessToken", VStr "")])])).

Definition logout : prog answer :=
  refreshToken ← await (COOKIE "souq_rt");
  _ ← await (SET_COOKIE (refreshCookieOptions production 0 ""));
  _ ← await (SET_COOKIE {| c_name := CART_COOKIE; c_value := ""; c_httpOnly := false; c_secure := false;
                           c_sameSite := None; c_path := "/"; c_maxAge := 0 |});
  _ ← match truthy refreshToken with
      | Some t =>
          try_catch
            (_ ← call env (post (VObj [("refreshToken", VStr t)]) (options identity "/v1/auth/logout" ZUndefined)); mret tt)
            (λ _, mret tt)
      | None => mret tt
      end;
  mret (empty 204 NO_STORE).

Definition register (r : request) : prog answer :=
  handling "/api/bff/auth/register" (
    b ← parsed Api.RegisterRequest r;
    result ← call env (post b (options identity "/v1/auth/register" AcceptedResponse));
    json 202 NO_STORE result).

Definition forgot_password (r : request) : prog answer :=
  handling "/api/bff/auth/forgot-password" (
    b ← parsed ForgotPasswordRequest r;
    result ← call env (post b (options identity "/v1/auth/forgot-password" AcceptedResponse));
    json 202 NO_STORE result).

(** ** The account *)

Definition me : prog answer :=
  handling "/api/bff/me" (
    token ← getAccessToken env;
    match truthy token with
    | None =>
        now ← await NOW;
        own_problem 401 [
          ("type", VStr "https://errors.souq.dev/bff/unauthenticated"); ("title", VStr "Not signed in");
          ("status", vint 401); ("code", VStr "UNAUTHENTICATED"); ("instance", VStr "/api/bff/me");
          ("requestId", VStr ""); ("timestamp", VStr (toISOString now))]
    | Some t =>
        profile ← call env (with_token (Some t) (options identity "/v1/me" Api.UserProfile));
        json 200 NO_STORE profile
    end).

Definition mfa_start : prog answer :=
  handling "/api/bff/me/mfa" (
    t ← requireAccessToken env;
    enrolment ← call env (with_token (Some t) (with_method POST (options identity "/v1/me/mfa" EnrolStart)));
    json 200 NO_STORE enrolment).

Definition mfa_disable (r : request) : prog answer :=
  handling "/api/bff/me/mfa" (
    t ← requireAccessToken env;
    b ← parsed CodeBody r;
    _ ← call env (with_token (Some t) (with_method DELETE (post b (options identity "/v1/me/mfa" ZUndefined))));
    mret (empty 204 NO_STORE)).

Definition mfa_confirm (r : request) : prog answer :=
  handling "/api/bff/me/mfa/confirm" (
    t ← requireAccessToken env;
    b ← parsed CodeBody r;
    result ← call env (with_token (Some t) (post b (options identity "/v1/me/mfa/confirm" EnrolComplete)));
    json 200 NO_STORE result).

Definition change_password (r : request) : prog answer :=
  handling "/api/bff/me/password" (
    t ← requireAccessToken env;
    b ← parsed ChangePasswordRequest r;
    _ ← call env (with_token (Some t) (post b (options identity "/v1/me/password" ZUndefined)));
    mret (empty 204 NO_STORE)).

(** ** The basket *)

Definition CART_COOKIE_MAX_AGE : Z := 60 * 60 * 24 * 30.

Definition get_cart : prog answer :=
  handling "/api/bff/cart" (
    token ← getAccessToken env;
    cartId ← await (COOKIE CART_COOKIE);
    match truthy token, truthy cartId with
    | None, None =>
        now ← await NOW;
        own_problem 404 [
          ("type", VStr "https://errors.souq.dev/bff/cart-not-found"); ("title", VStr "No basket");
          ("status", vint 404); ("code", VStr "CART_NOT_FOUND"); ("instance", VStr "/api/bff/cart");
          ("requestId", VStr ""); ("timestamp", VStr (toISOString now))]
    | Some _, _ =>
        c ← call env (with_token token (options cart "/v1/carts/mine" Api.Cart));
        json 200 NO_STORE c
    | None, Some i =>
        e ← encoded i;
        c ← call env (with_token token (options cart ("/v1/carts/" ++ e) Api.Cart));
        json 200 NO_STORE c
    end).

Definition add_line (r : request) : prog answer :=
  handling "/api/bff/cart/lines" (
    b ← parsed Api.AddToCartRequest r;
    token ← getAccessToken env;
    cartId ← await (COOKIE CART_COOKIE);
    p ← match truthy token, truthy cartId with
        | Some _, _ => mret "/v1/carts/mine/lines"
        | None, Some i => e ← encoded i; mret ("/v1/carts/" ++ e ++ "/lines")
        | None, None => mret "/v1/carts/lines"
        end;
    c ← call env (with_key (q_idempotency r) (with_token token (post b (options cart p Api.Cart))));
    let id := str_of (prop "id" c) in
    mret {| a_status := 200; a_headers := NO_STORE; a_body := wire c;
            a_cookies :=
              if decide (cartId = Some id) then []
              else [{| c_name := CART_COOKIE; c_value := id; c_httpOnly := false; c_secure := production;
                       c_sameSite := Some "lax"; c_path := "/"; c_maxAge := CART_COOKIE_MAX_AGE |}] |}).

Definition update_line (sku : jstr) (r : request) : prog answer :=
  handling ("/api/bff/cart/lines/" ++ sku) (
    b ← parsed Api.UpdateCartLineRequest r;
    token ← getAccessToken env;
    cartId ← await (COOKIE CART_COOKIE);
    p ← match truthy token with
        | Some _ => s ← encoded sku; mret ("/v1/carts/mine/lines/" ++ s)
        | None => e ← encoded (default "" cartId); s ← encoded sku; mret ("/v1/carts/" ++ e ++ "/lines/" ++ s)
        end;
    c ← call env (with_token token (with_method PATCH (post b (options cart p Api.Cart))));
    json 200 NO_STORE c).

Definition apply_coupon (r : request) : prog answer :=
  handling "/api/bff/cart/coupons" (
    b ← parsed Api.ApplyCouponRequest r;
    token ← getAccessToken env;
    cartId ← await (COOKIE CART_COOKIE);
    p ← match truthy token with
        | Some _ => mret "/v1/carts/mine/coupons"
        | None => e ← encoded (default "" cartId); mret ("/v1/carts/" ++ e ++ "/coupons")
        end;
    c ← call env (with_token token (post b (options cart p Api.Cart)));
    json 200 NO_STORE c).

(** ** Orders *)

Definition place_order (r : request) : prog answer :=
  handling "/api/bff/orders" (
    match truthy (q_idempotency r) with
    | None =>
        now ← await NOW;
        own_problem 400 [
          ("type", VStr "https://errors.souq.dev/bff/validation-failed"); ("title", VStr "Missing idempotency key");
          ("status", vint 400); ("detail", VStr "Placing an order requires an Idempotency-Key header.");
          ("code", VStr "VALIDATION_FAILED"); ("instance", VStr "/api/bff/orders");
          ("requestId", VStr ""); ("timestamp", VStr (toISOString now))]
    | Some key =>
        t ← requireAccessToken env;
        b ← parsed Api.CreateOrderRequest r;
        result ← call env (with_key (Some key) (with_token (Some t) (post b (options order "/v1/orders" Api.CreateOrderResponse))));
        json 202 NO_STORE result
    end).

Definition order_history (r : request) : prog answer :=
  handling "/api/bff/orders/history" (
    t ← requireAccessToken env;
    suffix ← match truthy (q_search r "cursor") with
             | Some c => e ← encoded c; mret ("&cursor=" ++ e)
             | None => mret ""
             end;
    page ← call env (with_token (Some t) (options order ("/v1/orders/mine?limit=20" ++ suffix) Api.OrderPage));
    json 200 NO_STORE page).

Definition order_status (id : jstr) : prog answer :=
  handling ("/api/bff/orders/" ++ id) (
    t ← requireAccessToken env;
    e ← encoded id;
    s ← call env (with_attempts 1 (with_token (Some t)
          (options order ("/v1/orders/" ++ e ++ "/status") Api.OrderStatusResponse)));
    json 200 NO_STORE s).

(** ** Search *)

Definition no_suggestions : prog answer := json 200 [] (VObj [("suggestions", VArr [])]).
Definition suggest (r : request) : prog answer :=
  let query := trim (default "" (q_search r "q")) in
  if (length query <? 2)%nat then no_suggestions
  else
    try_catch
      (q ← encoded (slice0 100 query);
       result ← call env (with_revalidate (vint 30) (options search ("/v1/suggest?q=" ++ q) Api.SuggestResponse));
       json 200 [("Cache-Control", "public, max-age=30, stale-while-revalidate=120")] result)
      (λ _, no_suggestions).

(** ** All of them *)

Inductive route :=
| Login | Logout | Register | ForgotPassword | Me | MfaStart | MfaDisable | MfaConfirm | ChangePassword
| GetCart | AddLine | UpdateLine (sku : jstr) | ApplyCoupon
| PlaceOrder | OrderHistory | OrderStatus (id : jstr) | Suggest.

Definition handle (t : route) (r : request) : prog answer :=
  match t with
  | Login => login r | Logout => logout | Register => register r | ForgotPassword => forgot_password r
  | Me => me | MfaStart => mfa_start | MfaDisable => mfa_disable r | MfaConfirm => mfa_confirm r
  | ChangePassword => change_password r
  | GetCart => get_cart | AddLine => add_line r | UpdateLine sku => update_line sku r | ApplyCoupon => apply_coupon r
  | PlaceOrder => place_order r | OrderHistory => order_history r | OrderStatus id => order_status id
  | Suggest => suggest r
  end.

(** The path a route is served under. *)
Definition route_path (t : route) : jstr :=
  match t with
  | Login => "/api/bff/auth/login" | Logout => "/api/bff/auth/logout" | Register => "/api/bff/auth/register"
  | ForgotPassword => "/api/bff/auth/forgot-password"
  | Me => "/api/bff/me" | MfaStart | MfaDisable => "/api/bff/me/mfa" | MfaConfirm => "/api/bff/me/mfa/confirm"
  | ChangePassword => "/api/bff/me/password"
  | GetCart => "/api/bff/cart" | AddLine => "/api/bff/cart/lines" | UpdateLine sku => "/api/bff/cart/lines/" ++ sku
  | ApplyCoupon => "/api/bff/cart/coupons"
  | PlaceOrder => "/api/bff/orders" | OrderHistory => "/api/bff/orders/history" | OrderStatus id => "/api/bff/orders/" ++ id
  | Suggest => "/api/bff/suggest"
  end.
End Handlers.
End BffRoutes.
