(* ===== verification/BffWorld.v ===== *)
(** * storefront: the BFF running

    What surrounds one request: [Outside] is the interface of the network, the
    request scope, the clock and the random sources, any of which may depend on
    a state of its own; [world] adds the cookie jar of the request, the
    remembered exchange and a trace of what was done.  [call] is then exactly a
    bounded retry of one request, and its outcome is that of its last attempt.

    [BffFacts] draws what the service client promises from it. *)
From Stdlib Require Import QArith Qround.
From S2P Require Import Prelude JsNumber JsString Zod Schemas Api Prog Bff.
Local Open Scope js_scope.
Local Open Scope Z_scope.

Module BffWorld.
Import Bff.Bff.

Class Outside (U : Type) := {
  net : outgoing → U → result exn response * U;
  incoming : result exn (option jstr);
  uuid : U → jstr * U;
  clock : U → Z;
  random : U → num * U
}.

(** [Math.random] gives a number from 0 up to, not including, 1. *)
Class RandomLaws {U} (O : Outside U) := {
  random_range (u : U) : ∃ q, (random u).1 = Fin q ∧ (0 <= q)%Q ∧ (q < 1)%Q
}.

Inductive event := Sent (o : outgoing) (r : result exn response) | Set_ (c : cookie) | Slept (ms : num).

Record world (U : Type) := {
  jar : jstr → option jstr;
  memo : option (result exn (option jstr));
  trace : list event;
  outside : U
}.
Arguments jar {U}. Arguments memo {U}. Arguments trace {U}. Arguments outside {U}.

(** The requests and the cookies of a trace. *)
Definition sent (tr : list event) : list outgoing := omap (λ e, match e with Sent o _ => Some o | _ => None end) tr.
Definition cookies_set (tr : list event) : list cookie := omap (λ e, match e with Set_ c => Some c | _ => None end) tr.

Section World.
Context `{Outside U}.

Definition did (e : event) (w : world U) : world U :=
  {| jar := jar w; memo := memo w; trace := trace w ++ [e]; outside := outside w |}.
Definition set_outside (u : U) (w : world U) : world U :=
  {| jar := jar w; memo := memo w; trace := trace w; outside := u |}.
Definition set_memo (r : result exn (option jstr)) (w : world U) : world U :=
  {| jar := jar w; memo := Some r; trace := trace w; outside := outside w |}.

Definition drive (B : Type) (c : eff B) : world U → result exn B * world U :=
  match c in eff B return world U → result exn B * world U with
  | FETCH o => λ w, let '(r, u) := net o (outside w) in (r, did (Sent o r) (set_outside u w))
  | REQUEST_ID => λ w, (incoming, w)
  | UUID => λ w, let '(i, u) := uuid (outside w) in (Ok i, set_outside u w)
  | NOW => λ w, (Ok (clock (outside w)), w)
  | RANDOM => λ w, let '(x, u) := random (outside w) in (Ok x, set_outside u w)
  | SLEEP ms => λ w, (Ok tt, did (Slept ms) w)
  | COOKIE name => λ w, (Ok (jar w name), w)
  | SET_COOKIE c => λ w, (Ok tt, did (Set_ c) w)
  | REMEMBERED => λ w, (Ok (memo w), w)
  | REMEMBER r => λ w, (Ok tt, set_memo r w)
  end.

(** ** One call *)

(** The trace of attempts: failures, each followed by a sleep, and the last
    answer. *)
Definition attempts_trace (q : outgoing) (failed : list (result exn response * num)) (r : result exn response)
  : list event := (failed ≫= λ '(r, s), [Sent q r; Slept s]) ++ [Sent q r].

Lemma sent_app t1 t2 : sent (t1 ++ t2) = sent t1 ++ sent t2.
Proof. apply omap_app. Qed.
Lemma cookies_app t1 t2 : cookies_set (t1 ++ t2) = cookies_set t1 ++ cookies_set t2.
Proof. apply omap_app. Qed.

Lemma sent_attempts q failed r : sent (attempts_trace q failed r) = replicate (S (length failed)) q.
Proof.
  unfold attempts_trace. rewrite sent_app.
  induction failed as [|[r0 s] l IH]; [done|]. exact (f_equal (cons q) IH).
Qed.

Lemma cookies_attempts q failed r : cookies_set (attempts_trace q failed r) = [].
Proof.
  unfold attempts_trace. rewrite cookies_app. induction failed as [|[r0 s] l IH]; [done|]. exact IH.
Qed.

(** The two worlds agree on what the request sees. *)
Definition same_scope (w w' : world U) : Prop := jar w' = jar w ∧ memo w' = memo w.

(** Every sleep is a draw of the random source times the ceiling of its attempt. *)
Definition backoff (attempt : Z) (failed : list (result exn response * num)) : Prop :=
  ∀ (i : nat) f, failed !! i = Some f →
    ∃ u : U, f.2 = nmul (random u).1 (jint (ceiling (attempt + Z.of_nat i))).

Context `{Zod}.

(** A failure after which the loop goes on. *)
Definition again (o : CallOptions) (rid : jstr) (r : result exn response) : bool :=
  match outcome o rid r with Err (Bff e) => retriable e | _ => false end.

Lemma run_once o url m rid w :
  ∃ r w', run drive (once o url m rid) w = (outcome o rid r, w') ∧
    trace w' = trace w ++ [Sent (request_of o url m rid) r] ∧ same_scope w w'.
Proof.
  unfold once. cbn. destruct (net _ _) as [r u]. exists r. eexists.
  split; [by destruct (outcome o rid r)|]. by split_and!.
Qed.

(** A run of at most [n] attempts from attempt number [attempt] that ended with
    [r]. *)
Record retried (o : CallOptions) (q : outgoing) (rid : jstr) (n : nat) (attempt : Z) (w w' : world U)
    (failed : list (result exn response * num)) (r : result exn response) : Prop := {
  retried_trace : trace w' = trace w ++ attempts_trace q failed r;
  retried_scope : same_scope w w';
  retried_bound : (S (length failed) <= n)%nat;
  retried_failed : Forall (λ f, again o rid f.1 = true) failed;
  retried_last : (S (length failed) < n)%nat → again o rid r = false;
  retried_backoff : backoff attempt failed
}.

Lemma run_retry o url m rid n : ∀ attempt last w, n ≠ O →
  ∃ failed r w', run drive (retry o url m rid n attempt last) w = (outcome o rid r, w') ∧
    retried o (request_of o url m rid) rid n attempt w w' failed r.
Proof.
  induction n as [|n IH]; intros attempt last w Hn; [done|]. cbn [retry].
  destruct (run_once o url m rid w) as (r & w1 & Hrun & Ht & Hs). rewrite run_try, Hrun.
  assert (∀ (res : result exn jsval), again o rid r = false ∨ n = O → res = outcome o rid r →
    ∃ failed r0 w', (res, w1) = (outcome o rid r0, w') ∧
      retried o (request_of o url m rid) rid (S n) attempt w w' failed r0) as Hstop.
  { intros res Ha ->. exists [], r, w1. split; [done|]. split; try done; [cbn; lia|].
    intros Hl. cbn in Hl. destruct Ha as [Ha| ->]; [done|lia]. }
  destruct (outcome o rid r) as [v|err] eqn:Ho.
  { apply Hstop; [left; unfold again; by rewrite Ho|done]. }
  assert (again o rid r = match err with Bff e => retriable e | _ => false end) as Hag by (unfold again; by rewrite Ho).
  destruct err as [e| | | |]; try (apply Hstop; [by left|done]).
  destruct (retriable e) eqn:He; [|apply Hstop; [by left|done]].
  destruct n as [|n]; [apply Hstop; [by right|done]|].
  rewrite run_mbind, run_await. cbn [drive]. destruct (random (outside w1)) as [x u] eqn:Hx.
  rewrite run_mbind, run_await. cbn [drive].
  match goal with |- context [run drive (retry _ _ _ _ _ _ ?l) ?w2] =>
    destruct (IH (attempt + 1) l w2 ltac:(done)) as (failed & r' & w' & Hr & [Ht' [Hj Hm] Hle Hf Hlast Hb]) end.
  exists ((r, nmul x (jint (ceiling attempt))) :: failed), r', w'. split; [exact Hr|]. split.
  - rewrite Ht'. cbn [trace did set_outside]. rewrite Ht, <- !app_assoc. done.
  - destruct Hs. split; [by rewrite Hj|by rewrite Hm].
  - cbn. lia.
  - by constructor.
  - intros. apply Hlast. cbn in *. lia.
  - intros [|i] f Hi; cbn in Hi.
    + injection Hi as <-. exists (outside w1). by rewrite Hx, Z.add_0_r.
    + destruct (Hb i f Hi) as [x' ->]. exists x'. do 3 f_equal. lia.
Qed.

(** What the scope of a request gives [call] as its identifier. *)
Lemma run_request_id (w : world U) :
  ∃ rid u, run drive (inc ← incomingRequestId; match inc with Some i => mret i | None => await UUID end) w
    = (Ok rid, set_outside u w) ∧
    match incoming with Ok (Some i) => rid = i ∧ u = outside w | _ => (rid, u) = uuid (outside w) end.
Proof.
  unfold incomingRequestId. rewrite run_mbind, run_try, run_await. cbn [drive].
  destruct w. unfold set_outside. cbn.
  destruct incoming as [[i|]|e]; cbn; [by eexists _, _| |]; destruct (uuid _) as [i u] eqn:Hu; by eexists _, _.
Qed.

Context (env : jstr → option jstr).

(** The request a call makes, over and over. *)
Definition call_request (o : CallOptions) (base rid : jstr) : outgoing :=
  request_of o (base ++ path o) (method_name (default GET (opt_method o))) rid.

Lemma run_call o base w :
  truthy (SERVICES env (service o)) = Some base → attempts o ≠ Some O →
  ∃ rid failed r w', run drive (call env o) w = (outcome o rid r, w') ∧
    retried o (call_request o base rid) rid (maxAttempts o) 1 w w' failed r.
Proof.
  intros Hb Ha. unfold call. rewrite Hb.
  assert (maxAttempts o ≠ O) as Hm.
  { unfold maxAttempts. destruct (safeToRetry o); [|done]. destruct (attempts o) as [[]|]; done. }
  destruct (run_request_id w) as (rid & u & Hr & _).
  assert (∀ B (f : jstr → prog B), run drive (inc ← incomingRequestId; rid ← match inc with Some i => mret i | None => await UUID end; f rid) w
    = run drive (f rid) (set_outside u w)) as Hbind.
  { intros B f. revert Hr. rewrite !run_mbind. destruct (run drive incomingRequestId w) as [[i|e] w1]; [|done].
    rewrite run_mbind. intros Hr. by rewrite Hr. }
  rewrite Hbind. destruct (run_retry o (base ++ path o) (method_name (default GET (opt_method o))) rid
    (maxAttempts o) 1 None (set_outside u w) Hm) as (failed & r & w' & H1 & []).
  by exists rid, failed, r, w'.
Qed.
End World.
End BffWorld.

(** * storefront: what the service client promises

    The outcomes of [call] and the fan-out. *)

Module BffFacts.
Import Bff.Bff BffWorld.BffWorld.

Section Calls.
Context `{Outside U} `{Zod} (env : jstr → option jstr).
Implicit Types w : world U.

Lemma call_unconfigured o w :
  truthy (SERVICES env (service o)) = None →
  run drive (call env o) w = (Err (bff_error 500 "INTERNAL_ERROR" ""
    ("SOUQ_" ++ toUpperCase (service_name (service o)) ++ "_URL is not configured")), w).
Proof. intros Hs. unfold call. by rewrite Hs. Qed.

(** Data that one response amounts to has been validated, or is the
    [undefined] of a 204. *)
Lemma outcome_data o rid r v :
  outcome o rid r = Ok v → ∃ payload, safeParse (schema o) payload = Ok v.
Proof.
  unfold outcome, parse. destruct r as [resp|[]]; try done. destruct (ok resp); [|done]. cbn [negb].
  destruct (r_status resp =? 204); [destruct (safeParse _ _) eqn:Hp; [|done]; intros [= <-]; eauto|].
  destruct (r_json resp) as [p|]; [|done]. destruct (safeParse _ p) eqn:Hp; [|done]. intros [= <-]. eauto.
Qed.

Lemma outcome_error o rid r e :
  outcome o rid r = Err e → (∃ b, e = Bff b) ∨
    (∃ issues resp, e = ZodError issues ∧ r = Ok resp ∧ r_status resp = 204 ∧ safeParse (schema o) VUndef = Err issues).
Proof.
  unfold outcome, parse. destruct r as [resp|[]]; try (intros [= <-]; left; by eexists).
  destruct (ok resp); cbn [negb]; [|intros [= <-]; left; by eexists].
  destruct (r_status resp =? 204) eqn:Hs.
  - apply Z.eqb_eq in Hs. destruct (safeParse _ _) eqn:Hp; [done|]. intros [= <-]. right. by eexists _, _.
  - destruct (r_json resp) as [p|]; [|intros [= <-]; left; by eexists].
    destruct (safeParse _ p) eqn:Hp; [done|]. intros [= <-]. left. by eexists.
Qed.

(** What a call leaves behind, and the data it returns. *)
Lemma call_traces o w :
  attempts o ≠ Some O →
  ∃ tr, trace (run drive (call env o) w).2 = trace w ++ tr ∧ cookies_set tr = [] ∧
    same_scope w (run drive (call env o) w).2.
Proof.
  intros Ha. destruct (truthy (SERVICES env (service o))) as [base|] eqn:Hb.
  - destruct (run_call env o base w Hb Ha) as (rid & failed & r & w' & -> & [Ht Hs _ _ _ _]).
    eexists. split; [exact Ht|]. split; [apply cookies_attempts|done].
  - rewrite call_unconfigured by done. exists []. by rewrite app_nil_r.
Qed.

Lemma call_data o w v w' :
  attempts o ≠ Some O → run drive (call env o) w = (Ok v, w') → ∃ payload, safeParse (schema o) payload = Ok v.
Proof.
  intros Ha. destruct (truthy (SERVICES env (service o))) as [base|] eqn:Hb; [|by rewrite call_unconfigured].
  destruct (run_call env o base w Hb Ha) as (rid & failed & r & w1 & -> & _). intros [= Ho _]. by eapply outcome_data.
Qed.

(** A request that is not repeated and returns data: the one answer it was. *)
Lemma call_sent_once o w v w' :
  attempts o ≠ Some O → safeToRetry o = false → run drive (call env o) w = (Ok v, w') →
  ∃ base rid resp payload, truthy (SERVICES env (service o)) = Some base ∧
    trace w' = trace w ++ [Sent (call_request o base rid) (Ok resp)] ∧ ok resp = true ∧
    (r_status resp = 204 ∧ payload = VUndef ∨ r_json resp = Some payload) ∧
    safeParse (schema o) payload = Ok v.
Proof.
  intros Ha Hu. destruct (truthy (SERVICES env (service o))) as [base|] eqn:Hb; [|by rewrite call_unconfigured].
  destruct (run_call env o base w Hb Ha) as (rid & failed & r & w1 & -> & [Ht _ Hle _ _ _]). intros [= Ho <-].
  unfold maxAttempts in Hle. rewrite Hu in Hle. destruct failed; [|cbn in Hle; lia].
  unfold outcome in Ho. destruct r as [resp|[]]; try done. destruct (ok resp) eqn:Hok; [|done]. cbn [negb] in Ho.
  exists base, rid, resp. destruct (Z.eqb_spec (r_status resp) 204).
  - exists VUndef. unfold parse in Ho. destruct (safeParse _ _) eqn:Hp; [|done]. injection Ho as ->. eauto 10.
  - destruct (r_json resp) as [payload|] eqn:Hj; [|done]. exists payload.
    destruct (safeParse _ payload) eqn:Hp; [|done]. injection Ho as ->. eauto 10.
Qed.

(** C19. A call to a configured service, with attempts to make, is a bounded retry
    of one request: it sends the same request, at least once and at most
    [maxAttempts] times; after the [i]-th failure (from 0) it sleeps a draw of
    [Math.random] times 100 * 2^i ms, or times two seconds when that is less, and
    so between 0 and that ceiling; every attempt but the last failed with status
    0, 502, 503 or 504; it gives up early only on an attempt that did not; the
    result is what the last attempt amounts to.  A request that is not safe to
    repeat is sent exactly once. *)
Theorem call_is_a_bounded_retry `{!RandomLaws H} o base w :
  truthy (SERVICES env (service o)) = Some base → attempts o ≠ Some O →
  ∃ rid failed r w',
    run drive (call env o) w = (outcome o rid r, w') ∧
    trace w' = trace w ++ attempts_trace (call_request o base rid) failed r ∧
    (S (length failed) <= maxAttempts o)%nat ∧
    Forall (λ f, ∃ e, outcome o rid f.1 = Err (Bff e) ∧ In (status e) [0; 502; 503; 504]) failed ∧
    ((S (length failed) < maxAttempts o)%nat →
       ∀ e, outcome o rid r = Err (Bff e) → ¬ In (status e) [0; 502; 503; 504]) ∧
    (∀ (i : nat) f, failed !! i = Some f →
       let limit := Z.min (100 * 2 ^ Z.of_nat i) 2000 in
       ∃ u ms, f.2 = nmul (random u).1 (jint limit) ∧ f.2 = Fin ms ∧ (0 <= ms)%Q ∧ (ms <= inject_Z limit)%Q) ∧
    (safeToRetry o = false → failed = []).
Proof.
  intros Hb Ha. destruct (run_call env o base w Hb Ha) as (rid & failed & r & w' & H1 & [H2 _ H4 H5 H6 H7]).
  assert (∀ e, retriable e = true ↔ In (status e) [0; 502; 503; 504]) as Hret.
  { intros e. unfold retriable. cbn. rewrite !orb_true_iff, !Z.eqb_eq. intuition congruence. }
  exists rid, failed, r, w'. split_and!; try done.
  - eapply Forall_impl; [exact H5|]. intros [r0 s]. unfold again. cbn [fst].
    destruct (outcome o rid r0) as [|[e| | | |]]; try done. rewrite Hret. eauto.
  - intros Hl e He Hin. specialize (H6 Hl). unfold again in H6. rewrite He in H6. apply Hret in Hin. congruence.
  - intros i f Hf limit. destruct (H7 i f Hf) as [u Hu]. destruct (random_range u) as (q & Hq & Hq0 & Hq1).
    assert (ceiling (1 + Z.of_nat i) = limit) as Hl by (unfold ceiling, limit; do 2 f_equal; f_equal; lia).
    rewrite Hl in Hu. exists u. rewrite Hu, Hq.
    destruct (nmul_share q limit) as (ms & Hms & Hlo & Hhi); [|done|by apply Qlt_le_weak|by exists ms].
    unfold limit. pose proof (Z.pow_pos_nonneg 2 (Z.of_nat i)). lia.
  - intros Hu. unfold maxAttempts in H4. rewrite Hu in H4. destruct failed; [done|]. cbn in *. lia.
Qed.

(** No unvalidated data: what [call] returns is a value the schema of the
    call produced, and what it throws is a [BffError], in one case excepted: a
    204 for a schema that refuses [undefined] throws the [ZodError] itself. *)
Theorem call_returns_validated_data o w :
  attempts o ≠ Some O →
  let '(res, w') := run drive (call env o) w in
  match res with
  | Ok v => ∃ payload, safeParse (schema o) payload = Ok v
  | Err (Bff _) => True
  | Err (ZodError issues) => safeParse (schema o) VUndef = Err issues ∧
      ∃ q resp, last (trace w') = Some (Sent q (Ok resp)) ∧ r_status resp = 204
  | Err _ => False
  end.
Proof.
  intros Ha. destruct (truthy (SERVICES env (service o))) as [base|] eqn:Hb; [|by rewrite call_unconfigured].
  destruct (run_call env o base w Hb Ha) as (rid & failed & r & w' & -> & [Ht _ _ _ _ _]).
  destruct (outcome o rid r) as [v|e] eqn:Ho; [by eapply outcome_data|].
  apply outcome_error in Ho as [[b ->]|(issues & resp & -> & -> & Hs & Hp)]; [done|].
  split; [done|]. exists (call_request o base rid), resp. split; [|done].
  rewrite Ht. unfold attempts_trace. by rewrite !app_assoc, last_snoc.
Qed.
End Calls.

(** ** The fan-out *)

(** One failure never loses the others: [gather] fails only when a required
    promise was rejected, and then with the reason of the first of them;
    otherwise every key is there, with its value or with [null]. *)
Theorem gather_degrades {A} (required : list jstr) (settled : list (jstr * result exn A)) :
  match gather required settled with
  | Ok out => out = map (λ '(k, r), (k, match r with Ok a => Some a | Err _ => None end)) settled ∧
      ∀ k e, (k, Err e) ∈ settled → k ∉ required
  | Err e => ∃ before k after, settled = before ++ (k, Err e) :: after ∧ k ∈ required ∧
      ∀ k' e', (k', Err e') ∈ before → k' ∉ required
  end.
Proof.
  induction settled as [|[k [a|e]] rest IH]; cbn [gather].
  - split; [done|]. set_solver.
  - destruct (gather required rest) as [out|e]; cbn [mbind result_bind].
    + destruct IH as [-> Hn]. split; [done|]. intros k' e' [?|?]%elem_of_cons; [done|by eapply Hn].
    + destruct IH as (b & k' & after & -> & Hk & Hb). exists ((k, Ok a) :: b), k', after.
      split; [done|]. split; [done|]. intros k0 e0 [?|?]%elem_of_cons; [done|by eapply Hb].
  - case_bool_decide as Hk.
    + exists [], k, rest. split; [done|]. split; [done|]. set_solver.
    + destruct (gather required rest) as [out|e0]; cbn [mbind result_bind].
      * destruct IH as [-> Hn]. split; [done|]. intros k' e' [[= -> ->]|?]%elem_of_cons; [done|by eapply Hn].
      * destruct IH as (b & k' & after & -> & Hk' & Hb). exists ((k, Err e) :: b), k', after.
        split; [done|]. split; [done|]. intros k1 e1 [[= -> ->]|?]%elem_of_cons; [done|by eapply Hb].
Qed.
End BffFacts.
