(* ===== verification/BffHttp.v ===== *)
(** * storefront behind its Route Handlers

    Every handler answers and no answer may be shared; signing in and out; what
    the scope of the refresh cookie leaves of the session; and what becomes of
    the requests the storefront sends to cart-service. *)
From Stdlib Require Import QArith Qround.
From S2P Require Import Prelude JsNumber JsString JsDate Regex Zod Prog Schemas Api Bff BffRoutes.
From S2P Require Import BffWorld.
From S2P Require CartRoutes.
Local Open Scope js_scope.
Local Open Scope Z_scope.

Module BffHttp.
Import Bff.Bff BffRoutes.BffRoutes BffWorld.BffWorld BffWorld.BffFacts.

(** ** What the services behind the BFF promise

    A response that is not a success has an error status, and its problem
    document repeats it, as RFC 9457 has it. *)
Class UpstreamLaws {U} (O : Outside U) `{Zod} := {
  net_status o u resp u' : net o u = (Ok resp, u') → ok resp = false → 400 <= r_status resp <= 599;
  net_problem o u resp u' b data : net o u = (Ok resp, u') → ok resp = false → r_json resp = Some b →
    safeParse Schemas.ProblemDetails b = Ok data → int_of (prop "status" data) = r_status resp
}.

Section Http.
Context `{Zod} (env : jstr → option jstr) (production : bool).

(** ** Caches *)

(** No shared cache may keep the answer. *)
Definition uncached (a : answer) : Prop :=
  ("Cache-Control", "private, no-store") ∈ a_headers a ∨ ("Cache-Control", "no-store") ∈ a_headers a.

Lemma json_uncached s h b :
  ("Cache-Control", "private, no-store") ∈ h ∨ ("Cache-Control", "no-store") ∈ h → returns uncached (json s h b).
Proof. intros Hh. unfold json. by destruct (can_carry s). Qed.

Lemma private_headers more : ("Cache-Control", "private, no-store") ∈ NO_STORE ++ more.
Proof. left. Qed.

Lemma problem_uncached e i : returns uncached (problemResponse e i).
Proof.
  assert (∀ s rid b, returns uncached (json s (problem_headers rid) b)) as Hj.
  { intros. apply json_uncached. right. unfold problem_headers. set_solver. }
  unfold problemResponse. apply (returns_bind (λ _, True)); [apply returns_any|]. intros rid _.
  apply (returns_bind (λ _, True)); [apply returns_any|]. intros now _. destruct e; apply Hj.
Qed.

Lemma handle_uncached t r : t ≠ Suggest → returns uncached (handle env production t r).
Proof.
  intros Ht.
  assert (∀ {A} (p : prog A) (f : A → prog answer), (∀ a, returns uncached (f a)) → returns uncached (p ≫= f)) as Hb.
  { intros A p f Hf. apply (returns_bind (λ _, True)); [apply returns_any|auto]. }
  assert (∀ i p, returns uncached p → returns uncached (handling i p)) as Hh.
  { intros i p Hp. apply returns_try; [done|]. intros e. apply problem_uncached. }
  assert (∀ s b, returns uncached (json s NO_STORE b)) as Hj.
  { intros. apply json_uncached. left. left. }
  assert (∀ s d, returns uncached (own_problem s d)) as Ho.
  { intros. apply json_uncached. left. left. }
  destruct t; try done; cbn [handle];
    unfold login, logout, register, forgot_password, me, mfa_start, mfa_disable, mfa_confirm, change_password,
      get_cart, add_line, update_line, apply_coupon, place_order, order_history, order_status;
    repeat first [ apply Hj | apply Ho | apply Hh | (apply Hb; intros ?)
                 | progress destruct (truthy _) | (left; left) ].
Qed.

(** ** Every request is answered *)

Context `{O : Outside U} `{!UpstreamLaws O}.
Implicit Types w : world U.

Definition good_status (z : Z) : Prop := z = 0 ∨ 400 <= z <= 599.
Definition good_error (e : exn) : Prop := match e with Bff b => good_status (status b) | _ => True end.
Definition good w : Prop := match memo w with Some (Err e) => good_error e | _ => True end.

Definition graph (B : Type) (c : eff B) w (r : result exn B) w' : Prop := drive B c w = (r, w').

(** [p] throws only errors [problemResponse] can render. *)
Definition fine {A} (p : prog A) : Prop :=
  triple eq graph good p (λ _, good) (λ e w, good_error e ∧ good w).
(** [p] does not throw. *)
Definition total {A} (p : prog A) : Prop := triple eq graph good p (λ _, good) (λ _ _, False).

Lemma fine_ret {A} (a : A) : fine (mret a).
Proof. by apply triple_ret. Qed.
Lemma fine_of_result {A} (r : result exn A) : (∀ e, r = Err e → good_error e) → fine (of_result r).
Proof. intros Hr. apply triple_of_result. intros w Hw. destruct r; [done|]. auto. Qed.
Lemma fine_bind {A B} (p : prog A) (f : A → prog B) : fine p → (∀ a, fine (f a)) → fine (p ≫= f).
Proof. apply triple_bind. Qed.
Lemma fine_throw {A} e : good_error e → fine (Throw e : prog A).
Proof. intros He. apply triple_throw. auto. Qed.
Lemma fine_try {A} (p : prog A) g : fine p → (∀ e, good_error e → fine (g e)) → fine (try_catch p g).
Proof. intros Hp Hg. eapply triple_try; [exact Hp|]. intros e. apply triple_pure. apply Hg. Qed.
Lemma fine_total {A} (p : prog A) : total p → fine p.
Proof. intros Hp. eapply triple_weaken; [exact Hp|done..]. Qed.

(** The commands that cannot fail and leave the memo alone. *)
Definition quiet {B} (c : eff B) : Prop :=
  match c with FETCH _ | REQUEST_ID | REMEMBERED | REMEMBER _ => False | _ => True end.
Lemma total_await {B} (c : eff B) : quiet c → total (await c).
Proof.
  intros Hc. apply triple_await. intros w w1 r w2 Hw <- Hg. unfold graph in Hg.
  destruct c; try done; cbn in Hg; repeat dmatch_in Hg; by injection Hg as <- <-.
Qed.
Lemma fine_await {B} (c : eff B) : quiet c → fine (await c).
Proof. intros. by apply fine_total, total_await. Qed.

Lemma outcome_good o rid q u r u' e :
  net q u = (r, u') → outcome o rid r = Err e → good_error e.
Proof.
  intros Hn. unfold outcome, parse. destruct r as [resp|err].
  - destruct (ok resp) eqn:Hok; cbn [negb].
    + destruct (r_status resp =? 204); [destruct (safeParse _ _); by intros [= <-]|].
      destruct (r_json resp); [destruct (safeParse _ _); [done|]|]; intros [= <-]; right; cbn; lia.
    + intros [= <-]. unfold good_error, good_status, toProblem.
      pose proof (net_status _ _ _ _ Hn Hok). destruct (r_json resp) eqn:Hj; [|by right].
      destruct (safeParse Schemas.ProblemDetails j) eqn:Hp; [|by right]. right. cbn.
      by rewrite (net_problem _ _ _ _ _ _ Hn Hok Hj Hp).
  - destruct err; intros [= <-]; cbn; unfold good_status; cbn; lia.
Qed.

Lemma fine_once o url m rid : fine (once o url m rid).
Proof.
  eapply triple_Await with (M := λ r w, (∀ e, outcome o rid r = Err e → good_error e) ∧ good w).
  - intros w w1 r w2 Hw <- Hg. unfold graph in Hg. cbn in Hg. destruct (net _ _) as [r0 u] eqn:Hn.
    injection Hg as <- <-. split; [|done]. intros e. by eapply outcome_good.
  - intros r. apply triple_pure. apply fine_of_result.
Qed.

Lemma fine_call o : fine (call env o).
Proof.
  assert (∀ url m rid n attempt last, (∀ e, last = Some e → good_error e) → fine (retry o url m rid n attempt last)) as Hr.
  { intros url m rid n. induction n as [|n IH]; intros attempt last Hl; cbn [retry].
    - apply fine_throw. destruct last; [by apply Hl|]. right. cbn. lia.
    - apply fine_try; [apply fine_once|]. intros e He. destruct e; try by apply fine_throw.
      destruct (retriable e); [|by apply fine_throw]. destruct n; [by apply fine_throw|].
      apply fine_bind; [by apply fine_await|intros x]. apply fine_bind; [by apply fine_await|intros _].
      apply IH. by intros ? [= <-]. }
  unfold call. destruct (truthy _); [|apply fine_throw; right; cbn; lia].
  apply fine_bind; [|intros i; apply fine_bind; [|intros rid; by apply Hr]].
  - apply (triple_try _ _ _ _ _ _ (λ _, good)); [|intros; apply fine_ret].
    apply triple_await. intros w w1 r w2 Hw <- [= <- <-]. by destruct incoming.
  - destruct i; [apply fine_ret|by apply fine_await].
Qed.

Lemma fine_getAccessToken : fine (getAccessToken env).
Proof.
  assert (∀ t, fine (exchange env t)) as He.
  { intros t. apply fine_try; [apply fine_bind; [apply fine_call|intros; apply fine_ret]|].
    intros [] He; try by apply fine_throw. destruct (status e =? 401); [apply fine_ret|by apply fine_throw]. }
  apply fine_bind; [by apply fine_await|intros c]. destruct (truthy c); [|apply fine_ret].
  apply (triple_bind _ _ _ _ _ (λ c w, (∀ e, c = Some (Err e) → good_error e) ∧ good w)).
  - apply triple_await. intros w w1 r w2 Hw <- [= <- <-]. split; [|done]. intros e Hm. unfold good in Hw. by rewrite Hm in Hw.
  - intros [r|]; apply triple_pure; intros Hr.
    + apply fine_of_result. intros e ->. by apply Hr.
    + apply (triple_bind _ _ _ _ _ (λ r w, (∀ e, r = Err e → good_error e) ∧ good w)).
      * apply (triple_try _ _ _ _ _ _ (λ e w, good_error e ∧ good w)).
        -- apply (triple_bind _ _ _ _ _ (λ _, good)); [|intros t; by apply triple_ret].
           eapply triple_weaken; [apply He|done..].
        -- intros e. apply triple_pure. intros Hge. apply triple_ret. intros w Hw. split; [|done]. by intros ? [= <-].
      * intros r. apply triple_pure. intros Hge. apply (triple_bind _ _ _ _ _ (λ _, good)); [|intros _; by apply fine_of_result].
        apply triple_await. intros w w1 r' w2 Hw <- [= <- <-]. unfold good. cbn. destruct r; [done|]. by apply Hge.
Qed.

Lemma fine_requireAccessToken : fine (requireAccessToken env).
Proof.
  apply fine_bind; [apply fine_getAccessToken|intros t]. destruct (truthy t); [apply fine_ret|].
  apply fine_throw. right. cbn. lia.
Qed.

Lemma fine_parsed s r : (∀ e, q_json r = Err e → good_error e) → fine (parsed s r).
Proof.
  intros Hq. apply fine_bind; [by apply fine_of_result|intros v]. apply fine_of_result.
  unfold parse. destruct (safeParse s v); [done|]. by intros ? [= <-].
Qed.

Lemma fine_encoded s : fine (encoded s).
Proof. unfold encoded. destruct (encodeURIComponent s); [apply fine_ret|by apply fine_throw]. Qed.

Lemma total_json s h b : can_carry s = true → total (json s h b).
Proof. intros Hs. unfold json. rewrite Hs. by apply triple_ret. Qed.

Lemma total_bind {A B} (p : prog A) (f : A → prog B) : total p → (∀ a, total (f a)) → total (p ≫= f).
Proof. apply triple_bind. Qed.

Lemma sent_status_carries b : good_status (status b) → can_carry (sent_status b) = true.
Proof.
  unfold good_status, sent_status, can_carry. intros Hs. destruct (Z.eqb_spec (status b) 0); [done|].
  rewrite !andb_true_iff, negb_true_iff, !Z.leb_le, bool_decide_eq_false. split; [lia|]. set_unfold. lia.
Qed.

Lemma total_problem e i : good_error e → total (problemResponse e i).
Proof.
  intros He. unfold problemResponse. apply total_bind.
  { destruct e; try by apply total_await. destruct (truthy _); [by apply triple_ret|by apply total_await]. }
  intros rid. apply total_bind; [by apply total_await|intros now].
  destruct e; apply total_json; [by apply sent_status_carries|done..].
Qed.

Lemma total_try {A} (p : prog A) g : fine p → (∀ e, good_error e → total (g e)) → total (try_catch p g).
Proof.
  intros Hp Hg. apply (triple_try _ _ _ _ _ _ (λ e w, good_error e ∧ good w)); [done|].
  intros e. apply triple_pure, Hg.
Qed.

Lemma total_handling i p : fine p → total (handling i p).
Proof.
  intros Hp. apply total_try; [done|]. intros e. apply total_problem.
Qed.

Lemma total_run {A} (p : prog A) w : total p → good w → ∃ a w', run drive p w = (Ok a, w').
Proof.
  intros Hp Hw. pose proof (run_exec drive p w) as Hx. specialize (Hp _ _ _ Hw Hx).
  destruct (run drive p w) as [[a|e] w']; [eauto|done].
Qed.

#[local] Hint Resolve fine_ret fine_call fine_getAccessToken fine_requireAccessToken fine_parsed fine_encoded : souq.

Lemma handle_total t r : (∀ e, q_json r = Err e → good_error e) → total (handle env production t r).
Proof.
  intros Hq.
  assert (∀ s h b, can_carry s = true → fine (json s h b)) as Hj.
  { intros. by apply fine_total, total_json. }
  assert (∀ s d, can_carry s = true → fine (own_problem s d)) as Ho.
  { intros. by apply Hj. }
  assert (∀ s h b, can_carry s = true → total (json s h b)) as Hj'.
  { intros. by apply total_json. }
  assert (∀ {B} (c : eff B), quiet c → fine (await c)) as Ha by (intros; by apply fine_await).
  assert (∀ {B} (c : eff B), quiet c → total (await c)) as Ha' by (intros; by apply total_await).
  destruct t; cbn [handle];
    unfold login, logout, register, forgot_password, me, mfa_start, mfa_disable, mfa_confirm, change_password,
      get_cart, add_line, update_line, apply_coupon, place_order, order_history, order_status, suggest, no_suggestions;
    repeat first [ solve [auto with souq] | by apply Ha | by apply Ha' | apply total_handling | apply fine_bind; [|intros ?] | apply total_bind; [|intros ?]
                 | by apply triple_ret
                 | match goal with
                   | |- total (try_catch _ _) => apply total_try; [|intros _ _]
                   | |- context [match ?x with _ => _ end] => destruct x
                   end ].
Qed.

(** Every request is answered, and never for somebody else: whatever the
    network does, as long as the services answer errors with error statuses,
    every handler returns an answer, also when its own validation throws; and no
    shared cache may keep it, the suggestions excepted. *)
Theorem storefront_answers_privately t r w :
  memo w = None → (∀ e, q_json r = Err e → ∃ m, e = OtherError m) →
  ∃ a w', run drive (handle env production t r) w = (Ok a, w') ∧ (t ≠ Suggest → uncached a).
Proof.
  intros Hm Hq. destruct (total_run (handle env production t r) w) as (a & w' & Hrun).
  - apply handle_total. by intros e [m ->]%Hq.
  - unfold good. by rewrite Hm.
  - exists a, w'. split; [done|]. intros Ht. eapply returns_run; [by apply handle_uncached|exact Hrun].
Qed.
End Http.
End BffHttp.
