(* ===== verification/BffSession.v ===== *)
(** * storefront: the session

    Signing in hides both tokens, signing out cannot fail, and what is left of
    the session once a browser has scoped the refresh cookie by its path.

    [BffCart] puts the storefront and cart-service together. *)
From Stdlib Require Import QArith Qround.
From S2P Require Import Prelude JsNumber JsString JsDate Regex Zod Schemas Api Prog CartRoutes Bff.
From S2P Require Import BffRoutes BffWorld.
From S2P Require Import BffHttp.
Local Open Scope js_scope.
Local Open Scope Z_scope.

Module BffSession.
Import Bff.Bff BffRoutes.BffRoutes BffWorld.BffWorld BffWorld.BffFacts BffHttp.BffHttp.

(** ** Objects on the wire *)

Lemma get_set_member k k' v kvs : get k (set_member k' v kvs) = if decide (k = k') then Some v else get k kvs.
Proof.
  induction kvs as [|[k0 x] kvs IH]; cbn; [done|].
  destruct (decide (k' = k0)) as [->|Hn]; cbn.
  - by destruct (decide (k = k0)).
  - rewrite IH. destruct (decide (k = k0)) as [->|]; [|done]. by rewrite decide_False.
Qed.

Lemma prop_spread o k kvs :
  prop k (spread o kvs) = foldl (λ acc kv, if decide (k = kv.1) then kv.2 else acc) (prop k (VObj (members o))) kvs.
Proof.
  unfold spread. cbn [prop]. generalize (members o). induction kvs as [|[k' v] kvs IH]; intros l; cbn [foldl fst snd]; [done|].
  rewrite IH. f_equal. cbn [prop]. rewrite get_set_member. by destruct (decide (k = k')).
Qed.

(** Keys occur once. *)
Definition unique (v : jsval) : Prop := NoDup (map fst (members v)).

Lemma set_member_keys k v kvs : k ∈ map fst kvs → map fst (set_member k v kvs) = map fst kvs.
Proof.
  induction kvs as [|[k' x] kvs IH]; cbn; [by intros ?%elem_of_nil|].
  destruct (decide (k = k')) as [->|]; cbn; [done|]. intros [?|?]%elem_of_cons; [done|]. by rewrite IH.
Qed.
Lemma set_member_new k v kvs : k ∉ map fst kvs → set_member k v kvs = kvs ++ [(k, v)].
Proof.
  induction kvs as [|[k' x] kvs IH]; cbn; [done|]. intros Hk.
  rewrite decide_False by set_solver. rewrite IH; [done|set_solver].
Qed.

Lemma unique_spread o kvs : unique o → unique (spread o kvs).
Proof.
  unfold unique, spread. cbn [members]. generalize (members o).
  induction kvs as [|[k v] kvs IH]; intros l Hl; cbn [foldl fst snd]; [done|]. apply IH.
  destruct (decide (k ∈ map fst l)) as [Hk|Hk]; [by rewrite set_member_keys|].
  rewrite set_member_new, map_app by done. cbn. apply NoDup_app. split; [done|]. split; [set_solver|apply NoDup_singleton].
Qed.

Fixpoint wire_members (l : list (jstr * jsval)) : list (jstr * jsval) :=
  match l with
  | [] => []
  | (k, VUndef) :: r => wire_members r
  | (k, x) :: r => (k, wire x) :: wire_members r
  end.
Lemma wire_obj kvs : wire (VObj kvs) = VObj (wire_members kvs).
Proof. done. Qed.

Lemma get_wire k kvs :
  NoDup (map fst kvs) → default VUndef (get k (wire_members kvs)) = wire (default VUndef (get k kvs)).
Proof.
  induction kvs as [|[k' v] kvs IH]; cbn; [done|]. intros [Hk Hn]%NoDup_cons.
  assert (∀ l, k' ∉ map fst l → get k' (wire_members l) = None) as Hnone.
  { induction l as [|[k0 x] l IHl]; cbn; [done|]. intros H0.
    destruct x; cbn; rewrite ?decide_False by set_solver; apply IHl; set_solver. }
  destruct (decide (k = k')) as [->|Hne].
  - destruct v; cbn; rewrite ?decide_True by done; try done. by rewrite Hnone.
  - destruct v; cbn; rewrite ?decide_False by done; by apply IH.
Qed.

Lemma prop_wire k v : unique v → prop k (wire v) = wire (prop k v).
Proof. destruct v as [| | | | | |kvs]; try done. intros Hu. rewrite wire_obj. cbn [prop]. by apply get_wire. Qed.

(** ** The browser *)

(** Path matching of RFC 6265, section 5.1.4. *)
Definition path_match (cookie_path request_path : jstr) : bool :=
  bool_decide (cookie_path = request_path) ||
  startsWith cookie_path request_path &&
    (endsWith "/" cookie_path || startsWith "/" (drop (length cookie_path) request_path)).

(** What a browser promises: a cookie goes only to the paths it is scoped to. *)
Class Browser := {
  sends : cookie → jstr → bool;
  sends_path c p : sends c p = true → path_match (c_path c) p = true
}.

(** A browser that holds every cookie it may. *)
#[export] Instance plain_browser : Browser := {| sends c p := path_match (c_path c) p; sends_path c p Hs := Hs |}.

(** The jar of a request to [p] from a browser that holds [held]. *)
Definition jar_for `{Browser} (held : list cookie) (p name : jstr) : option jstr :=
  c_value <$> head (filter (λ c, c_name c = name ∧ sends c p = true) held).

Section Session.
Context `{Zod} (env : jstr → option jstr) (production : bool).

Lemma parsed_unique shape st v w :
  interp is_email is_url is_uuid (ZObject shape st) v = Some w → NoDup (map fst shape) → unique w.
Proof.
  cbn. destruct v as [| | | | | |kvs]; try done.
  destruct (parse_fields _ kvs shape) as [out|] eqn:Hf; cbn; [|done]. destruct (st && _); [done|]. intros [= <-].
  unfold unique. cbn [members]. revert out Hf. induction shape as [|[k s] sh IH]; intros out Hf Hn; cbn in Hf.
  { injection Hf as <-. constructor. }
  cbn in Hn. apply NoDup_cons in Hn as [Hk Hn].
  destruct (interp _ _ _ s _) as [y|]; cbn in Hf; [|done].
  destruct (parse_fields _ kvs sh) as [r|] eqn:Hr; [|done]. injection Hf as <-. specialize (IH r eq_refl Hn).
  assert (k ∉ map fst r) as Hkr.
  { intros Hin. apply Hk. clear -Hr Hin. revert r Hr Hin. induction sh as [|[k1 s1] sh IH]; intros r Hr Hin; cbn in Hr.
    - injection Hr as <-. by apply elem_of_nil in Hin.
    - destruct (interp _ _ _ s1 _) as [z|]; cbn in Hr; [|done].
      destruct (parse_fields _ kvs sh) as [r1|] eqn:H1; [|done]. injection Hr as <-.
      rewrite map_app in Hin. apply elem_of_app in Hin as [Hin|Hin].
      + unfold keep in Hin. destruct z; cbn in *; try case_match; cbn in *; set_solver.
      + cbn. right. by eapply IH. }
  unfold keep. destruct y; cbn; try case_match; cbn; try done; by constructor.
Qed.

(** ** Signing in *)

(** What the browser is shown of a session. *)
Definition hidden (a : answer) : Prop :=
  prop "accessToken" (prop "tokens" (a_body a)) = VStr "" ∧
  prop "refreshToken" (prop "tokens" (a_body a)) = VUndef.

Lemma hidden_result result payload h :
  safeParse Api.LoginResponse payload = Ok result →
  let a := {| a_status := 200; a_headers := h; a_cookies := [];
              a_body := wire (spread result [("tokens", spread (prop "tokens" result)
                                [("refreshToken", VUndef); ("accessToken", VStr "")])]) |} in
  hidden a ∧ prop "user" (a_body a) = wire (prop "user" result).
Proof.
  intros Hp. field_of Hp "tokens". apply safeParse_ok in Hp.
  apply parsed_unique in Hp; [|apply nodup_keys; by vm_compute].
  apply parsed_unique in Hf; [|apply nodup_keys; by vm_compute]. unfold hidden. cbn [a_body].
  assert (∀ k o kvs, unique o → prop k (wire (spread o kvs)) = wire (prop k (spread o kvs))) as Hws.
  { intros. by apply prop_wire, unique_spread. }
  rewrite Hws by done. rewrite (prop_spread result "tokens"). cbn [foldl fst snd]. rewrite !decide_True by done.
  rewrite !Hws by done. rewrite !prop_spread. cbn [foldl fst snd].
  split_and!; [reflexivity..|]. cbn. by destruct result.
Qed.

Context `{O : Outside U} `{!UpstreamLaws O}.
Implicit Types w : world U.

(** An answer of status 200 comes from the body of the handler. *)
Lemma handling_ok i p w a w' :
  fine p → good w → run drive (handling i p) w = (Ok a, w') → a_status a = 200 → run drive p w = (Ok a, w').
Proof.
  intros Hp Hw. unfold handling. rewrite run_try. destruct (run drive p w) as [[x|e] w1] eqn:Hr; [done|].
  intros Ha Hs. exfalso. pose proof (run_exec drive p w) as Hx. rewrite Hr in Hx.
  destruct (Hp _ _ _ Hw Hx) as [He _]. cbn in He.
  assert (returns (λ a, a_status a = 200 → False) (problemResponse e i)) as Hret; [|exact (returns_run drive _ _ _ _ _ Hret Ha Hs)].
  unfold problemResponse. apply (returns_bind (λ _, True)); [apply returns_any|]. intros rid _.
  apply (returns_bind (λ _, True)); [apply returns_any|]. intros now _. destruct e; unfold json; cbn; try done.
  destruct (can_carry _); [|done]. cbn. unfold good_error, good_status, sent_status in *.
  destruct (Z.eqb_spec (status e) 0); lia.
Qed.

(** The cookie for the refresh token in the body that identity-service answered. *)
Definition login_cookies (payload : jsval) : list cookie :=
  match prop "refreshToken" (prop "tokens" payload) with
  | VStr (c :: t) => [refreshCookieOptions production REFRESH_MAX_AGE (c :: t)]
  | _ => []
  end.

Lemma parsed_refresh payload result :
  safeParse Api.LoginResponse payload = Ok result →
  prop "refreshToken" (prop "tokens" result) = prop "refreshToken" (prop "tokens" payload).
Proof.
  intros Hp. field_of Hp "tokens". apply safeParse_ok in Hf. field_of Hf "refreshToken". cbn in Hf0.
  destruct (prop "refreshToken" (prop "tokens" payload)); congruence.
Qed.

(** The request that signs in. *)
Definition login_call (b : jsval) : CallOptions := post b (options identity "/v1/auth/login" Api.LoginResponse).


(** ** Signing out *)

Definition cleared : list cookie := [
  refreshCookieOptions production 0 "";
  {| c_name := CART_COOKIE; c_value := ""; c_httpOnly := false; c_secure := false;
     c_sameSite := None; c_path := "/"; c_maxAge := 0 |}].

(** Signing out cannot fail: whatever identity-service does, or whether it is
    configured at all, [logout] answers 204; both cookies are expired before
    anything is sent, and nothing sent afterwards brings them back. *)
Theorem logout_always_signs_out w :
  ∃ w' tr, run drive (logout env production) w =
      (Ok {| a_status := 204; a_headers := NO_STORE; a_body := VNull; a_cookies := [] |}, w') ∧
    trace w' = trace w ++ map Set_ cleared ++ tr ∧ cookies_set tr = [].
Proof.
  unfold logout. rewrite run_mbind, run_await. cbn [drive]. rewrite run_mbind, run_await. cbn [drive].
  rewrite run_mbind, run_await. cbn [drive]. rewrite run_mbind.
  set (w2 := did _ (did _ w)). assert (trace w2 = trace w ++ map Set_ cleared) as H2 by (cbn; by rewrite <- app_assoc).
  destruct (truthy (jar w "souq_rt")) as [t|].
  - rewrite run_try, run_mbind.
    match goal with |- context [run drive (call env ?o) w2] => destruct (call_traces env o w2 ltac:(done)) as (tr & Ht & Htr & _) end.
    destruct (run drive (call env _) w2) as [[v|e] w3]; cbn [run mret prog_ret fst snd] in *;
      exists w3, tr; (split; [done|]); by rewrite Ht, H2, app_assoc.
  - exists w2, []. split; [done|]. by rewrite H2, app_nil_r.
Qed.

(** ** The scope of the refresh cookie *)

(** A refresh cookie is scoped to [REFRESH_PATH]. *)
Definition scoped (c : cookie) : Prop := c_name c = REFRESH_COOKIE → c_path c = REFRESH_PATH.
Definition sets_scoped (B : Type) (c : eff B) : Prop := match c with SET_COOKIE ck => scoped ck | _ => True end.

Lemma awaits_call (Q : ∀ B, eff B → Prop) o :
  (∀ url m rid, Q _ (FETCH (request_of o url m rid))) → Q _ REQUEST_ID → Q _ UUID → Q _ RANDOM → (∀ ms, Q _ (SLEEP ms)) →
  awaits Q (call env o).
Proof.
  intros Hf H1 H2 H3 H4. unfold call. destruct (truthy _); [|done].
  apply awaits_bind; [apply awaits_try; [by split; [|intros []]|done]|]. intros i.
  apply awaits_bind; [destruct i; [done|by split; [|intros []]]|]. intros rid.
  generalize 1. generalize (None : option exn). induction (maxAttempts o) as [|n IH]; intros last at_; cbn [retry]; [done|].
  apply awaits_try.
  - split; [apply Hf|]. intros r0. apply awaits_of_result.
  - intros []; try done. destruct (retriable e); [|done]. destruct n; [done|].
    apply awaits_bind; [by split; [|intros []]|]. intros x.
    apply awaits_bind; [by split; [|intros []]|]. intros _. apply IH.
Qed.

Lemma awaits_getAccessToken (Q : ∀ B, eff B → Prop) :
  (∀ t, awaits Q (call env (post (VObj [("refreshToken", VStr t)]) (options identity "/v1/auth/refresh" Api.TokenPair)))) →
  (∀ n, Q _ (COOKIE n)) → Q _ REMEMBERED → (∀ r, Q _ (REMEMBER r)) → awaits Q (getAccessToken env).
Proof.
  intros Hc H1 H2 H3. apply awaits_bind; [by split; [|intros []]|]. intros c. destruct (truthy c); [|done].
  apply awaits_bind; [by split; [|intros []]|]. intros [r|]; [apply awaits_of_result|].
  apply awaits_bind; [|intros r; apply awaits_bind; [by split; [|intros []]|intros _; apply awaits_of_result]].
  apply awaits_try; [|done]. apply awaits_bind; [|done]. apply awaits_try.
  - apply awaits_bind; [apply Hc|done].
  - intros []; try done. by destruct (_ =? 401).
Qed.

Lemma awaits_json (Q : ∀ B, eff B → Prop) s h b : awaits Q (json s h b).
Proof. unfold json. by destruct (can_carry s). Qed.

Lemma awaits_encoded (Q : ∀ B, eff B → Prop) s : awaits Q (encoded s).
Proof. unfold encoded. by destruct (encodeURIComponent s). Qed.

Lemma awaits_parsed (Q : ∀ B, eff B → Prop) s r : awaits Q (parsed s r).
Proof. apply awaits_bind; [apply awaits_of_result|intros; apply awaits_of_result]. Qed.

Lemma awaits_problem (Q : ∀ B, eff B → Prop) e i : Q _ UUID → Q _ NOW → awaits Q (problemResponse e i).
Proof.
  intros H1 H2. apply awaits_bind; [|intros rid; apply awaits_bind; [by split; [|intros []]|]].
  - destruct e; try (by split; [|intros []]). destruct (truthy _); [done|by split; [|intros []]].
  - intros now. destruct e; apply awaits_json.
Qed.

Lemma handle_scoped t r : awaits sets_scoped (handle env production t r).
Proof.
  assert (∀ o, awaits sets_scoped (call env o)) as Hc by (intros; by apply awaits_call).
  assert (awaits sets_scoped (getAccessToken env)) as Ht by by apply awaits_getAccessToken.
  assert (∀ {B} (c : eff B), sets_scoped B c → awaits sets_scoped (await c : prog B)) as Ha.
  { intros B c Hs. split; [done|]. intros; apply awaits_of_result. }
  assert (∀ i p, awaits sets_scoped p → awaits sets_scoped (handling i p)) as Hh.
  { intros i p Hp. apply awaits_try; [done|]. intros e. by apply awaits_problem. }
  destruct t; cbn [handle];
    unfold login, logout, register, forgot_password, me, mfa_start, mfa_disable, mfa_confirm, change_password,
      get_cart, add_line, update_line, apply_coupon, place_order, order_history, order_status, suggest, no_suggestions,
      requireAccessToken, own_problem;
    repeat first [ done | apply Hc | apply Ht | apply awaits_json | apply awaits_encoded | apply awaits_parsed
                 | by apply Ha | apply Hh | apply awaits_bind; [|intros ?] | apply awaits_try; [|intros ?]
                 | match goal with |- context [match ?x with _ => _ end] => destruct x end ].
Qed.

(** A cookie the BFF can have set: on the way, or on the answer. *)
Definition from_bff (c : cookie) : Prop :=
  ∃ t r w, trace w = [] ∧
    (c ∈ cookies_set (trace (run drive (handle env production t r) w).2) ∨
     ∃ a w', run drive (handle env production t r) w = (Ok a, w') ∧ c ∈ a_cookies a).

Lemma from_bff_scoped c : from_bff c → scoped c.
Proof.
  intros (t & r & w & Hw & [Hc|(a & w' & Hrun & Hc)]).
  - assert (Forall scoped (cookies_set (trace (run drive (handle env production t r) w).2))) as Hall.
    { apply (awaits_run drive sets_scoped (λ w, Forall scoped (cookies_set (trace w)))); [|apply handle_scoped|by rewrite Hw].
      intros B e w0 Hq Hi. destruct e; cbn; repeat dmatch; cbn; try done;
        rewrite cookies_app; apply Forall_app; split; try done. by apply Forall_singleton. }
    rewrite Forall_forall in Hall. by apply Hall.
  - assert (returns (λ a, Forall (λ c, c_name c = CART_COOKIE) (a_cookies a)) (handle env production t r)) as Hret.
    { assert (∀ {A} (p : prog A) (f : A → prog answer),
        (∀ a, returns (λ a, Forall (λ c, c_name c = CART_COOKIE) (a_cookies a)) (f a)) →
        returns (λ a, Forall (λ c, c_name c = CART_COOKIE) (a_cookies a)) (p ≫= f)) as Hb.
      { intros A p f Hf. apply (returns_bind (λ _, True)); [apply returns_any|auto]. }
      assert (∀ s h b, returns (λ a, Forall (λ c, c_name c = CART_COOKIE) (a_cookies a)) (json s h b)) as Hj.
      { intros. unfold json. destruct (can_carry s); [apply Forall_nil_2|done]. }
      destruct t; cbn [handle];
        unfold login, logout, register, forgot_password, me, mfa_start, mfa_disable, mfa_confirm, change_password,
          get_cart, add_line, update_line, apply_coupon, place_order, order_history, order_status, suggest, no_suggestions,
          own_problem, handling, problemResponse;
        repeat first [ apply Hj | apply Forall_nil_2 | apply Hb; intros ? | apply returns_try; [|intros ?]
                     | progress destruct (truthy _) | progress destruct (decide (_ = _)) | progress case_match
                     | by apply Forall_singleton ]. }
    pose proof (returns_run drive _ _ _ _ _ Hret Hrun) as Hall. rewrite Forall_forall in Hall.
    intros Hn. rewrite (Hall c Hc) in Hn. done.
Qed.

Definition needs_user (t : route) : bool :=
  match t with
  | Me | MfaStart | MfaDisable | MfaConfirm | ChangePassword | PlaceOrder | OrderHistory | OrderStatus _ => true
  | _ => false
  end.

Lemma no_refresh_cookie `{Browser} held t :
  Forall from_bff held → needs_user t = true → jar_for held (route_path t) REFRESH_COOKIE = None.
Proof.
  intros Hf Ht. unfold jar_for. destruct (filter _ held) as [|c l] eqn:Hl; [done|].
  assert (c ∈ filter (λ c, c_name c = REFRESH_COOKIE ∧ sends c (route_path t) = true) held) as Hc by (rewrite Hl; left).
  apply list_elem_of_filter in Hc as [[Hn Hs] Hin]. rewrite Forall_forall in Hf.
  apply sends_path in Hs. rewrite (from_bff_scoped c (Hf c Hin) Hn) in Hs.
  by destruct t.
Qed.

Lemma run_no_token w : jar w REFRESH_COOKIE = None → run drive (getAccessToken env) w = (Ok None, w).
Proof. intros Hj. unfold getAccessToken. rewrite run_mbind, run_await. cbn [drive]. by rewrite Hj. Qed.

Lemma run_no_user i (f : jstr → prog answer) w :
  jar w REFRESH_COOKIE = None →
  ∃ a w', run drive (handling i (t ← requireAccessToken env; f t)) w = (Ok a, w') ∧ a_status a = 401 ∧
    trace w' = trace w.
Proof.
  intros Hj. unfold handling. rewrite run_try, run_mbind. unfold requireAccessToken.
  rewrite run_mbind, run_no_token by done. cbn [truthy run]. unfold problemResponse. rewrite run_mbind.
  cbn [requestId truthy bff_error jnil]. rewrite run_await. cbn [drive]. destruct (uuid (outside w)) as [u o].
  rewrite run_mbind, run_await. by eexists _, _.
Qed.

(** C18. The session does not reach the routes that need it: from a browser that
    scopes cookies by their path, and whatever cookies the BFF has set before,
    every route that needs a user answers 401, without asking any service; no
    order is ever placed through the BFF. *)
Theorem signed_in_nowhere `{Browser} held t r w :
  Forall from_bff held → needs_user t = true →
  jar w = jar_for held (route_path t) → (t = PlaceOrder → truthy (q_idempotency r) ≠ None) →
  ∃ a w', run drive (handle env production t r) w = (Ok a, w') ∧ a_status a = 401 ∧ trace w' = trace w.
Proof.
  intros Hf Ht Hj Hk. assert (jar w REFRESH_COOKIE = None) as Hn by by rewrite Hj, no_refresh_cookie.
  destruct t; try done; cbn [handle]; try by apply run_no_user.
  - unfold me, handling. rewrite run_try, run_mbind, run_no_token by done. cbn [truthy].
    rewrite run_mbind, run_await. by eexists _, _.
  - unfold place_order. destruct (truthy (q_idempotency r)); [by apply run_no_user|]. by destruct (Hk eq_refl).
Qed.
End Session.
End BffSession.

(** * storefront and cart-service together

    What cart-service makes of the requests the storefront sends it. *)

Module BffCart.
Import Bff.Bff BffRoutes.BffRoutes BffWorld.BffWorld BffHttp.BffHttp BffSession.BffSession.

Section Storefront.
Context `{Zod} (env : jstr → option jstr) (production : bool).

(** A request without the version of the cart. *)
Definition unversioned (B : Type) (c : eff B) : Prop :=
  match c with FETCH o => prop "version" (o_body o) = VUndef | _ => True end.

Lemma unversioned_call o : prop "version" (body o) = VUndef → awaits unversioned (call env o).
Proof. intros Hb. by apply awaits_call. Qed.

Lemma unversioned_token : awaits unversioned (getAccessToken env).
Proof. apply awaits_getAccessToken; try done. intros t. by apply unversioned_call. Qed.

(** A body parsed by a schema that has no version has none. *)
Lemma parsed_unversioned shape st r :
  "version" ∉ map fst shape → returns (λ b, prop "version" b = VUndef) (parsed (ZObject shape st) r).
Proof.
  intros Hv. apply (returns_bind (λ _, True)); [apply returns_any|]. intros v _. unfold parse.
  destruct (safeParse _ v) as [w|] eqn:Hp; [|done]. cbn. by eapply safeParse_fresh.
Qed.

Lemma unversioned_handling i p : awaits unversioned p → awaits unversioned (handling i p).
Proof. intros Hp. apply awaits_try; [done|]. intros e. by apply awaits_problem. Qed.

Lemma add_line_unversioned r : awaits unversioned (add_line env production r).
Proof.
  apply unversioned_handling. eapply awaits_bind_returns; [apply awaits_parsed|apply parsed_unversioned; by apply (bool_decide_unpack _)|].
  intros b Hb. apply awaits_bind; [apply unversioned_token|intros t].
  apply awaits_bind; [by split; [|intros []]|intros c]. apply awaits_bind; [|intros p].
  - destruct (truthy t); [done|]. destruct (truthy c); [|done]. apply awaits_bind; [apply awaits_encoded|done].
  - apply awaits_bind; [by apply unversioned_call|done].
Qed.

Lemma apply_coupon_unversioned r : awaits unversioned (apply_coupon env r).
Proof.
  apply unversioned_handling. eapply awaits_bind_returns; [apply awaits_parsed|apply parsed_unversioned; by apply (bool_decide_unpack _)|].
  intros b Hb. apply awaits_bind; [apply unversioned_token|intros t].
  apply awaits_bind; [by split; [|intros []]|intros c]. apply awaits_bind; [|intros p].
  - destruct (truthy t); [done|]. apply awaits_bind; [apply awaits_encoded|done].
  - apply awaits_bind; [by apply unversioned_call|intros; apply awaits_json].
Qed.

Context `{Outside U}.
Implicit Types w : world U.

Lemma sent_unversioned {A} (p : prog A) w :
  awaits unversioned p → trace w = [] → ∀ q, q ∈ sent (trace (run drive p w).2) → prop "version" (o_body q) = VUndef.
Proof.
  intros Hp Hw. apply Forall_forall.
  apply (awaits_run drive unversioned (λ w, Forall (λ q, prop "version" (o_body q) = VUndef) (sent (trace w)))); [|done|by rewrite Hw].
  intros B e w0 Hq Hi. destruct e; cbn; repeat dmatch; cbn; try done;
    rewrite sent_app; apply Forall_app; split; try done. by apply Forall_singleton.
Qed.

(** cart-service refuses a line or a coupon without a version. *)
Lemma cart_refuses_unversioned t header ps b :
  t = CartRoutes.CartRoutes.PostLines ∨ t = CartRoutes.CartRoutes.PostCoupons → prop "version" b = VUndef →
  ∃ issues, CartRoutes.CartRoutes.dispatch t header ps b = Err issues.
Proof.
  intros Ht Hb. assert (∀ shape v, safeParse (Schemas.obj (shape ++ [("version", Schemas.int_min 0)])) b = Ok v →
    NoDup (map fst (shape ++ [("version", Schemas.int_min 0)])) → False) as Hno.
  { intros shape v Hp Hn. eapply safeParse_field with (k := "version") in Hp; [|exact Hn|apply in_or_app; right; by left].
    by rewrite Hb in Hp. }
  destruct Ht as [-> | ->]; unfold CartRoutes.CartRoutes.dispatch;
    (destruct (safeParse CartRoutes.CartRoutes.CartParams ps) as [p|e]; cbn [mbind result_bind]; [|by eexists]).
  - destruct (safeParse CartRoutes.CartRoutes.AddBody b) as [v|e] eqn:Hp; [|by eexists]. exfalso.
    eapply (Hno [("sku", _); ("quantity", _)]); [exact Hp|]. apply nodup_keys. by vm_compute.
  - destruct (safeParse CartRoutes.CartRoutes.CouponBody b) as [v|e] eqn:Hp; [|by eexists]. exfalso.
    eapply (Hno [("code", _)]); [exact Hp|]. apply nodup_keys. by vm_compute.
Qed.

(** C20. Nothing can be put in a basket through the storefront: no request that
    adding a line, or applying a coupon, sends carries the version that
    cart-service requires, so that cart-service refuses each of them as invalid,
    whatever the browser sent and whoever is signed in. *)
Theorem storefront_cannot_fill_a_basket r w q header ps :
  trace w = [] →
  (q ∈ sent (trace (run drive (add_line env production r) w).2) →
     ∃ issues, CartRoutes.CartRoutes.dispatch CartRoutes.CartRoutes.PostLines header ps (o_body q) = Err issues) ∧
  (q ∈ sent (trace (run drive (apply_coupon env r) w).2) →
     ∃ issues, CartRoutes.CartRoutes.dispatch CartRoutes.CartRoutes.PostCoupons header ps (o_body q) = Err issues).
Proof.
  intros Hw. split; intros Hq; apply cart_refuses_unversioned; auto; eapply sent_unversioned in Hq; try done.
  - apply add_line_unversioned.
  - apply apply_coupon_unversioned.
Qed.
End Storefront.
End BffCart.
