(* ===== verification/ApiClient.v ===== *)
(** * storefront: the browser's client (lib/api-client.ts)

    [apiFetch] against this origin, [toApiError], and the copy shown to the
    user.  The response is that of the BFF: a status, its [X-Request-Id] and its
    body when it is JSON.

    [ApiHop] follows an error from a service through the BFF to the browser. *)
From Stdlib Require Import QArith Qround.
From S2P Require Import Prelude JsNumber JsString JsDate Regex Zod Schemas Api Prog Primitives.
From S2P Require Import Bff BffRoutes.
From S2P Require Import BffWorld BffHttp BffSession.
Local Open Scope js_scope.
Local Open Scope Z_scope.

Module ApiClient.
Import Bff.Bff (response, ok, r_status, x_request_id, r_json, str_of, int_of, truthy, is_undefined).

Record ApiError := {
  status : Z;
  code : jstr;
  requestId : jstr;
  message : jstr;
  fieldErrors : jsval;
  retryAfterSeconds : option num
}.

Definition retriable (e : ApiError) : bool := (status e =? 0) || (502 <=? status e).

(** [String(x)] of a count of minutes. *)
Definition minutes (seconds : num) : jstr :=
  match nceil (ndiv seconds (jint 60)) with
  | Fin q => string_of_int (Z.max 1 (Qfloor q))
  | Inf false => "Infinity"
  | Inf true => "1"
  | NaN => "NaN"
  end.

(** A number that is neither 0 nor NaN. *)
Definition truthy_num (o : option num) : option num :=
  match o with
  | Some (Fin q) => if Qeq_bool q 0 then None else o
  | Some NaN => None
  | _ => o
  end.

Definition userMessage (e : ApiError) : jstr :=
  let coded c := bool_decide (code e = c) in
  if coded "UNAUTHENTICATED" then "Please sign in to continue."
  else if coded "TOKEN_EXPIRED" then "Your session has expired. Please sign in again."
  else if coded "REFRESH_TOKEN_REUSED" then "We signed you out for security. Please sign in again."
  else if coded "MFA_REQUIRED" then "Enter the six-digit code from your authenticator app."
  else if coded "FORBIDDEN" then "You do not have access to that."
  else if coded "ACCOUNT_LOCKED" then
    match truthy_num (retryAfterSeconds e) with
    | Some s => "Too many attempts. Try again in " ++ minutes s ++ " minutes."
    | None => "Too many attempts. Please try again later."
    end
  else if coded "WEAK_PASSWORD" then message e
  else if coded "VALIDATION_FAILED" then default "Please check the highlighted fields." (truthy (Some (message e)))
  else if coded "INVENTORY_INSUFFICIENT_STOCK" then "Sorry — that is no longer available in the quantity you wanted."
  else if coded "CART_STALE" then "Your basket changed in another tab. We have refreshed it."
  else if coded "ORDER_NOT_CANCELLABLE" then "This order has gone too far to cancel. Contact support and we will help."
  else if coded "PAYMENT_DECLINED" then "Your payment was declined. Try a different card."
  else if coded "PAYMENT_REQUIRES_ACTION" then "Your bank needs to confirm this payment."
  else if coded "RATE_LIMITED" then "You are going a little fast. Give it a moment."
  else if coded "PRODUCT_NOT_FOUND" then "We could not find that product."
  else if coded "UPSTREAM_TIMEOUT" || coded "UPSTREAM_UNAVAILABLE"
  then "We are having trouble reaching part of our system. Please try again."
  else "Something went wrong. Quote reference " ++ requestId e ++ " if you contact us.".

(** ** Requests *)

Record outgoing := { o_path : jstr; o_method : jstr; o_headers : list (jstr * jstr); o_body : jsval }.

Inductive exn := Api (e : ApiError) | ZodError (issues : list issue) | AbortError | OtherError (message : jstr).
Inductive eff : Type → Type :=
| FETCH (o : outgoing) : eff response
| UUID : eff jstr.
Abbreviation prog := (Prog.prog eff exn).

Record RequestOptions := {
  schema : Zod.schema;
  method : option jstr;
  body : jsval;
  idempotencyKey : option jstr
}.

Section Client.
Context `{Zod}.

Definition request_headers (o : RequestOptions) : list (jstr * jstr) :=
  [("Accept", "application/json")] ++
  (if is_undefined (body o) then [] else [("Content-Type", "application/json")]) ++
  match truthy (idempotencyKey o) with Some k => [("Idempotency-Key", k)] | None => [] end.

Definition api_error (status : Z) (code requestId message : jstr) : ApiError := {|
  status := status; code := code; requestId := requestId; message := message;
  fieldErrors := VUndef; retryAfterSeconds := None |}.

Definition toApiError (r : response) : ApiError :=
  let rid := default "" (x_request_id r) in
  let b := default VUndef (r_json r) in
  match safeParse Schemas.ProblemDetails b with
  | Err _ => api_error (r_status r) "INTERNAL_ERROR" rid ("Request failed with status " ++ string_of_int (r_status r))
  | Ok data => {|
      status := int_of (prop "status" data); code := str_of (prop "code" data);
      requestId := default rid (truthy (Some (str_of (prop "requestId" data))));
      message := match prop "detail" data with VStr d => d | _ => str_of (prop "title" data) end;
      fieldErrors := prop "errors" data;
      retryAfterSeconds := match prop "retryAfterSeconds" b with VNum x => Some x | _ => None end |}
  end.

Definition apiFetch (path : jstr) (o : RequestOptions) : prog jsval :=
  response ← Await (FETCH {| o_path := path; o_method := default "GET" (method o);
                             o_headers := request_headers o; o_body := body o |})
    (λ r, match r with
          | Ok resp => Ret resp
          | Err AbortError => Throw AbortError
          | Err _ => Throw (Api (api_error 0 "UPSTREAM_UNAVAILABLE" "" "Network request failed"))
          end);
  if negb (ok response) then Throw (Api (toApiError response))
  else if r_status response =? 204 then
    match safeParse (schema o) VUndef with Ok v => mret v | Err issues => Throw (ZodError issues) end
  else
    match safeParse (schema o) (default VUndef (r_json response)) with
    | Ok v => mret v
    | Err _ => Throw (Api (api_error 502 "UPSTREAM_UNAVAILABLE" "" "Unexpected response from the server"))
    end.

Definition newIdempotencyKey : prog jstr := await UUID.

(** ** The extension that cannot arrive *)

(** The wait of a locked account never reaches the user: [ProblemDetails] is
    strict, so that no error has [retryAfterSeconds], and a problem that carries
    it, as identity-service's [ACCOUNT_LOCKED] does, is shown as an internal
    error without the code it has. *)
Theorem retry_after_never_arrives r :
  retryAfterSeconds (toApiError r) = None ∧
  (∀ b, r_json r = Some b → prop "retryAfterSeconds" b ≠ VUndef →
     code (toApiError r) = "INTERNAL_ERROR" ∧ code (toApiError r) ≠ "ACCOUNT_LOCKED").
Proof.
  assert (∀ b data, safeParse Schemas.ProblemDetails b = Ok data → prop "retryAfterSeconds" b = VUndef) as Hno.
  { intros b data Hp. assert (accepts Schemas.ProblemDetails b) as Ha by (unfold accepts; by rewrite Hp).
    apply accepts_object in Ha as (kvs & -> & _ & Hk). cbn [prop].
    destruct (get "retryAfterSeconds" kvs) as [x|] eqn:Hg; [|done]. exfalso.
    assert ("retryAfterSeconds" ∈ map fst (shape_of Schemas.ProblemDetails)) as Hin by (apply Hk; [done|by eexists]).
    revert Hin. by apply (bool_decide_unpack _). }
  unfold toApiError. split.
  - destruct (safeParse Schemas.ProblemDetails _) as [data|] eqn:Hp; [|done]. cbn. by rewrite (Hno _ _ Hp).
  - intros b Hb Hr. rewrite Hb. cbn [default id]. destruct (safeParse Schemas.ProblemDetails b) as [data|] eqn:Hp; [by apply Hno in Hp|split; [reflexivity|vm_compute; discriminate]].
Qed.
End Client.
End ApiClient.

(** * storefront: an error through both hops

    A service's failure becomes a [BffError] in the server, a problem document
    on the wire and an [ApiError] in the browser; nothing the browser acts on is
    lost on the way. *)

Module ApiHop.
Import Bff.Bff BffRoutes.BffRoutes BffWorld.BffWorld BffHttp.BffHttp BffSession.BffSession.

Section Hop.
Context `{Zod}.
Notation meaning := (interp is_email is_url is_uuid).
Notation problem_shape := (shape_of Schemas.ProblemDetails).

(** ** Field errors, parsed again *)

Lemma parsed_field_error v x :
  meaning Schemas.FieldError v = Some x → wire x = x ∧ meaning Schemas.FieldError x = Some x.
Proof.
  intros Hm. assert (∃ f m, x = VObj [("field", VStr f); ("message", VStr m)]) as (f & m & ->); [|done].
  revert Hm. cbn. destruct v as [| | | | | |kvs]; try done.
  destruct (default VUndef (get "field" kvs)) as [| | | |f| |]; try done.
  destruct (default VUndef (get "message" kvs)) as [| | | |m| |]; try done. cbn.
  destruct (negb _); [done|]. intros [= <-]. eauto.
Qed.

Lemma parsed_errors v x :
  meaning (ZOptional (Schemas.arr Schemas.FieldError)) v = Some x →
  wire x = x ∧ meaning (ZOptional (Schemas.arr Schemas.FieldError)) x = Some x.
Proof.
  intros Hm. assert (x = VUndef ∨ ∃ l l', x = VArr l' ∧ mapM (meaning Schemas.FieldError) l = Some l') as Hx.
  { destruct v as [| | | | |l|]; cbn -[Schemas.FieldError] in Hm; try done; [left; congruence|].
    destruct (mapM _ l) as [l'|] eqn:Hl; [|done]. right. injection Hm as <-. eauto. }
  destruct Hx as [->|(l & l' & -> & Hl)]; [done|].
  assert (map wire l' = l' ∧ mapM (meaning Schemas.FieldError) l' = Some l') as [Hw Hp].
  { clear Hm. apply mapM_Some_1 in Hl. induction Hl as [|v0 x l l' Hx _ [IH1 IH2]]; [done|].
    apply parsed_field_error in Hx as [H1 H2]. cbn -[Schemas.FieldError wire interp]. by rewrite H1, IH1, H2, IH2. }
  split; [cbn; by rewrite Hw|]. cbn -[Schemas.FieldError]. by rewrite Hp.
Qed.

(** ** The document *)

(** What the fields of a problem document are before they are overridden. *)
Record base_ok (base : jsval) (message : jstr) : Prop := {
  base_unique : unique base;
  base_object : base = VObj (members base);
  base_keys k : k ∈ map fst (members base) → k ∈ map fst problem_shape;
  base_type : ∃ t, prop "type" base = VStr t;
  base_title : ∃ t, prop "title" base = VStr t;
  base_detail : prop "detail" base = VUndef ∨ ∃ t, prop "detail" base = VStr t;
  base_message : message = match prop "detail" base with VStr d => d | _ => str_of (prop "title" base) end;
  base_errors : wire (prop "errors" base) = prop "errors" base ∧
    meaning (ZOptional (Schemas.arr Schemas.FieldError)) (prop "errors" base) = Some (prop "errors" base)
}.

Definition base_of (b : BffError) : jsval :=
  default (VObj [
      ("type", VStr ("https://errors.souq.dev/bff/" ++ replace_all 95 "-" (toLowerCase (code b))));
      ("title", VStr "Request failed"); ("detail", VStr (message b))]) (problem b).

(** The errors [call] throws: with a parsed problem, or with a code of the
    registry and none. *)
Definition carried (b : BffError) : Prop :=
  match problem b with
  | None => code b ∈ ERROR_CODES
  | Some data => (∃ payload, safeParse Schemas.ProblemDetails payload = Ok data) ∧
      accepts (ZString [SRegex Schemas.code_regex]) (VStr (code b)) ∧
      message b = match prop "detail" data with VStr d => d | _ => str_of (prop "title" data) end
  end.

Lemma get_some_key k kvs : k ∈ map fst kvs → is_Some (get k kvs).
Proof.
  induction kvs as [|[k' v] kvs IH]; cbn; [by intros ?%elem_of_nil|].
  destruct (decide (k = k')); [by eexists|]. intros [?|?]%elem_of_cons; [done|auto].
Qed.

Lemma parsed_keys shape st v w k :
  safeParse (ZObject shape st) v = Ok w → k ∈ map fst (members w) → k ∈ map fst shape.
Proof.
  intros Hp Hk. destruct (decide (k ∈ map fst shape)) as [|Hn]; [done|]. exfalso.
  apply safeParse_ok in Hp. cbn in Hp. destruct v as [| | | | | |kvs]; try done.
  destruct (parse_fields meaning kvs shape) as [out|] eqn:Hf; cbn in Hp; [|done].
  destruct (st && _); [done|]. injection Hp as <-. cbn in Hk.
  apply get_some_key in Hk as [x Hx]. by rewrite (parse_fields_fresh _ _ _ _ Hf Hn) in Hx.
Qed.

Lemma parsed_object shape st v w : meaning (ZObject shape st) v = Some w → ∃ kvs, w = VObj kvs.
Proof.
  cbn. destruct v as [| | | | | |kvs]; try done. destruct (parse_fields meaning kvs shape); cbn; [|done].
  destruct (st && _); [done|]. intros [= <-]. eauto.
Qed.

Lemma meaning_str cs v x : meaning (ZString cs) v = Some x → ∃ t, x = VStr t.
Proof. cbn. destruct v; try done. destruct (forallb _ cs); [|done]. intros [= <-]. eauto. Qed.

Lemma carried_base b : carried b → base_ok (base_of b) (message b).
Proof.
  unfold carried, base_of. destruct (problem b) as [data|]; cbn [default id].
  - intros ([payload Hp] & _ & Hm).
    pose proof (safeParse_ok Schemas.ProblemDetails payload data) as [Hi _]. specialize (Hi Hp).
    assert (∀ k s, In (k, s) problem_shape → meaning s (prop k payload) = Some (prop k data)) as Hf.
    { intros k s. eapply safeParse_field; [exact Hp|]. apply nodup_keys. by vm_compute. }
    split.
    + eapply parsed_unique; [exact Hi|]. apply nodup_keys. by vm_compute.
    + by destruct (parsed_object _ _ _ _ Hi) as [kvs ->].
    + intros k. by eapply parsed_keys.
    + eapply meaning_str, (Hf "type" Schemas.str). cbn. tauto.
    + eapply meaning_str, (Hf "title" Schemas.str). cbn. tauto.
    + specialize (Hf "detail" (ZOptional Schemas.str) ltac:(cbn; tauto)). cbn in Hf.
      destruct (prop "detail" payload); try done; injection Hf as <-; eauto.
    + done.
    + eapply parsed_errors, (Hf "errors" _). cbn. tauto.
  - intros _. split; try done; try (by eexists); try (right; by eexists).
    + apply nodup_keys. by vm_compute.
    + intros k. cbn [members map fst]. intros Hk. apply list_elem_of_In in Hk. apply list_elem_of_In.
      repeat (destruct Hk as [<-|Hk]; [cbn; tauto|]). destruct Hk.
Qed.

(** ** The answer in the browser *)

(** What the browser receives of an answer. *)
Definition received (a : answer) : response := {|
  r_status := a_status a;
  x_request_id := snd <$> head (filter (λ h, h.1 = "X-Request-Id") (a_headers a));
  r_json := Some (a_body a)
|}.

Definition rendered (b : BffError) (instance rid : jstr) (now : Z) : answer := {|
  a_status := sent_status b; a_headers := problem_headers rid;
  a_body := wire (problem_document b instance rid now); a_cookies := [] |}.

Section Document.
Context (b : BffError) (instance rid : jstr) (now : Z).
Context (Hb : base_ok (base_of b) (message b)) (Hn : clock_ok now) (Hs : good_status (status b)).
Context (Hc : accepts (ZString [SRegex Schemas.code_regex]) (VStr (code b))).
Notation doc := (problem_document b instance rid now).

Lemma document_prop k :
  prop k (wire doc) = wire (foldl (λ acc kv, if decide (k = kv.1) then kv.2 else acc) (prop k (base_of b))
    [("status", vint (sent_status b)); ("code", VStr (code b)); ("instance", VStr instance);
     ("requestId", VStr rid); ("timestamp", VStr (toISOString now))]).
Proof.
  unfold problem_document. fold (base_of b). rewrite prop_wire by (apply unique_spread, (base_unique _ _ Hb)).
  rewrite prop_spread. by rewrite <- (base_object _ _ Hb).
Qed.

Lemma document_known : ∃ kvs, wire doc = VObj kvs ∧ known_keys problem_shape kvs = true.
Proof.
  eexists. split; [apply wire_obj|]. unfold known_keys. apply forallb_forall. intros kv Hin. apply bool_decide_eq_true.
  assert (∀ l k, k ∈ map fst (wire_members l) → k ∈ map fst l) as Hw.
  { induction l as [|[k0 x] l IH]; intros k; cbn; [done|]. destruct x; cbn; set_solver. }
  assert (∀ (more l : list (jstr * jsval)) k, k ∈ map fst (foldl (λ acc kv, set_member kv.1 kv.2 acc) l more) →
    k ∈ map fst l ∨ k ∈ map fst more) as Hf.
  { induction more as [|[k0 x] more IH]; intros l k; cbn [foldl fst snd map]; [by left|].
    intros [Hk|Hk]%IH; [|right; by right]. destruct (decide (k0 ∈ map fst l)) as [H0|H0].
    - rewrite set_member_keys in Hk by done. by left.
    - rewrite set_member_new, map_app in Hk by done. apply elem_of_app in Hk as [Hk|Hk]; [by left|]. right.
      cbn in Hk. apply list_elem_of_singleton in Hk as ->. left. }
  assert (kv.1 ∈ map fst (wire_members (foldl (λ acc kv, set_member kv.1 kv.2 acc) (members (base_of b))
    [("status", vint (sent_status b)); ("code", VStr (code b)); ("instance", VStr instance);
     ("requestId", VStr rid); ("timestamp", VStr (toISOString now))]))) as Hk.
  { apply list_elem_of_In, in_map_iff. eauto. }
  apply Hw, Hf in Hk as [Hk|Hk]; [by apply (base_keys _ _ Hb)|].
  apply list_elem_of_In in Hk. apply list_elem_of_In. repeat (destruct Hk as [<-|Hk]; [cbn; tauto|]). destruct Hk.
Qed.

Lemma sent_status_range : 400 <= sent_status b <= 599.
Proof. unfold sent_status. destruct Hs as [-> |?]; [done|]. destruct (Z.eqb_spec (status b) 0); lia. Qed.

Lemma document_accepted : accepts Schemas.ProblemDetails (wire doc).
Proof.
  destruct document_known as (kvs & Hk & Hkk). rewrite Hk. apply accepts_obj; [|exact Hkk].
  assert (∀ k, default VUndef (get k kvs) = prop k (wire doc)) as Hp by by rewrite Hk.
  destruct (base_type _ _ Hb) as [t Ht]. destruct (base_title _ _ Hb) as [ti Hti]. pose proof sent_status_range.
  repeat (apply Forall_cons; split); try apply Forall_nil_2; cbn [fst snd]; rewrite Hp, document_prop; cbn [foldl fst snd].
  - rewrite Ht. apply accepts_any_string.
  - rewrite Hti. apply accepts_any_string.
  - apply accepts_status. lia.
  - destruct (base_detail _ _ Hb) as [Hd|[d Hd]]; rewrite Hd; [apply accepts_optional_absent|apply accepts_optional, accepts_any_string].
  - apply accepts_optional, accepts_any_string.
  - exact Hc.
  - apply accepts_any_string.
  - by apply accepts_timestamp.
  - destruct (base_errors _ _ Hb) as [Hw He]. apply accepts_meaning. change (is_Some (meaning (ZOptional (Schemas.arr Schemas.FieldError)) (wire (prop "errors" (base_of b))))).
    rewrite Hw, He. by eexists.
Qed.
End Document.

Lemma carried_code b : carried b → accepts (ZString [SRegex Schemas.code_regex]) (VStr (code b)).
Proof. unfold carried. destruct (problem b); [by intros (_ & ? & _)|apply accepts_code]. Qed.

Lemma outcome_carried o rid r b : outcome o rid r = Err (Bff b) → carried b.
Proof.
  assert (∀ c, c = "UPSTREAM_TIMEOUT" ∨ c = "UPSTREAM_UNAVAILABLE" ∨ c = "INTERNAL_ERROR" → c ∈ ERROR_CODES) as Hc.
  { intros c [-> |[-> | ->]]; by apply (bool_decide_unpack _); vm_compute. }
  unfold outcome, parse. destruct r as [resp|err].
  - destruct (ok resp); cbn [negb].
    + destruct (r_status resp =? 204); [by destruct (safeParse _ _)|].
      destruct (r_json resp); [destruct (safeParse _ _); [done|]|]; intros [= <-]; apply Hc; tauto.
    + intros [= <-]. unfold toProblem. destruct (r_json resp); [|apply Hc; tauto].
      destruct (safeParse Schemas.ProblemDetails j) as [data|] eqn:Hp; [|apply Hc; tauto].
      cbn. split; [by eexists|]. split; [|done].
      pose proof (safeParse_field _ _ _ _ "code" _ Hp ltac:(apply nodup_keys; by vm_compute) ltac:(cbn; tauto)) as Hm.
      destruct (meaning_str _ _ _ Hm) as [t Ht]. rewrite Ht in Hm |- *. cbn [str_of]. apply accepts_meaning.
      cbn in Hm |- *. destruct (prop "code" j); try done. destruct (_ && _) eqn:Hr in Hm; [|done]. injection Hm as <-. rewrite Hr. by eexists.
  - destruct err; intros [= <-]; apply Hc; tauto.
Qed.

Lemma received_document b i rid now :
  carried b → clock_ok now → good_status (status b) →
  let e := ApiClient.toApiError (received (rendered b i rid now)) in
  ApiClient.status e = sent_status b ∧ ApiClient.code e = code b ∧ ApiClient.message e = message b ∧
  ApiClient.fieldErrors e = match problem b with Some d => prop "errors" d | None => VUndef end ∧
  ApiClient.requestId e = rid.
Proof.
  intros Hcar Hn Hs. pose proof (carried_base b Hcar) as Hb. pose proof (carried_code b Hcar) as Hc.
  pose proof (document_accepted b i rid now Hb Hn Hs Hc) as Ha. unfold accepts in Ha.
  unfold ApiClient.toApiError, received. cbn [r_json a_body rendered default id x_request_id].
  destruct (safeParse Schemas.ProblemDetails _) as [data|] eqn:Hp; [|done]. cbn zeta.
  cbn [ApiClient.status ApiClient.code ApiClient.message ApiClient.fieldErrors ApiClient.requestId].
  assert (∀ k s, In (k, s) problem_shape → meaning s (prop k (wire (problem_document b i rid now))) = Some (prop k data)) as Hf.
  { intros k s. eapply safeParse_field; [exact Hp|]. apply nodup_keys. by vm_compute. }
  assert (∀ k s t, In (k, s) problem_shape → prop k (wire (problem_document b i rid now)) = VStr t →
    (∃ cs, s = ZString cs ∨ s = ZOptional (ZString cs)) → prop k data = VStr t) as Hstr.
  { intros k s t Hin Hd [cs [-> | ->]]; specialize (Hf _ _ Hin); rewrite Hd in Hf; cbn in Hf; destruct (forallb _ cs); congruence. }
  assert (∀ k, prop k (wire (problem_document b i rid now)) = _) as Hd by (intros k; apply (document_prop b i rid now Hb k)).
  split_and!.
  - specialize (Hf "status" _ ltac:(cbn; tauto)). apply parsed_integer in Hf as [-> _]. rewrite Hd. apply (Qfloor_Z (sent_status b)).
  - by rewrite (Hstr "code" _ (code b) ltac:(cbn; tauto) ltac:(by rewrite Hd) ltac:(by eexists; left)).
  - rewrite (base_message _ _ Hb). destruct (base_title _ _ Hb) as [ti Hti].
    destruct (base_detail _ _ Hb) as [Hde|[d Hde]].
    + rewrite Hde. assert (prop "detail" data = VUndef) as ->.
      { specialize (Hf "detail" _ ltac:(cbn; tauto)). rewrite Hd in Hf. cbn [foldl fst snd] in Hf. rewrite !decide_False in Hf by done.
        rewrite Hde in Hf. cbn in Hf. congruence. }
      rewrite (Hstr "title" _ ti ltac:(cbn; tauto)); [by rewrite Hti| |by eexists; left].
      rewrite Hd. cbn [foldl fst snd]. by rewrite !decide_False, Hti.
    + rewrite Hde. rewrite (Hstr "detail" _ d ltac:(cbn; tauto)); [done| |by eexists; right].
      rewrite Hd. cbn [foldl fst snd]. by rewrite !decide_False, Hde.
  - specialize (Hf "errors" _ ltac:(cbn; tauto)). rewrite Hd in Hf. cbn [foldl fst snd] in Hf. rewrite !decide_False in Hf by done.
    destruct (base_errors _ _ Hb) as [Hw He]. rewrite Hw, He in Hf. injection Hf as <-.
    unfold base_of. by destruct (problem b).
  - rewrite (Hstr "requestId" _ rid ltac:(cbn; tauto) ltac:(by rewrite Hd) ltac:(by eexists; left)). cbn. by destruct rid.
Qed.

Context `{O : Outside U} `{!UpstreamLaws O}.
Implicit Types w : world U.

(** C21. Errors survive both hops: when a call fails on a service's answer, or on
    the lack of one, the document the BFF sends for it satisfies the contract,
    and what the browser rebuilds from it has the code, the message and the
    field errors of the failure, its status (502 for a service that could not be
    reached) and, when there was one, the request id of the service's log. *)
Theorem errors_survive_the_hop o rid q u r u' b i w a w' :
  net q u = (r, u') → outcome o rid r = Err (Bff b) → clock_ok (clock (outside w)) → (∀ u, clock (uuid u).2 = clock u) →
  run drive (problemResponse (Bff b) i) w = (Ok a, w') →
  accepts Schemas.ProblemDetails (a_body a) ∧
  let e := ApiClient.toApiError (received a) in
  ApiClient.status e = (if status b =? 0 then 502 else status b) ∧ ApiClient.code e = code b ∧
  ApiClient.message e = message b ∧
  ApiClient.fieldErrors e = match problem b with Some d => prop "errors" d | None => VUndef end ∧
  (requestId b ≠ "" → ApiClient.requestId e = requestId b).
Proof.
  intros Hnet Ho Hn Hcl Hrun. pose proof (outcome_carried _ _ _ _ Ho) as Hcar.
  pose proof (outcome_good _ _ _ _ _ _ _ Hnet Ho) as Hs. cbn in Hs.
  assert (∃ rid now, a = rendered b i rid now ∧ clock_ok now ∧ (requestId b ≠ "" → rid = requestId b)) as (rid' & now & -> & Hnow & Hrid).
  { revert Hrun. unfold problemResponse. rewrite run_mbind.
    assert (∃ rid w1, run drive (match truthy (Some (requestId b)) with Some i => mret i | None => await UUID end) w = (Ok rid, w1) ∧
      clock_ok (clock (outside w1)) ∧ (requestId b ≠ "" → rid = requestId b)) as (rid' & w1 & Hr & Hc1 & Hq).
    { destruct (requestId b) as [|c s]; cbn [truthy].
      - rewrite run_await. cbn [drive]. destruct (uuid (outside w)) as [x u1] eqn:Hu. eexists _, _. split; [done|]. cbn.
        split; [|done]. specialize (Hcl (outside w)). rewrite Hu in Hcl. cbn in Hcl. by rewrite Hcl.
      - by eexists _, _. }
    rewrite Hr, run_mbind, run_await. cbn [drive]. unfold json. rewrite sent_status_carries by done. intros [= <- _].
    exists rid', (clock (outside w1)). done. }
  destruct (received_document b i rid' now Hcar Hnow Hs) as (H1 & H2 & H3 & H4 & H5).
  split; [apply document_accepted; [by apply carried_base|done|done|by apply carried_code]|].
  cbn zeta. rewrite H1, H2, H3, H4, H5. done.
Qed.
End Hop.
End ApiHop.
