(* ===== verification/BffExamples.v ===== *)
(** * storefront: instances

    A network that plays back a script, a browser, and the theorems about the
    BFF at concrete requests. *)
From Stdlib Require Import QArith Qround.
From S2P Require Import Prelude JsNumber JsString JsDate Regex Zod Prog Primitives Schemas.
From S2P Require Import Api Bff BffRoutes.
From S2P Require Import BffWorld BffHttp BffSession ApiClient.
Local Open Scope js_scope.
Local Open Scope Z_scope.

Module BffExamples.
Import Bff.Bff BffRoutes.BffRoutes BffWorld.BffWorld BffWorld.BffFacts BffHttp.BffHttp BffSession.BffSession.
Import BffSession.BffCart ApiClient.ApiHop.

(** ** Surroundings *)

(** The answers still to come; when there are none the connection is refused. *)
#[export] Instance script : Outside (list (result exn response)) := {
  net _ u := match u with r :: rest => (r, rest) | [] => (Err (OtherError "connect ECONNREFUSED"), []) end;
  incoming := Ok None;
  uuid u := ("0b0e7a3c", u);
  clock _ := 1700000000000;
  random u := (Fin (1 # 2), u)
}.

#[export] Instance script_random : RandomLaws script.
Proof. split. intros u. by exists (1 # 2)%Q. Defined.

(** A service that answers every request with the same problem. *)
#[export] Instance down : Outside unit := {
  net _ u := (Ok {| r_status := 503; x_request_id := Some "req-9"; r_json := None |}, u);
  incoming := Ok (Some "req-1");
  uuid u := ("0b0e7a3c", u);
  clock _ := 1700000000000;
  random u := (Fin (1 # 2), u)
}.

#[export] Instance down_laws : UpstreamLaws down.
Proof. split; [by intros o u resp u' [= <-]|by intros o u resp u' b data [= <-]]. Defined.

Definition env (name : jstr) : option jstr := Some "http://service".
Definition start {U} (jar : jstr → option jstr) (u : U) : world U :=
  {| jar := jar; memo := None; trace := []; outside := u |}.
Definition no_cookies (name : jstr) : option jstr := None.

(** ** Calls *)

Definition get_me : CallOptions := with_token (Some "token") (options identity "/v1/me" Api.UserProfile).

Definition unavailable : result exn response := Ok {| r_status := 503; x_request_id := None; r_json := None |}.
Definition timed_out : result exn response := Err AbortError.

(** Three attempts: 503, a timeout, 503; the sleeps are half of 100 and 200 ms. *)
Example three_attempts :
  let '(res, w) := run drive (call env get_me) (start no_cookies [unavailable; timed_out; unavailable; timed_out]) in
  length (sent (trace w)) = 3%nat ∧
  omap (λ e, match e with Slept s => Some s | _ => None end) (trace w) = [jint 50; jint 100] ∧
  match res with Err (Bff e) => status e = 503 | _ => False end.
Proof. by vm_compute. Qed.

Lemma call_is_a_bounded_retry_witness :
  truthy (SERVICES env identity) = Some "http://service" ∧
  ∃ rid (failed : list (result exn response * num)) r w',
    run drive (call env get_me) (start no_cookies [unavailable; timed_out]) = (outcome get_me rid r, w') ∧
    (S (length failed) <= 3)%nat ∧
    ∀ (i : nat) f, failed !! i = Some f → ∃ ms, f.2 = Fin ms ∧ (0 <= ms)%Q.
Proof.
  split; [reflexivity|].
  destruct (call_is_a_bounded_retry env get_me "http://service" (start no_cookies [unavailable; timed_out]))
    as (rid & failed & r & w' & H1 & _ & H3 & _ & _ & H6 & _); [reflexivity|discriminate|].
  exists rid, failed, r, w'. split; [exact H1|]. split; [exact H3|]. intros i f Hf.
  destruct (H6 i f Hf) as (u & ms & _ & Hms & H0 & _). exists ms. exact (conj Hms H0).
Defined.

Definition gone : result exn response := Ok {| r_status := 204; x_request_id := None; r_json := None |}.

(** The exception: a 204 where a profile is expected. *)
Lemma call_returns_validated_data_witness :
  let '(res, w') := run drive (call env get_me) (start no_cookies [gone]) in
  res = Err (ZodError []) ∧ ∃ q resp, last (trace w') = Some (Sent q (Ok resp)) ∧ r_status resp = 204.
Proof.
  pose proof (call_returns_validated_data env get_me (start no_cookies [gone]) ltac:(discriminate)) as Hc.
  destruct (run drive (call env get_me) (start no_cookies [gone])) as [res w'] eqn:Hr. vm_compute in Hr.
  injection Hr as <- <-. split; [reflexivity|]. exact (proj2 Hc).
Defined.

(** ** Routes *)

Definition bad_json : request := {|
  q_json := Err (OtherError "Unexpected end of JSON input"); q_idempotency := Some "key-1"; q_search := λ _, None |}.

Lemma storefront_answers_privately_witness :
  ∃ a w', run drive (handle env true AddLine bad_json) (start no_cookies ()) = (Ok a, w') ∧ uncached a.
Proof.
  destruct (storefront_answers_privately env true AddLine bad_json (start no_cookies ())) as (a & w' & Hr & Ha).
  - reflexivity.
  - intros e [= <-]. by eexists.
  - exists a, w'. split; [exact Hr|]. apply Ha. discriminate.
Defined.

Definition ulid26 : jstr := "01ARZ3NDEKTSV4RRFFQ69G5FAV".
Definition credentials : request := {|
  q_json := Ok (VObj [("email", VStr "a@b.c"); ("password", VStr "correct horse")]);
  q_idempotency := None; q_search := λ _, None |}.
Definition signed_in : jsval := VObj [
  ("tokens", VObj [("accessToken", VStr "access"); ("expiresIn", vint 900); ("tokenType", VStr "Bearer");
                   ("refreshToken", VStr "refresh")]);
  ("user", VObj [("id", VStr ("usr_" ++ ulid26)); ("email", VStr "a@b.c"); ("fullName", VStr "A"); ("locale", VStr "en-GB");
                 ("roles", VArr [VStr "CUSTOMER"]); ("mfaEnabled", VBool false); ("emailVerified", VBool true);
                 ("createdAt", VStr "2024-02-29T12:34:56Z")])].

(** An identity service that signs everybody in. *)
Definition welcoming : Outside unit := {|
  net _ u := (Ok {| r_status := 200; x_request_id := None; r_json := Some signed_in |}, u);
  incoming := Ok (Some "req-1"); uuid u := ("0b0e7a3c", u); clock _ := 1700000000000; random u := (Fin (1 # 2), u) |}.
Lemma welcoming_laws : UpstreamLaws welcoming.
Proof. split; [by intros o u resp u' [= <-]|by intros o u resp u' b data [= <-]]. Defined.


(** After that sign-in, the browser asks who is signed in. *)
Definition held : list cookie := [refreshCookieOptions true REFRESH_MAX_AGE "refresh"].

Lemma signed_in_nowhere_witness :
  let w := start (jar_for held "/api/bff/me") () in
  ∃ a w', run (@drive unit welcoming) (handle env true Me bad_json) w = (Ok a, w') ∧ a_status a = 401 ∧ trace w' = [].
Proof.
  apply (signed_in_nowhere (O := welcoming) env true held Me bad_json (start (jar_for held "/api/bff/me") ())).
  - apply Forall_singleton. exists Login, credentials, (start no_cookies ()). split; [reflexivity|]. left.
    replace (cookies_set _) with held by (vm_compute; reflexivity). left.
  - reflexivity.
  - reflexivity.
  - discriminate.
Defined.

(** ** The basket *)

Definition new_line : request := {|
  q_json := Ok (VObj [("sku", VStr ("sku_" ++ ulid26)); ("quantity", vint 2)]);
  q_idempotency := Some "key-1"; q_search := λ _, None |}.

(** The line is sent, three times, and refused each time. *)
Lemma storefront_cannot_fill_a_basket_witness :
  let qs := sent (trace (run drive (add_line env true new_line) (start no_cookies ())).2) in
  length qs = 3%nat ∧ ∀ q, q ∈ qs → ∃ issues, CartRoutes.CartRoutes.dispatch CartRoutes.CartRoutes.PostLines None VUndef (o_body q) = Err issues.
Proof.
  split; [vm_compute; reflexivity|]. intros q Hq.
  apply (storefront_cannot_fill_a_basket env true new_line (start no_cookies ()) q None VUndef); [reflexivity|exact Hq].
Defined.

(** ** Errors in the browser *)

Definition locked : jsval := VObj [
  ("type", VStr "t"); ("title", VStr "Account locked"); ("status", vint 423); ("code", VStr "ACCOUNT_LOCKED");
  ("requestId", VStr "r"); ("timestamp", VStr "2024-02-29T12:34:56Z"); ("retryAfterSeconds", vint 900)].

Lemma retry_after_never_arrives_witness :
  ApiClient.code (ApiClient.toApiError {| r_status := 423; x_request_id := None; r_json := Some locked |}) = "INTERNAL_ERROR".
Proof.
  apply (ApiClient.retry_after_never_arrives {| r_status := 423; x_request_id := None; r_json := Some locked |}) with locked;
    [reflexivity|vm_compute; discriminate].
Defined.

Definition not_found : jsval := VObj [
  ("type", VStr "t"); ("title", VStr "Not found"); ("status", vint 404); ("detail", VStr "No such order.");
  ("code", VStr "ORDER_NOT_FOUND"); ("requestId", VStr "req-7"); ("timestamp", VStr "2024-02-29T12:34:56Z")].
Definition refusal : result exn response := Ok {| r_status := 404; x_request_id := Some "req-7"; r_json := Some not_found |}.

(** A service that knows nothing. *)
Definition empty_shelf : Outside unit := {|
  net _ u := (refusal, u);
  incoming := Ok (Some "req-1"); uuid u := ("0b0e7a3c", u); clock _ := 1700000000000; random u := (Fin (1 # 2), u) |}.
Lemma empty_shelf_laws : UpstreamLaws empty_shelf.
Proof.
  split; [by intros o u resp u' [= <-]|]. intros o u resp u' b data [= <-] _ [= <-] Hp.
  apply safeParse_ok in Hp. vm_compute in Hp. by injection Hp as <-.
Defined.

Lemma errors_survive_the_hop_witness :
  ∃ b a w', outcome get_me "req-1" refusal = Err (Bff b) ∧
    run (@drive unit empty_shelf) (problemResponse (Bff b) "/api/bff/me") (start no_cookies ()) = (Ok a, w') ∧
    ApiClient.code (ApiClient.toApiError (received a)) = "ORDER_NOT_FOUND".
Proof.
  destruct (outcome get_me "req-1" refusal) as [v|[b| | | |]] eqn:Ho; try (vm_compute in Ho; discriminate).
  destruct (run (@drive unit empty_shelf) (problemResponse (Bff b) "/api/bff/me") (start no_cookies ())) as [[a|e] w'] eqn:Hr;
    [|vm_compute in Ho; injection Ho as <-; vm_compute in Hr; discriminate].
  exists b, a, w'. split; [reflexivity|]. split; [exact Hr|].
  destruct (errors_survive_the_hop (O := empty_shelf) (UpstreamLaws0 := empty_shelf_laws) get_me "req-1"
    (request_of get_me "u" "GET" "req-1") () refusal () b "/api/bff/me" (start no_cookies ()) a w') as (_ & _ & Hc & _).
  - reflexivity.
  - exact Ho.
  - unfold clock_ok. cbn. lia.
  - reflexivity.
  - exact Hr.
  - rewrite Hc. vm_compute in Ho. by injection Ho as <-.
Defined.
End BffExamples.
