(* ===== verification/Templates.v ===== *)
(** * notification-service: message templates (templates.ts)

    The texts, the choice of a locale, and the HTML wrapper.  Mustache itself is
    the interface [Mustache]; a record of the source is an association list, and
    a lookup that is not its own finds what objects inherit. *)
From S2P Require Import Prelude JsNumber JsString Zod.
Local Open Scope js_scope.
Local Open Scope Z_scope.

Module Templates.

Inductive exn :=
| Error (name message : jstr) (httpStatus : option Z)
| NotAnError (text : jstr).

(** A plain [Error] thrown by the program. *)
Definition error (message : jstr) : exn := Error "Error" message None.

(** [Mustache.render(template, params, {}, { escape: String })], and with its
    default escaping. *)
Class Mustache := {
  mustache_text : jstr → jsval → result exn jstr;
  mustache_html : jstr → jsval → result exn jstr
}.

Record Template := {
  subject : list (jstr * jstr);
  text : list (jstr * jstr);
  html : option (list (jstr * jstr))
}.

Definition TEMPLATES : list (jstr * Template) := [
  ("order_confirmed", {|
    subject := [
      ("en-GB", "Order {{orderRef}} confirmed");
      ("ar-EG", "تم تأكيد طلبك {{orderRef}}")];
    text := [
      ("en-GB", "Hello {{name}},

Your order {{orderRef}} is confirmed.

Total: {{total}}
Delivery: {{estimatedDelivery}}

Track it any time: {{orderUrl}}

SOUQ");
      ("ar-EG", "أهلاً {{name}}،

تم تأكيد طلبك {{orderRef}}.

الإجمالي: {{total}}
التسليم المتوقع: {{estimatedDelivery}}

تابع طلبك: {{orderUrl}}

سوق")];
    html := None |});
  ("order_cancelled", {|
    subject := [
      ("en-GB", "Order {{orderRef}} could not be completed");
      ("ar-EG", "تعذّر إتمام طلبك {{orderRef}}")];
    text := [
      ("en-GB", "Hello {{name}},

We could not complete order {{orderRef}}.

Reason: {{reason}}

You have not been charged.

SOUQ");
      ("ar-EG", "أهلاً {{name}}،

لم نتمكن من إتمام طلبك {{orderRef}}.

السبب: {{reason}}

لم يتم خصم أي مبلغ.

سوق")];
    html := None |});
  ("order_shipped", {|
    subject := [
      ("en-GB", "Order {{orderRef}} is on its way");
      ("ar-EG", "طلبك {{orderRef}} في الطريق")];
    text := [
      ("en-GB", "Hello {{name}},

Order {{orderRef}} has shipped with {{carrier}}.

Tracking: {{trackingNumber}}
{{trackingUrl}}

SOUQ");
      ("ar-EG", "أهلاً {{name}}،

تم شحن طلبك {{orderRef}} عبر {{carrier}}.

رقم التتبع: {{trackingNumber}}
{{trackingUrl}}

سوق")];
    html := None |});
  ("order_delivered", {|
    subject := [
      ("en-GB", "Order {{orderRef}} delivered");
      ("ar-EG", "تم تسليم طلبك {{orderRef}}")];
    text := [
      ("en-GB", "Hello {{name}},

Order {{orderRef}} was delivered.

Tell us how it went: {{reviewUrl}}

SOUQ");
      ("ar-EG", "أهلاً {{name}}،

تم تسليم طلبك {{orderRef}}.

شاركنا رأيك: {{reviewUrl}}

سوق")];
    html := None |});
  ("payment_failed", {|
    subject := [
      ("en-GB", "Payment for {{orderRef}} was declined");
      ("ar-EG", "تم رفض الدفع للطلب {{orderRef}}")];
    text := [
      ("en-GB", "Hello {{name}},

Your bank declined the payment for order {{orderRef}}.

Nothing has been charged. You can try another card here: {{retryUrl}}

SOUQ");
      ("ar-EG", "أهلاً {{name}}،

رفض البنك عملية الدفع للطلب {{orderRef}}.

لم يتم خصم أي مبلغ. يمكنك المحاولة ببطاقة أخرى: {{retryUrl}}

سوق")];
    html := None |});
  ("payment_refunded", {|
    subject := [
      ("en-GB", "Refund issued for {{orderRef}}");
      ("ar-EG", "تم استرداد مبلغ الطلب {{orderRef}}")];
    text := [
      ("en-GB", "Hello {{name}},

We have refunded {{amount}} for order {{orderRef}}.

It usually reaches your account in 5-10 working days.

SOUQ");
      ("ar-EG", "أهلاً {{name}}،

تم استرداد {{amount}} للطلب {{orderRef}}.

عادةً يصل خلال 5-10 أيام عمل.

سوق")];
    html := None |});
  ("password_reset", {|
    subject := [
      ("en-GB", "Reset your SOUQ password");
      ("ar-EG", "إعادة تعيين كلمة المرور")];
    text := [
      ("en-GB", "Hello {{name}},

Reset your password here — the link expires in 30 minutes:
{{resetUrl}}

If you did not ask for this, ignore this email; nothing has changed.

SOUQ");
      ("ar-EG", "أهلاً {{name}}،

أعد تعيين كلمة المرور — الرابط صالح 30 دقيقة:
{{resetUrl}}

إذا لم تطلب ذلك، تجاهل الرسالة؛ لم يتغير شيء.

سوق")];
    html := None |});
  ("email_verification", {|
    subject := [
      ("en-GB", "Confirm your email address");
      ("ar-EG", "تأكيد بريدك الإلكتروني")];
    text := [
      ("en-GB", "Hello {{name}},

Confirm your email:
{{verifyUrl}}

SOUQ");
      ("ar-EG", "أهلاً {{name}}،

أكد بريدك الإلكتروني:
{{verifyUrl}}

سوق")];
    html := None |});
  ("security_alert", {|
    subject := [
      ("en-GB", "New sign-in to your SOUQ account");
      ("ar-EG", "تسجيل دخول جديد لحسابك")];
    text := [
      ("en-GB", "Hello {{name}},

Someone signed in from {{location}} on {{device}} at {{when}}.

If this was you, nothing to do. If not, change your password now: {{securityUrl}}

SOUQ");
      ("ar-EG", "أهلاً {{name}}،

تم تسجيل الدخول من {{location}} عبر {{device}} في {{when}}.

إن لم تكن أنت، غيّر كلمة المرور فوراً: {{securityUrl}}

سوق")];
    html := None |});
  ("abandoned_cart", {|
    subject := [
      ("en-GB", "You left something behind");
      ("ar-EG", "نسيت شيئاً في سلتك")];
    text := [
      ("en-GB", "Hello {{name}},

Your cart is still waiting: {{cartUrl}}

Unsubscribe: {{unsubscribeUrl}}

SOUQ");
      ("ar-EG", "أهلاً {{name}}،

سلتك في انتظارك: {{cartUrl}}

إلغاء الاشتراك: {{unsubscribeUrl}}

سوق")];
    html := None |});
  ("back_in_stock", {|
    subject := [
      ("en-GB", "{{productTitle}} is back");
      ("ar-EG", "{{productTitle}} متوفر مجدداً")];
    text := [
      ("en-GB", "Hello {{name}},

{{productTitle}} is available again: {{productUrl}}

Unsubscribe: {{unsubscribeUrl}}

SOUQ");
      ("ar-EG", "أهلاً {{name}}،

{{productTitle}} متوفر مجدداً: {{productUrl}}

إلغاء الاشتراك: {{unsubscribeUrl}}

سوق")];
    html := None |})].

(** ** Lookup in an object *)

(** What [Object.prototype] has. *)
Definition inherited : list jstr := [
  "constructor"; "__defineGetter__"; "__defineSetter__"; "hasOwnProperty"; "__lookupGetter__"; "__lookupSetter__";
  "isPrototypeOf"; "propertyIsEnumerable"; "toString"; "valueOf"; "__proto__"; "toLocaleString"].

Inductive member (A : Type) := Own (a : A) | Inherited | Missing.
Arguments Own {A} a. Arguments Inherited {A}. Arguments Missing {A}.

Fixpoint own {A} (k : jstr) (l : list (jstr * A)) : option A :=
  match l with
  | [] => None
  | (k', a) :: r => if decide (k = k') then Some a else own k r
  end.
Definition lookup_member {A} (k : jstr) (l : list (jstr * A)) : member A :=
  match own k l with
  | Some a => Own a
  | None => if bool_decide (k ∈ inherited) then Inherited else Missing
  end.

(** [Object.hasOwn(TEMPLATES, name)] *)
Definition templateExists (name : jstr) : bool := bool_decide (is_Some (own name TEMPLATES)).

(** ** HTML *)

(** [s.replace(/c/g, r)], four times. *)
Definition escaped (t : jstr) : jstr :=
  replace_all 10 "<br>" (replace_all 62 "&gt;" (replace_all 60 "&lt;" (replace_all 38 "&amp;" t))).

Definition q : jstr := [34%N].
Definition attr (name value : jstr) : jstr := " " ++ name ++ "=" ++ q ++ value ++ q.

Definition wrapHtml (t locale : jstr) : jstr :=
  let rtl := startsWith "ar" locale in
  "<!doctype html><html" ++ attr "lang" locale ++ attr "dir" (if rtl then "rtl" else "ltr") ++ "><body" ++
  attr "style" "margin:0;padding:24px;background:#f6f6f6;font-family:-apple-system,Segoe UI,Roboto,Helvetica,Arial,sans-serif;color:#111" ++
  ">
<div" ++ attr "style" ("max-width:560px;margin:0 auto;background:#fff;border-radius:8px;padding:32px;text-align:" ++
    (if rtl then "right" else "left")) ++ ">
<div" ++ attr "style" "font-size:20px;font-weight:600;margin-bottom:24px" ++ ">SOUQ</div>
<div" ++ attr "style" "font-size:15px;line-height:1.6" ++ ">" ++ escaped t ++ "</div>
</div></body></html>".

(** ** Rendering *)

(** The first entry whose key has the language. *)
Fixpoint by_language (language : jstr) (m : list (jstr * jstr)) : option jstr :=
  match m with
  | [] => None
  | (key, value) :: r =>
      if decide (toLowerCase (slice0 2 key) = language) then Some value else by_language language r
  end.

(** [Own] a text, or something that is not one. *)
Definition pick (locale : jstr) (m : list (jstr * jstr)) : member jstr :=
  match lookup_member locale m with
  | Missing =>
      match by_language (toLowerCase (slice0 2 locale)) m with
      | Some value => Own value
      | None => match own "en-GB" m with Some value => Own value | None => Missing end
      end
  | found => found
  end.

Record content := { c_subject : jstr; c_text : jstr; c_html : jstr }.

Section Render.
Context `{Mustache}.

(** Mustache refuses a template that is not a string. *)
Definition render_text (m : member jstr) (params : jsval) : result exn jstr :=
  match m with
  | Own t => mustache_text t params
  | _ => Err (Error "TypeError" "Invalid template!" None)
  end.

Definition render (template locale : jstr) (params : jsval) : result exn content :=
  match lookup_member template TEMPLATES with
  | Missing => Err (error ("unknown template: " ++ template))
  | Inherited => Err (Error "TypeError" "Invalid template!" None)
  | Own t =>
      body ← render_text (pick locale (text t)) params;
      subj ← render_text (pick locale (subject t)) params;
      h ← match html t with
          | Some m => match pick locale m with
                      | Own s => mustache_html s params
                      | _ => Err (Error "TypeError" "Invalid template!" None)
                      end
          | None => Ok (wrapHtml body locale)
          end;
      Ok {| c_subject := subj; c_text := body; c_html := h |}
  end.
End Render.
End Templates.
