(* ===== verification/Delivery.v ===== *)
(** * notification-service: delivery (delivery.ts)

    [DeliveryService] over the commands of Cassandra, SES, SNS and the clock;
    [loadRecipient] is a parameter, as it is of the constructor.  Logging to the
    console is dropped. *)
From S2P Require Import Prelude JsNumber JsString Zod Prog Templates.
Local Open Scope js_scope.
Local Open Scope Z_scope.

Module Delivery.
Import Templates.Templates.

(** ** Data *)

(** A channel arrives in a message: any string. *)
Record NotificationCommand := {
  channel : jstr;
  userId : option jstr;
  to : option jstr;
  template : jstr;
  locale : jstr;
  params : jsval;
  dedupeKey : jstr;
  sendAfter : option jstr
}.

Record Recipient := {
  r_userId : jstr;
  r_email : option jstr;
  r_phone : option jstr;
  r_locale : jstr;
  emailOptOut : bool;
  smsOptOut : bool;
  pushOptOut : bool
}.

Inductive SuppressionReason := DUPLICATE | OPTED_OUT | NO_ADDRESS | HARD_BOUNCED | QUIET_HOURS | RATE_LIMITED.
#[export] Instance SuppressionReason_eq_dec : EqDecision SuppressionReason.
Proof. solve_decision. Defined.

Definition reason_name (r : SuppressionReason) : jstr :=
  match r with
  | DUPLICATE => "DUPLICATE" | OPTED_OUT => "OPTED_OUT" | NO_ADDRESS => "NO_ADDRESS"
  | HARD_BOUNCED => "HARD_BOUNCED" | QUIET_HOURS => "QUIET_HOURS" | RATE_LIMITED => "RATE_LIMITED"
  end.

Inductive DeliveryOutcome :=
| SENT (providerId : option jstr)
| SUPPRESSED (reason : SuppressionReason)
| FAILED (reason : jstr) (retriable : bool).

Definition TRANSACTIONAL : list jstr := [
  "order_confirmed"; "order_cancelled"; "payment_failed"; "payment_refunded"; "order_shipped"; "order_delivered";
  "password_reset"; "email_verification"; "security_alert"].

(** ** Commands *)

(** A row of the delivery log. *)
Record log_entry := {
  e_userId : jstr; e_channel : jstr; e_template : jstr; e_status : jstr;
  e_dedupeKey : jstr; e_providerId : option jstr; e_error : option jstr
}.

Inductive eff : Type → Type :=
(* INSERT INTO dedupe ... IF NOT EXISTS: the column [applied] *)
| CLAIM (dedupeKey channel : jstr) : eff bool
| RELEASE (dedupeKey : jstr) : eff unit
| LOG (e : log_entry) : eff unit
(* the rows of suppression_list for an address *)
| SUPPRESSION (address : jstr) : eff Z
| SUPPRESS (address : jsval) (reason : jstr) (detail : jsval) : eff unit
| DELIVERY_LOG (userId : jstr) (limit : Z) : eff (list jsval)
(* SES and SNS: the MessageId *)
| SEND_EMAIL (address : jstr) (c : content) : eff (option jstr)
| SEND_SMS (address text : jstr) : eff (option jstr)
(* identity-service's contact of a user: absent when the status is not ok *)
| CONTACT (userId : jstr) : eff (option Recipient)
| CACHE_GET (userId : jstr) : eff (option (option Recipient * Z))
| CACHE_SET (userId : jstr) (r : option Recipient) (at_ : Z) : eff unit
| NOW : eff Z
| INC (metric : jstr) (labels : list jstr) : eff unit.

Abbreviation prog := (Prog.prog eff exn).

Definition truthy (o : option jstr) : option jstr :=
  match o with Some (c :: s) => Some (c :: s) | _ => None end.

(** ** Decisions *)

Definition addressFor (ch : jstr) (r : option Recipient) : option jstr :=
  match r with
  | None => None
  | Some r =>
      if decide (ch = "EMAIL") then r_email r else if decide (ch = "SMS") then r_phone r else None
  end.

Definition optedOut (ch : jstr) (r : Recipient) : bool :=
  if decide (ch = "EMAIL") then emailOptOut r
  else if decide (ch = "SMS") then smsOptOut r
  else if decide (ch = "PUSH") then pushOptOut r
  else false.

(** [new Date().getUTCHours()] *)
Definition utc_hours (now : Z) : Z := now / 3600000 mod 24.

Definition quiet_at (now : Z) (loc : jstr) : bool :=
  let offsetHours := if endsWith "-EG" loc || bool_decide (loc = "ar") then 2 else 0 in
  let hour := (utc_hours now + offsetHours + 24) mod 24 in
  (22 <=? hour) || (hour <? 8).

Definition isRetriable (err : exn) : bool :=
  match err with
  | NotAnError _ => false
  | Error name message httpStatus =>
      let m := toLowerCase message in
      if bool_decide (name = "ThrottlingException") || bool_decide (name = "TooManyRequestsException") then true
      else if includes "econnrefused" m || includes "enotfound" m then true
      else if includes "timeout" m || includes "etimedout" m then false
      else match httpStatus with Some s => 500 <=? s | None => false end
  end.

Definition text_of (err : exn) : jstr := match err with Error _ m _ => m | NotAnError t => t end.

(** ** The service *)

Section Service.
Context `{Mustache}.

Definition claimDedupeKey (key ch : jstr) : prog bool := await (CLAIM key ch).

Definition releaseDedupeKey (key : jstr) : prog unit := try_catch (await (RELEASE key)) (λ _, mret tt).

Definition send (ch address : jstr) (c : content) : prog (option jstr) :=
  if decide (ch = "EMAIL") then
    id ← await (SEND_EMAIL address c); mret (Some (default "unknown" id))
  else if decide (ch = "SMS") then
    id ← await (SEND_SMS address (c_text c)); mret (Some (default "unknown" id))
  else if decide (ch = "PUSH" ∨ ch = "WEBHOOK") then Throw (error (ch ++ " delivery is not implemented"))
  else mret None.

Definition log (cmd : NotificationCommand) (r : option Recipient) (status : jstr) (providerId err : option jstr)
  : prog unit :=
  try_catch
    (await (LOG {|
       e_userId := match r with Some x => r_userId x | None => default "anonymous" (userId cmd) end;
       e_channel := channel cmd; e_template := template cmd; e_status := status;
       e_dedupeKey := dedupeKey cmd; e_providerId := providerId; e_error := err |}))
    (λ _, mret tt).

Definition hasHardBounced (address : jstr) : prog bool :=
  n ← await (SUPPRESSION address); mret (0 <? n).

Definition inQuietHours (loc : jstr) : prog bool := now ← await NOW; mret (quiet_at now loc).

Definition suppress (cmd : NotificationCommand) (r : option Recipient) (why : SuppressionReason) : prog DeliveryOutcome :=
  _ ← log cmd r "SUPPRESSED" None (Some (reason_name why));
  _ ← await (INC "notificationsSuppressed" [reason_name why; channel cmd]);
  mret (SUPPRESSED why).

(** Everything after the checks. *)
Definition dispatch (cmd : NotificationCommand) (r : option Recipient) (address : jstr) : prog DeliveryOutcome :=
  let loc := match r with Some x => r_locale x | None => locale cmd end in
  c ← of_result (render (template cmd) loc (params cmd));
  try_catch
    (providerId ← send (channel cmd) address c;
     _ ← log cmd r "SENT" providerId None;
     _ ← await (INC "notificationsSent" [channel cmd; template cmd]);
     mret (SENT providerId))
    (λ err,
      let retriable := isRetriable err in
      _ ← log cmd r "FAILED" None (Some (text_of err));
      _ ← (if retriable then releaseDedupeKey (dedupeKey cmd) else mret tt);
      mret (FAILED (text_of err) retriable)).

(** The checks that may withhold a notification, once the recipient is known. *)
Definition proceed (cmd : NotificationCommand) (recipient : option Recipient) : prog DeliveryOutcome :=
  let transactional := bool_decide (template cmd ∈ TRANSACTIONAL) in
  match truthy (match to cmd with Some a => Some a | None => addressFor (channel cmd) recipient end) with
  | None => suppress cmd recipient NO_ADDRESS
  | Some address =>
      if negb transactional && match recipient with Some r => optedOut (channel cmd) r | None => false end
      then suppress cmd recipient OPTED_OUT
      else
        quiet ← (if negb transactional && bool_decide (channel cmd = "SMS")
                 then inQuietHours (match recipient with Some r => r_locale r | None => locale cmd end)
                 else mret false);
        if quiet : bool then suppress cmd recipient QUIET_HOURS
        else
          bounced ← hasHardBounced address;
          if bounced : bool then suppress cmd recipient HARD_BOUNCED
          else dispatch cmd recipient address
  end.

Definition deliver (loadRecipient : jstr → prog (option Recipient)) (cmd : NotificationCommand) : prog DeliveryOutcome :=
  claimed ← claimDedupeKey (dedupeKey cmd) (channel cmd);
  if negb claimed then
    _ ← await (INC "notificationsSuppressed" ["DUPLICATE"; channel cmd]);
    mret (SUPPRESSED DUPLICATE)
  else
    recipient ← match truthy (userId cmd) with Some u => loadRecipient u | None => mret None end;
    proceed cmd recipient.
End Service.
End Delivery.
