(* ===== verification/Notify.v ===== *)
(** * notification-service: recipients, events and routes (index.ts) *)
From Stdlib Require Import QArith Qround.
From S2P Require Import Prelude JsNumber JsString Zod Prog Schemas Templates Delivery.
Local Open Scope js_scope.
Local Open Scope Z_scope.

Module Notify.
Import Schemas.Schemas Templates.Templates Delivery.Delivery.

(** ** Recipients *)

(** [loadRecipient]: a contact is remembered for a minute, and after that still
    preferred to none. *)
Definition loadRecipient (user : jstr) : prog (option Recipient) :=
  hit ← await (CACHE_GET user);
  now ← match hit with Some _ => await NOW | None => mret 0 end;
  match hit with
  | Some (r, at_) =>
      if now - at_ <? 60000 then mret r
      else
        try_catch (r ← await (CONTACT user); now ← await NOW; _ ← await (CACHE_SET user r now); mret r)
          (λ _, mret r)
  | None =>
      try_catch (r ← await (CONTACT user); now ← await NOW; _ ← await (CACHE_SET user r now); mret r)
        (λ _, mret None)
  end.

(** ** From events to notifications *)

(** [`${v}`], numbers being integers; an array is read as the empty one. *)
Definition interpolated (v : jsval) : jstr :=
  match v with
  | VUndef => "undefined" | VNull => "null"
  | VBool b => if b then "true" else "false"
  | VNum (Fin q) => string_of_int (Qfloor q)
  | VNum NaN => "NaN" | VNum (Inf b) => if b then "-Infinity" else "Infinity"
  | VStr s => s
  | VArr _ => "" | VObj _ => "[object Object]"
  end.
Definition opt_str (v : jsval) : option jstr := match v with VStr s => Some s | _ => None end.
Definition str_or_empty (v : jsval) : jstr := match v with VStr s => s | _ => "" end.
(** [v === t] *)
Definition is_text (t : jstr) (v : jsval) : bool := match v with VStr s => bool_decide (s = t) | _ => false end.
(** [v ?? d] *)
Definition nullish (v d : jsval) : jsval := match v with VUndef | VNull => d | _ => v end.

(** An e-mail in English to the user of the event. *)
Definition email (data : jsval) (tpl : jstr) (ps : list (jstr * jsval)) (key : jstr) : NotificationCommand := {|
  channel := "EMAIL"; userId := opt_str (prop "userId" data); to := None; template := tpl; locale := "en-GB";
  params := VObj ps; dedupeKey := key; sendAfter := None |}.

Definition toCommand (type data : jsval) : option NotificationCommand :=
  let case t := is_text t type in
  let orderRef := ("orderRef", prop "orderId" data) in
  let name := ("name", VStr "there") in
  if case "souq.order.confirmed.v1" then
    Some (email data "order_confirmed" [orderRef; ("total", prop "amount" (prop "total" data)); name]
            ("order_confirmed:" ++ interpolated (prop "orderId" data)))
  else if case "souq.order.cancelled.v1" then
    Some (email data "order_cancelled" [orderRef; ("reason", prop "reasonCode" data); name]
            ("order_cancelled:" ++ interpolated (prop "orderId" data)))
  else if case "souq.order.shipped.v1" then
    Some (email data "order_shipped"
            [orderRef; ("carrier", prop "carrier" data); ("trackingNumber", prop "trackingNumber" data); name]
            ("order_shipped:" ++ interpolated (prop "orderId" data)))
  else if case "souq.payment.failed.v1" then
    if to_boolean (prop "retriable" data) then None
    else Some (email data "payment_failed" [orderRef; name] ("payment_failed:" ++ interpolated (prop "paymentId" data)))
  else if case "souq.payment.refunded.v1" then
    Some (email data "payment_refunded" [orderRef; ("amount", prop "amount" (prop "amount" data)); name]
            ("payment_refunded:" ++ interpolated (prop "refundId" data)))
  else if case "souq.notify.v1" then
    Some {|
      channel := str_or_empty (prop "channel" data); userId := opt_str (prop "userId" data);
      to := opt_str (prop "to" data); template := interpolated (prop "template" data);
      locale := str_or_empty (nullish (prop "locale" data) (VStr "en-GB"));
      params := nullish (prop "params" data) (VObj []); dedupeKey := str_or_empty (prop "dedupeKey" data);
      sendAfter := opt_str (prop "sendAfter" data) |}
  else None.

(** [eachMessage]: [None] is a message without a value, [Some None] one that is
    not JSON; reading a property of [null] is malformed too. *)
Definition command_of (value : option (option jsval)) : option NotificationCommand :=
  match value with
  | Some (Some VNull) | Some None | None => None
  | Some (Some envelope) => toCommand (prop "type" envelope) (nullish (prop "data" envelope) (VObj []))
  end.

Section Consumer.
Context `{Mustache}.

Definition eachMessage (value : option (option jsval)) : prog unit :=
  match command_of value with
  | None => mret tt
  | Some cmd =>
      if templateExists (template cmd) then
        outcome ← deliver loadRecipient cmd;
        match outcome with
        | FAILED reason retriable =>
            _ ← await (INC "notificationsFailed" [channel cmd; if retriable then "true" else "false"]);
            if retriable : bool then Throw (error ("retriable delivery failure: " ++ reason)) else mret tt
        | _ => mret tt
        end
      else mret tt
  end.
End Consumer.

(** ** Routes *)

Definition ListParams : schema := ZObject [("userId", str)] false.
Definition ListQuery : schema := ZObject [("limit", ZDefault (ZCoerceNumber [NInt; NMin 1; NMax 100]) (vint 20))] false.

Definition listed (row : jsval) : jsval := VObj [
  ("sentAt", prop "sent_at" row); ("channel", prop "channel" row); ("template", prop "template" row);
  ("status", prop "status" row); ("providerId", prop "provider_id" row); ("error", prop "error" row)].

(** [GET /v1/users/:userId/notifications]; a refused request is a [ZodError]. *)
Definition user_notifications `{Zod} (ps query : jsval) : result (list issue) (prog jsval) :=
  p ← safeParse ListParams ps;
  qs ← safeParse ListQuery query;
  Ok (rows ← await (DELIVERY_LOG (str_or_empty (prop "userId" p))
                      match prop "limit" qs with VNum (Fin x) => Qfloor x | _ => 0 end);
      mret (VObj [("items", VArr (map listed rows))])).

(** [for (const r of l ?? [])]; [None] is not iterable. *)
Definition items (v : jsval) : option (list jsval) :=
  match v with
  | VUndef | VNull => Some []
  | VArr l => Some l
  | VStr s => Some (map (λ c, VStr [c]) s)
  | _ => None
  end.

Definition type_error : exn := Error "TypeError" "not iterable" None.

(** The property of an element: [null] and [undefined] have none. *)
Definition field (k : jstr) (v : jsval) : result exn jsval :=
  match v with VUndef | VNull => Err type_error | _ => Ok (prop k v) end.

Fixpoint suppress_all (reason : jstr) (detail : jsval → result exn jsval) (l : list jsval) : prog unit :=
  match l with
  | [] => mret tt
  | r :: rest =>
      a ← of_result (field "emailAddress" r);
      d ← of_result (detail r);
      _ ← await (SUPPRESS a reason d);
      suppress_all reason detail rest
  end.

(** What the webhook does with the parsed [Message]. *)
Definition ses_message (message : jsval) : prog unit :=
  nt ← of_result (field "notificationType" message);
  let type := nullish nt (prop "eventType" message) in
  let bounce := prop "bounce" message in
  if is_text "Bounce" type && is_text "Permanent" (prop "bounceType" bounce) then
    match items (prop "bouncedRecipients" bounce) with
    | None => Throw type_error
    | Some l => suppress_all "HARD_BOUNCE" (λ r, d ← field "diagnosticCode" r; Ok (nullish d (VStr ""))) l
    end
  else if is_text "Complaint" type then
    let complaint := prop "complaint" message in
    match items (prop "complainedRecipients" complaint) with
    | None => Throw type_error
    | Some l => suppress_all "COMPLAINT" (λ _, d ← field "complaintFeedbackType" complaint; Ok (nullish d (VStr ""))) l
    end
  else mret tt.

(** [POST /v1/webhooks/ses]: the type of the body, and its [Message] once
    parsed, if it is JSON. *)
Definition ses_webhook (type : jsval) (message : option jsval) : prog (Z * jsval) :=
  if is_text "SubscriptionConfirmation" type then mret (200, VObj [("status", VStr "received")])
  else
    _ ← try_catch
          (match message with None => Throw (Error "SyntaxError" "JSON" None) | Some m => ses_message m end)
          (λ _, mret tt);
    mret (200, VObj [("status", VStr "ok")]).
End Notify.
