(* ===== verification/NotifyOnce.v ===== *)
(** * notification-service: at most once

    Any number of consumers deliver at the same time, are interrupted between
    any two commands, crash, and are given the same message again, while time
    passes and the rows of [dedupe] expire thirty days after they were written
    ([cql/001_keyspace.cql]).  The claim of a dedupe key is a permission to send,
    used up by sending and given back by releasing: [deliver] follows that
    protocol, and no schedule of its commands makes a provider accept two
    notifications under one key that were claimed within thirty days. *)
From S2P Require Import Prelude JsNumber JsString Zod Prog Templates Delivery Notify.
Local Open Scope js_scope.
Local Open Scope Z_scope.

Module NotifyOnce.
Import Templates.Templates Delivery.Delivery Notify.Notify.

(** ** The world *)

(** [default_time_to_live] of [dedupe], in seconds. *)
Definition dedupe_ttl : Z := 2592000.

(** The time in seconds, the rows of [dedupe] with the time each was written,
    and the notifications a provider accepted: the key of each, and when that
    key had been claimed for it. *)
Record world := { now : Z; dedupe : gmap jstr Z; accepted : list (jstr * Z) }.

(** The row is there and has not expired. *)
Definition live (k : jstr) (w : world) : bool :=
  match dedupe w !! k with Some t => now w <? t + dedupe_ttl | None => false end.

Definition claim (k : jstr) (w : world) : world :=
  {| now := now w; dedupe := <[k := now w]> (dedupe w); accepted := accepted w |}.
Definition release (k : jstr) (w : world) : world :=
  {| now := now w; dedupe := delete k (dedupe w); accepted := accepted w |}.
Definition accept (k : jstr) (since : Z) (w : world) : world :=
  {| now := now w; dedupe := dedupe w; accepted := (k, since) :: accepted w |}.
Definition elapse (d : Z) (w : world) : world :=
  {| now := now w + d; dedupe := dedupe w; accepted := accepted w |}.

(** What a command may do, issued for a message with this key, claimed at
    [since].  A failed write may have been applied.  A provider that fails with
    an error [isRetriable] recognises has accepted nothing; after any other
    failure it may have. *)
Definition effect (key : jstr) (since : Z) (B : Type) (c : eff B) (w : world) : result exn B → world → Prop :=
  match c in eff B return result exn B → world → Prop with
  | CLAIM k _ => λ r w',
      match r with
      | Ok true => live k w = false ∧ w' = claim k w
      | Ok false => live k w = true ∧ w' = w
      | Err _ => w' = w ∨ live k w = false ∧ w' = claim k w
      end
  | RELEASE k => λ r w', match r with Ok _ => w' = release k w | Err _ => w' = w ∨ w' = release k w end
  | SEND_EMAIL _ _ | SEND_SMS _ _ => λ r w',
      match r with
      | Ok _ => w' = accept key since w
      | Err e => w' = w ∨ isRetriable e = false ∧ w' = accept key since w
      end
  | INC _ _ => λ r w', is_ok r = true ∧ w' = w
  | _ => λ _ w', w' = w
  end.

(** ** The protocol: [true] while the claim is held *)

Definition allowed (key : jstr) (held : bool) (B : Type) (c : eff B) : Prop :=
  match c with
  | CLAIM k _ => k = key ∧ held = false
  | RELEASE k => k = key ∧ held = true
  | SEND_EMAIL _ _ | SEND_SMS _ _ => held = true
  | _ => True
  end.

Definition next (held : bool) (B : Type) (c : eff B) : result exn B → bool :=
  match c in eff B return result exn B → bool with
  | CLAIM _ _ => λ r, match r with Ok b => b | Err _ => false end
  | RELEASE _ => λ _, false
  | SEND_EMAIL _ _ | SEND_SMS _ _ => λ r, match r with Ok _ => false | Err e => isRetriable e end
  | _ => λ _, held
  end.

(** A counter does not fail. *)
Definition possible (B : Type) (c : eff B) (r : result exn B) : Prop :=
  match c with INC _ _ => is_ok r = true | _ => True end.

Section Once.
Context `{Mustache}.

Notation follows key := (follows (allowed key) possible next).

Lemma follows_same {A} key held (p : prog A) :
  awaits (λ B c, match c with
                 | CLAIM _ _ | RELEASE _ | SEND_EMAIL _ _ | SEND_SMS _ _ => False | _ => True end) p →
  follows key held p (λ _ h, h = held) (λ _ h, h = held).
Proof.
  induction p as [a|e|B c k IH]; cbn; [done..|]. intros [Hc Hk].
  split; [by destruct c|]. intros r _. specialize (IH r (Hk r)). by destruct c.
Qed.

Lemma log_same key held cmd r st pid err :
  follows key held (log cmd r st pid err) (λ _ h, h = held) (λ _ _, False).
Proof. split; [done|]. by intros [] _; cbn. Qed.

Lemma inc_same {A} key held m ls (p : prog A) Q T :
  follows key held p Q T → follows key held (_ ← await (INC m ls); p) Q T.
Proof. intros Hp. split; [done|]. intros []; [done|by intros]. Qed.

Lemma loadRecipient_quiet u :
  awaits (λ B c, match c with
                 | CLAIM _ _ | RELEASE _ | SEND_EMAIL _ _ | SEND_SMS _ _ => False | _ => True end) (loadRecipient u).
Proof.
  apply awaits_bind; [by split; [|intros []]|]. intros hit.
  apply awaits_bind; [by destruct hit; [split; [|intros []]|]|]. intros now.
  assert (∀ d, awaits (λ B c, match c with
                 | CLAIM _ _ | RELEASE _ | SEND_EMAIL _ _ | SEND_SMS _ _ => False | _ => True end)
    (try_catch (r ← await (CONTACT u); now ← await NOW; _ ← await (CACHE_SET u r now); mret r) (λ _, mret d) : prog (option Recipient))) as Hf.
  { intros d. apply awaits_try; [|done]. apply awaits_bind; [by split; [|intros []]|]. intros r.
    apply awaits_bind; [by split; [|intros []]|]. intros n. apply awaits_bind; [by split; [|intros []]|done]. }
  destruct hit as [[r at_]|]; [destruct (_ <? _); [done|]|]; apply Hf.
Qed.

Lemma suppress_follows key cmd r why :
  follows key true (suppress cmd r why) (λ _ _, True) (λ _ _, True).
Proof.
  apply follows_bind. eapply follows_mono; [apply log_same| |done]. intros _ h ->. by apply inc_same.
Qed.

(** A retriable failure of the provider leaves the claim held. *)
Lemma send_follows key ch a c :
  follows key true (send ch a c) (λ _ _, True) (λ e h, isRetriable e = true → h = true).
Proof.
  unfold send. destruct (decide (ch = "EMAIL")); [|destruct (decide (ch = "SMS"))].
  - split; [done|]. by intros [] _; cbn.
  - split; [done|]. by intros [] _; cbn.
  - by destruct (decide _).
Qed.

Lemma release_follows key : follows key true (releaseDedupeKey key) (λ _ _, True) (λ _ _, False).
Proof. split; [done|]. by intros [] _; cbn. Qed.

Lemma dispatch_follows cmd r a :
  follows (dedupeKey cmd) true (dispatch cmd r a) (λ _ _, True) (λ _ _, True).
Proof.
  apply follows_bind, follows_of_result. destruct (render _ _ _) as [c|e]; [|done].
  apply follows_try, follows_bind. eapply follows_mono; [apply send_follows| |].
  - intros p h _. apply follows_bind. eapply follows_mono; [apply log_same| |done]. intros _ h' ->. by apply inc_same.
  - intros e h He. apply follows_bind. eapply follows_mono; [apply log_same| |done]. intros _ h' ->.
    apply follows_bind. destruct (isRetriable e) eqn:Hr; [|done]. rewrite (He Hr).
    eapply follows_mono; [apply release_follows|done..].
Qed.

Lemma proceed_follows cmd r :
  follows (dedupeKey cmd) true (proceed cmd r) (λ _ _, True) (λ _ _, True).
Proof.
  unfold proceed. destruct (truthy _) as [a|]; [|apply suppress_follows].
  destruct (_ && _); [apply suppress_follows|]. apply follows_bind.
  eapply (follows_mono _ _ _ _ _ (λ _ h, h = true) _ (λ _ _, True)); [| |done].
  { destruct (_ && _); [|done]. split; [done|]. by intros [] _; cbn. }
  intros quiet h ->. destruct quiet; [apply suppress_follows|]. apply follows_bind.
  eapply (follows_mono _ _ _ _ _ (λ _ h, h = true) _ (λ _ _, True)); [| |done].
  { split; [done|]. by intros [] _; cbn. }
  intros bounced h ->. destruct bounced; [apply suppress_follows|apply dispatch_follows].
Qed.

Lemma deliver_follows cmd :
  follows (dedupeKey cmd) false (deliver loadRecipient cmd) (λ _ _, True) (λ _ _, True).
Proof.
  apply follows_bind. split; [done|]. intros [[]|e] _; cbn [next]; [|by apply inc_same|done].
  cbn [negb]. apply follows_bind. eapply (follows_mono _ _ _ _ _ (λ _ h, h = true) _ (λ _ _, True)); [| |done].
  { destruct (truthy (userId cmd)) as [u|]; [|done].
    eapply follows_mono; [apply follows_same, loadRecipient_quiet|done|done]. }
  intros r h ->. apply proceed_follows.
Qed.

Lemma eachMessage_follows value cmd :
  command_of value = Some cmd →
  follows (dedupeKey cmd) false (eachMessage value) (λ _ _, True) (λ _ _, True).
Proof.
  intros Hc. unfold eachMessage. rewrite Hc. destruct (templateExists _); [|done].
  apply follows_bind. eapply follows_mono; [apply deliver_follows| |done]. intros o h _.
  destruct o as [| |why []]; try done; by apply inc_same.
Qed.

(** ** Any number of consumers *)

(** A message under way: its key, whether it holds the claim, since when, and
    what is left to do. *)
Record thread := { t_key : jstr; t_held : bool; t_since : Z; t_prog : prog unit }.

(** A claim counts from when it was made. *)
Definition since_when {B} (c : eff B) (w : world) (since : Z) : Z :=
  match c with CLAIM _ _ => now w | _ => since end.

(** A claim is given back while its row is there: a consumer does not wait for
    thirty days for its provider to fail. *)
Definition punctual {B} (c : eff B) (w : world) (since : Z) : Prop :=
  match c with RELEASE _ => now w < since + dedupe_ttl | _ => True end.

Inductive step : world * list thread → world * list thread → Prop :=
| Received value cmd w ts :
    command_of value = Some cmd →
    step (w, ts) (w, {| t_key := dedupeKey cmd; t_held := false; t_since := 0; t_prog := eachMessage value |} :: ts)
| Crashed w ts1 t ts2 : step (w, ts1 ++ t :: ts2) (w, ts1 ++ ts2)
| Elapsed d w ts : 0 <= d → step (w, ts) (elapse d w, ts)
| Ran {B} (c : eff B) k key held since r w w' ts1 ts2 :
    effect key since B c w r w' → punctual c w since →
    step (w, ts1 ++ {| t_key := key; t_held := held; t_since := since; t_prog := Await c k |} :: ts2)
         (w', ts1 ++ {| t_key := key; t_held := next held B c r; t_since := since_when c w since;
                        t_prog := k r |} :: ts2).

Definition typed (t : thread) : Prop :=
  follows (t_key t) (t_held t) (t_prog t) (λ _ _, True) (λ _ _, True).

(** The notifications accepted under a key that was claimed for them in the
    thirty days from [t] on. *)
Definition within (key : jstr) (t : Z) (l : list (jstr * Z)) : nat :=
  length (filter (λ a, a.1 = key ∧ t <= a.2 < t + dedupe_ttl) l).
Definition sends (key : jstr) (t : Z) (w : world) : nat := within key t (accepted w).

(** ** Permissions *)

(** The claims in hand. *)
Definition mine (key : jstr) (held : bool) (since : Z) : list (jstr * Z) := if held then [(key, since)] else [].
Definition in_hand (ts : list thread) : list (jstr * Z) := ts ≫= λ t, mine (t_key t) (t_held t) (t_since t).

(** Of the permissions, used or in hand, thirty days have at most one for a key;
    and one that has not expired is the row of its key. *)
Definition kept (w : world) (a : jstr * Z) : Prop :=
  a.2 <= now w ∧ (now w < a.2 + dedupe_ttl → dedupe w !! a.1 = Some a.2).
Definition permitted (w : world) (l : list (jstr * Z)) : Prop :=
  (∀ key t, (within key t l <= 1)%nat) ∧ Forall (kept w) l.

Lemma within_cons key t a l :
  within key t (a :: l) = ((if decide (a.1 = key ∧ (t <= a.2 < t + dedupe_ttl)%Z) then 1 else 0) + within key t l)%nat.
Proof. unfold within. rewrite filter_cons. by destruct (decide _). Qed.

Lemma within_none key t l : (∀ a, a ∈ l → a.1 = key → ¬ t <= a.2 < t + dedupe_ttl) → within key t l = 0%nat.
Proof.
  induction l as [|a l IH]; [done|]. intros Ha. rewrite within_cons, IH by (intros b Hb; apply Ha; by right).
  rewrite decide_False; [done|]. intros [Hk Ht]. by apply (Ha a (list_elem_of_here _ _)).
Qed.

Lemma within_some key t l a : a ∈ l → a.1 = key → t <= a.2 < t + dedupe_ttl → (1 <= within key t l)%nat.
Proof.
  intros Hl Hk Ht. unfold within. destruct (filter _ l) as [|b r] eqn:Hf; [|cbn; lia].
  assert (a ∈ filter (λ a, a.1 = key ∧ t <= a.2 < t + dedupe_ttl) l) as Hin by by apply list_elem_of_filter.
  rewrite Hf in Hin. by apply elem_of_nil in Hin.
Qed.

#[local] Instance permitted_perm w : Proper ((≡ₚ) ==> iff) (permitted w).
Proof. intros l1 l2 Hl. unfold permitted, within. setoid_rewrite Hl. done. Qed.

Lemma permitted_drop w a l : permitted w (a :: l) → permitted w l.
Proof.
  intros [H1 H2]. apply Forall_cons in H2 as [_ H2]. split; [|done]. intros key t. specialize (H1 key t).
  rewrite within_cons in H1. lia.
Qed.

Lemma permitted_claimed w k l : live k w = false → permitted w l → permitted (claim k w) ((k, now w) :: l).
Proof.
  intros Hlive [H1 H2]. rewrite Forall_forall in H2.
  assert (∀ a, a ∈ l → a.1 = k → a.2 + dedupe_ttl <= now w) as Hold.
  { intros a Ha <-. destruct (H2 a Ha) as [_ Hrow]. destruct (Z.le_gt_cases (a.2 + dedupe_ttl) (now w)) as [|Hlt]; [done|].
    unfold live in Hlive. rewrite (Hrow Hlt) in Hlive. lia. }
  split.
  - intros key t. rewrite within_cons. cbn [fst snd]. destruct (decide _) as [[-> Ht]|_]; [|apply H1].
    rewrite within_none; [lia|]. intros a Ha Hk Hw. specialize (Hold a Ha Hk). lia.
  - apply Forall_cons. split.
    + split; cbn [fst snd claim now dedupe]; [lia|]. intros _. by rewrite lookup_insert_eq.
    + apply Forall_forall. intros a Ha. destruct (H2 a Ha) as [Hle Hrow]. split; [done|]. cbn [claim now dedupe].
      intros Hlt. destruct (decide (k = a.1)) as [Hk|Hk]; [specialize (Hold a Ha (eq_sym Hk)); lia|].
      rewrite lookup_insert_ne by done. by apply Hrow.
Qed.

Lemma permitted_released w k s l :
  now w < s + dedupe_ttl → permitted w ((k, s) :: l) → permitted (release k w) l.
Proof.
  intros Hlt Hp. destruct (permitted_drop _ _ _ Hp) as [H1 H2]. destruct Hp as [Hone Hkept].
  apply Forall_cons in Hkept as [[_ Hrow] _]. specialize (Hrow Hlt). split; [done|].
  apply Forall_forall. intros a Ha. rewrite Forall_forall in H2. destruct (H2 a Ha) as [Hle Hk]. split; [done|].
  cbn [release now dedupe]. intros Hal. specialize (Hk Hal). destruct (decide (k = a.1)) as [->|Hne]; [|by rewrite lookup_delete_ne].
  exfalso. cbn [fst snd] in Hrow. assert (s = a.2) as -> by congruence.
  specialize (Hone a.1 a.2). rewrite within_cons in Hone. cbn [fst snd] in Hone.
  rewrite decide_True in Hone by (split; [done|unfold dedupe_ttl; lia]).
  pose proof (within_some a.1 a.2 l a Ha eq_refl ltac:(unfold dedupe_ttl; lia)). lia.
Qed.

Lemma permitted_elapsed w d l : 0 <= d → permitted w l → permitted (elapse d w) l.
Proof.
  intros Hd [H1 H2]. split; [done|]. eapply Forall_impl; [exact H2|]. intros a [Hle Hrow].
  split; cbn [elapse now dedupe]; [lia|]. intros. apply Hrow. lia.
Qed.

(** What a command of the protocol does to the permissions of its message: those
    it had, those it leaves, in hand or used. *)
Inductive move (key : jstr) (since : Z) (w : world) : list (jstr * Z) → list (jstr * Z) → world → Prop :=
| Stay l : move key since w l l w
| Drop : move key since w [(key, since)] [] w
| Claimed : live key w = false → move key since w [] [(key, now w)] (claim key w)
| Claim_lost : live key w = false → move key since w [] [] (claim key w)
| Released : now w < since + dedupe_ttl → move key since w [(key, since)] [] (release key w)
| Spent : move key since w [(key, since)] [(key, since)] (accept key since w).

Lemma move_permitted key since w l l' w' rest :
  move key since w l l' w' → permitted w (l ++ rest) → permitted w' (l' ++ rest).
Proof.
  intros Hm Hp. destruct Hm; cbn [app] in *; [done|..].
  - by eapply permitted_drop.
  - by apply permitted_claimed.
  - by eapply permitted_drop, permitted_claimed.
  - by eapply permitted_released.
  - exact Hp.
Qed.

Lemma effect_move {B} key held since (c : eff B) w r w' :
  allowed key held B c → effect key since B c w r w' → punctual c w since →
  ∃ used, accepted w' = used ++ accepted w ∧
    move key since w (mine key held since) (mine key (next held B c r) (since_when c w since) ++ used) w'.
Proof.
  assert (∀ h s, move key since w (mine key h s) (mine key h s ++ []) w) as Hstay.
  { intros. rewrite app_nil_r. constructor. }
  destruct c; cbn [allowed effect punctual next since_when];
    try (intros _ -> _; exists []; split; [done|apply Hstay]);
    try (intros _ [_ ->] _; exists []; split; [done|apply Hstay]).
  - intros [-> ->] He _. exists []. destruct r as [[]|e].
    + destruct He as [? ->]. split; [done|]. by constructor.
    + destruct He as [_ ->]. split; [done|]. constructor.
    + destruct He as [->|[? ->]]; (split; [done|]); by constructor.
  - intros [-> ->] He Hlt. exists []. destruct r; [subst w'|destruct He as [->| ->]]; (split; [done|]); by constructor.
  - intros -> He _. destruct r as [|e]; [subst w'; exists [(key, since)]; split; [done|constructor]|].
    destruct He as [->|[-> ->]]; [|exists [(key, since)]; split; [done|constructor]].
    exists []. split; [done|]. destruct (isRetriable e); constructor.
  - intros -> He _. destruct r as [|e]; [subst w'; exists [(key, since)]; split; [done|constructor]|].
    destruct He as [->|[-> ->]]; [|exists [(key, since)]; split; [done|constructor]].
    exists []. split; [done|]. destruct (isRetriable e); constructor.
Qed.

Lemma in_hand_middle ts1 t ts2 :
  in_hand (ts1 ++ t :: ts2) ≡ₚ mine (t_key t) (t_held t) (t_since t) ++ in_hand (ts1 ++ ts2).
Proof.
  unfold in_hand. rewrite !bind_app, bind_cons. rewrite !app_assoc. apply Permutation_app_tail, Permutation_app_comm.
Qed.

(** Every message keeps to the protocol, and the permissions are in order. *)
Definition sound (s : world * list thread) : Prop :=
  Forall typed s.2 ∧ permitted s.1 (accepted s.1 ++ in_hand s.2).

Lemma tokens_middle w ts1 t ts2 :
  accepted w ++ in_hand (ts1 ++ t :: ts2) ≡ₚ
  mine (t_key t) (t_held t) (t_since t) ++ accepted w ++ in_hand (ts1 ++ ts2).
Proof. rewrite in_hand_middle, !app_assoc. apply Permutation_app_tail, Permutation_app_comm. Qed.

Lemma step_sound s s' : step s s' → sound s → sound s'.
Proof.
  intros Hs. destruct Hs as [value cmd w ts Hc|w ts1 t ts2|d w ts Hd|B c k key held since r w w' ts1 ts2 He Hpu];
    intros [Ht Hp]; cbn [fst snd] in *.
  - split; [|done]. constructor; [by apply eachMessage_follows|done].
  - rewrite Forall_app, Forall_cons in Ht. split; [apply Forall_app; naive_solver|]. cbn [fst snd].
    rewrite tokens_middle in Hp. destruct (t_held t); cbn [mine app] in Hp; [by eapply permitted_drop|exact Hp].
  - split; [done|]. by apply permitted_elapsed.
  - rewrite Forall_app, Forall_cons in Ht. destruct Ht as (Ht1 & [Ha Hk] & Ht2).
    cbn [t_key t_held t_since t_prog] in *. split; cbn [fst snd].
    + apply Forall_app. split; [done|]. constructor; [|done]. apply Hk. destruct c; try done. by destruct He.
    + destruct (effect_move key held since c w r w' Ha He Hpu) as (used & Hu & Hm).
      rewrite tokens_middle in Hp |- *. cbn [t_key t_held t_since] in *. rewrite Hu.
      pose proof (move_permitted _ _ _ _ _ _ _ Hm Hp) as Hq. by rewrite <- !app_assoc in Hq |- *.
Qed.

(** C23. At most once in thirty days: whatever messages arrive, however often, and
    however the consumers interleave, fail or crash, of the notifications a
    provider accepted under one dedupe key at most one had its key claimed in any
    thirty days, the life of a row of [dedupe]; provided that a provider that
    fails with a retriable error has accepted nothing, and that no consumer gives
    back a claim thirty days old.  After thirty days the same message is sent
    again. *)
Theorem notification_at_most_once t0 w ts key t :
  rtc step ({| now := t0; dedupe := ∅; accepted := [] |}, []) (w, ts) → (sends key t w <= 1)%nat.
Proof.
  intros Hr. assert (sound (w, ts)) as [_ [Hp _]].
  { apply (rtc_ind_r sound ({| now := t0; dedupe := ∅; accepted := [] |}, [])) in Hr; [exact Hr| |].
    - split; [constructor|]. split; [intros k x; cbn; lia|constructor].
    - intros s s' _ Hs. by apply step_sound. }
  specialize (Hp key t). unfold sends, within in *. cbn [fst snd] in Hp. rewrite filter_app, length_app in Hp. lia.
Qed.
End Once.
End NotifyOnce.
