(* ===== verification/NotifyFacts.v ===== *)
(** * notification-service: what is sent, to whom, and in which words

    Consent, redelivery, the language of a message, and its HTML;
    [NotifyExamples] has instances of the parameters. *)
From Stdlib Require Import QArith Qround.
From S2P Require Import Prelude JsNumber JsString Regex Zod Schemas Events Contracts Prog Templates.
From S2P Require Import Delivery Notify.
From S2P Require Import NotifyOnce.
Local Open Scope js_scope.
Local Open Scope Z_scope.

Module NotifyFacts.
Import Schemas.Schemas Events.Events Contracts.Contracts.
Import Templates.Templates Delivery.Delivery Notify.Notify NotifyOnce.NotifyOnce.

(** ** The words *)

(** The language of a locale, as far as the templates have it. *)
Definition chosen (loc : jstr) : jstr :=
  if decide (toLowerCase (slice0 2 loc) = "ar") then "ar-EG" else "en-GB".

Definition bilingual (m : list (jstr * jstr)) : Prop := ∃ en ar, m = [("en-GB", en); ("ar-EG", ar)].

Lemma templates_bilingual name t : own name TEMPLATES = Some t → bilingual (subject t) ∧ bilingual (text t) ∧ html t = None.
Proof.
  assert (Forall (λ nt, bilingual (subject nt.2) ∧ bilingual (text nt.2) ∧ html nt.2 = None) TEMPLATES) as Hall.
  { unfold TEMPLATES. repeat (apply Forall_cons; split; [by split_and!; try (by eexists _, _)|]). apply Forall_nil_2. }
  induction Hall as [|[k x] l Hx _ IH]; cbn; [done|]. destruct (decide (name = k)); [by intros [= <-]|done].
Qed.

Lemma pick_bilingual loc m :
  bilingual m → loc ∉ inherited → ∃ x, own (chosen loc) m = Some x ∧ pick loc m = Own x.
Proof.
  intros (en & ar & ->) Hl. unfold pick, lookup_member, chosen. cbn [own].
  destruct (decide (loc = "en-GB")) as [->|]; [by exists en|].
  destruct (decide (loc = "ar-EG")) as [->|]; [by exists ar|].
  rewrite bool_decide_false by done. cbn [by_language].
  change (toLowerCase (slice0 2 "en-GB")) with (toLowerCase "en"). change (toLowerCase (slice0 2 "ar-EG")) with (toLowerCase "ar").
  change (toLowerCase "en") with ("en" : jstr). change (toLowerCase "ar") with ("ar" : jstr).
  destruct (decide (toLowerCase (slice0 2 loc) = "ar")) as [Ha|Ha].
  - rewrite Ha. exists ar. split; reflexivity.
  - destruct (decide (("en" : jstr) = toLowerCase (slice0 2 loc))) as [He|He]; [exists en; split; reflexivity|].
    rewrite (decide_False _ _ (P := ("ar" : jstr) = _)) by done. exists en. split; reflexivity.
Qed.

Section Render.
Context `{Mustache}.

(** Every template speaks both languages: for every template and every
    locale the subject and the text are the Arabic ones exactly when the
    language of the locale is Arabic, and the English ones otherwise; the one
    exception is a locale that names a member every object inherits, which is
    refused with a [TypeError]. *)
Theorem templates_choose_the_language name t loc ps :
  own name TEMPLATES = Some t →
  (loc ∉ inherited → ∃ s x, own (chosen loc) (subject t) = Some s ∧ own (chosen loc) (text t) = Some x ∧
     render name loc ps =
       (body ← mustache_text x ps; subj ← mustache_text s ps;
        Ok {| c_subject := subj; c_text := body; c_html := wrapHtml body loc |})) ∧
  (loc ∈ inherited → render name loc ps = Err (Error "TypeError" "Invalid template!" None)).
Proof.
  intros Ht. destruct (templates_bilingual name t Ht) as (Hs & Hx & Hh).
  unfold render, lookup_member. rewrite Ht, Hh. split; intros Hl.
  - destruct (pick_bilingual loc _ Hs Hl) as (s & H1 & H2). destruct (pick_bilingual loc _ Hx Hl) as (x & H3 & H4).
    exists s, x. split; [done|]. split; [done|]. by rewrite H2, H4.
  - destruct Hx as (en & ar & ->). unfold pick, lookup_member. cbn [own].
    assert (loc ≠ "en-GB" ∧ loc ≠ "ar-EG") as [H1 H2].
    { split; intros ->; revert Hl; by apply (bool_decide_unpack _). }
    by rewrite !decide_False, bool_decide_true by done.
Qed.
End Render.

(** ** HTML *)

(** What one character becomes. *)
Definition entity (c : N) : jstr :=
  if (c =? 38)%N then "&amp;" else if (c =? 60)%N then "&lt;" else if (c =? 62)%N then "&gt;"
  else if (c =? 10)%N then "<br>" else [c].

Lemma replace_all_bind c r (f : N → jstr) (s : jstr) : replace_all c r (s ≫= f) = s ≫= λ x, replace_all c r (f x).
Proof. unfold replace_all. induction s as [|x s IH]; cbn; [done|]. by rewrite bind_app, IH. Qed.

Lemma escaped_entities t : escaped t = t ≫= entity.
Proof.
  unfold escaped. change (replace_all 38 "&amp;" t) with (t ≫= λ x, if (x =? 38)%N then ("&amp;" : jstr) else [x]).
  rewrite !replace_all_bind. induction t as [|c t IH]; [done|]. cbn [mbind list_bind]. f_equal; [|exact IH].
  unfold entity. destruct (N.eqb_spec c 38) as [->|]; [done|].
  destruct (N.eqb_spec c 60) as [->|]; [done|]. destruct (N.eqb_spec c 62) as [->|]; [done|].
  destruct (N.eqb_spec c 10) as [->|]; [done|]. unfold replace_all. cbn.
  repeat (rewrite (proj2 (N.eqb_neq _ _)) by done; cbn). done.
Qed.

Lemma entity_prefix c d (s t : jstr) : entity c ++ s = entity d ++ t → c = d ∧ s = t.
Proof.
  unfold entity. destruct (N.eqb_spec c 38) as [->|], (N.eqb_spec d 38) as [->|];
    try (destruct (N.eqb_spec c 60) as [->|]); try (destruct (N.eqb_spec d 60) as [->|]);
    try (destruct (N.eqb_spec c 62) as [->|]); try (destruct (N.eqb_spec d 62) as [->|]);
    try (destruct (N.eqb_spec c 10) as [->|]); try (destruct (N.eqb_spec d 10) as [->|]);
    cbn; intros [=]; subst; try done; split; congruence.
Qed.

Lemma skip_plain (e s before after : jstr) :
  60%N ∉ e → e ++ s = before ++ 60%N :: after → ∃ b, s = b ++ 60%N :: after.
Proof.
  revert before. induction e as [|x e IH]; intros before He; cbn; [eauto|].
  destruct before as [|y before]; cbn; intros [= -> Hs]; [by destruct He; left|].
  eapply IH; [|exact Hs]. intros ?. apply He. by right.
Qed.

(** The reader sees the text: the four replacements of the HTML wrapper act
    as one substitution of each character, so that no markup of the text
    survives but the line breaks, and different texts give different bodies. *)
Theorem html_shows_the_text t :
  escaped t = t ≫= entity ∧
  (∀ before after, escaped t = before ++ 60%N :: after → startsWith "br>" after = true) ∧
  (∀ t', escaped t = escaped t' → t = t').
Proof.
  split; [apply escaped_entities|]. split.
  - intros before after. rewrite escaped_entities. revert before. induction t as [|c t IH]; intros before; [by destruct before|].
    cbn [mbind list_bind]. destruct (N.eqb_spec c 10) as [->|Hc].
    + change (entity 10) with ([60%N] ++ ("br>" : jstr)). destruct before as [|x before]; cbn [app]; [by intros [= <-]|intros [= _ Hs]].
      destruct (skip_plain "br>" _ _ _ ltac:(by apply (bool_decide_unpack _)) Hs) as [b Hb]. by eapply IH.
    + intros Hs. assert (60%N ∉ entity c) as Hn; [|destruct (skip_plain (entity c) _ _ _ Hn Hs) as [b Hb]; by eapply IH].
      unfold entity. destruct (N.eqb_spec c 38); [by apply (bool_decide_unpack _)|].
      destruct (N.eqb_spec c 60); [by apply (bool_decide_unpack _)|]. destruct (N.eqb_spec c 62); [by apply (bool_decide_unpack _)|].
      rewrite (proj2 (N.eqb_neq _ _)) by done. intros ?%list_elem_of_singleton. done.
  - intros t'. rewrite !escaped_entities. revert t'. induction t as [|c t IH]; intros [|d t']; cbn [mbind list_bind]; [done|..].
    + unfold entity. repeat case_match; done.
    + unfold entity. repeat case_match; done.
    + intros [-> Hs]%entity_prefix. f_equal. by apply IH.
Qed.

(** ** Consent *)

(** Nothing is handed to a provider. *)
Definition silent (B : Type) (c : eff B) : Prop :=
  match c with SEND_EMAIL _ _ | SEND_SMS _ _ => False | _ => True end.

Section Consent.
Context `{Mustache}.
Implicit Types cmd : NotificationCommand.

Lemma silent_log cmd r st pid err : awaits silent (log cmd r st pid err).
Proof. apply awaits_try; [by split; [|intros []]|done]. Qed.

Lemma silent_suppress cmd r why : awaits silent (suppress cmd r why).
Proof. apply awaits_bind; [apply silent_log|]. intros _. apply awaits_bind; [by split; [|intros []]|done]. Qed.

Lemma suppress_returns cmd r why : returns (λ o, o = SUPPRESSED why) (suppress cmd r why).
Proof.
  apply (returns_bind (λ _, True)); [apply returns_any|]. intros _ _.
  apply (returns_bind (λ _, True)); [apply returns_any|]. by intros _ _.
Qed.

(** What a recipient has opted out of. *)
Definition refused_channels (r : Recipient) : list jstr :=
  (if emailOptOut r then ["EMAIL" : jstr] else []) ++ (if smsOptOut r then ["SMS" : jstr] else []) ++
  (if pushOptOut r then ["PUSH" : jstr] else []).

Lemma opted_out_channels ch r : optedOut ch r = bool_decide (ch ∈ refused_channels r).
Proof.
  unfold optedOut, refused_channels.
  destruct (decide (ch = "EMAIL")) as [->|H1]; [by destruct (emailOptOut r), (smsOptOut r), (pushOptOut r)|].
  destruct (decide (ch = "SMS")) as [->|H2]; [by destruct (emailOptOut r), (smsOptOut r), (pushOptOut r)|].
  destruct (decide (ch = "PUSH")) as [->|H3]; [by destruct (emailOptOut r), (smsOptOut r), (pushOptOut r)|].
  symmetry. apply bool_decide_false.
  destruct (emailOptOut r), (smsOptOut r), (pushOptOut r); cbn [app]; set_solver.
Qed.

(** Transactional notifications go through whatever the recipient chose. *)
Lemma transactional_goes_through load cmd :
  template cmd ∈ TRANSACTIONAL →
  returns (λ o, o ≠ SUPPRESSED OPTED_OUT ∧ o ≠ SUPPRESSED QUIET_HOURS) (deliver load cmd).
Proof.
  intros Ht. apply (returns_bind (λ _, True)); [apply returns_any|]. intros claimed _.
  destruct claimed; cbn [negb]; (apply (returns_bind (λ _, True)); [apply returns_any|]); intros r _; [|done].
  unfold proceed. rewrite (bool_decide_true _ Ht). cbn [negb andb].
  assert (∀ why, why ≠ OPTED_OUT → why ≠ QUIET_HOURS →
    returns (λ o, o ≠ SUPPRESSED OPTED_OUT ∧ o ≠ SUPPRESSED QUIET_HOURS) (suppress cmd r why)) as Hs.
  { intros why H1 H2. eapply returns_mono; [|apply suppress_returns]. intros o ->. split; congruence. }
  case_match; [|by apply Hs]. cbn [mbind prog_bind pbind mret prog_ret].
  apply (returns_bind (λ _, True)); [apply returns_any|]. intros [] _; [by apply Hs|].
  apply (returns_bind (λ _, True)); [apply returns_any|]. intros c _. apply returns_try.
  - apply (returns_bind (λ _, True)); [apply returns_any|]. intros p _.
    do 2 (apply (returns_bind (λ _, True)); [apply returns_any|]; intros _ _). done.
  - intros e. do 2 (apply (returns_bind (λ _, True)); [apply returns_any|]; intros _ _). done.
Qed.

(** *** What the lookups answer *)

Definition refuses (ch : jstr) (o : option Recipient) : Prop :=
  match o with Some r => ch ∈ refused_channels r | None => True end.

(** Where identity-service or the cache know a recipient, the recipient has
    opted out of the channel. *)
Definition opted_out (ch : jstr) (B : Type) (c : eff B) : result exn B → Prop :=
  match c in eff B return result exn B → Prop with
  | CONTACT _ => λ r, ∀ o, r = Ok o → refuses ch o
  | CACHE_GET _ => λ r, ∀ o at_, r = Ok (Some (o, at_)) → refuses ch o
  | _ => λ _, True
  end.

(** And they know the recipient: identity-service answers with a contact, and no
    user it did not know is remembered; the clock and the cache do not fail. *)
Definition found (ch : jstr) (B : Type) (c : eff B) (r : result exn B) : Prop :=
  opted_out ch B c r ∧
  match c in eff B return result exn B → Prop with
  | CONTACT _ => λ r, ∃ x, r = Ok (Some x)
  | CACHE_GET _ => λ r, ∀ at_, r ≠ Ok (Some (None, at_))
  | CACHE_SET _ _ _ | NOW => λ r, is_ok r = true
  | _ => λ _, True
  end r.

(** With these answers nothing is handed to a provider, and what is returned
    satisfies [M]. *)
Definition silently {A} (answers : ∀ B, eff B → result exn B → Prop) (M : A → Prop) (p : prog A) : Prop :=
  follows (λ _ : unit, silent) answers (λ _ _ _ _, tt) tt p (λ a _, M a) (λ _ _, True).
Definition never_sends {A} answers (p : prog A) : Prop := silently answers (λ _, True) p.

Lemma silent_never {A} answers (p : prog A) : awaits silent p → never_sends answers p.
Proof. induction p as [a|e|B c k IH]; cbn; [done..|]. intros [Hc Hk]. split; [done|]. intros r _. apply IH, Hk. Qed.

Lemma load_refuses ch u : silently (opted_out ch) (refuses ch) (loadRecipient u).
Proof.
  assert (∀ d, refuses ch d → silently (opted_out ch) (refuses ch)
    (try_catch (r ← await (CONTACT u); now ← await NOW; _ ← await (CACHE_SET u r now); mret r) (λ _, mret d))) as Hf.
  { intros d Hd. split; [done|]. intros [o|e] Ho; [|exact Hd]. specialize (Ho o eq_refl).
    split; [done|]. intros [n|e] _; [|exact Hd]. split; [done|]. intros [[]|e] _; [exact Ho|exact Hd]. }
  split; [done|]. intros [[[o at_]|]|e] Hh; [|exact (Hf None I)|done]. specialize (Hh o at_ eq_refl).
  split; [done|]. intros [n|e] _; [|done]. cbn. destruct (n - at_ <? 60000); [exact Hh|exact (Hf o Hh)].
Qed.

Lemma load_finds ch u : silently (found ch) (λ o, ∃ r, o = Some r ∧ ch ∈ refused_channels r) (loadRecipient u).
Proof.
  assert (∀ d, silently (found ch) (λ o, ∃ r, o = Some r ∧ ch ∈ refused_channels r)
    (try_catch (r ← await (CONTACT u); now ← await NOW; _ ← await (CACHE_SET u r now); mret r) (λ _, mret d))) as Hf.
  { intros d. split; [done|]. intros ? [Ho [x ->]]. specialize (Ho _ eq_refl).
    split; [done|]. intros [n|e] [_ Hn]; [|done]. split; [done|]. intros [[]|e] [_ Hc]; [|done]. by exists x. }
  split; [done|]. intros [[[o at_]|]|e] [Hh Hk]; [|exact (Hf None)|done]. specialize (Hh o at_ eq_refl).
  split; [done|]. intros [n|e] [_ Hn]; [|done]. cbn. destruct (n - at_ <? 60000); [|exact (Hf o)]. destruct o as [x|]; [by exists x|by destruct (Hk at_)].
Qed.

(** A delivery is what it makes of the recipient. *)
Lemma deliver_silently answers M cmd :
  silently answers M (match truthy (userId cmd) with Some u => loadRecipient u | None => mret None end) →
  (∀ o, M o → awaits silent (proceed cmd o)) → never_sends answers (deliver loadRecipient cmd).
Proof.
  intros Hl Hp. split; [done|].
  intros [[]|e] _; [|by split; [|intros []]|done]. apply follows_bind. cbn [negb follows of_result].
  apply follows_bind. eapply follows_mono; [exact Hl| |done]. intros o [] Ho. by apply silent_never, Hp.
Qed.

Lemma proceed_refused cmd r :
  template cmd ∉ TRANSACTIONAL → channel cmd ∈ refused_channels r → awaits silent (proceed cmd (Some r)).
Proof.
  intros Ht Hr. unfold proceed. rewrite (bool_decide_false _ Ht), opted_out_channels, (bool_decide_true _ Hr).
  cbn [negb andb]. case_match; apply silent_suppress.
Qed.


(** ** Events without a reader *)

Lemma deliver_nobody load cmd :
  userId cmd = None → to cmd = None →
  awaits silent (deliver load cmd) ∧
  returns (λ o, o = SUPPRESSED DUPLICATE ∨ o = SUPPRESSED NO_ADDRESS) (deliver load cmd).
Proof.
  intros Hu Ht. unfold deliver. rewrite Hu. cbn [truthy].
  assert (proceed cmd None = suppress cmd None NO_ADDRESS) as Hp by (unfold proceed; by rewrite Ht).
  split.
  - apply awaits_bind; [by split; [|intros []]|]. intros []; cbn [negb mbind prog_bind pbind mret prog_ret].
    + rewrite Hp. apply silent_suppress.
    + by split; [|intros []].
  - apply (returns_bind (λ _, True)); [apply returns_any|]. intros [] _; cbn [negb mbind prog_bind pbind mret prog_ret].
    + rewrite Hp. eapply returns_mono; [|apply suppress_returns]. auto.
    + apply (returns_bind (λ _, True)); [apply returns_any|]. intros _ _. by left.
Qed.

(** The events that name no user: shipments, refused payments, refunds. *)
Definition anonymous_events : list (Topic * jstr * jstr) := [
  (orderEvents, "souq.order.shipped.v1", "order_shipped");
  (paymentEvents, "souq.payment.failed.v1", "payment_failed");
  (paymentEvents, "souq.payment.refunded.v1", "payment_refunded")].

Lemma anonymous_data `{Zod} t ty tpl v :
  (t, ty, tpl) ∈ anonymous_events → accepts (SCHEMA_BY_TOPIC t) v → prop "type" v = VStr ty →
  ∃ kvs dkvs, v = VObj kvs ∧ prop "data" v = VObj dkvs ∧ prop "userId" (prop "data" v) = VUndef.
Proof.
  intros Hin Ha Hty. apply accepted_event in Ha as (s & ty' & Hs & Hl & Hty' & Ha).
  rewrite Hty in Hty'. injection Hty' as <-.
  assert (∃ sh shape, s = ZObject sh true ∧ In ("data", obj shape) sh ∧ "userId" ∉ map fst shape) as (sh & shape & -> & Hd & Hn).
  { apply list_elem_of_In in Hin. repeat (destruct Hin as [Hin|Hin]; [injection Hin as <- <- <-|]); [..|destruct Hin];
      cbn [options_of order_options payment_options In] in Hs; (repeat destruct Hs as [<-|Hs]); try discriminate Hl; try done;
      (eexists _, _; split; [reflexivity|]; split; [apply in_or_app; right; right; left; reflexivity|by apply (bool_decide_unpack _)]). }
  apply accepts_object in Ha as (kvs & -> & Hf & _). specialize (Hf _ _ Hd).
  pose proof (strict_absent _ _ _ Hf Hn) as Hu. apply accepts_object in Hf as (dkvs & Hdk & _).
  exists kvs, dkvs. by rewrite Hdk in *.
Qed.

(** Three notifications have no reader: for every accepted event of a
    shipment, of a payment that was finally refused, or of a refund, the command
    made from it names neither a user nor an address, so that nothing is ever
    sent for it; it is suppressed, for want of an address, and its key is
    claimed all the same. *)
Theorem events_without_a_reader `{Zod} t ty tpl v :
  (t, ty, tpl) ∈ anonymous_events → accepts (SCHEMA_BY_TOPIC t) v → prop "type" v = VStr ty →
  (ty = "souq.payment.failed.v1" → prop "retriable" (prop "data" v) = VBool false) →
  ∃ cmd, command_of (Some (Some v)) = Some cmd ∧ template cmd = tpl ∧
    awaits silent (deliver loadRecipient cmd) ∧
    returns (λ o, o = SUPPRESSED DUPLICATE ∨ o = SUPPRESSED NO_ADDRESS) (deliver loadRecipient cmd).
Proof.
  intros Hin Ha Hty Hre. destruct (anonymous_data t ty tpl v Hin Ha Hty) as (kvs & dkvs & -> & Hd & Hu).
  assert (∃ cmd, command_of (Some (Some (VObj kvs))) = Some cmd ∧ template cmd = tpl ∧ userId cmd = None ∧ to cmd = None)
    as (cmd & Hc & Htpl & Huc & Htc).
  { unfold command_of. rewrite Hty, Hd in *. cbn [nullish].
    apply list_elem_of_In in Hin. repeat (destruct Hin as [Hin|Hin]; [injection Hin as <- <- <-|]); [..|destruct Hin].
    - eexists. split; [reflexivity|]. cbn [template email userId to]. by rewrite Hu.
    - specialize (Hre eq_refl). eexists. split.
      + transitivity (if to_boolean (prop "retriable" (VObj dkvs)) then None else Some (email (VObj dkvs) "payment_failed"
          [("orderRef", prop "orderId" (VObj dkvs)); ("name", VStr "there")]
          ("payment_failed:" ++ interpolated (prop "paymentId" (VObj dkvs))))); [reflexivity|]. rewrite Hre. reflexivity.
      + cbn [template email userId to]. by rewrite Hu.
    - eexists. split; [reflexivity|]. cbn [template email userId to]. by rewrite Hu. }
  exists cmd. split; [done|]. split; [done|]. by apply deliver_nobody.
Qed.

(** ** Deliveries that throw *)

Notation unchanged w0 := (λ w : world, w = w0).

(** Commands that touch neither the claims nor a provider. *)
Lemma quiet_triple {A} key since w0 (p : prog A) :
  awaits (λ B c, match c with
                 | CLAIM _ _ | RELEASE _ | SEND_EMAIL _ _ | SEND_SMS _ _ => False | _ => True end) p →
  triple eq (effect key since) (unchanged w0) p (λ _, unchanged w0) (λ _, unchanged w0).
Proof.
  induction p as [a|e|B c k IH]; [intros _; by apply triple_ret|intros _; by apply triple_throw|].
  intros [Hc Hk]. apply (triple_Await _ _ _ _ _ (λ _, unchanged w0)); [|intros r; apply IH, Hk].
  intros w w1 r w2 -> <-. destruct c; try done; cbn; try (by intros ->); by intros [_ ->].
Qed.

Lemma log_silent_triple key since w0 cmd r st pid err :
  triple eq (effect key since) (unchanged w0) (log cmd r st pid err) (λ _, unchanged w0) (λ _ _, False).
Proof.
  apply (triple_try _ _ _ _ _ _ (λ _, unchanged w0)); [|intros; by apply triple_ret].
  apply quiet_triple. by split; [|intros []].
Qed.

(** Once something has been handed to a provider, or refused by it, nothing is
    thrown any more. *)
Lemma dispatch_triple key since w0 cmd r a :
  triple eq (effect key since) (unchanged w0) (dispatch cmd r a) (λ _ _, True) (λ _, unchanged w0).
Proof.
  apply (triple_bind _ _ _ _ _ (λ _, unchanged w0)).
  { apply triple_of_result. intros w ->. by destruct (render _ _ _). }
  intros c. apply (triple_try _ _ _ _ _ _ (λ _ _, True)).
  - intros w res w' _ _. by destruct res.
  - intros e. apply (triple_bind _ _ _ _ _ (λ _ _, True)).
    { intros w res w' _ Hx. destruct res; [done|]. by destruct (log_silent_triple key since w _ _ _ _ _ _ _ _ eq_refl Hx). }
    intros []. apply (triple_bind _ _ _ _ _ (λ _ _, True)); [|intros; by apply triple_ret].
    destruct (isRetriable e); [|by apply triple_ret].
    apply (triple_try _ _ _ _ _ _ (λ _ _, True)); [|intros; by apply triple_ret].
    apply triple_await. intros w w1 res w2 _ _ _. by destruct res.
Qed.

Lemma proceed_triple key since w0 cmd r :
  triple eq (effect key since) (unchanged w0) (proceed cmd r) (λ _ _, True) (λ _, unchanged w0).
Proof.
  assert (∀ why, triple eq (effect key since) (unchanged w0) (suppress cmd r why) (λ _ _, True) (λ _, unchanged w0)) as Hs.
  { intros why. eapply triple_weaken; [apply (quiet_triple key since w0)|by intros|by intros|by intros].
    apply awaits_bind; [apply awaits_try; [by split; [|intros []]|done]|]. intros _.
    apply awaits_bind; [by split; [|intros []]|done]. }
  unfold proceed. case_match; [|apply Hs]. destruct (_ && _); [apply Hs|].
  apply (triple_bind _ _ _ _ _ (λ _, unchanged w0)).
  { apply quiet_triple. destruct (_ && _); [|done]. by split; [|intros []]. }
  intros []; [apply Hs|]. apply (triple_bind _ _ _ _ _ (λ _, unchanged w0)).
  { apply quiet_triple. by split; [|intros []]. }
  intros []; [apply Hs|apply dispatch_triple].
Qed.

Lemma deliver_throws key since w0 cmd :
  dedupeKey cmd = key →
  triple eq (effect key since) (unchanged w0) (deliver loadRecipient cmd) (λ _ _, True)
    (λ _ w, w = w0 ∨ w = claim key w0).
Proof.
  intros <-. apply (triple_bind _ _ _ _ _ (λ claimed w, if claimed : bool then w = claim (dedupeKey cmd) w0 else w = w0)).
  { apply triple_await. intros w w1 res w2 -> <-. cbn. destruct res as [[]|e]; [by intros [_ ->]|by intros [_ ->]|].
    intros [->|[_ ->]]; auto. }
  intros []; cbn [negb].
  - apply (triple_bind _ _ _ _ _ (λ _, unchanged (claim (dedupeKey cmd) w0))).
    + eapply triple_weaken; [apply (quiet_triple _ since (claim (dedupeKey cmd) w0))|by intros|by intros|by right].
      destruct (truthy (userId cmd)); [apply loadRecipient_quiet|done].
    + intros r. eapply triple_weaken; [apply (proceed_triple _ since (claim (dedupeKey cmd) w0))|by intros|by intros|by right].
  - eapply triple_weaken; [apply (quiet_triple _ since w0)|by intros|by intros|by left]. apply awaits_bind; [by split; [|intros []]|done].
Qed.

(** A delivery under a claimed key sends nothing. *)
Lemma claimed_key_is_silent since w cmd res w' :
  live (dedupeKey cmd) w = true → exec eq (effect (dedupeKey cmd) since) (deliver loadRecipient cmd) w res w' →
  accepted w' = accepted w ∧ ∀ o, res = Ok o → o = SUPPRESSED DUPLICATE.
Proof.
  intros Hin. unfold deliver, claimDedupeKey. rewrite exec_mbind. setoid_rewrite exec_await.
  intros [(b & w1 & (w2 & <- & He) & Hx)|(e & -> & (w2 & <- & He))]; cbn in He.
  - destruct b; [destruct He; congruence|]. destruct He as [_ ->]. cbn [negb] in Hx.
    rewrite exec_mbind in Hx. setoid_rewrite exec_await in Hx.
    destruct Hx as [([] & w3 & (w4 & <- & [_ ->]) & [-> ->])|(e & -> & (w4 & <- & [Ho _]))]; [|done].
    split; [done|]. by intros o [= <-].
  - split; [|done]. by destruct He as [->|[_ ->]].
Qed.

Lemma live_claimed k w : live k (claim k w) = true.
Proof. unfold live. cbn [claim dedupe now]. rewrite lookup_insert_eq. apply Z.ltb_lt. unfold dedupe_ttl. lia. Qed.

(** A delivery that throws is lost: it has sent nothing, and unless the claim
    itself failed the key stays claimed, so that every redelivery of the message
    is suppressed as a duplicate until the row expires; the consumer's retry sends
    nothing either. *)
Theorem thrown_delivery_is_lost cmd since w e w' :
  let key := dedupeKey cmd in
  exec eq (effect key since) (deliver loadRecipient cmd) w (Err e) w' →
  accepted w' = accepted w ∧ (live key w' = false → w' = w) ∧
  (live key w' = true → ∀ res w'', exec eq (effect key since) (deliver loadRecipient cmd) w' res w'' →
     accepted w'' = accepted w ∧ ∀ o, res = Ok o → o = SUPPRESSED DUPLICATE).
Proof.
  intros key Hx. assert (accepted w' = accepted w ∧ (live key w' = false → w' = w)) as [Ha Hk].
  { destruct (deliver_throws key since w cmd eq_refl _ _ _ eq_refl Hx) as [->| ->]; [done|].
    split; [done|]. unfold key. by rewrite live_claimed. }
  split; [done|]. split; [done|]. intros Hin res w'' Hr.
  rewrite <- Ha. exact (claimed_key_is_silent since w' cmd res w'' Hin Hr).
Qed.
End Consent.
End NotifyFacts.

(** * notification-service: instances

    The theorems about notifications at concrete messages. *)

Module NotifyExamples.
Import Events.Events Templates.Templates Delivery.Delivery Notify.Notify NotifyOnce.NotifyOnce NotifyFacts.NotifyFacts.

(** A Mustache that leaves the tags in. *)
#[export] Instance literal_mustache : Mustache := {
  mustache_text t _ := Ok t;
  mustache_html t _ := Ok t
}.

Definition ulid26 : jstr := "01ARZ3NDEKTSV4RRFFQ69G5FAV".

Definition reader : Recipient := {|
  r_userId := "usr_" ++ ulid26; r_email := Some "a@b.c"; r_phone := Some "+20"; r_locale := "ar";
  emailOptOut := true; smsOptOut := false; pushOptOut := false |}.

Definition envelope (type : jstr) (data : list (jstr * jsval)) : jsval := VObj [
  ("specversion", VStr "1.0"); ("id", VStr "e1"); ("source", VStr "s"); ("time", VStr "2024-02-29T12:34:56Z");
  ("type", VStr type); ("data", VObj data); ("correlationid", VStr "c1")].

Definition confirmed : jsval := envelope "souq.order.confirmed.v1" [
  ("orderId", VStr ("ord_" ++ ulid26)); ("userId", VStr ("usr_" ++ ulid26));
  ("total", VObj [("amount", vint 129900); ("currency", VStr "EGP")])].

(** ** The words *)

Example quiet_in_cairo : quiet_at 1709240400000 "ar-EG" = true ∧ quiet_at 1709240400000 "en-GB" = false.
Proof. by vm_compute. Qed.

Lemma templates_choose_the_language_witness :
  ∃ t, own "order_confirmed" TEMPLATES = Some t ∧
    ∃ c, render "order_confirmed" "AR" VNull = Ok c ∧ own "ar-EG" (subject t) = Some (c_subject c).
Proof.
  destruct (own "order_confirmed" TEMPLATES) as [t|] eqn:Ht; [|vm_compute in Ht; discriminate].
  exists t. split; [reflexivity|].
  destruct (templates_choose_the_language "order_confirmed" t "AR" VNull Ht) as [Hin _].
  destruct Hin as (s & x & Hs & _ & Hr); [by apply (bool_decide_unpack _); vm_compute|].
  eexists. split; [rewrite Hr; reflexivity|exact Hs].
Defined.

(** ** At most once *)

(** One command of the only consumer. *)
Lemma ran {B} (c : eff B) k key held since r w w' :
  effect key since B c w r w' → punctual c w since →
  step (w, [{| t_key := key; t_held := held; t_since := since; t_prog := Await c k |}])
       (w', [{| t_key := key; t_held := next held B c r; t_since := since_when c w since; t_prog := k r |}]).
Proof. exact (Ran c k key held since r w w' [] []). Defined.

Definition order_key : jstr := "order_confirmed:ord_" ++ ulid26.

Definition empty_world : world := {| now := 1709208000; dedupe := ∅; accepted := [] |}.

(** The commands of one consumer that sends the confirmation. *)
Lemma confirmed_is_sent w :
  live order_key w = false →
  ∃ ts, rtc step (w, []) (accept order_key (now w) (claim order_key w), ts).
Proof.
  intros Hl. eexists. eapply rtc_l; [apply (Received (Some (Some confirmed))); reflexivity|].
  eapply rtc_l; [apply (ran _ _ _ _ _ (Ok true)); [exact (conj Hl eq_refl)|exact I]|].
  eapply rtc_l; [apply (ran _ _ _ _ _ (Ok None)); [reflexivity|exact I]|].
  eapply rtc_l; [apply (ran _ _ _ _ _ (Ok (Some reader))); [reflexivity|exact I]|].
  eapply rtc_l; [apply (ran _ _ _ _ _ (Ok 0)); [reflexivity|exact I]|].
  eapply rtc_l; [apply (ran _ _ _ _ _ (Ok tt)); [reflexivity|exact I]|].
  eapply rtc_l; [apply (ran _ _ _ _ _ (Ok 0)); [reflexivity|exact I]|].
  eapply rtc_l; [apply (ran _ _ _ _ _ (Ok (Some "m1"))); [reflexivity|exact I]|].
  apply rtc_refl.
Defined.

(** The confirmation is sent, and then no other under its key. *)
Lemma notification_at_most_once_witness :
  ∃ w ts, rtc step (empty_world, []) (w, ts) ∧ accepted w = [(order_key, 1709208000)] ∧
    (sends order_key 1709208000 w <= 1)%nat.
Proof.
  destruct (confirmed_is_sent empty_world eq_refl) as [ts Hr].
  eexists _, ts. split; [exact Hr|]. split; [reflexivity|].
  exact (notification_at_most_once 1709208000 _ ts order_key 1709208000 Hr).
Defined.

(** The row of the key lives thirty days, the message up to ninety in the topics
    of payments and of dead letters ([scripts/create-topics.sh]): given again
    after thirty days, it is sent again. *)
Theorem sent_again_after_thirty_days :
  ∃ w ts, rtc step (empty_world, []) (w, ts) ∧ map fst (accepted w) = [order_key; order_key].
Proof.
  destruct (confirmed_is_sent empty_world eq_refl) as [ts1 H1].
  set (w1 := elapse dedupe_ttl (accept order_key (now empty_world) (claim order_key empty_world))).
  assert (rtc step (empty_world, []) (w1, [])) as Hw1.
  { eapply rtc_r; [|apply (Elapsed dedupe_ttl); done]. etrans; [exact H1|].
    clear H1. unfold w1. induction ts1 as [|t ts1 IH]; [apply rtc_refl|].
    eapply rtc_l; [apply (Crashed _ [] t ts1)|exact IH]. }
  destruct (confirmed_is_sent w1 eq_refl) as [ts2 H2].
  eexists _, ts2. split; [etrans; [exact Hw1|exact H2]|reflexivity].
Qed.

(** ** Consent *)

Definition reminder : NotificationCommand := {|
  channel := "EMAIL"; userId := Some ("usr_" ++ ulid26); to := None; template := "abandoned_cart"; locale := "en-GB";
  params := VObj []; dedupeKey := "cart:1"; sendAfter := None |}.

(** The service at work: identity-service does not answer, nothing is cached. *)
Definition unanswered (B : Type) (c : eff B) : world → result exn B * world :=
  match c in eff B return world → result exn B * world with
  | CLAIM k _ => λ w, (Ok (negb (live k w)), if live k w then w else claim k w)
  | INC _ _ => λ w, (Ok tt, w)
  | LOG _ => λ w, (Ok tt, w)
  | CACHE_GET _ => λ w, (Ok None, w)
  | SUPPRESSION _ => λ w, (Ok 0, w)
  | SEND_EMAIL _ _ => λ w, (Ok (Some "m1"), accept "cart:1" (now w) w)
  | _ => λ w, (Err (Error "AbortError" "This operation was aborted" None), w)
  end.

Definition addressed : NotificationCommand := {|
  channel := "EMAIL"; userId := Some ("usr_" ++ ulid26); to := Some "a@b.c"; template := "abandoned_cart";
  locale := "en-GB"; params := VObj []; dedupeKey := "cart:1"; sendAfter := None |}.


(** With an address in the command and a lookup that fails, marketing is sent to
    whoever has opted out: the address does not wait for the consent. *)
Theorem lookup_failure_sends :
  template addressed ∉ TRANSACTIONAL ∧
  accepted (run unanswered (deliver loadRecipient addressed) empty_world).2 = [("cart:1" : jstr, 1709208000)].
Proof. split; [by apply (bool_decide_unpack _); vm_compute|vm_compute; reflexivity]. Qed.

(** ** Shipments *)

Definition shipped : jsval := envelope "souq.order.shipped.v1" [
  ("orderId", VStr ("ord_" ++ ulid26)); ("trackingNumber", VStr "T1"); ("carrier", VStr "Aramex");
  ("shippedAt", VStr "2024-02-29T12:34:56Z")].

Lemma events_without_a_reader_witness :
  accepts OrderEvent shipped ∧
  ∃ cmd, command_of (Some (Some shipped)) = Some cmd ∧ awaits silent (deliver loadRecipient cmd).
Proof.
  assert (accepts OrderEvent shipped) as Ha by (vm_compute; reflexivity).
  split; [exact Ha|].
  destruct (events_without_a_reader orderEvents "souq.order.shipped.v1" "order_shipped" shipped) as (cmd & Hc & _ & Hs & _).
  - by apply (bool_decide_unpack _); vm_compute.
  - exact Ha.
  - reflexivity.
  - discriminate.
  - exists cmd. split; [exact Hc|exact Hs].
Defined.

(** ** A lookup that fails *)

Definition lookup_error : exn := Error "OperationTimedOutError" "The host did not reply" None.

(** Cassandra claims the key and then does not answer about the suppression
    list. *)
Definition flaky (B : Type) (c : eff B) : world → result exn B * world :=
  match c in eff B return world → result exn B * world with
  | CLAIM k _ => λ w, if live k w then (Ok false, w) else (Ok true, claim k w)
  | INC _ _ => λ w, (Ok tt, w)
  | RELEASE k => λ w, (Ok tt, release k w)
  | CACHE_GET _ => λ w, (Ok (Some (Some reader, 0)), w)
  | NOW => λ w, (Ok 1000, w)
  | _ => λ w, (Err lookup_error, w)
  end.

Lemma flaky_effect key since B (c : eff B) w r w' : flaky B c w = (r, w') → effect key since B c w r w'.
Proof.
  destruct c; cbn; try (intros [= <- <-]; auto); destruct (live _ _) eqn:?; intros [= <- <-]; auto.
Defined.

Definition verification : NotificationCommand := {|
  channel := "EMAIL"; userId := Some ("usr_" ++ ulid26); to := None; template := "email_verification"; locale := "en-GB";
  params := VObj []; dedupeKey := "verify:1"; sendAfter := None |}.

(** The verification mail is lost: the first delivery throws, and the second is a
    duplicate. *)
Lemma thrown_delivery_is_lost_witness :
  let w := empty_world in
  ∃ w', exec eq (effect "verify:1" 0) (deliver loadRecipient verification) w (Err lookup_error) w' ∧
    live "verify:1" w' = true ∧
    ∀ res w'', exec eq (effect "verify:1" 0) (deliver loadRecipient verification) w' res w'' → accepted w'' = [].
Proof.
  set (w := empty_world).
  pose proof (run_exec flaky (deliver loadRecipient verification) w) as Hx.
  apply (exec_mono eq eq _ (effect "verify:1" 0)) in Hx; [|done|intros B c a r b; apply flaky_effect].
  assert (run flaky (deliver loadRecipient verification) w = (Err lookup_error, claim "verify:1" w)) as Hr by (vm_compute; reflexivity).
  rewrite Hr in Hx. cbn [fst snd] in Hx. exists (claim "verify:1" w).
  destruct (thrown_delivery_is_lost verification 0 w lookup_error _ Hx) as (_ & _ & Hl).
  assert (live "verify:1" (claim "verify:1" w) = true) as Hin by apply live_claimed.
  split; [exact Hx|]. split; [exact Hin|]. intros res w'' Hx'. exact (proj1 (Hl Hin res w'' Hx')).
Defined.
End NotifyExamples.
