(* ===== verification/Admin.v ===== *)
(** * admin: the service client and the session (lib/admin-api.ts, lib/session.ts)

    [adminCall], [requireAdmin] and [gatherAdmin].  Requests and responses are
    those of the storefront's client; nothing is cached and nothing is sent
    twice.  The network, the request scope, the cookie jar, the clock and the
    random source are the commands of [eff]; logging is dropped. *)
From S2P Require Import Prelude JsNumber JsString Zod Prog Schemas Api Bff.
Local Open Scope js_scope.
Local Open Scope Z_scope.

Module Admin.

(** ** Services *)

Inductive AdminService := identity | catalog | order | inventory | payment | search | review.

Definition service_name (s : AdminService) : jstr :=
  match s with
  | identity => "identity" | catalog => "catalog" | order => "order" | inventory => "inventory"
  | payment => "payment" | search => "search" | review => "review"
  end.

Definition SERVICES (env : jstr → option jstr) (s : AdminService) : option jstr :=
  env match s with
      | identity => "SOUQ_IDENTITY_URL" | catalog => "SOUQ_CATALOG_URL" | order => "SOUQ_ORDER_URL"
      | inventory => "SOUQ_INVENTORY_URL" | payment => "SOUQ_PAYMENT_URL" | search => "SOUQ_SEARCH_URL"
      | review => "SOUQ_REVIEW_URL"
      end.

Definition TIMEOUT_MS : Z := 10000.

(** ** Errors *)

Record AdminApiError := { status : Z; code : jstr; requestId : jstr; message : jstr }.

Inductive refusal := unauthenticated | no_role | no_mfa.
#[export] Instance refusal_eq_dec : EqDecision refusal.
Proof. solve_decision. Defined.
Definition refusal_name (r : refusal) : jstr :=
  match r with unauthenticated => "unauthenticated" | no_role => "no-role" | no_mfa => "no-mfa" end.

(** What can be thrown: [OtherError] is any other [Error]. *)
Inductive exn :=
| Api (e : AdminApiError)
| NotAuthorised (reason : refusal)
| ZodError (issues : list issue)
| AbortError
| OtherError (message : jstr).

(** [new AdminApiError(status, code, requestId, message)] *)
Definition api_error (status : Z) (code requestId message : jstr) : exn :=
  Api {| status := status; code := code; requestId := requestId; message := message |}.

(** ** Commands *)

Inductive eff : Type → Type :=
| FETCH (o : Bff.outgoing) : eff Bff.response
(* the x-request-id of the incoming request; rejects outside a request *)
| REQUEST_ID : eff (option jstr)
| UUID : eff jstr
| NOW : eff Z
(* the cookie jar of the request *)
| COOKIE (name : jstr) : eff (option jstr).

Abbreviation prog := (Prog.prog eff exn).

(** ** Calls *)

Record CallOptions := {
  service : AdminService;
  path : jstr;
  schema : Zod.schema;
  opt_method : option Bff.method;
  body : jsval;
  accessToken : jstr;
  idempotencyKey : option jstr
}.

(** The header every log downstream tells an operator by. *)
Definition requestHeaders (o : CallOptions) (rid : jstr) : list (jstr * jstr) :=
  [("Accept", "application/json"); ("Authorization", "Bearer " ++ accessToken o); ("X-Request-Id", rid);
   ("X-Correlation-Id", rid); ("X-Actor-Kind", "admin")] ++
  (if Bff.is_undefined (body o) then [] else [("Content-Type", "application/json")]) ++
  match Bff.truthy (idempotencyKey o) with Some k => [("Idempotency-Key", k)] | None => [] end.

Definition request_of (o : CallOptions) (base rid : jstr) : Bff.outgoing := {|
  Bff.o_method := Bff.method_name (default Bff.GET (opt_method o)); Bff.o_url := base ++ path o;
  Bff.o_headers := requestHeaders o rid; Bff.o_body := body o; Bff.o_cache := Some "no-store"; Bff.o_next := None;
  Bff.o_timeout := TIMEOUT_MS |}.

Section Client.
Context `{Zod} (env : jstr → option jstr).

(** [schema.parse(v)] *)
Definition parse (s : Zod.schema) (v : jsval) : result exn jsval :=
  match safeParse s v with Ok w => Ok w | Err issues => Err (ZodError issues) end.

(** What a failed response becomes: a body that is not JSON is [undefined]. *)
Definition rejected (r : Bff.response) (rid : jstr) : exn :=
  match safeParse Schemas.ProblemDetails (default VUndef (Bff.r_json r)) with
  | Ok data =>
      api_error (Bff.r_status r) (Bff.str_of (prop "code" data)) rid
        match prop "detail" data with VStr d => d | _ => Bff.str_of (prop "title" data) end
  | Err _ => api_error (Bff.r_status r) "INTERNAL_ERROR" rid ("status " ++ string_of_int (Bff.r_status r))
  end.

(** What the response, or the failure to get one, amounts to. *)
Definition outcome (o : CallOptions) (rid : jstr) (r : result exn Bff.response) : result exn jsval :=
  match r with
  | Err AbortError =>
      Err (api_error 504 "UPSTREAM_TIMEOUT" rid
             (service_name (service o) ++ " did not respond within " ++ string_of_int TIMEOUT_MS ++ "ms"))
  | Err _ => Err (api_error 502 "UPSTREAM_UNAVAILABLE" rid ("could not reach " ++ service_name (service o)))
  | Ok resp =>
      let upstreamRequestId := default rid (Bff.x_request_id resp) in
      if negb (Bff.ok resp) then Err (rejected resp upstreamRequestId)
      else if Bff.r_status resp =? 204 then parse (schema o) VUndef
      else match Bff.r_json resp with
      | None => Err (OtherError "Unexpected token in JSON")
      | Some payload =>
          match safeParse (schema o) payload with
          | Ok data => Ok data
          | Err _ =>
              Err (api_error 502 "UPSTREAM_UNAVAILABLE" upstreamRequestId
                     (service_name (service o) ++ " returned a response that does not match the contract"))
          end
      end
  end.

Definition incomingRequestId : prog (option jstr) :=
  try_catch (await REQUEST_ID) (λ _, mret None).

Definition adminCall (o : CallOptions) : prog jsval :=
  match Bff.truthy (SERVICES env (service o)) with
  | None =>
      Throw (api_error 500 "INTERNAL_ERROR" ""
               ("SOUQ_" ++ toUpperCase (service_name (service o)) ++ "_URL is not configured"))
  | Some base =>
      incoming ← incomingRequestId;
      rid ← match incoming with Some i => mret i | None => await UUID end;
      Await (FETCH (request_of o base rid)) (λ r, of_result (outcome o rid r))
  end.

(** ** The session *)

Definition REFRESH_COOKIE : jstr := "souq_rt".

Record AdminSession := { s_accessToken : jstr; s_user : jsval }.

(** The two calls to identity-service. *)
Definition refresh_call (refreshToken : jstr) : CallOptions := {|
  service := identity; path := "/v1/auth/refresh"; schema := Api.TokenPair; opt_method := Some Bff.POST;
  body := VObj [("refreshToken", VStr refreshToken)]; accessToken := ""; idempotencyKey := None |}.
Definition me_call (token : jstr) : CallOptions := {|
  service := identity; path := "/v1/me"; schema := Api.UserProfile; opt_method := None; body := VUndef;
  accessToken := token; idempotencyKey := None |}.

(** [user.roles.includes(role)] *)
Definition has_role (role : jstr) (user : jsval) : bool :=
  match prop "roles" user with
  | VArr l => existsb (λ v, match v with VStr s => bool_decide (s = role) | _ => false end) l
  | _ => false
  end.
Definition privileged (user : jsval) : bool := has_role "ADMIN" user || has_role "OPS" user.

Definition requireAdmin : prog AdminSession :=
  refreshToken ← await (COOKIE REFRESH_COOKIE);
  match Bff.truthy refreshToken with
  | None => Throw (NotAuthorised unauthenticated)
  | Some t =>
      token ← try_catch (pair ← adminCall (refresh_call t); mret (Bff.str_of (prop "accessToken" pair)))
        (λ error,
          match error with
          | Api e => if status e =? 401 then Throw (NotAuthorised unauthenticated) else Throw error
          | _ => Throw error
          end);
      user ← adminCall (me_call token);
      if negb (privileged user) then Throw (NotAuthorised no_role)
      else if negb (to_boolean (prop "mfaEnabled" user)) then Throw (NotAuthorised no_mfa)
      else mret {| s_accessToken := token; s_user := user |}
  end.
End Client.

(** ** Fan-out *)

(** [gatherAdmin] on the promises once they have all settled. *)
Definition gatherAdmin {A} (settled : list (jstr * result exn A)) : list (jstr * option A) :=
  map (λ '(key, r), (key, match r with Ok a => Some a | Err _ => None end)) settled.
End Admin.
