(* ===== verification/AdminRoutes.v ===== *)
(** * admin: the guard and the Route Handlers (app/api)

    [withAdmin] and [adminProblem] of _guard.ts, and one definition per exported
    handler.  A request is its body after [request.json()], which may reject. *)
From S2P Require Import Prelude JsNumber JsString JsDate Regex Zod Prog Schemas Api Bff BffRoutes.
From S2P Require Import Admin.
Local Open Scope js_scope.
Local Open Scope Z_scope.

Module AdminRoutes.
Import Admin.Admin.

(** ** Answers *)

Record answer := { a_status : Z; a_headers : list (jstr * jstr); a_body : jsval }.

(** [NextResponse.json] *)
Definition json (s : Z) (headers : list (jstr * jstr)) (b : jsval) : prog answer :=
  if BffRoutes.can_carry s then mret {| a_status := s; a_headers := headers; a_body := BffRoutes.wire b |}
  else Throw (OtherError "Response: invalid status code").

Definition NO_STORE : list (jstr * jstr) := [("Cache-Control", "no-store")].
Definition problem_headers : list (jstr * jstr) :=
  [("Content-Type", "application/problem+json"); ("Cache-Control", "no-store")].

(** ** The guard *)

Definition refused_status (r : refusal) : Z := match r with unauthenticated => 401 | _ => 403 end.

Definition refused_document (r : refusal) (instance rid : jstr) (now : Z) : jsval := VObj [
  ("type", VStr ("https://errors.souq.dev/admin/" ++ refusal_name r)); ("title", VStr "Not permitted");
  ("status", vint (refused_status r));
  ("detail", VStr match r with
                  | no_mfa => "The admin API requires a session with multi-factor authentication."
                  | _ => "The admin API requires the ADMIN or OPS role."
                  end);
  ("code", VStr (if refused_status r =? 401 then "UNAUTHENTICATED" else "FORBIDDEN")); ("instance", VStr instance);
  ("requestId", VStr rid); ("timestamp", VStr (toISOString now))].

Definition rejected_document (e : AdminApiError) (instance rid : jstr) (now : Z) : jsval := VObj [
  ("type", VStr ("https://errors.souq.dev/admin/" ++ replace_all 95 "-" (toLowerCase (code e))));
  ("title", VStr "Upstream rejected the request"); ("status", vint (status e)); ("detail", VStr (message e));
  ("code", VStr (code e)); ("instance", VStr instance); ("requestId", VStr rid); ("timestamp", VStr (toISOString now))].

Definition internal_document (instance rid : jstr) (now : Z) : jsval := VObj [
  ("type", VStr "https://errors.souq.dev/admin/internal-error"); ("title", VStr "Internal error");
  ("status", vint 500); ("detail", VStr ("Request " ++ rid ++ " failed.")); ("code", VStr "INTERNAL_ERROR");
  ("instance", VStr instance); ("requestId", VStr rid); ("timestamp", VStr (toISOString now))].

Definition adminProblem (error : exn) (instance : jstr) : prog answer :=
  rid ← match error with
        | Api e => match Bff.truthy (Some (requestId e)) with Some i => mret i | None => await UUID end
        | _ => await UUID
        end;
  now ← await NOW;
  match error with
  | NotAuthorised r => json (refused_status r) problem_headers (refused_document r instance rid now)
  | Api e => json (status e) problem_headers (rejected_document e instance rid now)
  | _ => json 500 problem_headers (internal_document instance rid now)
  end.

(** [result ?? { ok: true }] *)
Definition or_ok (v : jsval) : jsval := match v with VUndef | VNull => VObj [("ok", VBool true)] | _ => v end.

Section Guard.
Context `{Zod} (env : jstr → option jstr).

Definition withAdmin (instance : jstr) (handler : AdminSession → prog jsval) : prog answer :=
  try_catch
    (session ← requireAdmin env;
     result ← handler session;
     json 200 NO_STORE (or_ok result))
    (λ error, adminProblem error instance).

(** ** Health *)

Definition live : prog answer := json 200 NO_STORE (VObj [("status", VStr "ok")]).

Definition REQUIRED : list jstr := ["SOUQ_IDENTITY_URL"; "SOUQ_CATALOG_URL"; "SOUQ_ORDER_URL"].
Definition ready : prog answer :=
  match filter (λ name, Bff.truthy (env name) = None) REQUIRED with
  | [] => json 200 NO_STORE (VObj [("status", VStr "ready")])
  | missing => json 503 NO_STORE (VObj [("status", VStr "not-ready"); ("missing", VArr (map VStr missing))])
  end.

(** ** Actions *)

(** An action on a service: any answer will do. *)
Definition action (s : AdminService) (p : jstr) (m : Bff.method) (b : jsval) (key : option jstr)
    (session : AdminSession) : CallOptions := {|
  service := s; path := p; schema := ZUnknown; opt_method := Some m; body := b;
  accessToken := s_accessToken session; idempotencyKey := key |}.

Definition encoded (s : jstr) : prog jstr :=
  match encodeURIComponent s with Ok t => mret t | Err m => Throw (OtherError m) end.

(** [S.parse(await request.json())] *)
Definition parsed (s : Zod.schema) (q_json : result exn jsval) : prog jsval :=
  v ← of_result q_json; of_result (parse s v).

(** *** Products *)

Definition UpdateBody : Zod.schema := Schemas.obj [
  ("version", Schemas.int_min 0); ("title", ZOptional (ZString [SMax 500]));
  ("description", ZOptional (ZString [SMax 20000])); ("brand", ZOptional (ZString [SMax 200]));
  ("categorySlug", ZOptional (ZString [SMax 200]));
  ("status", ZOptional (ZEnum ["DRAFT"; "ACTIVE"; "ARCHIVED"; "DISCONTINUED"]))].

Definition update_product (id : jstr) (q_json : result exn jsval) : prog answer :=
  withAdmin ("/api/admin/catalog/" ++ id) (λ session,
    b ← parsed UpdateBody q_json;
    e ← encoded id;
    adminCall env (action catalog ("/v1/admin/products/" ++ e) Bff.PATCH b None session)).

Definition archive_product (id : jstr) : prog answer :=
  withAdmin ("/api/admin/catalog/" ++ id) (λ session,
    e ← encoded id;
    adminCall env (action catalog ("/v1/admin/products/" ++ e) Bff.DELETE VUndef None session)).

Definition PriceBody : Zod.schema := Schemas.obj [
  ("sku", ZString [SMin 1; SMax 64]); ("price", Schemas.int_min 0); ("listPrice", ZNullable (Schemas.int_min 0));
  ("currency", ZString [SRegex (rep 3 Schemas.upper)]); ("reason", ZString [SMin 3; SMax 200])].

Definition change_price (id : jstr) (q_json : result exn jsval) : prog answer :=
  withAdmin ("/api/admin/catalog/" ++ id ++ "/price") (λ session,
    b ← parsed PriceBody q_json;
    e ← encoded id;
    sku ← encoded (Bff.str_of (prop "sku" b));
    adminCall env (action catalog ("/v1/admin/products/" ++ e ++ "/variants/" ++ sku ++ "/price") Bff.POST
      (VObj [("price", prop "price" b); ("listPrice", prop "listPrice" b); ("currency", prop "currency" b);
             ("reason", prop "reason" b)]) None session)).

(** *** Dead letters *)

Definition DlqAction : Zod.schema := ZEnum ["replay"; "discard"].

Definition unknown_action (act instance : jstr) : prog answer :=
  adminProblem (api_error 400 "VALIDATION_FAILED" "" ("unknown action '" ++ act ++ "'")) instance.

Definition dlq_key (act id : jstr) : jstr := "dlq:" ++ act ++ ":" ++ id.

Definition dlq_message (id act : jstr) : prog answer :=
  match safeParse DlqAction (VStr act) with
  | Err _ => unknown_action act ("/api/admin/dlq/" ++ id ++ "/" ++ act)
  | Ok data =>
      let act := Bff.str_of data in
      withAdmin ("/api/admin/dlq/" ++ id ++ "/" ++ act) (λ session,
        e ← encoded id;
        adminCall env (action order ("/v1/admin/dlq/" ++ e ++ "/" ++ act) Bff.POST VUndef (Some (dlq_key act id)) session))
  end.

(** *** Sagas *)

Definition SagaAction : Zod.schema := ZEnum ["retry"; "cancel"].
Definition STEPS : list jstr := ["RESERVE"; "AUTHORIZE"; "COMMIT"; "CAPTURE"; "RELEASE"; "VOID"].
Definition RetryBody : Zod.schema := Schemas.obj [("step", ZEnum STEPS)].

Definition retry_key (id step : jstr) : jstr := "saga:retry:" ++ id ++ ":" ++ step.
Definition cancel_key (id : jstr) : jstr := "saga:cancel:" ++ id.

Definition order_action (id act : jstr) (q_json : result exn jsval) : prog answer :=
  match safeParse SagaAction (VStr act) with
  | Err _ => unknown_action act ("/api/admin/orders/" ++ id ++ "/" ++ act)
  | Ok data =>
      let act := Bff.str_of data in
      let instance := "/api/admin/orders/" ++ id ++ "/" ++ act in
      if decide (act = "retry") then
        b ← try_catch (v ← parsed RetryBody q_json; mret (Some v)) (λ _, mret None);
        match b with
        | None => adminProblem (api_error 400 "VALIDATION_FAILED" "" "a retry must name a saga step") instance
        | Some b =>
            withAdmin instance (λ session,
              e ← encoded id;
              adminCall env (action order ("/v1/admin/orders/" ++ e ++ "/retry") Bff.POST b
                (Some (retry_key id (Bff.str_of (prop "step" b)))) session))
        end
      else
        withAdmin instance (λ session,
          e ← encoded id;
          adminCall env (action order ("/v1/admin/orders/" ++ e ++ "/cancel") Bff.POST
            (VObj [("reason", VStr "OPERATOR_CANCELLED")]) (Some (cancel_key id)) session))
  end.
End Guard.
End AdminRoutes.
