(* ===== verification/AdminFacts.v ===== *)
(** * admin: who may act, and what the operator sees

    The guard as a protocol: what identity-service answered during a request
    decides whether the action is sent, with which token, and with what status
    the request ends.

    [AdminExamples] runs the routes in a small deployment. *)
From S2P Require Import Prelude JsNumber JsString JsDate Zod Schemas Api Prog Bff BffRoutes Admin.
From S2P Require Import AdminRoutes.
Local Open Scope js_scope.
Local Open Scope Z_scope.

Module AdminFacts.
Import Admin.Admin AdminRoutes.AdminRoutes.

(** ** Requests to the admin app *)

Inductive route :=
| UpdateProduct (id : jstr) (q_json : result exn jsval)
| ArchiveProduct (id : jstr)
| ChangePrice (id : jstr) (q_json : result exn jsval)
| DlqMessage (id act : jstr)
| OrderAction (id act : jstr) (q_json : result exn jsval).

Section Facts.
Context `{Zod} (env : jstr → option jstr).

Definition serve (r : route) : prog answer :=
  match r with
  | UpdateProduct id q => update_product env id q
  | ArchiveProduct id => archive_product env id
  | ChangePrice id q => change_price env id q
  | DlqMessage id act => dlq_message env id act
  | OrderAction id act q => order_action env id act q
  end.

(** ** The protocol *)

(** What a response, or the failure to get one, says under a schema: a value,
    or the status to report. *)
Definition said (sch : Zod.schema) (r : result exn Bff.response) : jsval + Z :=
  match r with
  | Err AbortError => inr 504
  | Err _ => inr 502
  | Ok resp =>
      if negb (Bff.ok resp) then inr (Bff.r_status resp)
      else match (if Bff.r_status resp =? 204 then Some VUndef else Bff.r_json resp) with
      | None => inr 500
      | Some v =>
          match safeParse sch v with
          | Ok w => inl w
          | Err _ => inr (if Bff.r_status resp =? 204 then 500 else 502)
          end
      end
  end.

Inductive phase :=
| Arrived
| Presented (refreshToken : jstr)
| Exchanged (token : jstr)
| Cleared (token : jstr)
| Closed (status : Z).

Definition next (p : phase) (B : Type) (c : eff B) : result exn B → phase :=
  match c in eff B return result exn B → phase with
  | COOKIE _ => λ r, match r with Ok (Some (x :: t)) => Presented (x :: t) | _ => Closed 401 end
  | FETCH _ => λ r,
      match p with
      | Presented _ =>
          match said Api.TokenPair r with
          | inl tokens => Exchanged (Bff.str_of (prop "accessToken" tokens))
          | inr s => Closed s
          end
      | Exchanged token =>
          match said Api.UserProfile r with
          | inl user =>
              if privileged user && to_boolean (prop "mfaEnabled" user) then Cleared token else Closed 403
          | inr s => Closed s
          end
      | Cleared _ => match said ZUnknown r with inl _ => Closed 200 | inr s => Closed s end
      | _ => p
      end
  | _ => λ _, p
  end.

(** The request that may be sent in a phase. *)
Definition may_send (p : phase) (o : Bff.outgoing) : Prop :=
  Bff.o_cache o = Some "no-store" ∧
  match p with
  | Presented t =>
      ∃ base rid, SERVICES env identity = Some base ∧ o = request_of (refresh_call t) base rid
  | Exchanged token =>
      ∃ base rid, SERVICES env identity = Some base ∧ o = request_of (me_call token) base rid
  | Cleared token =>
      ("Authorization" : jstr, "Bearer " ++ token : jstr) ∈ Bff.o_headers o ∧
      ("X-Actor-Kind" : jstr, "admin" : jstr) ∈ Bff.o_headers o
  | _ => False
  end.
Definition allowed (p : phase) (B : Type) (c : eff B) : Prop :=
  match c with FETCH o => may_send p o | COOKIE n => p = Arrived ∧ n = REFRESH_COOKIE | _ => True end.

(** The runtime does not fail, and a service that refuses says so with a status
    an answer can carry. *)
Definition possible (B : Type) (c : eff B) : result exn B → Prop :=
  match c in eff B return result exn B → Prop with
  | FETCH _ => λ r, ∀ resp, r = Ok resp → Bff.ok resp = false → BffRoutes.can_carry (Bff.r_status resp) = true
  | REQUEST_ID => λ _, True
  | _ => λ r, is_ok r = true
  end.

(** The status a request ends with. *)
Definition reported (p : phase) : Z :=
  match p with Arrived => 400 | Closed s => s | _ => 500 end.

(** The status an error is answered with. *)
Definition exn_status (e : exn) : Z :=
  match e with NotAuthorised r => refused_status r | Api e => status e | _ => 500 end.

Notation follows := (follows allowed possible next).

(** ** Calls *)

Lemma said_outcome o rid r :
  said (schema o) r = match outcome o rid r with Ok v => inl v | Err e => inr (exn_status e) end.
Proof.
  unfold said, outcome, parse, rejected. destruct r as [resp|[]]; try done.
  destruct (Bff.ok resp); cbn [negb]; [|by destruct (safeParse _ _)].
  destruct (Bff.r_status resp =? 204); [by destruct (safeParse _ _)|].
  destruct (Bff.r_json resp); [|done]. by destruct (safeParse _ _).
Qed.

Lemma said_carries sch r s :
  possible _ (FETCH (request_of (me_call "") "" "")) r → said sch r = inr s → BffRoutes.can_carry s = true.
Proof.
  intros Hp. unfold said. destruct r as [resp|[]]; try by intros [= <-].
  destruct (Bff.ok resp) eqn:Hok; cbn [negb]; [|intros [= <-]; by apply Hp].
  destruct (if _ =? 204 then _ else _); [|by intros [= <-]]. destruct (safeParse _ _); [done|].
  intros [= <-]. by destruct (_ =? 204).
Qed.

(** Nothing but the request of the call is sent, once. *)
Lemma call_follows p o (Q : jsval → phase → Prop) (T : exn → phase → Prop) :
  (∀ base rid, SERVICES env (service o) = Some base → may_send p (request_of o base rid)) →
  (∀ e, exn_status e = 500 → T e p) →
  (∀ r v p', said (schema o) r = inl v → p' = next p _ (FETCH (request_of o "" "")) r → Q v p') →
  (∀ r e p', said (schema o) r = inr (exn_status e) → BffRoutes.can_carry (exn_status e) = true →
     p' = next p _ (FETCH (request_of o "" "")) r → T e p') →
  follows p (adminCall env o) Q T.
Proof.
  intros Hs H5 HQ HT. unfold adminCall. destruct (Bff.truthy (SERVICES env (service o))) as [base|] eqn:Hb; [|by apply H5].
  assert (SERVICES env (service o) = Some base) as Hb'.
  { revert Hb. by destruct (SERVICES env (service o)) as [[]|]. }
  apply follows_bind. split; [done|]. intros r0 _.
  assert (∀ rid, follows p (Await (FETCH (request_of o base rid)) (λ r, of_result (outcome o rid r))) Q T) as Hf.
  { intros rid. split; [by apply Hs|]. intros r Hp. apply follows_of_result. pose proof (said_outcome o rid r) as Ho.
    destruct (outcome o rid r) as [v|e]; [by eapply HQ|]. eapply HT; [done| |done]. by eapply said_carries. }
  assert (∀ i : option jstr, follows p (rid ← match i with Some i => mret i | None => await UUID end;
    Await (FETCH (request_of o base rid)) (λ r, of_result (outcome o rid r))) Q T) as Hi.
  { intros [i|]; [apply Hf|]. split; [done|]. intros [u|] Hu; [apply Hf|done]. }
  destruct r0 as [i|e]; [exact (Hi i)|exact (Hi None)].
Qed.

(** An error a phase explains. *)
Definition explained (e : exn) (p : phase) : Prop :=
  exn_status e = reported p ∧ BffRoutes.can_carry (exn_status e) = true.

(** What is asked about the holder of a token. *)
Definition admitted (token : jstr) : prog AdminSession :=
  user ← adminCall env (me_call token);
  if negb (privileged user) then Throw (NotAuthorised no_role)
  else if negb (to_boolean (prop "mfaEnabled" user)) then Throw (NotAuthorised no_mfa)
  else mret {| s_accessToken := token; s_user := user |}.

Lemma admitted_follows token :
  follows (Exchanged token) (admitted token) (λ s p, p = Cleared (s_accessToken s)) explained.
Proof.
  apply follows_bind, call_follows.
  - intros base rid Hb. split; [done|]. by exists base, rid.
  - intros e He. split; by rewrite He.
  - intros r' user p' Hu ->. cbn [next]. cbn [schema me_call] in Hu. rewrite Hu.
    destruct (privileged user); cbn [negb andb]; [|done]. by destruct (to_boolean _).
  - intros r' e p' He Hcc ->. cbn [next]. cbn [schema me_call] in He. by rewrite He.
Qed.

Lemma requireAdmin_follows :
  follows Arrived (requireAdmin env) (λ s p, p = Cleared (s_accessToken s)) explained.
Proof.
  split; [done|]. intros [c|] Hc; [|done]. destruct c as [[|x t]|]; [done| |done].
  change (follows (Presented (x :: t)) (
    token ← try_catch (tokens ← adminCall env (refresh_call (x :: t)); mret (Bff.str_of (prop "accessToken" tokens)))
      (λ error, match error with
                | Api e => if status e =? 401 then Throw (NotAuthorised unauthenticated) else Throw error
                | _ => Throw error
                end);
    admitted token) (λ s p, p = Cleared (s_accessToken s)) explained).
  apply follows_bind, follows_try. apply follows_bind, call_follows.
  - intros base rid Hb. split; [done|]. by exists base, rid.
  - intros [] He; try (by split; [|rewrite He]). cbn in He |- *. destruct (status e =? 401) eqn:E; [lia|].
    split; cbn; by rewrite He.
  - intros r v p' Hv ->. cbn [follows next]. cbn [schema refresh_call] in Hv. rewrite Hv. cbn [follows mret prog_ret].
    apply admitted_follows.
  - intros r e p' He Hcc ->. cbn [next]. cbn [schema refresh_call] in He. rewrite He.
    destruct e as [e| | | |]; try done. cbn in *. destruct (Z.eqb_spec (status e) 401) as [->|]; done.
Qed.

(** ** Answers *)

Lemma adminProblem_follows e i p :
  BffRoutes.can_carry (exn_status e) = true →
  follows p (adminProblem e i) (λ a p', p' = p ∧ a_status a = exn_status e) (λ _ _, False).
Proof.
  intros Hc. unfold adminProblem. apply follows_bind.
  eapply (follows_mono _ _ _ _ _ (λ _ p', p' = p) _ (λ _ _, False)); [| |done].
  { assert (follows p (await UUID) (λ _ p', p' = p) (λ _ _, False)) as Hu by (split; [done|]; by intros []).
    destruct e as [e| | | |]; [by destruct (Bff.truthy (Some (requestId e)))|exact Hu..]. }
  intros rid p' ->. split; [done|]. intros [now|] Hn; [|done]. cbn [of_result pbind next].
  destruct e; cbn in Hc |- *; unfold json; rewrite ?Hc; done.
Qed.

Lemma withAdmin_follows i h :
  (∀ s, follows (Cleared (s_accessToken s)) (h s) (λ _ p, p = Closed 200) explained) →
  follows Arrived (withAdmin env i h) (λ a p, a_status a = reported p) (λ _ _, False).
Proof.
  intros Hh. apply follows_try. apply follows_bind. eapply follows_mono; [apply requireAdmin_follows| |].
  - intros s p ->. apply follows_bind. eapply follows_mono; [apply Hh| |].
    + intros v p ->. done.
    + intros e p [He Hc]. eapply follows_mono; [by apply adminProblem_follows| |done]. intros a p' [-> ->]. done.
  - intros e p [He Hc]. eapply follows_mono; [by apply adminProblem_follows| |done]. intros a p' [-> ->]. done.
Qed.

Lemma action_follows s svc path m b key :
  follows (Cleared (s_accessToken s)) (adminCall env (action svc path m b key s)) (λ _ p, p = Closed 200) explained.
Proof.
  apply call_follows.
  - intros base rid _. split; [done|]. cbn -[app].
    split; apply elem_of_app; left; set_solver.
  - intros e He. split; by rewrite He.
  - intros r v p' Hv ->. cbn [next]. cbn [schema action] in Hv. by rewrite Hv.
  - intros r e p' He Hcc ->. cbn [next]. cbn [schema action] in He. by rewrite He.
Qed.

(** A body that is refused, an id that cannot be encoded. *)
Lemma parsed_follows p sch q {A} (f : jsval → prog A) Q :
  reported p = 500 → (∀ e, q = Err e → exn_status e = 500) →
  (∀ v, follows p (f v) Q explained) → follows p (b ← parsed sch q; f b) Q explained.
Proof.
  intros Hp Hq Hf. unfold parsed. apply follows_bind, follows_bind, follows_of_result.
  destruct q as [v|e]; [|specialize (Hq e eq_refl); split; by rewrite ?Hq].
  apply follows_of_result. unfold parse. destruct (safeParse sch v); [apply Hf|by split].
Qed.
Lemma encoded_follows p s {A} (f : jstr → prog A) Q :
  reported p = 500 → (∀ e, follows p (f e) Q explained) → follows p (e ← encoded s; f e) Q explained.
Proof. intros Hp Hf. unfold encoded. destruct (encodeURIComponent s); [apply Hf|by split]. Qed.

Lemma unknown_follows act i :
  follows Arrived (unknown_action act i) (λ a p, a_status a = reported p) (λ _ _, False).
Proof. eapply follows_mono; [by apply adminProblem_follows| |done]. by intros a p [-> ->]. Qed.

(** The body of the request, if it has one, is read as JSON or not at all. *)
Definition readable (r : route) : Prop :=
  match r with
  | UpdateProduct _ q | ChangePrice _ q | OrderAction _ _ q => ∀ e, q = Err e → exn_status e = 500
  | _ => True
  end.

(** C25. Only a checked operator acts, and sees how it ended: whatever the network
    does, a request to the admin app sends nothing to catalog- or order-service
    unless it presented a refresh token that identity-service exchanged, and
    identity-service then answered for the new token a user with the role ADMIN
    or OPS and a second factor; what is sent then is one request, with that
    token, marked as an operator's and never cached; and the request is always
    answered, with the status of the step it ended at. *)
Theorem operator_is_checked r :
  readable r → follows Arrived (serve r) (λ a p, a_status a = reported p) (λ _ _, False).
Proof.
  intros Hr. destruct r as [id q|id|id q|id act|id act q]; cbn [serve readable] in *.
  - apply withAdmin_follows. intros s. apply parsed_follows; [done..|intros b].
    apply encoded_follows; [done|intros e]. apply action_follows.
  - apply withAdmin_follows. intros s. apply encoded_follows; [done|intros e]. apply action_follows.
  - apply withAdmin_follows. intros s. apply parsed_follows; [done..|intros b].
    do 2 (apply encoded_follows; [done|intros ?]). apply action_follows.
  - unfold dlq_message. destruct (safeParse _ _); [|apply unknown_follows].
    apply withAdmin_follows. intros s. apply encoded_follows; [done|intros e]. apply action_follows.
  - unfold order_action. destruct (safeParse _ _); [|apply unknown_follows].
    destruct (decide _).
    + apply follows_bind. apply follows_try. unfold parsed. do 2 apply follows_bind. apply follows_of_result.
      assert (∀ i m, follows Arrived (adminProblem (api_error 400 "VALIDATION_FAILED" "" m) i)
        (λ a p, a_status a = reported p) (λ _ _, False)) as Hb.
      { intros i m. eapply follows_mono; [by apply adminProblem_follows|by intros ? p [-> ->]|done]. }
      destruct q as [v|err]; [|apply Hb]. apply follows_of_result. destruct (parse _ _) as [b|err]; [|apply Hb].
      cbn [follows mret prog_ret]. apply withAdmin_follows. intros s. apply encoded_follows; [done|intros ?]. apply action_follows.
    + apply withAdmin_follows. intros s. apply encoded_follows; [done|intros e]. apply action_follows.
Qed.

(** ** Operations and their keys *)

Inductive operation := Replay (id : jstr) | Discard (id : jstr) | Retry (id step : jstr) | Cancel (id : jstr).

Definition operation_id (op : operation) : jstr :=
  match op with Replay id | Discard id | Retry id _ | Cancel id => id end.
Definition operation_key (op : operation) : jstr :=
  match op with
  | Replay id => dlq_key "replay" id | Discard id => dlq_key "discard" id
  | Retry id step => retry_key id step | Cancel id => cancel_key id
  end.
(** The path of an operation on an encoded id. *)
Definition operation_path (op : operation) (e : jstr) : jstr :=
  match op with
  | Replay _ => "/v1/admin/dlq/" ++ e ++ "/replay" | Discard _ => "/v1/admin/dlq/" ++ e ++ "/discard"
  | Retry _ _ => "/v1/admin/orders/" ++ e ++ "/retry" | Cancel _ => "/v1/admin/orders/" ++ e ++ "/cancel"
  end.

(** What a request asks for. *)
Inductive names : route → operation → Prop :=
| names_replay id : names (DlqMessage id "replay") (Replay id)
| names_discard id : names (DlqMessage id "discard") (Discard id)
| names_cancel id q : names (OrderAction id "cancel" q) (Cancel id)
| names_retry id v b step :
    safeParse RetryBody v = Ok b → prop "step" b = VStr step → step ∈ STEPS →
    names (OrderAction id "retry" (Ok v)) (Retry id step).

Definition to_identity (o : Bff.outgoing) : Prop :=
  ∃ base rid t, SERVICES env identity = Some base ∧
    (o = request_of (refresh_call t) base rid ∨ o = request_of (me_call t) base rid).

(** A request that asks a service for an operation. *)
Definition asks_for (op : operation) (o : Bff.outgoing) : Prop :=
  Bff.o_method o = "POST" ∧ ("Idempotency-Key" : jstr, operation_key op) ∈ Bff.o_headers o ∧
  ∃ base e, encodeURIComponent (operation_id op) = Ok e ∧ Bff.o_url o = base ++ operation_path op e ∧
    (47%N ∉ e ∧ 63%N ∉ e ∧ 35%N ∉ e).

(** No character of an encoded string separates anything in a URL. *)
Lemma hex_plain n : hex_digit n ∉ [47%N; 63%N; 35%N].
Proof. unfold hex_digit. rewrite !elem_of_cons, elem_of_nil. destruct (N.ltb_spec n 10); lia. Qed.

Lemma percents_plain (l : list N) : Forall (λ c, c ∉ [47%N; 63%N; 35%N]) (l ≫= percent).
Proof.
  induction l as [|b l IH]; [constructor|]. cbn. constructor; [by apply (bool_decide_unpack _)|].
  do 2 (constructor; [apply hex_plain|]). exact IH.
Qed.

Lemma encoded_plain s t : encodeURIComponent s = Ok t → Forall (λ c, c ∉ [47%N; 63%N; 35%N]) t.
Proof.
  revert t. induction s as [[|c s] IH] using (induction_ltof1 _ length); intros t; cbn; [intros [= <-]; constructor|].
  assert (∀ r f, ltof _ length r (c :: s) → Forall (λ c, c ∉ [47%N; 63%N; 35%N]) f →
    (λ t, f ++ t) <$> encodeURIComponent r = Ok t → Forall (λ c, c ∉ [47%N; 63%N; 35%N]) t) as Hr.
  { intros r f Hl Hf Ht. destruct (encodeURIComponent r) as [t'|] eqn:E; [|done]. injection Ht as <-.
    apply Forall_app. split; [done|]. by eapply IH. }
  destruct (is_high_surrogate c).
  - destruct s as [|d s]; [done|]. destruct (is_low_surrogate d); [|done]. apply Hr; [unfold ltof; cbn; lia|apply percents_plain].
  - destruct (is_low_surrogate c); [done|]. apply Hr; [unfold ltof; cbn; lia|].
    destruct (uri_unreserved c) eqn:Hc; [|apply percents_plain]. constructor; [|constructor].
    rewrite !elem_of_cons, elem_of_nil. intros [->|[->|[->|[]]]]; done.
Qed.

(** ** One operation, one key *)

Lemma call_awaits o (P : Bff.outgoing → Prop) :
  (∀ base rid, SERVICES env (service o) = Some base → P (request_of o base rid)) →
  awaits (λ B c, match c with FETCH q => P q | _ => True end) (adminCall env o).
Proof.
  intros HP. unfold adminCall. destruct (Bff.truthy _) as [base|] eqn:Hb; [|done].
  assert (SERVICES env (service o) = Some base) as Hb' by (revert Hb; by destruct (SERVICES env (service o)) as [[]|]).
  apply awaits_bind; [by split; [|intros []]|]. intros i. apply awaits_bind; [by destruct i; [|split; [|intros []]]|].
  intros rid. split; [by apply HP|]. intros r. apply awaits_of_result.
Qed.

Lemma adminProblem_awaits P e i : awaits (λ B c, match c with FETCH q => P q | _ => True end) (adminProblem e i).
Proof.
  apply awaits_bind.
  - assert (awaits (λ B c, match c with FETCH q => P q | _ => True end) (await UUID : prog jstr)) as Hu by (by split; [|intros []]).
    destruct e as [e| | | |]; [by destruct (Bff.truthy (Some (requestId e)))|exact Hu..].
  - intros rid. apply awaits_bind; [by split; [|intros []]|]. intros now. unfold json. by destruct e; destruct (BffRoutes.can_carry _).
Qed.

Lemma withAdmin_awaits (P : Bff.outgoing → Prop) i h :
  (∀ o, to_identity o → P o) →
  (∀ s, awaits (λ B c, match c with FETCH q => P q | _ => True end) (h s)) →
  awaits (λ B c, match c with FETCH q => P q | _ => True end) (withAdmin env i h).
Proof.
  intros HP Hh. apply awaits_try; [|intros e; apply adminProblem_awaits].
  apply awaits_bind; [|intros s; apply awaits_bind; [apply Hh|]; intros v; unfold json; by destruct (BffRoutes.can_carry _)].
  apply awaits_bind; [by split; [|intros []]|]. intros c. destruct (Bff.truthy c); [|done]. apply awaits_bind.
  - apply awaits_try; [|intros [] ; try done; by destruct (_ =? 401)]. apply awaits_bind; [|done].
    apply call_awaits. intros base rid Hb. apply HP. exists base, rid. eauto.
  - intros t. apply awaits_bind; [|intros user; by repeat destruct (negb _)].
    apply call_awaits. intros base rid Hb. apply HP. exists base, rid. eauto.
Qed.

Lemma operation_awaits r op i b :
  names r op →
  awaits (λ B c, match c with FETCH o => to_identity o ∨ ∃ op, names r op ∧ asks_for op o | _ => True end)
    (withAdmin env i (λ session,
       e ← encoded (operation_id op);
       adminCall env (action order (operation_path op e) Bff.POST b (Some (operation_key op)) session))).
Proof.
  intros Hn. apply withAdmin_awaits; [by left|]. intros s. unfold encoded.
  destruct (encodeURIComponent (operation_id op)) as [e|] eqn:He; [|done]. apply call_awaits. intros base rid _. right.
  exists op. split; [done|]. split; [done|]. split.
  - apply elem_of_app. right. apply elem_of_app. right. cbn [idempotencyKey action].
    assert (Bff.truthy (Some (operation_key op)) = Some (operation_key op)) as -> by (by destruct op). by apply list_elem_of_singleton.
  - exists base, e. split; [done|]. split; [done|]. apply encoded_plain in He. rewrite Forall_forall in He.
    split_and!; intros Hin; apply (He _ Hin); set_solver.
Qed.

(** What the two [z.enum]s and the body of a retry let through. *)
Lemma enum_out ts act data : safeParse (ZEnum ts) (VStr act) = Ok data → data = VStr act ∧ act ∈ ts.
Proof. intros He%safeParse_ok. cbn in He. destruct (decide _); [|done]. by injection He as <-. Qed.

Lemma retry_step v b : safeParse RetryBody v = Ok b → ∃ step, prop "step" b = VStr step ∧ step ∈ STEPS.
Proof.
  intros Hb. assert (interp is_email is_url is_uuid (ZEnum STEPS) (prop "step" v) = Some (prop "step" b)) as Hs.
  { apply (safeParse_field [("step", ZEnum STEPS)] true v b); [done|by apply nodup_keys; vm_compute|by left]. }
  cbn [interp] in Hs. destruct (prop "step" v) as [| | | |t| |]; try done. destruct (decide _); [|done].
  exists t. by injection Hs as <-.
Qed.

(** The last colon separates the step from the id. *)
Lemma last_separator (x : N) (a a' s s' : jstr) : x ∉ s → x ∉ s' → a ++ x :: s = a' ++ x :: s' → a = a' ∧ s = s'.
Proof.
  intros Hs Hs' He. apply app_eq_app in He as (l & [[-> Hl]|[-> Hl]]); destruct l as [|y l]; cbn in Hl.
  - injection Hl as ->. by rewrite app_nil_r.
  - injection Hl as <- ->. set_solver.
  - injection Hl as ->. by rewrite app_nil_r.
  - injection Hl as <- ->. set_solver.
Qed.

Lemma step_plain step : step ∈ STEPS → 58%N ∉ step.
Proof.
  intros Hs. assert (Forall (λ t : jstr, 58%N ∉ t) STEPS) as Hf by (by apply (bool_decide_unpack _); vm_compute).
  rewrite Forall_forall in Hf. by apply Hf.
Qed.

Lemma keys_apart r r' op op' : names r op → names r' op' → operation_key op = operation_key op' → op = op'.
Proof.
  intros [id|id|id q|id v b step _ _ Hs] [id'|id'|id' q'|id' v' b' step' _ _ Hs'] He; try done;
    cbn in He; injection He as He; try (by subst).
  apply (last_separator 58%N) in He as [-> ->]; [done|by apply step_plain..].
Qed.

Lemma names_once r op op' : names r op → names r op' → op = op'.
Proof.
  intros [id|id|id q|id v b step Hb Hp _] Hn; inversion Hn as [| | |? v' b' step' Hb' Hp']; subst; try done.
  f_equal. congruence.
Qed.

(** One operation, one key: a request about a dead letter or a saga sends,
    besides the two to identity-service, only the POST of the one operation it
    names, on the encoded id, which cannot add a segment to the path; it carries
    a key that is the same for every such request and that no other operation
    has, so that pressing the button twice is one operation. *)
Theorem one_operation_one_key r op :
  names r op →
  awaits (λ B c, match c with FETCH o => to_identity o ∨ asks_for op o | _ => True end) (serve r) ∧
  (∀ r' op', names r' op' → operation_key op = operation_key op' ↔ op = op').
Proof.
  intros Hn. split; [|intros r' op' Hn'; split; [by apply (keys_apart r r')|by intros ->]].
  assert (∀ B (c : eff B), match c with FETCH o => to_identity o ∨ ∃ op, names r op ∧ asks_for op o | _ => True end →
    match c with FETCH o => to_identity o ∨ asks_for op o | _ => True end) as Hm.
  { intros B [o| | | |]; try done. intros [|(op' & Hn' & Ha)]; [by left|]. right. by rewrite (names_once r op op' Hn Hn'). }
  eapply awaits_mono; [exact Hm|].
  destruct Hn as [id|id|id q|id v b step Hb Hp Hs]; cbn [serve].
  - unfold dlq_message. destruct (safeParse _ _) as [data|] eqn:Hd; [|apply adminProblem_awaits].
    apply enum_out in Hd as [-> _]. exact (operation_awaits _ (Replay id) _ VUndef (names_replay id)).
  - unfold dlq_message. destruct (safeParse _ _) as [data|] eqn:Hd; [|apply adminProblem_awaits].
    apply enum_out in Hd as [-> _]. exact (operation_awaits _ (Discard id) _ VUndef (names_discard id)).
  - unfold order_action. destruct (safeParse _ _) as [data|] eqn:Hd; [|apply adminProblem_awaits].
    apply enum_out in Hd as [-> _]. rewrite decide_False by done.
    exact (operation_awaits _ (Cancel id) _ _ (names_cancel id q)).
  - unfold order_action. destruct (safeParse SagaAction _) as [data|] eqn:Hd; [|apply adminProblem_awaits].
    apply enum_out in Hd as [-> _]. rewrite decide_True by done.
    unfold parsed. cbn [of_result]. cbn [mbind prog_bind pbind]. unfold parse. rewrite Hb.
    assert (names (OrderAction id "retry" (Ok v)) (Retry id (Bff.str_of (prop "step" b)))) as Hn
      by (rewrite Hp; by eapply names_retry).
    exact (operation_awaits _ (Retry id (Bff.str_of (prop "step" b))) _ b Hn).
Qed.
End Facts.
End AdminFacts.

(** * admin: examples

    The guard run against an identity-service that answers with a given user,
    and the witnesses of the theorems on the admin app. *)

Module AdminExamples.
Import Admin.Admin AdminRoutes.AdminRoutes AdminFacts.AdminFacts.

Definition everywhere (name : jstr) : option jstr := Some "http://svc".

(** ** A small deployment *)

Definition tokens : jsval := VObj [
  ("accessToken", VStr "at-1"); ("expiresIn", vint 900); ("tokenType", VStr "Bearer")].
Definition operator (role : jstr) (mfa : bool) : jsval := VObj [
  ("id", VStr "usr_01ARZ3NDEKTSV4RRFFQ69G5FAV"); ("email", VStr "ops@souq.dev"); ("fullName", VStr "Ops");
  ("locale", VStr "en-GB"); ("roles", VArr [VStr role]); ("mfaEnabled", VBool mfa); ("emailVerified", VBool true);
  ("createdAt", VStr "2024-01-01T00:00:00.000Z")].

(** Identity-service as [user] says, order- and catalog-service content; every
    request is kept. *)
Definition desk (cookie : option jstr) (user : jsval) (B : Type) (c : eff B)
    : list Bff.outgoing → result exn B * list Bff.outgoing :=
  match c in eff B return list Bff.outgoing → result exn B * list Bff.outgoing with
  | FETCH o => λ sent,
      let body := if endsWith "/v1/auth/refresh" (Bff.o_url o) then tokens
                  else if endsWith "/v1/me" (Bff.o_url o) then user else VObj [] in
      (Ok {| Bff.r_status := 200; Bff.x_request_id := None; Bff.r_json := Some body |}, sent ++ [o])
  | REQUEST_ID => λ sent, (Ok None, sent)
  | UUID => λ sent, (Ok "req-1" : result exn jstr, sent)
  | NOW => λ sent, (Ok 0, sent)
  | COOKIE _ => λ sent, (Ok cookie, sent)
  end.

(** The status of a request and the URLs it led to. *)
Definition tried (cookie : option jstr) (user : jsval) (r : route) : option Z * list jstr :=
  let '(a, sent) := run (desk cookie user) (serve everywhere r) [] in
  (match a with Ok x => Some (a_status x) | Err _ => None end, map Bff.o_url sent).

Definition replay_m1 : route := DlqMessage "m/1" "replay".

Example an_operator_replays :
  tried (Some "rt") (operator "OPS" true) replay_m1 =
  (Some 200, ["http://svc/v1/auth/refresh"; "http://svc/v1/me"; "http://svc/v1/admin/dlq/m%2F1/replay" : jstr]).
Proof. vm_compute. reflexivity. Qed.
Example a_customer_does_not :
  tried (Some "rt") (operator "CUSTOMER" true) replay_m1 = (Some 403, ["http://svc/v1/auth/refresh"; "http://svc/v1/me" : jstr]).
Proof. vm_compute. reflexivity. Qed.
Example nor_does_a_password_alone :
  tried (Some "rt") (operator "ADMIN" false) replay_m1 = (Some 403, ["http://svc/v1/auth/refresh"; "http://svc/v1/me" : jstr]).
Proof. vm_compute. reflexivity. Qed.
Example nor_a_stranger : tried None (operator "ADMIN" true) replay_m1 = (Some 401, []).
Proof. vm_compute. reflexivity. Qed.
Example purging_is_no_action :
  tried (Some "rt") (operator "OPS" true) (DlqMessage "m1" "../purge") = (Some 400, []).
Proof. vm_compute. reflexivity. Qed.
(** A body that is refused is answered 500. *)
Example a_bad_price_is_an_internal_error :
  (tried (Some "rt") (operator "OPS" true) (ChangePrice "p1" (Ok (VObj [])))).1 = Some 500.
Proof. vm_compute. reflexivity. Qed.

(** ** Witnesses *)

Lemma operator_is_checked_witness :
  readable replay_m1 ∧
  follows (allowed everywhere) possible next Arrived (serve everywhere replay_m1)
    (λ a p, a_status a = reported p) (λ _ _, False).
Proof. split; [exact I|]. exact (operator_is_checked everywhere replay_m1 I). Defined.

Lemma one_operation_one_key_witness :
  names replay_m1 (Replay "m/1") ∧
  (operation_key (Replay "m/1") = operation_key (Discard "m/1") ↔ Replay "m/1" = Discard "m/1").
Proof.
  split; [constructor|].
  apply (one_operation_one_key everywhere replay_m1 (Replay "m/1")) with (DlqMessage "m/1" "discard"); constructor.
Defined.
End AdminExamples.
