(* ===== verification/OrderProgress.v ===== *)
(** * storefront: following an order (components/checkout/order-progress.tsx)

    The page as a machine: [mounted] is what the effect sets up, and [step] one
    turn of the event loop, in which a frame of the stream arrives, the stream
    fails, a timer fires, the answer to a poll arrives, or the page is left.
    [rendered] is what the component then shows.  A poll is one command, its
    answer the body of a response that is ok, or nothing.

    [OrderProgressFacts] says what becomes of the page in every run. *)
From Stdlib Require Import QArith.
From S2P Require Import Prelude JsNumber JsString Zod Events Api Primitives.
Local Open Scope js_scope.
Local Open Scope Z_scope.

Module OrderProgress.

(** ** Copy *)

Record progress_step := { p_status : jstr; label : jstr; detail : jstr }.

Definition STEPS : list progress_step := [
  {| p_status := "PENDING"; label := "Order received"; detail := "Checking availability" |};
  {| p_status := "STOCK_RESERVED"; label := "Items reserved"; detail := "Authorising payment" |};
  {| p_status := "PAID"; label := "Payment approved"; detail := "Confirming your items" |};
  {| p_status := "STOCK_COMMITTED"; label := "Items confirmed"; detail := "Completing payment" |};
  {| p_status := "CONFIRMED"; label := "Order confirmed"; detail := "All done" |}].

(** [findIndex], and 0 for what is not there. *)
Fixpoint find_index (s : jstr) (l : list progress_step) : option nat :=
  match l with
  | [] => None
  | x :: r => if decide (p_status x = s) then Some 0%nat else S <$> find_index s r
  end.
Definition stepIndex (s : jstr) : nat := default 0%nat (find_index s STEPS).

Record copy := { title : jstr; body : jstr; retry : bool }.

Definition FAILURE_COPY : list (jstr * copy) := [
  ("INSUFFICIENT_STOCK", {| title := "Some items sold out";
    body := "They went while you were checking out. Nothing has been charged."; retry := false |});
  ("PAYMENT_DECLINED", {| title := "Your payment was declined";
    body := "Your bank turned down the payment. Nothing has been charged — try another card."; retry := true |});
  ("PAYMENT_TIMEOUT", {| title := "Payment took too long";
    body := "We could not reach your bank in time and released your items. Nothing has been charged."; retry := true |});
  ("RESERVATION_TIMEOUT", {| title := "Checkout timed out";
    body := "Your items were released. Nothing has been charged."; retry := true |});
  ("CUSTOMER_CANCELLED", {| title := "Order cancelled";
    body := "You cancelled this order. Nothing has been charged."; retry := true |});
  ("FRAUD_REJECTED", {| title := "We could not complete this order";
    body := "Please contact support if you think this is a mistake."; retry := false |})].

Definition fallback_copy : copy := {|
  title := "We could not complete your order"; body := "Nothing has been charged."; retry := true |}.

(** [FAILURE_COPY[reason ?? '']]; the reasons of the contract are all keys of its own. *)
Fixpoint copy_of (reason : jstr) (l : list (jstr * copy)) : copy :=
  match l with
  | [] => fallback_copy
  | (k, c) :: r => if decide (k = reason) then c else copy_of reason r
  end.

(** ** State *)

Record view := { status : jstr; reason : option jstr; unavailable : list jsval }.

(** The state of the component, its refs, and what the effect has set going:
    [timers] are the poll timers that have not fired and their delays,
    [pollTimer] the one the variable holds, [inflight] the polls that have not
    been answered. *)
Record page := {
  state : view;
  stalled : bool;
  settled : bool;
  cancelled : bool;
  source : bool;
  delay : num;
  timers : list (nat * num);
  pollTimer : option nat;
  stallTimer : bool;
  inflight : nat;
  fresh_timer : nat;
  refreshes : nat
}.

Definition set_state (v : view) (p : page) : page := {|
  state := v; stalled := stalled p; settled := settled p; cancelled := cancelled p; source := source p; delay := delay p;
  timers := timers p; pollTimer := pollTimer p; stallTimer := stallTimer p; inflight := inflight p;
  fresh_timer := fresh_timer p; refreshes := refreshes p |}.
Definition set_source (b : bool) (p : page) : page := {|
  state := state p; stalled := stalled p; settled := settled p; cancelled := cancelled p; source := b; delay := delay p;
  timers := timers p; pollTimer := pollTimer p; stallTimer := stallTimer p; inflight := inflight p;
  fresh_timer := fresh_timer p; refreshes := refreshes p |}.
Definition set_settled (p : page) : page := {|
  state := state p; stalled := stalled p; settled := true; cancelled := cancelled p; source := source p; delay := delay p;
  timers := timers p; pollTimer := pollTimer p; stallTimer := stallTimer p; inflight := inflight p;
  fresh_timer := fresh_timer p; refreshes := refreshes p |}.
Definition set_inflight (n : nat) (p : page) : page := {|
  state := state p; stalled := stalled p; settled := settled p; cancelled := cancelled p; source := source p; delay := delay p;
  timers := timers p; pollTimer := pollTimer p; stallTimer := stallTimer p; inflight := n;
  fresh_timer := fresh_timer p; refreshes := refreshes p |}.
Definition set_timers (l : list (nat * num)) (p : page) : page := {|
  state := state p; stalled := stalled p; settled := settled p; cancelled := cancelled p; source := source p; delay := delay p;
  timers := l; pollTimer := pollTimer p; stallTimer := stallTimer p; inflight := inflight p;
  fresh_timer := fresh_timer p; refreshes := refreshes p |}.
Definition set_stall (b s : bool) (p : page) : page := {|
  state := state p; stalled := s; settled := settled p; cancelled := cancelled p; source := source p; delay := delay p;
  timers := timers p; pollTimer := pollTimer p; stallTimer := b; inflight := inflight p;
  fresh_timer := fresh_timer p; refreshes := refreshes p |}.
Definition set_cancelled (p : page) : page := {|
  state := state p; stalled := stalled p; settled := settled p; cancelled := true; source := source p; delay := delay p;
  timers := timers p; pollTimer := pollTimer p; stallTimer := stallTimer p; inflight := inflight p;
  fresh_timer := fresh_timer p; refreshes := refreshes p |}.
(** [router.refresh()] *)
Definition refresh (p : page) : page := {|
  state := state p; stalled := stalled p; settled := settled p; cancelled := cancelled p; source := source p; delay := delay p;
  timers := timers p; pollTimer := pollTimer p; stallTimer := stallTimer p; inflight := inflight p;
  fresh_timer := fresh_timer p; refreshes := S (refreshes p) |}.

(** [pollTimer = setTimeout(poll, d)] after [delay = d'] *)
Definition set_timeout (d' d : num) (p : page) : page := {|
  state := state p; stalled := stalled p; settled := settled p; cancelled := cancelled p; source := source p; delay := d';
  timers := timers p ++ [(fresh_timer p, d)]; pollTimer := Some (fresh_timer p); stallTimer := stallTimer p;
  inflight := inflight p; fresh_timer := S (fresh_timer p); refreshes := refreshes p |}.

(** [if (pollTimer) clearTimeout(pollTimer)] *)
Definition clear_poll (p : page) : page :=
  match pollTimer p with
  | Some i => set_timers (filter (λ t, t.1 ≠ i) (timers p)) p
  | None => p
  end.

Definition grown (d : num) : num :=
  let d' := nmul d (rnd (3 # 2)) in if nlt (jint 5000) d' then jint 5000 else d'.

Definition items (v : jsval) : list jsval := match v with VArr l => l | _ => [] end.
Definition view_of (data : jsval) : view := {|
  status := match prop "status" data with VStr s => s | _ => "" end;
  reason := match prop "cancellationReason" data with VStr s => Some s | _ => None end;
  unavailable := items (prop "unavailable" data) |}.

Section Page.
Context `{Zod}.

Definition apply (raw : jsval) (p : page) : page :=
  match safeParse Api.OrderStatusResponse raw with
  | Err _ => p
  | Ok data =>
      if cancelled p then p
      else
        let p := set_state (view_of data) p in
        if to_boolean (prop "terminal" data) then
          let p := clear_poll (set_source false (set_settled p)) in
          if decide (status (state p) = "CONFIRMED") then refresh p else p
        else p
  end.

(** [poll] up to its [await]. *)
Definition poll (p : page) : page :=
  if cancelled p || settled p then p else set_inflight (S (inflight p)) p.

(** The rest of [poll]. *)
Definition polled (answer : option jsval) (p : page) : page :=
  let p := match answer with Some raw => apply raw p | None => p end in
  if negb (cancelled p) && negb (settled p) then set_timeout (grown (delay p)) (grown (delay p)) p else p.

(** The first render and the effect. *)
Definition mounted (initialStatus : jstr) (eventSource : bool) : page :=
  let p := {| state := {| status := initialStatus; reason := None; unavailable := [] |}; stalled := false;
              settled := Api.isTerminal initialStatus; cancelled := false; source := false; delay := jint 500; timers := [];
              pollTimer := None; stallTimer := false; inflight := 0; fresh_timer := 0; refreshes := 0 |} in
  if settled p then p
  else set_stall true false (set_timeout (jint 500) (jint 2000) (set_source eventSource p)).

Inductive event :=
| Frame (data : option jsval)
| StreamError
| Timer (i : nat)
| Answer (body : option jsval)
| Stall
| Unmount.

Definition without (i : nat) (l : list (nat * num)) : list (nat * num) := filter (λ t, t.1 ≠ i) l.

(** One turn of the event loop; [None] when the event cannot happen. *)
Definition step (p : page) (e : event) : option page :=
  match e with
  | Frame data =>
      if source p then Some (match data with Some raw => apply raw p | None => p end) else None
  | StreamError =>
      if source p then Some (let p := set_source false p in if settled p then p else poll p) else None
  | Timer i =>
      if bool_decide (i ∈ map fst (timers p)) then Some (poll (set_timers (without i (timers p)) p)) else None
  | Answer b =>
      match inflight p with O => None | S n => Some (polled b (set_inflight n p)) end
  | Stall =>
      if stallTimer p then Some (set_stall false (stalled p || negb (settled p) && negb (cancelled p)) p) else None
  | Unmount =>
      if cancelled p then None
      else Some (set_stall false (stalled p) (clear_poll (set_source false (set_cancelled p))))
  end.

Fixpoint steps (p : page) (es : list event) : option page :=
  match es with
  | [] => Some p
  | e :: r => p' ← step p e; steps p' r
  end.
End Page.

(** ** What is shown *)

Inductive mark := Done | Active | NotStarted.
Inductive panel :=
| Failure (c : copy) (unavailable : list jsval)
| Success
| Progress (compensating : bool) (track : list (jstr * mark)) (slow : bool).

Definition mark_of (compensating : bool) (current i : nat) : mark :=
  if (i <? current)%nat then Done
  else if (i =? current)%nat && negb compensating then Active else NotStarted.

Definition rendered (p : page) : panel :=
  let s := status (state p) in
  if decide (s = "CANCELLED") then Failure (copy_of (default "" (reason (state p))) FAILURE_COPY) (unavailable (state p))
  else if decide (s = "CONFIRMED") then Success
  else
    let compensating := bool_decide (s = "COMPENSATING") in
    Progress compensating (imap (λ i x, (label x, mark_of compensating (stepIndex s) i)) STEPS) (stalled p).

(** ** Where the page asks *)

Definition status_url (orderId : jstr) : jstr := "/api/bff/orders/" ++ orderId ++ "/status".
Definition stream_url (orderId : jstr) : jstr := "/api/bff/orders/" ++ orderId ++ "/stream".

(** The Route Handlers of the storefront, by the directories of app/api; [None]
    is a dynamic segment. *)
Definition ROUTES : list (list (option jstr)) :=
  let fixed := map (Some (A := jstr)) in [
  fixed ["api"; "health"; "live"]; fixed ["api"; "health"; "ready"];
  fixed ["api"; "bff"; "auth"; "login"]; fixed ["api"; "bff"; "auth"; "logout"];
  fixed ["api"; "bff"; "auth"; "register"]; fixed ["api"; "bff"; "auth"; "forgot-password"];
  fixed ["api"; "bff"; "me"]; fixed ["api"; "bff"; "me"; "mfa"]; fixed ["api"; "bff"; "me"; "mfa"; "confirm"];
  fixed ["api"; "bff"; "me"; "password"]; fixed ["api"; "bff"; "cart"]; fixed ["api"; "bff"; "cart"; "lines"];
  fixed ["api"; "bff"; "cart"; "lines"] ++ [None]; fixed ["api"; "bff"; "cart"; "coupons"];
  fixed ["api"; "bff"; "orders"]; fixed ["api"; "bff"; "orders"; "history"]; fixed ["api"; "bff"; "orders"] ++ [None];
  fixed ["api"; "bff"; "suggest"]].

Fixpoint matches (pattern : list (option jstr)) (path : list jstr) : bool :=
  match pattern, path with
  | [], [] => true
  | Some d :: r, x :: p => bool_decide (d = x) && matches r p
  | None :: r, _ :: p => matches r p
  | _, _ => false
  end.
Definition routed (path : jstr) : bool := existsb (λ r, matches (Some [] :: r) (split_on 47 path)) ROUTES.
End OrderProgress.

(** * storefront: what becomes of the page that follows an order

    Invariants of every run of the page: it goes on asking until it knows the
    outcome and no longer, and what settling means with and without a stream. *)

Module OrderProgressFacts.
Import OrderProgress.OrderProgress.

Section Facts.
Context `{Zod}.
Implicit Types p : page.

(** An invariant of [step] is one of [steps]. *)
Lemma steps_invariant (I : page → Prop) p es p' :
  (∀ p e p', step p e = Some p' → I p → I p') → steps p es = Some p' → I p → I p'.
Proof.
  intros Hs. revert p. induction es as [|e es IH]; intros p; cbn; [by intros [= ->]|].
  destruct (step p e) as [p1|] eqn:He; cbn; [|done]. eauto.
Qed.

(** The polls under way: timers that will fire and requests not answered. *)
Definition chains p : nat := length (timers p) + inflight p.
Definition over p : bool := settled p || cancelled p.

(** ** What applying an answer does *)

(** [p'] is [p] once the answer that ended the order was applied. *)
Record closes (data : jsval) p p' : Prop := {
  closes_state : state p' = view_of data;
  closes_settled : settled p' = true;
  closes_cancelled : cancelled p' = cancelled p;
  closes_source : source p' = false;
  closes_stalled : stalled p' = stalled p;
  closes_inflight : inflight p' = inflight p;
  closes_delay : delay p' = delay p;
  closes_timers : sublist (timers p') (timers p)
}.

Inductive applied (raw : jsval) p : page → Prop :=
| ignored : applied raw p p
| moved data :
    safeParse Api.OrderStatusResponse raw = Ok data → cancelled p = false →
    to_boolean (prop "terminal" data) = false → applied raw p (set_state (view_of data) p)
| ended data p' :
    safeParse Api.OrderStatusResponse raw = Ok data → cancelled p = false →
    to_boolean (prop "terminal" data) = true → closes data p p' → applied raw p p'.

Lemma Forall_sub {A} (P : A → Prop) (l k : list A) : Forall P k → sublist l k → Forall P l.
Proof. intros Hk Hs. induction Hs; [constructor|apply Forall_cons in Hk as []; constructor; auto..|apply Forall_cons in Hk as []; auto]. Qed.

Lemma filter_timers (P : nat * num → Prop) `{∀ x, Decision (P x)} l : sublist (filter P l) l.
Proof. induction l as [|t l IH]; [constructor|]. rewrite filter_cons. destruct (decide (P t)); by constructor. Qed.

Lemma apply_ends raw data p :
  safeParse Api.OrderStatusResponse raw = Ok data → cancelled p = false →
  to_boolean (prop "terminal" data) = true → closes data p (apply raw p).
Proof.
  intros Hs Hc Ht. unfold apply. rewrite Hs, Hc, Ht.
  assert (closes data p (clear_poll (set_source false (set_settled (set_state (view_of data) p))))) as Hq.
  { unfold clear_poll. cbn [pollTimer set_source set_settled set_state].
    destruct (pollTimer p); split; try done. cbn. apply filter_timers. }
  destruct (decide _); [|done]. destruct Hq. by split.
Qed.

Lemma apply_applied raw p : applied raw p (apply raw p).
Proof.
  destruct (safeParse Api.OrderStatusResponse raw) as [data|] eqn:Hs; [|unfold apply; rewrite Hs; constructor].
  destruct (cancelled p) eqn:Hc; [unfold apply; rewrite Hs, Hc; constructor|].
  destruct (to_boolean (prop "terminal" data)) eqn:Ht; [by eapply ended; [..|apply apply_ends]|].
  unfold apply. rewrite Hs, Hc, Ht. by econstructor.
Qed.

Lemma sublist_chains data p p' : closes data p p' → (chains p' <= chains p)%nat.
Proof. intros []. unfold chains. rewrite closes_inflight0. apply sublist_length in closes_timers0. lia. Qed.

(** ** The page asks until it knows *)

(** The delays the page backs off through. *)
Definition backoff : list num := [
  jint 500; jint 750; jint 1125; Fin (3375 # 2); Fin (10125 # 4); Fin (30375 # 8); jint 5000].

Lemma grown_backoff d : d ∈ backoff → grown d ∈ backoff.
Proof.
  assert (Forall (λ d, grown d ∈ backoff) backoff) as Hf by (by apply (bool_decide_unpack _); vm_compute).
  rewrite Forall_forall in Hf. apply Hf.
Qed.

(** At most [n] polls under way, a stream counting for the one it may start. *)
Record bounded (n : nat) p : Prop := {
  bounded_chains : (chains p + (if source p then 1 else 0) <= n)%nat;
  bounded_delay : delay p ∈ backoff;
  bounded_timers : Forall (λ t, t.2 ∈ jint 2000 :: backoff) (timers p)
}.
Definition alive p : Prop := over p = false → (0 < chains p)%nat.

Lemma bounded_applied n raw p p' : applied raw p p' → bounded n p → bounded n p'.
Proof.
  intros [|data Hs Hc Ht|data p'' Hs Hc Ht Hq] []; [done|by split|]. pose proof (sublist_chains _ _ _ Hq). destruct Hq. split.
  - rewrite closes_source0. lia.
  - by rewrite closes_delay0.
  - by eapply Forall_sub.
Qed.
Lemma alive_applied raw p p' : applied raw p p' → alive p → alive p'.
Proof. intros [|data Hs Hc Ht|data p'' Hs Hc Ht []]; [done|done|]. unfold alive, over. by rewrite closes_settled0. Qed.

Lemma without_shorter i (l : list (nat * num)) : i ∈ map fst l → (length (without i l) < length l)%nat.
Proof.
  intros Hi. apply list_elem_of_fmap in Hi as (t & -> & Ht). apply (length_filter_lt _ _ t); [done|naive_solver].
Qed.

Lemma polled_asking n b p : bounded n p → bounded (S n) (polled b p) ∧ alive (polled b p).
Proof.
  intros Hb. unfold polled. set (q := match b with Some raw => apply raw p | None => p end).
  assert (bounded n q) as [Hc Hd Ht].
  { unfold q. destruct b; [eapply bounded_applied; [apply apply_applied|done]|done]. }
  destruct (negb (cancelled q) && negb (settled q)) eqn:Ho.
  - split; [split|].
    + unfold chains in *. cbn. rewrite length_app. cbn. destruct (source q); lia.
    + by apply grown_backoff.
    + apply Forall_app. split; [done|]. constructor; [|done]. right. by apply grown_backoff.
    + intros _. unfold chains. cbn. rewrite length_app. cbn. lia.
  - split; [split; [lia|done..]|]. unfold alive, over. destruct (cancelled q), (settled q); done.
Qed.
(** A step keeps the polls bounded and one of them alive. *)
Lemma step_asking n p e p' :
  step p e = Some p' → bounded n p ∧ alive p → bounded n p' ∧ alive p'.
Proof.
  intros Hs [Hb Ha]. destruct e as [d| |i|b| |]; cbn in Hs.
  - destruct (source p); [|done]. injection Hs as <-. destruct d as [raw|]; [|done].
    split; [eapply bounded_applied|eapply alive_applied]; try apply apply_applied; done.
  - destruct (source p) eqn:Hsrc; [|done]. injection Hs as <-. destruct Hb as [Hc Hd Ht]. rewrite Hsrc in Hc.
    unfold poll. cbn [settled cancelled set_source]. destruct (settled p) eqn:Hst.
    + split; [split; [unfold chains in *; cbn; lia|done..]|]. unfold alive, over. cbn. by rewrite Hst.
    + destruct (cancelled p) eqn:Hcn; cbn [orb].
      * split; [split; [unfold chains in *; cbn; lia|done..]|]. unfold alive, over. cbn. by rewrite Hcn, Hst.
      * split; [split; [unfold chains in *; cbn; lia|done..]|]. intros _. unfold chains. cbn. lia.
  - destruct (bool_decide _) eqn:Hi; [|done]. injection Hs as <-. apply bool_decide_eq_true in Hi.
    apply without_shorter in Hi. destruct Hb as [Hc Hd Ht].
    assert (Forall (λ t, t.2 ∈ jint 2000 :: backoff) (without i (timers p))) as Hf.
    { eapply Forall_sub; [exact Ht|apply filter_timers]. }
    unfold poll. cbn [cancelled settled set_timers]. destruct (cancelled p || settled p) eqn:Ho.
    + split; [split; [unfold chains in *; cbn; lia|done..]|]. unfold alive, over. cbn. destruct (cancelled p), (settled p); done.
    + split; [split; [unfold chains in *; cbn; lia|done..]|]. intros _. unfold chains. cbn. lia.
  - destruct (inflight p) as [|m] eqn:Hm; [done|]. injection Hs as <-. destruct Hb as [Hc Hd Ht].
    destruct n as [|n]; [unfold chains in Hc; lia|]. apply polled_asking.
    split; [unfold chains in *; cbn; lia|done..].
  - destruct (stallTimer p); [|done]. injection Hs as <-. destruct Hb. by split.
  - destruct (cancelled p); [done|]. injection Hs as <-. destruct Hb as [Hc Hd Ht]. split.
    + unfold clear_poll, set_timers. cbn [pollTimer set_source set_cancelled].
      destruct (pollTimer p) as [i|]; (split; [unfold chains in *; cbn|done|cbn]); try lia; try done.
      * pose proof (sublist_length _ _ (filter_timers (λ t : nat * num, t.1 ≠ i) (timers p))). lia.
      * eapply Forall_sub; [exact Ht|apply filter_timers].
    + unfold alive, over, clear_poll. cbn [pollTimer set_source set_cancelled]. destruct (pollTimer p); cbn; by rewrite orb_true_r.
Qed.

Lemma mounted_asking s (f : bool) : bounded (if f then 2 else 1) (mounted s f) ∧ alive (mounted s f).
Proof.
  unfold mounted. cbn [settled]. destruct (Api.isTerminal s) eqn:Ht.
  - split; [split; [destruct f; unfold chains; cbn; lia|by apply (bool_decide_unpack _); vm_compute|constructor]|].
    unfold alive, over. cbn. done.
  - split; [split; [destruct f; unfold chains; cbn; lia|by apply (bool_decide_unpack _); vm_compute|]|intros _; unfold chains; cbn; lia].
    cbn. constructor; [by left|constructor].
Qed.

(** What is left to happen once the page is over: no stream is open. *)
Definition wound p : Prop := over p = true → source p = false.
Definition left p : nat :=
  length (timers p) + inflight p + (if stallTimer p then 1 else 0) + (if cancelled p then 0 else 1).

Lemma apply_over raw p : over p = true → over (apply raw p) = true ∧ inflight (apply raw p) = inflight p ∧
  stallTimer (apply raw p) = stallTimer p ∧ cancelled (apply raw p) = cancelled p.
Proof.
  intros Ho. unfold apply. destruct (safeParse _ raw) as [data|]; [|done]. destruct (cancelled p) eqn:Hc; [done|].
  destruct (to_boolean _); [|done]. unfold clear_poll. cbn [pollTimer set_source set_settled set_state].
  by destruct (pollTimer p); destruct (decide _).
Qed.

Lemma wound_applied raw p p' : applied raw p p' → wound p → wound p'.
Proof. intros [|data Hs Hc Ht|data p'' Hs Hc Ht []]; [done|done|]. by intros _ _. Qed.

Lemma step_wound p e p' : step p e = Some p' → wound p → wound p'.
Proof.
  intros Hs Hw. destruct e as [d| |i|b| |]; cbn in Hs.
  - destruct (source p); [|done]. injection Hs as <-. destruct d; [|done]. eapply wound_applied; [apply apply_applied|done].
  - destruct (source p); [|done]. injection Hs as <-. unfold poll. cbn. destruct (settled p); [done|]. by destruct (cancelled p).
  - destruct (bool_decide _); [|done]. injection Hs as <-. unfold poll. cbn. by destruct (_ || _).
  - destruct (inflight p); [done|]. injection Hs as <-. unfold polled.
    assert (wound (match b with Some raw => apply raw (set_inflight n p) | None => set_inflight n p end)) as Hq.
    { destruct b; [|done]. eapply wound_applied; [apply apply_applied|done]. }
    destruct (negb _ && negb _); done.
  - destruct (stallTimer p); [|done]. injection Hs as <-. done.
  - destruct (cancelled p); [done|]. injection Hs as <-. intros _. unfold clear_poll. cbn. by destruct (pollTimer p).
Qed.

Lemma step_left p e p' : wound p → over p = true → step p e = Some p' → over p' = true ∧ (left p' < left p)%nat.
Proof.
  intros Hw Ho Hs. specialize (Hw Ho). destruct e as [d| |i|b| |]; cbn in Hs.
  - by rewrite Hw in Hs.
  - by rewrite Hw in Hs.
  - destruct (bool_decide _) eqn:Hi; [|done]. injection Hs as <-. apply bool_decide_eq_true, without_shorter in Hi.
    unfold poll. cbn. rewrite orb_comm. unfold over in Ho. rewrite Ho. split; [done|]. unfold left. cbn. lia.
  - destruct (inflight p) as [|n] eqn:Hn; [done|]. injection Hs as <-. unfold polled.
    set (q := match b with Some raw => _ | None => _ end).
    assert (over q = true ∧ inflight q = n ∧ stallTimer q = stallTimer p ∧ cancelled q = cancelled p) as (Hq & Hi & Hst & Hc).
    { unfold q. destruct b as [raw|]; [|done]. by apply (apply_over raw (set_inflight n p)). }
    assert (length (timers q) <= length (timers p))%nat.
    { unfold q. destruct b as [raw|]; [|done].
      destruct (apply_applied raw (set_inflight n p)) as [| |data p'' _ _ _ []]; [done..|]. by apply sublist_length in closes_timers0. }
    replace (negb (cancelled q) && negb (settled q)) with false by (unfold over in Hq; destruct (cancelled q), (settled q); done).
    split; [done|]. unfold left. rewrite Hi, Hst, Hc, Hn. lia.
  - destruct (stallTimer p) eqn:Hst; [|done]. injection Hs as <-. split; [done|]. unfold left. cbn. rewrite Hst. lia.
  - destruct (cancelled p) eqn:Hc; [done|]. injection Hs as <-. unfold clear_poll. cbn [pollTimer set_source set_cancelled].
    destruct (pollTimer p) as [i|].
    + split; [unfold over; cbn; apply orb_true_r|]. unfold left. cbn. rewrite Hc.
      pose proof (sublist_length _ _ (filter_timers (λ t : nat * num, t.1 ≠ i) (timers p))). destruct (stallTimer p); lia.
    + split; [unfold over; cbn; apply orb_true_r|]. unfold left. cbn. rewrite Hc. destruct (stallTimer p); lia.
Qed.

(** ** How long the page waits *)

(** The polls answered so far. *)
Fixpoint answers (es : list event) : nat :=
  match es with [] => O | Answer _ :: r => S (answers r) | _ :: r => answers r end.

(** The wait after the answer number [k], from 0. *)
Definition wait_after (k : nat) : num :=
  default (jint 5000) ([jint 750; jint 1125; Fin (3375 # 2); Fin (10125 # 4); Fin (30375 # 8)] !! k).

Lemma grown_wait k : Nat.iter (S k) grown (jint 500) = wait_after k.
Proof.
  do 5 (destruct k as [|k]; [vm_compute; reflexivity|]). unfold wait_after. cbn [lookup list_lookup default].
  induction k as [|k IH]; [vm_compute; reflexivity|].
  change (Nat.iter (S (S (S (S (S (S (S k))))))) grown (jint 500)) with (grown (Nat.iter (S (S (S (S (S (S k)))))) grown (jint 500))).
  rewrite IH. vm_compute. reflexivity.
Qed.

Lemma steps_over p es p' : wound p → over p = true → steps p es = Some p' → over p' = true.
Proof.
  revert p. induction es as [|e es IH]; intros p Hw Ho; cbn; [by intros [= <-]|].
  destruct (step p e) as [p1|] eqn:He; cbn; [|done]. apply IH; [by eapply step_wound|by eapply step_left].
Qed.

Lemma apply_kept raw p : delay (apply raw p) = delay p ∧ sublist (timers (apply raw p)) (timers p) ∧
  (over (apply raw p) = false → timers (apply raw p) = timers p ∧ fresh_timer (apply raw p) = fresh_timer p).
Proof.
  unfold apply. destruct (safeParse _ raw) as [data|]; [|done]. destruct (cancelled p) eqn:Hc; [done|].
  destruct (to_boolean _); [|done]. unfold clear_poll, over. cbn [pollTimer set_source set_settled set_state].
  destruct (pollTimer p); destruct (decide _); cbn; (split; [done|]); (split; [|done]); first [apply filter_timers|done].
Qed.

(** An answer that leaves the page asking sets the next timer; no other event sets
    one. *)
Lemma answer_waits b p p' :
  step p (Answer b) = Some p' → over p' = false →
  delay p' = grown (delay p) ∧ timers p' = timers p ++ [(fresh_timer p, grown (delay p))].
Proof.
  cbn. destruct (inflight p) as [|n]; [done|]. intros [= <-]. unfold polled.
  set (q := match b with Some raw => _ | None => _ end).
  assert (delay q = delay p ∧ (over q = false → timers q = timers p ∧ fresh_timer q = fresh_timer p)) as [Hd Ht].
  { unfold q. destruct b as [raw|]; [|done]. by destruct (apply_kept raw (set_inflight n p)) as (? & _ & ?). }
  destruct (negb (cancelled q) && negb (settled q)) eqn:Hn.
  - intros _. destruct Ht as [Ht Hf]; [unfold over; destruct (cancelled q), (settled q); done|].
    cbn [set_timeout delay timers]. by rewrite Hd, Ht, Hf.
  - unfold over. destruct (cancelled q), (settled q); done.
Qed.

Lemma others_wait_not e p p' :
  step p e = Some p' → (∀ b, e ≠ Answer b) → delay p' = delay p ∧ sublist (timers p') (timers p).
Proof.
  intros Hs He. destruct e as [d| |i|b| |]; cbn in Hs; [| | |by destruct (He b)|..].
  - destruct (source p); [|done]. injection Hs as <-. destruct d as [raw|]; [|done]. by destruct (apply_kept raw p) as (? & ? & _).
  - destruct (source p); [|done]. injection Hs as <-. unfold poll. cbn. destruct (settled p); [done|]. by destruct (cancelled p).
  - destruct (bool_decide _); [|done]. injection Hs as <-. unfold poll. cbn.
    destruct (_ || _); cbn; split; try done; apply filter_timers.
  - destruct (stallTimer p); [|done]. by injection Hs as <-.
  - destruct (cancelled p); [done|]. injection Hs as <-. unfold clear_poll. cbn.
    destruct (pollTimer p); cbn; split; try done. apply filter_timers.
Qed.

Lemma steps_delay p es p' :
  wound p → steps p es = Some p' → over p' = false → delay p' = Nat.iter (answers es) grown (delay p).
Proof.
  revert p. induction es as [|e es IH]; intros p Hw Hs Ho; cbn in Hs; [by injection Hs as <-|].
  destruct (step p e) as [p1|] eqn:He; cbn in Hs; [|done].
  assert (wound p1) as Hw1 by by eapply step_wound.
  assert (over p1 = false) as Ho1.
  { apply not_true_is_false. intros Hov. pose proof (steps_over p1 es p' Hw1 Hov Hs). congruence. }
  rewrite (IH p1 Hw1 Hs Ho).
  destruct e as [d| |i|b| |]; cbn [answers]; try (by rewrite (proj1 (others_wait_not _ _ _ He ltac:(done)))).
  rewrite (proj1 (answer_waits b p p1 He Ho1)). by rewrite <- Nat.iter_succ_r.
Qed.

(** C26. The page asks until it knows, and no longer: in every run, until the
    order settles or the page is left a poll is waiting or under way, never more
    than two at once (one without a stream).  The first is asked after two
    seconds; an answer that does not settle the order, the [k]-th, has the next
    asked after 750, 1125, 1687.5, 2531.25, 3796.875 and from then on 5000
    milliseconds, and nothing else sets a timer; afterwards nothing new is ever
    asked, and the page comes to rest after a number of events known in
    advance. *)
Theorem page_asks_until_settled s (f : bool) es p :
  steps (mounted s f) es = Some p →
  (chains p <= if f then 2 else 1)%nat ∧
  (settled p = false → cancelled p = false → (0 < chains p)%nat) ∧
  map snd (timers (mounted s f)) = (if Api.isTerminal s then [] else [jint 2000]) ∧
  (∀ e p', step p e = Some p' →
     match e with
     | Answer _ => over p' = false → timers p' = timers p ++ [(fresh_timer p, wait_after (answers es))]
     | _ => sublist (timers p') (timers p)
     end) ∧
  (over p = true → ∀ e p', step p e = Some p' → over p' = true ∧ (left p' < left p)%nat).
Proof.
  intros Hs. destruct (mounted_asking s f) as [Hb Ha]. assert (wound (mounted s f)) as Hwm.
  { unfold wound, mounted. cbn [settled]. by destruct (Api.isTerminal s). }
  assert ((bounded (if f then 2 else 1) p ∧ alive p) ∧ wound p) as [[[Hc Hd Ht] Hal] Hw].
  { apply (steps_invariant (λ p, (bounded (if f then 2 else 1) p ∧ alive p) ∧ wound p)) in Hs; [done| |done].
    clear. intros p e p' Hs [Hb Hw]. split; [by eapply step_asking|by eapply step_wound]. }
  split; [lia|]. split; [intros H1 H2; apply Hal; unfold over; by rewrite H1, H2|].
  split; [unfold mounted; cbn [settled]; by destruct (Api.isTerminal s)|].
  split; [|intros Ho e p'; by apply step_left].
  intros e p' Hp'. destruct e as [d| |i|b| |]; try (by eapply others_wait_not; [exact Hp'|]). intros Ho.
  destruct (answer_waits b p p' Hp' Ho) as [_ ->].
  assert (delay (mounted s f) = jint 500) as Hd0 by (unfold mounted; cbn [settled]; by destruct (Api.isTerminal s)).
  rewrite (steps_delay _ es p Hwm Hs), Hd0, <- grown_wait.
  - done.
  - apply not_true_is_false. intros Hov. destruct (step_left p _ p' Hw Hov Hp'). congruence.
Qed.

(** ** Settling *)

(** Settled with nothing under way: what is shown is shown for good. *)
Definition frozen p : Prop := settled p = true ∧ source p = false ∧ inflight p = 0%nat.

Lemma step_frozen p e p' :
  step p e = Some p' → frozen p → frozen p' ∧ state p' = state p ∧ stalled p' = stalled p.
Proof.
  intros Hs (H1 & H2 & H3). unfold frozen. destruct e as [d| |i|b| |]; cbn in Hs.
  - by rewrite H2 in Hs.
  - by rewrite H2 in Hs.
  - destruct (bool_decide _); [|done]. injection Hs as <-. unfold poll. cbn. by rewrite H1, orb_true_r.
  - by rewrite H3 in Hs.
  - destruct (stallTimer p); [|done]. injection Hs as <-. cbn. by rewrite H1, orb_false_r.
  - destruct (cancelled p); [done|]. injection Hs as <-. unfold clear_poll. cbn. by destruct (pollTimer p).
Qed.

Lemma steps_frozen p es p' :
  steps p es = Some p' → frozen p → state p' = state p ∧ stalled p' = stalled p.
Proof.
  intros Hs Hf. apply (steps_invariant (λ q, frozen q ∧ state q = state p ∧ stalled q = stalled p)) in Hs; [tauto| |done].
  intros q e q' Hq (Hfq & H1 & H2). destruct (step_frozen q e q' Hq Hfq) as (? & -> & ->). done.
Qed.

(** Without a stream a page is frozen as soon as it settles. *)
Lemma step_unstreamed p e p' :
  step p e = Some p' → bounded 1 p → source p = false ∧ (settled p = true → frozen p) →
  source p' = false ∧ (settled p' = true → frozen p').
Proof.
  intros Hs [Hc _ _] [Hsrc Hf]. destruct (settled p) eqn:Hst.
  { destruct (step_frozen p e p' Hs (Hf eq_refl)) as ((H1 & H2 & H3) & _). by repeat split. }
  destruct e as [d| |i|b| |]; cbn in Hs; rewrite ?Hsrc in Hs; try done.
  - destruct (bool_decide _); [|done]. injection Hs as <-. unfold poll. cbn. rewrite Hst, orb_false_r. destruct (cancelled p); cbn; by rewrite ?Hst.
  - destruct (inflight p) as [|n] eqn:Hn; [done|]. injection Hs as <-. assert (n = 0%nat) as -> by (unfold chains in Hc; lia).
    unfold polled. set (q := match b with Some raw => _ | None => _ end).
    assert (source q = false ∧ (settled q = true → frozen q)) as [Hq1 Hq2].
    { unfold q. destruct b as [raw|]; [|cbn; by rewrite Hst].
      destruct (apply_applied raw (set_inflight 0 p)) as [| |data p'' _ _ _ []]; [cbn; by rewrite Hst..|].
      split; [done|]. intros _. by repeat split. }
    destruct (settled q) eqn:Hsq; [rewrite andb_false_r; split; [done|]; intros _; by apply Hq2|].
    destruct (cancelled q); cbn; rewrite Hsq; done.
  - destruct (stallTimer p); [|done]. injection Hs as <-. cbn. by rewrite Hst.
  - destruct (cancelled p); [done|]. injection Hs as <-. unfold clear_poll. cbn. destruct (pollTimer p); cbn; by rewrite Hst.
Qed.

(** Settling is final only without a stream.  A page that polls and has no
    EventSource shows, once settled, the same answer for good.  With a stream
    there is, for every final answer and every earlier one, a run in which the
    frame with the final answer overtakes the poll with the earlier: the page
    ends showing the earlier one, settled, so that nothing will ever correct it
    and not even the notice that it takes long appears. *)
Theorem settling_is_final_without_a_stream :
  (∀ s es p, steps (mounted s false) es = Some p → settled p = true →
     ∀ es' p', steps p es' = Some p' → state p' = state p) ∧
  (∀ final earlier a b,
     safeParse Api.OrderStatusResponse final = Ok a → prop "terminal" a = VBool true →
     safeParse Api.OrderStatusResponse earlier = Ok b → prop "terminal" b = VBool false →
     ∃ es p, steps (mounted "PENDING" true) es = Some p ∧ settled p = true ∧ state p = view_of b ∧
       ∀ es' p', steps p es' = Some p' → state p' = view_of b ∧ stalled p' = false).
Proof.
  split.
  - intros s es p Hs Hst es' p' Hs'. destruct (mounted_asking s false) as [Hb Ha].
    apply (steps_invariant (λ p, (bounded 1 p ∧ alive p) ∧ source p = false ∧ (settled p = true → frozen p))) in Hs as (_ & _ & Hf).
    + by destruct (steps_frozen p es' p' Hs' (Hf Hst)).
    + clear. intros p e p' Hs [Hb Hw]. split; [by eapply step_asking|]. destruct Hb. by eapply step_unstreamed.
    + split; [done|]. unfold mounted. cbn [settled]. by destruct (Api.isTerminal s).
  - intros final earlier a b Ha Hta Hb Htb.
    assert (∃ p, steps (mounted "PENDING" true) [Timer 0; Frame (Some final); Answer (Some earlier)] = Some p ∧
      frozen p ∧ state p = view_of b ∧ stalled p = false) as (p & Hs & Hf & Hv & Hst).
    { assert (step (mounted "PENDING" true) (Timer 0) = Some (poll (set_timers [] (mounted "PENDING" true)))) as H1 by reflexivity.
      cbn [steps]. rewrite H1. cbn [mbind option_bind]. set (p1 := poll _).
      assert (closes a p1 (apply final p1)) as [Hst Hse Hc Hsr Hsl Hi _ _] by (apply apply_ends; [done|done|by rewrite Hta]).
      cbn [step]. change (source p1) with true. cbn [mbind option_bind]. rewrite Hi. change (inflight p1) with 1%nat.
      cbn [mbind option_bind]. eexists. split; [done|]. change (cancelled p1) with false in Hc.
      change (stalled p1) with false in Hsl. generalize dependent (apply final p1). intros p2 Hst Hse Hc Hsr Hsl Hi.
      unfold polled, apply. rewrite Hb, Htb. cbn [cancelled set_inflight]. rewrite Hc.
      cbn [to_boolean cancelled set_inflight set_state settled negb]. rewrite Hse. cbn [negb]. rewrite andb_false_r.
      split; [|done]. by repeat split. }
    exists [Timer 0; Frame (Some final); Answer (Some earlier)], p. split; [done|]. split; [apply Hf|]. split; [done|].
    intros es' p' Hs'. apply steps_frozen in Hs' as [-> ->]; done.
Qed.

(** ** Asking where nobody answers *)

Lemma split_plain (x : N) (s t : jstr) : x ∉ s → split_on x (s ++ x :: t) = s :: split_on x t.
Proof.
  induction s as [|c s IH]; intros Hn; cbn; [by rewrite N.eqb_refl|].
  apply not_elem_of_cons in Hn as [H1 H2]. rewrite (proj2 (N.eqb_neq c x)) by congruence. by rewrite IH.
Qed.

Lemma split_orders (id t : jstr) : 47%N ∉ id →
  split_on 47 ("/api/bff/orders/" ++ id ++ 47%N :: t) = [[]; "api"; "bff"; "orders"; id] ++ split_on 47 t.
Proof.
  intros Hid. change ("/api/bff/orders/" ++ id ++ 47%N :: t) with
    ([] ++ 47%N :: (("api" : jstr) ++ 47%N :: (("bff" : jstr) ++ 47%N :: (("orders" : jstr) ++ 47%N :: (id ++ 47%N :: t))))).
  rewrite !split_plain by first [done | by apply (bool_decide_unpack _); vm_compute]. reflexivity.
Qed.

(** No route has a segment below the id of an order. *)
Lemma unrouted (id t : jstr) :
  47%N ∉ t →
  existsb (λ r, matches (Some [] :: r) ([[]; "api"; "bff"; "orders"; id] ++ split_on 47 t)) ROUTES = false.
Proof.
  intros Ht. assert (split_on 47 t = [t]) as ->.
  { clear -Ht. induction t as [|c t IH]; [done|]. apply not_elem_of_cons in Ht as [H1 H2]. cbn.
    rewrite (proj2 (N.eqb_neq c 47)) by congruence. by rewrite IH. }
  apply not_true_iff_false. rewrite existsb_exists. intros (r & Hin & Hm). unfold ROUTES in Hin.
  repeat (destruct Hin as [<-|Hin]; [cbn [matches app map] in Hm;
    repeat match type of Hm with _ && _ = true => apply andb_true_iff in Hm as [?Hd%bool_decide_eq_true Hm] end; discriminate|]).
  done.
Qed.

(** Nothing arrives: no frame, and no poll is answered with a body. *)
Definition unanswered (e : event) : Prop := match e with Frame _ | Answer (Some _) => False | _ => True end.

Lemma step_unanswered p e p' :
  step p e = Some p' → unanswered e → state p' = state p ∧ settled p' = settled p.
Proof.
  intros Hs Hu. destruct e as [d| |i|b| |]; cbn in Hs; try done.
  - destruct (source p); [|done]. injection Hs as <-. unfold poll. cbn. destruct (settled p) eqn:E; [done|]. by destruct (cancelled p).
  - destruct (bool_decide _); [|done]. injection Hs as <-. unfold poll. cbn. by destruct (_ || _).
  - destruct b; [done|]. destruct (inflight p); [done|]. injection Hs as <-. unfold polled. by destruct (negb _ && negb _).
  - destruct (stallTimer p); [|done]. by injection Hs as <-.
  - destruct (cancelled p); [done|]. injection Hs as <-. unfold clear_poll. cbn. by destruct (pollTimer p).
Qed.

(** The page learns nothing: neither of the two URLs it asks is a route of
    the storefront, and a page that gets no frame and no answer shows for good
    what it began with; after checkout that is an order just received. *)
Theorem order_page_learns_nothing id :
  47%N ∉ id →
  routed (status_url id) = false ∧ routed (stream_url id) = false ∧
  ∀ s f es p, Forall unanswered es → steps (mounted s f) es = Some p → state p = state (mounted s f).
Proof.
  intros Hid. split; [|split].
  - unfold routed, status_url. change (id ++ "/status") with (id ++ 47%N :: ("status" : jstr)).
    rewrite split_orders by done. apply unrouted. by apply (bool_decide_unpack _); vm_compute.
  - unfold routed, stream_url. change (id ++ "/stream") with (id ++ 47%N :: ("stream" : jstr)).
    rewrite split_orders by done. apply unrouted. by apply (bool_decide_unpack _); vm_compute.
  - intros s f es p Hu. generalize (mounted s f). induction Hu as [|e es He Hes IH]; intros q; cbn; [by intros [= ->]|].
    destruct (step q e) as [q'|] eqn:Hq; cbn; [|done]. intros Hs. apply step_unanswered in Hq as [Hq _]; [|done].
    rewrite <- Hq. by apply IH.
Qed.

(** ** What is shown *)

(** An order that is shipped, delivered or refunded is shown like one that was
    just received: its page asks nothing, now or later, and is the page of a
    pending order. *)
Theorem finished_orders_look_unplaced s f es p :
  s ∈ ["SHIPPED"; "DELIVERED"; "REFUNDED" : jstr] → steps (mounted s f) es = Some p →
  chains p = 0%nat ∧ rendered p = rendered (mounted "PENDING" f) ∧
  rendered p = Progress false [("Order received" : jstr, Active); ("Items reserved" : jstr, NotStarted);
    ("Payment approved" : jstr, NotStarted); ("Items confirmed" : jstr, NotStarted); ("Order confirmed" : jstr, NotStarted)] false.
Proof.
  intros Hs Hr. assert (Api.isTerminal s = true) as Ht.
  { apply bool_decide_eq_true. set_solver. }
  assert (frozen p ∧ timers p = [] ∧ state p = state (mounted s f) ∧ stalled p = false) as ((_ & _ & Hi) & Htm & Hst & Hsl).
  { apply (steps_invariant (λ q, frozen q ∧ timers q = [] ∧ state q = state (mounted s f) ∧ stalled q = false)) in Hr; [done| |].
    - clear. intros q e q' Hq (Hf & H1 & H2 & H3). destruct (step_frozen q e q' Hq Hf) as (Hf' & -> & ->). split; [done|].
      split; [|done]. destruct Hf as (Hse & Hso & Hin). destruct e as [d| |i|b| |]; cbn in Hq; rewrite ?Hso, ?Hin, ?H1 in Hq; try done.
      + destruct (stallTimer q); [|done]. by injection Hq as <-.
      + destruct (cancelled q); [done|]. injection Hq as <-. unfold clear_poll. cbn. destruct (pollTimer q); cbn; by rewrite ?H1.
    - unfold mounted, frozen. cbn [settled]. rewrite Ht. done. }
  unfold chains. rewrite Htm, Hi. split; [done|]. unfold rendered. rewrite Hst, Hsl.
  assert (state (mounted s f) = {| status := s; reason := None; unavailable := [] |}) as -> by (unfold mounted; cbn [settled]; by rewrite Ht).
  assert (s = "SHIPPED" ∨ s = "DELIVERED" ∨ s = "REFUNDED") as [->|[->| ->]] by set_solver; split; destruct f; reflexivity.
Qed.

End Facts.
End OrderProgressFacts.
