(* ===== verification/Basket.v ===== *)
(** * storefront: the basket in the browser (components/cart/cart-provider.tsx,
      components/checkout/checkout-flow.tsx)

    The provider as a machine: [mutate] and [refresh] issue a request, and
    [step] is one turn of the event loop, in which the user asks for something
    or the outcome of a request arrives, in any order.  [mutate] reads the
    basket of the latest render.  The checkout form keeps one key from the
    moment it is mounted. *)
From Stdlib Require Import QArith.
From S2P Require Import Prelude JsNumber JsString Zod Schemas Events Api ApiClient.
Local Open Scope js_scope.
Local Open Scope Z_scope.

Module Basket.
Import ApiClient.ApiClient.

(** ** Requests *)

Record call := { path : jstr; options : RequestOptions }.

Inductive mutation :=
| Add (sku : jstr) (quantity : num)
| SetQuantity (sku : jstr) (quantity : num)
| Remove (sku : jstr)
| ApplyCoupon (code : jstr).

Definition successMessage (m : mutation) : option jstr :=
  match m with Add _ _ => Some ("Added to your basket" : jstr) | _ => None end.

(** [PATCH] of a line; the path may be a [URIError]. *)
Definition patch_line (sku : jstr) (quantity version : num) : result exn call :=
  match encodeURIComponent sku with
  | Err m => Err (OtherError m)
  | Ok e => Ok {| path := "/api/bff/cart/lines/" ++ e;
      options := {| schema := Api.Cart; method := Some ("PATCH" : jstr);
                    body := VObj [("quantity", VNum quantity); ("version", VNum version)]; idempotencyKey := None |} |}
  end.

(** What [run(version)] sends; [key] is the [newIdempotencyKey()] of an addition. *)
Definition run (m : mutation) (key : jstr) (version : num) : result exn call :=
  match m with
  | Add sku quantity =>
      Ok {| path := "/api/bff/cart/lines";
        options := {| schema := Api.Cart; method := Some ("POST" : jstr);
                      body := VObj [("sku", VStr sku); ("quantity", VNum quantity)]; idempotencyKey := Some key |} |}
  | SetQuantity sku quantity => patch_line sku quantity version
  | Remove sku => patch_line sku (jint 0) version
  | ApplyCoupon code =>
      Ok {| path := "/api/bff/cart/coupons";
        options := {| schema := Api.Cart; method := Some ("POST" : jstr);
                      body := VObj [("code", VStr code)]; idempotencyKey := None |} |}
  end.

(** ** The provider *)

Record toast := { t_title : jstr; t_description : option jstr; t_variant : option jstr }.

(** What is under way: [mutate] with its ticket, [refresh] on its own, and the
    [refresh] of a mutation that was refused as stale. *)
Inductive task := Mutating (ticket : nat) (success : option jstr) | Refreshing | Recovering (ticket : nat).

Record provider := {
  cart : option jsval;
  loading : bool;
  inFlight : nat;
  pending : list (nat * task);
  fresh : nat;
  toasts : list toast;
  sent : list call
}.

Definition set_cart (c : option jsval) (p : provider) : provider := {|
  cart := c; loading := loading p; inFlight := inFlight p; pending := pending p; fresh := fresh p;
  toasts := toasts p; sent := sent p |}.
Definition set_loading (b : bool) (p : provider) : provider := {|
  cart := cart p; loading := b; inFlight := inFlight p; pending := pending p; fresh := fresh p;
  toasts := toasts p; sent := sent p |}.
Definition next_ticket (p : provider) : provider := {|
  cart := cart p; loading := true; inFlight := S (inFlight p); pending := pending p; fresh := fresh p;
  toasts := toasts p; sent := sent p |}.
Definition notify (t : toast) (p : provider) : provider := {|
  cart := cart p; loading := loading p; inFlight := inFlight p; pending := pending p; fresh := fresh p;
  toasts := toasts p ++ [t]; sent := sent p |}.
(** A request goes out and [t] waits for its outcome. *)
Definition send (t : task) (c : call) (p : provider) : provider := {|
  cart := cart p; loading := loading p; inFlight := inFlight p; pending := pending p ++ [(fresh p, t)];
  fresh := S (fresh p); toasts := toasts p; sent := sent p ++ [c] |}.
Definition drop (id : nat) (p : provider) : provider := {|
  cart := cart p; loading := loading p; inFlight := inFlight p; pending := filter (λ t, t.1 ≠ id) (pending p);
  fresh := fresh p; toasts := toasts p; sent := sent p |}.

Definition refresh_call : call := {|
  path := "/api/bff/cart";
  options := {| schema := Api.Cart; method := None; body := VUndef; idempotencyKey := None |} |}.

(** [cart?.version ?? 0] *)
Definition version (p : provider) : num :=
  match cart p with
  | Some c => match prop "version" c with VNum x => x | _ => jint 0 end
  | None => jint 0
  end.

Definition itemCount (p : provider) : num :=
  match cart p with
  | Some c =>
      match prop "lines" c with
      | VArr l => foldl (λ sum line, match prop "quantity" line with VNum q => nadd sum q | _ => NaN end) (jint 0) l
      | _ => jint 0
      end
  | None => jint 0
  end.

(** [finally { if (ticket === inFlight.current) setLoading(false) }] *)
Definition finish (ticket : nat) (p : provider) : provider :=
  if decide (ticket = inFlight p) then set_loading false p else p.

(** [mutate] up to its await; a request that cannot be made is thrown. *)
Definition mutate (m : mutation) (key : jstr) (p : provider) : provider :=
  let v := version p in
  let p := next_ticket p in
  match run m key v with
  | Ok c => send (Mutating (inFlight p) (successMessage m)) c p
  | Err _ => finish (inFlight p) p
  end.

(** The rest of [refresh]. *)
Definition refreshed (r : result exn jsval) (p : provider) : provider :=
  match r with
  | Ok next => set_cart (Some next) p
  | Err (Api e) => if status e =? 404 then set_cart None p else p
  | Err _ => p
  end.

Definition stale_toast : toast := {|
  t_title := "Your basket changed"; t_description := Some ("We have refreshed it — please check and try again." : jstr);
  t_variant := None |}.
Definition failed_toast (e : ApiError) : toast := {|
  t_title := "That did not work"; t_description := Some (userMessage e); t_variant := Some ("destructive" : jstr) |}.
Definition success_toast (title : jstr) : toast := {|
  t_title := title; t_description := None; t_variant := Some ("success" : jstr) |}.

(** The rest of [mutate]. *)
Definition mutated (ticket : nat) (success : option jstr) (r : result exn jsval) (p : provider) : provider :=
  match r with
  | Ok next =>
      finish ticket
        (if decide (ticket = inFlight p) then
           let p := set_cart (Some next) p in
           match success with Some s => notify (success_toast s) p | None => p end
         else p)
  | Err (Api e) =>
      if decide (code e = "CART_STALE") then send (Recovering ticket) refresh_call p
      else finish ticket (notify (failed_toast e) p)
  | Err _ => finish ticket p
  end.

Definition resume (t : task) (r : result exn jsval) (p : provider) : provider :=
  match t with
  | Mutating ticket success => mutated ticket success r p
  | Refreshing => refreshed r p
  | Recovering ticket => finish ticket (notify stale_toast (refreshed r p))
  end.

Fixpoint task_of (id : nat) (l : list (nat * task)) : option task :=
  match l with
  | [] => None
  | (i, t) :: r => if decide (i = id) then Some t else task_of id r
  end.

Inductive event :=
| Do (m : mutation) (key : jstr)
| Refresh
| Reply (id : nat) (r : result exn jsval).

(** One turn of the event loop; [None] when the event cannot happen. *)
Definition step (p : provider) (e : event) : option provider :=
  match e with
  | Do m key => Some (mutate m key p)
  | Refresh => Some (send Refreshing refresh_call p)
  | Reply id r => t ← task_of id (pending p); Some (resume t r (drop id p))
  end.

Fixpoint steps (p : provider) (es : list event) : option provider :=
  match es with
  | [] => Some p
  | e :: r => p' ← step p e; steps p' r
  end.

(** The first render, and the effect that fetches a basket that was not given. *)
Definition mounted (initialCart : option jsval) : provider :=
  let p := {| cart := initialCart; loading := false; inFlight := 0; pending := []; fresh := 0; toasts := []; sent := [] |} in
  match initialCart with Some _ => p | None => send Refreshing refresh_call p end.
End Basket.
