(* ===== verification/Checkout.v ===== *)
(** * storefront: the checkout form (components/checkout/checkout-flow.tsx)

    The form from the moment it is mounted: its key, its fields, and what
    submitting and the answer do.  A submission is possible while the button is
    enabled. *)
From S2P Require Import Prelude JsNumber JsString Zod Schemas Events Api Bff ApiClient Basket.
Local Open Scope js_scope.
Local Open Scope Z_scope.

Module Checkout.
Import ApiClient.ApiClient.

(** A field of the address, as typed. *)
Record address := {
  recipient : jstr; line1 : jstr; line2 : jstr; city : jstr; region : jstr; postalCode : jstr; countryCode : jstr;
  phone : jstr
}.
Inductive field := Recipient | Line1 | Line2 | City | Region | PostalCode | Phone.

Definition type_into (f : field) (v : jstr) (a : address) : address :=
  let pick g x := match f, g with
                  | Recipient, Recipient | Line1, Line1 | Line2, Line2 | City, City | Region, Region
                  | PostalCode, PostalCode | Phone, Phone => v
                  | _, _ => x
                  end in {|
  recipient := pick Recipient (recipient a); line1 := pick Line1 (line1 a); line2 := pick Line2 (line2 a);
  city := pick City (city a); region := pick Region (region a); postalCode := pick PostalCode (postalCode a);
  countryCode := countryCode a; phone := pick Phone (phone a) |}.

(** [s || undefined] *)
Definition or_undefined (s : jstr) : jsval := match s with [] => VUndef | _ => VStr s end.

(** What is checked against [Address]. *)
Definition typed_address (a : address) : jsval := VObj [
  ("recipient", VStr (recipient a)); ("line1", VStr (line1 a)); ("line2", or_undefined (line2 a)); ("city", VStr (city a));
  ("region", or_undefined (region a)); ("postalCode", VStr (postalCode a)); ("countryCode", VStr (countryCode a));
  ("phone", or_undefined (phone a))].

Record form := {
  idempotencyKey_ : jstr;
  typed : address;
  error : option jstr;
  fieldErrors_ : list (jstr * jstr);
  submitting : bool;
  orders : list Basket.call;
  pushed : option jstr
}.

Definition set_error (e : option jstr) (fe : list (jstr * jstr)) (f : form) : form := {|
  idempotencyKey_ := idempotencyKey_ f; typed := typed f; error := e; fieldErrors_ := fe; submitting := submitting f;
  orders := orders f; pushed := pushed f |}.
Definition set_submitting (b : bool) (f : form) : form := {|
  idempotencyKey_ := idempotencyKey_ f; typed := typed f; error := error f; fieldErrors_ := fieldErrors_ f; submitting := b;
  orders := orders f; pushed := pushed f |}.
Definition set_typed (a : address) (f : form) : form := {|
  idempotencyKey_ := idempotencyKey_ f; typed := a; error := error f; fieldErrors_ := fieldErrors_ f;
  submitting := submitting f; orders := orders f; pushed := pushed f |}.
Definition post_order (c : Basket.call) (f : form) : form := {|
  idempotencyKey_ := idempotencyKey_ f; typed := typed f; error := error f; fieldErrors_ := fieldErrors_ f;
  submitting := true; orders := orders f ++ [c]; pushed := pushed f |}.
Definition push (url : jstr) (f : form) : form := {|
  idempotencyKey_ := idempotencyKey_ f; typed := typed f; error := error f; fieldErrors_ := fieldErrors_ f;
  submitting := submitting f; orders := orders f; pushed := Some url |}.

(** [useRef(newIdempotencyKey())] and the first state; the name is that of the
    session. *)
Definition mounted (key fullName : jstr) : form := {|
  idempotencyKey_ := key;
  typed := {| recipient := fullName; line1 := ""; line2 := ""; city := ""; region := ""; postalCode := "";
              countryCode := "EG"; phone := "" |};
  error := None; fieldErrors_ := []; submitting := false; orders := []; pushed := None |}.

(** [cart && cart.lines.length > 0 && !loading && !submitting] *)
Definition canSubmit (cart : option jsval) (loading : bool) (f : form) : bool :=
  match cart with
  | Some c => match prop "lines" c with VArr (_ :: _) => true | _ => false end && negb loading && negb (submitting f)
  | None => false
  end.

Definition order_call (cart shippingAddress : jsval) (f : form) : Basket.call := {|
  Basket.path := "/api/bff/orders";
  Basket.options := {| schema := Api.CreateOrderResponse; method := Some ("POST" : jstr);
    body := VObj [("cartId", prop "id" cart); ("cartVersion", prop "version" cart); ("shippingAddress", shippingAddress);
                  ("paymentMethodToken", VStr "tok_test_visa"); ("expectedTotal", prop "total" cart)];
    idempotencyKey := Some (idempotencyKey_ f) |} |}.

Section Form.
Context `{Zod}.

(** [String(issue.path[0])] *)
Definition first_of (i : issue) : jstr := match Zod.path i with p :: _ => p | [] => "undefined" end.

Definition onSubmit (cart : jsval) (f : form) : form :=
  let f := set_error None [] f in
  match safeParse Schemas.Address (typed_address (typed f)) with
  | Err issues => set_error None (map (λ i, (first_of i, Zod.message i)) issues) f
  | Ok data => post_order (order_call cart data f) f
  end.

(** [f.field.split('.').pop() ?? f.field] *)
Definition last_part (s : jstr) : jstr := List.last (split_on 46 s) [].
Definition field_error (v : jsval) : jstr * jstr :=
  (last_part (Bff.str_of (prop "field" v)), Bff.str_of (prop "message" v)).

Definition answered (r : result exn jsval) (f : form) : form :=
  set_submitting false
    match r with
    | Ok result => push ("/orders/" ++ Bff.str_of (prop "orderId" result)) f
    | Err (ApiClient.Api e) =>
        let shown := if decide (code e = "CART_STALE")
          then ("Your basket changed while you were checking out. Please review it and try again." : jstr)
          else userMessage e in
        set_error (Some shown) (match fieldErrors e with VArr l => map field_error l | _ => fieldErrors_ f end) f
    | Err _ => f
    end.

Inductive event :=
| Type_ (f : field) (v : jstr)
| Submit (cart : jsval)
| Answer (r : result exn jsval).

Definition step (f : form) (e : event) : option form :=
  match e with
  | Type_ g v => Some (set_typed (type_into g v (typed f)) f)
  | Submit cart => if canSubmit (Some cart) false f then Some (onSubmit cart f) else None
  | Answer r => if submitting f then Some (answered r f) else None
  end.

Fixpoint steps (f : form) (es : list event) : option form :=
  match es with
  | [] => Some f
  | e :: r => f' ← step f e; steps f' r
  end.
End Form.
End Checkout.
