(* ===== verification/BasketFacts.v ===== *)
(** * storefront: what the basket shows

    When the provider is busy, what it shows when answers come one at a time,
    and what overlapping requests do to it; and the one key of a checkout. *)
From S2P Require Import Prelude JsNumber JsString JsDate Zod Prog Schemas Events Api Bff BffRoutes.
From S2P Require Import BffWorld BffHttp BffSession.
From S2P Require Import ApiClient Basket Checkout.
Local Open Scope js_scope.
Local Open Scope Z_scope.

Module BasketFacts.
Import ApiClient.ApiClient Basket.Basket.
Implicit Types p : provider.

(** ** Busy *)

Definition ticket_of (t : task) : option nat :=
  match t with Mutating i _ | Recovering i => Some i | Refreshing => None end.
Definition tickets p : list nat := omap (λ t, ticket_of t.2) (pending p).

Record wf p : Prop := {
  wf_ids : NoDup (map fst (pending p));
  wf_fresh : ∀ i, i ∈ map fst (pending p) → (i < fresh p)%nat;
  wf_tickets : NoDup (tickets p);
  wf_issued : ∀ i, i ∈ tickets p → (i <= inFlight p)%nat
}.
Definition busy p : Prop := loading p = true ↔ inFlight p ∈ tickets p.

Lemma filter_absent id (l : list (nat * task)) : id ∉ map fst l → filter (λ t, t.1 ≠ id) l = l.
Proof.
  induction l as [|[i v] l IH]; [done|]. intros [H1 H2]%not_elem_of_cons. rewrite filter_cons, decide_True by (cbn in *; congruence).
  by rewrite IH.
Qed.

Lemma task_of_split id l t :
  task_of id l = Some t → NoDup (map fst l) →
  ∃ l1 l2, l = l1 ++ (id, t) :: l2 ∧ filter (λ t : nat * task, t.1 ≠ id) l = l1 ++ l2.
Proof.
  induction l as [|[i u] l IH]; [done|]. cbn [task_of]. destruct (decide (i = id)) as [->|Hi].
  - intros [= ->] [Hn _]%NoDup_cons. exists [], l. split; [done|]. rewrite filter_cons, decide_False by (by intros []).
    by apply filter_absent.
  - intros Ht [_ Hn]%NoDup_cons. destruct (IH Ht Hn) as (l1 & l2 & -> & Hf). exists ((i, u) :: l1), l2.
    split; [done|]. rewrite filter_cons, decide_True by done. by rewrite Hf.
Qed.

(** A reply takes one task out of the pending ones. *)
Lemma drop_facts id t p :
  task_of id (pending p) = Some t → wf p →
  NoDup (map fst (pending (drop id p))) ∧ (∀ i, i ∈ map fst (pending (drop id p)) → (i < fresh p)%nat) ∧
  NoDup (tickets (drop id p)) ∧ (∀ i, i ∈ tickets (drop id p) → (i <= inFlight p)%nat) ∧
  match ticket_of t with
  | Some k => k ∉ tickets (drop id p) ∧ ∀ i, i ∈ tickets p ↔ i = k ∨ i ∈ tickets (drop id p)
  | None => ∀ i, i ∈ tickets p ↔ i ∈ tickets (drop id p)
  end.
Proof.
  intros Ht [H1 H2 H3 H4]. destruct (task_of_split _ _ _ Ht H1) as (l1 & l2 & Hp & Hd).
  unfold tickets in *. cbn [drop pending]. rewrite Hd, Hp in *.
  rewrite !fmap_app, fmap_cons in H1, H2. rewrite omap_app in H3, H4 |- *. cbn [omap list_omap] in H3, H4.
  rewrite omap_app. change (map fst (l1 ++ l2)) with (fst <$> (l1 ++ l2)). rewrite fmap_app.
  split; [|split; [|split; [|split]]].
  - apply NoDup_app in H1 as (A & B & C). apply NoDup_app. rewrite NoDup_cons in C. set_solver.
  - intros i Hi. apply H2. set_solver.
  - cbn in H3. destruct (ticket_of t); [|done]. apply NoDup_app in H3 as (A & B & C). apply NoDup_app. rewrite NoDup_cons in C. set_solver.
  - intros i Hi. apply H4. cbn. destruct (ticket_of t); set_solver.
  - cbn. cbn in H3. destruct (ticket_of t) as [k|]; [|set_solver]. split; [|set_solver].
    apply NoDup_app in H3 as (A & B & C). rewrite NoDup_cons in C. set_solver.
Qed.

Lemma drop_wf id t p :
  task_of id (pending p) = Some t → wf p →
  wf (drop id p) ∧
  match ticket_of t with
  | Some k => k ∉ tickets (drop id p) ∧ ∀ i, i ∈ tickets p ↔ i = k ∨ i ∈ tickets (drop id p)
  | None => ∀ i, i ∈ tickets p ↔ i ∈ tickets (drop id p)
  end.
Proof. intros Ht Hw. destruct (drop_facts id t p Ht Hw) as (A & B & C & D & E). by split. Qed.

Lemma send_wf t c p :
  wf p → match ticket_of t with Some k => k ∉ tickets p ∧ (k <= inFlight p)%nat | None => True end →
  wf (send t c p) ∧ ∀ i, i ∈ tickets (send t c p) ↔ i ∈ tickets p ∨ ticket_of t = Some i.
Proof.
  intros [H1 H2 H3 H4] Ht.
  assert (tickets (send t c p) = tickets p ++ match ticket_of t with Some k => [k] | None => [] end) as Hs.
  { unfold tickets. cbn. rewrite omap_app. cbn. by destruct (ticket_of t). }
  split; [split|].
  - cbn. change (map fst (pending p ++ [(fresh p, t)])) with (fst <$> (pending p ++ [(fresh p, t)])). rewrite fmap_app.
    apply NoDup_app. split; [done|]. split; [|apply NoDup_singleton]. intros i Hi%H2 ->%list_elem_of_singleton. cbn in Hi. lia.
  - cbn. change (map fst (pending p ++ [(fresh p, t)])) with (fst <$> (pending p ++ [(fresh p, t)])). rewrite fmap_app.
    intros i [Hi%H2|Hi%list_elem_of_singleton]%elem_of_app; [lia|]. cbn in Hi. lia.
  - rewrite Hs. apply NoDup_app. split; [done|]. destruct (ticket_of t) as [k|]; [|split; [set_solver|constructor]].
    split; [|apply NoDup_singleton]. intros i Hi ->%list_elem_of_singleton. by destruct Ht.
  - rewrite Hs. intros i [Hi%H4|Hi]%elem_of_app; [done|]. destruct (ticket_of t) as [k|]; [|set_solver].
    apply list_elem_of_singleton in Hi as ->. apply Ht.
  - intros i. rewrite Hs, elem_of_app. destruct (ticket_of t) as [k|]; set_solver.
Qed.

(** The end of a mutation: [k] is no longer under way. *)
Lemma finish_wf k p :
  wf p → k ∉ tickets p → (loading p = true ↔ inFlight p = k ∨ inFlight p ∈ tickets p) →
  wf (finish k p) ∧ busy (finish k p).
Proof.
  intros [H1 H2 H3 H4] Hk Hl. unfold finish. destruct (decide (k = inFlight p)) as [->|Hn].
  - split; [by split|]. unfold busy. cbn. by split.
  - split; [by split|]. unfold busy. rewrite Hl. naive_solver.
Qed.

(** The parts the bookkeeping does not look at. *)
Lemma wf_cosmetic p q :
  pending q = pending p → fresh q = fresh p → inFlight q = inFlight p → wf p → wf q.
Proof. intros H1 H2 H3 []. split; unfold tickets; rewrite ?H1, ?H2, ?H3; done. Qed.

Lemma refreshed_keeps r p :
  pending (refreshed r p) = pending p ∧ fresh (refreshed r p) = fresh p ∧ inFlight (refreshed r p) = inFlight p ∧
  loading (refreshed r p) = loading p.
Proof. unfold refreshed. destruct r as [|[e| | |]]; try done. by destruct (_ =? _). Qed.

Lemma mutate_wf m key p : wf p → wf (mutate m key p) ∧ busy (mutate m key p).
Proof.
  intros Hw. destruct Hw as [H1 H2 H3 H4]. assert (wf (next_ticket p)) as Hn by (split; try done; intros i Hi%H4; cbn; lia).
  assert (S (inFlight p) ∉ tickets p) as Hf by (intros Hi%H4; lia).
  unfold mutate. destruct (run m key (version p)) as [c|e].
  - destruct (send_wf (Mutating (inFlight (next_ticket p)) (successMessage m)) c (next_ticket p) Hn) as [Hw Ht]; [by split|].
    split; [done|]. unfold busy. rewrite Ht. cbn. naive_solver.
  - apply finish_wf; [done|done|]. cbn. naive_solver.
Qed.

Lemma mutated_wf k s r p :
  wf p → k ∉ tickets p → (k <= inFlight p)%nat → (loading p = true ↔ inFlight p = k ∨ inFlight p ∈ tickets p) →
  wf (mutated k s r p) ∧ busy (mutated k s r p).
Proof.
  intros Hw Hk Hi Hl. unfold mutated. destruct r as [next|[e| | |]]; try by apply finish_wf.
  - apply finish_wf; destruct (decide (k = inFlight p)); try done; destruct s; try done; by apply (wf_cosmetic p).
  - destruct (decide (code e = "CART_STALE")).
    + destruct (send_wf (Recovering k) refresh_call p Hw) as [Hw' Ht]; [done|]. split; [done|]. unfold busy.
      rewrite Ht. cbn. rewrite Hl. naive_solver.
    + apply finish_wf; [by apply (wf_cosmetic p)|done|done].
Qed.

Lemma provider_wf p e p' : step p e = Some p' → wf p ∧ busy p → wf p' ∧ busy p'.
Proof.
  intros Hs [Hw Hb]. destruct e as [m key| |id r]; cbn in Hs.
  - injection Hs as <-. by apply mutate_wf.
  - injection Hs as <-. destruct (send_wf Refreshing refresh_call p Hw I) as [Hw' Ht]. split; [done|].
    unfold busy in *. rewrite Ht. cbn. rewrite Hb. naive_solver.
  - destruct (task_of id (pending p)) as [t|] eqn:Ht; [|done]. injection Hs as <-.
    destruct (drop_wf id t p Ht Hw) as [Hd Hk]. unfold busy in Hb. destruct t as [k s| |k]; cbn [resume ticket_of] in *.
    + destruct Hk as [Hk Hi]. apply mutated_wf; [done|done|apply (wf_issued p Hw), Hi; by left|].
      change (loading (drop id p)) with (loading p). change (inFlight (drop id p)) with (inFlight p). by rewrite Hb, Hi.
    + destruct (refreshed_keeps r (drop id p)) as (E1 & E2 & E3 & E4). split; [by apply (wf_cosmetic (drop id p))|].
      unfold busy, tickets. rewrite E1, E3, E4. rewrite Hb. apply Hk.
    + destruct Hk as [Hk Hi]. destruct (refreshed_keeps r (drop id p)) as (E1 & E2 & E3 & E4).
      apply finish_wf; [by apply (wf_cosmetic (drop id p))| |].
      * unfold tickets. cbn. by rewrite E1.
      * cbn. rewrite E3, E4. unfold tickets. cbn. rewrite E1. cbn. by rewrite Hb, Hi.
Qed.

(** The basket is busy exactly while its newest change is under way: in every
    run, with any number of overlapping changes and refreshes and their answers in
    any order, [loading] is set when the change issued last has not been
    answered (its refresh included when it was stale), and not otherwise; no
    two changes under way share a ticket. *)
Theorem busy_with_the_newest_change c es p :
  steps (mounted c) es = Some p → (loading p = true ↔ inFlight p ∈ tickets p) ∧ NoDup (tickets p).
Proof.
  intros Hs. assert (wf (mounted c) ∧ busy (mounted c)) as Hm.
  { assert (wf {| cart := c; loading := false; inFlight := 0; pending := []; fresh := 0; toasts := []; sent := [] |}) as Hw.
    { split; cbn; try constructor; by intros i Hi%elem_of_nil. }
    unfold mounted. destruct c; [split; [done|]; unfold busy; cbn; by rewrite elem_of_nil|].
    destruct (send_wf Refreshing refresh_call _ Hw I) as [Hw' Ht]. split; [done|]. unfold busy. rewrite Ht. cbn.
    rewrite elem_of_nil. naive_solver. }
  enough (wf p ∧ busy p) as [Hw Hb] by (split; [done|apply Hw]). revert Hs Hm. generalize (mounted c). induction es as [|e es IH]; intros q; cbn; [by intros [= ->]|].
  destruct (step q e) as [q'|] eqn:He; cbn; [|done]. intros Hs Hm. apply (IH q'); [done|]. by eapply provider_wf.
Qed.

(** ** One change at a time *)

Definition idle p : Prop := pending p = [] ∧ loading p = false.

(** A change whose request can be made. *)
Definition sendable (m : mutation) : Prop :=
  match m with SetQuantity s _ | Remove s => is_ok (encodeURIComponent s) = true | _ => True end.

Lemma sendable_run m key v : sendable m → ∃ c, run m key v = Ok c.
Proof.
  destruct m as [s q|s q|s|c]; cbn; try by eexists.
  - unfold patch_line. destruct (encodeURIComponent s); [by eexists|done].
  - unfold patch_line. destruct (encodeURIComponent s); [by eexists|done].
Qed.

Lemma mutate_sends m key p c :
  run m key (version p) = Ok c →
  mutate m key p = send (Mutating (S (inFlight p)) (successMessage m)) c (next_ticket p).
Proof. intros Hc. unfold mutate. by rewrite Hc. Qed.

Definition stale (r : result exn jsval) : bool :=
  match r with Err (Api e) => bool_decide (code e = "CART_STALE") | _ => false end.

(** A change, its answer, and the basket fetched again if it was stale. *)
Record exchange := { x_mutation : mutation; x_key : jstr; x_reply : result exn jsval; x_again : result exn jsval }.

Definition script (n : nat) (x : exchange) : list event :=
  [Do (x_mutation x) (x_key x); Reply n (x_reply x)] ++ (if stale (x_reply x) then [Reply (S n) (x_again x)] else []).

(** What an exchange means for the basket that is shown. *)
Definition shown (c : option jsval) (x : exchange) : option jsval :=
  let fetched (r : result exn jsval) :=
    match r with
    | Ok next => Some next
    | Err (Api e) => if status e =? 404 then None else c
    | Err _ => c
    end in
  match x_reply x with
  | Ok next => Some next
  | r => if stale r then fetched (x_again x) else c
  end.

Lemma task_of_only n t : task_of n [(n, t)] = Some t.
Proof. cbn. by rewrite decide_True. Qed.
Lemma drop_only n t p : pending p = [(n, t)] → pending (drop n p) = [].
Proof. intros Hp. cbn. rewrite Hp, filter_cons, decide_False by (by intros []). done. Qed.

Lemma exchange_shown p x :
  idle p → sendable (x_mutation x) →
  ∃ p', steps p (script (fresh p) x) = Some p' ∧ idle p' ∧ cart p' = shown (cart p) x.
Proof.
  intros [Hp Hl] Hm. destruct (sendable_run (x_mutation x) (x_key x) (version p) Hm) as [c Hc].
  unfold script. cbn [app steps step]. rewrite (mutate_sends _ _ _ _ Hc). cbn [mbind option_bind].
  set (p1 := send _ c (next_ticket p)).
  assert (pending p1 = [(fresh p, Mutating (S (inFlight p)) (successMessage (x_mutation x)))]) as Hp1 by (cbn; by rewrite Hp).
  rewrite Hp1, task_of_only. cbn [mbind option_bind resume].
  pose proof (drop_only _ _ _ Hp1) as Hd. set (p2 := drop (fresh p) p1) in *.
  assert (∀ q, pending q = [] → inFlight q = S (inFlight p) → idle (finish (S (inFlight p)) q)) as Hf.
  { intros q H1 H2. unfold finish. rewrite H2, decide_True by done. done. }
  unfold shown, mutated. destruct (x_reply x) as [next|[e| | |]]; cbn [stale steps].
  - rewrite decide_True by done. eexists. split; [done|].
    destruct (successMessage _); (split; [apply Hf; done|]); unfold finish; cbn; by rewrite decide_True.
  - destruct (decide (code e = "CART_STALE")) as [Hs|Hs].
    + rewrite bool_decide_true by done. cbn [steps step]. set (p3 := send _ refresh_call p2).
      assert (pending p3 = [(S (fresh p), Recovering (S (inFlight p)))]) as Hp3 by (cbn [p3 send pending]; by rewrite Hd).
      rewrite Hp3, task_of_only. cbn [mbind option_bind resume]. pose proof (drop_only _ _ _ Hp3) as Hd3.
      set (p4 := drop (S (fresh p)) p3) in *. destruct (refreshed_keeps (x_again x) p4) as (E1 & E2 & E3 & E4).
      eexists. split; [done|]. split; [apply Hf; cbn [notify pending inFlight]; by rewrite ?E1, ?E3|].
      assert (∀ k q, cart (finish k q) = cart q) as -> by (intros; unfold finish; by destruct (decide _)).
      cbn [notify cart]. unfold refreshed. destruct (x_again x) as [|[e'| | |]]; try done. by destruct (_ =? _).
    + rewrite bool_decide_false by done. eexists. split; [done|]. split; [by apply Hf|].
      unfold finish. cbn. by rewrite decide_True.
  - eexists. split; [done|]. split; [by apply Hf|]. unfold finish. by destruct (decide _).
  - eexists. split; [done|]. split; [by apply Hf|]. unfold finish. by destruct (decide _).
  - eexists. split; [done|]. split; [by apply Hf|]. unfold finish. by destruct (decide _).
Qed.

(** A session of exchanges, each begun when the one before is over. *)
Inductive session : provider → list exchange → provider → Prop :=
| session_nil p : session p [] p
| session_cons p x p1 xs p2 :
    steps p (script (fresh p) x) = Some p1 → session p1 xs p2 → session p (x :: xs) p2.

(** One change at a time shows the truth: when each change is answered before
    the next is made, the session always runs to its end, and the basket shown
    is that of the last answer that brought one: of a change that was made, or
    of the refresh after one that was refused as stale (none at all if there is
    no basket); every other failure leaves it as it was. *)
Theorem one_change_at_a_time p xs :
  idle p → Forall (λ x, sendable (x_mutation x)) xs →
  ∃ p', session p xs p' ∧ idle p' ∧ cart p' = foldl shown (cart p) xs.
Proof.
  intros Hp Hx. revert p Hp. induction Hx as [|x xs Hm Hx IH]; intros p Hp; [by exists p; split; [constructor|]|].
  destruct (exchange_shown p x Hp Hm) as (p1 & H1 & Hi & Hc). destruct (IH p1 Hi) as (p2 & H2 & Hi2 & Hc2).
  exists p2. split; [by econstructor|]. split; [done|]. by rewrite Hc2, Hc.
Qed.

(** ** Changes that overlap *)

Definition rejected (e : ApiError) : Prop := code e ≠ "CART_STALE".

Lemma mutated_rejected k s e p : rejected e → mutated k s (Err (Api e)) p = finish k (notify (failed_toast e) p).
Proof. intros He. cbn. by rewrite decide_False. Qed.

(** Overlapping changes lose an answer: whatever basket is shown, if a second
    change is refused (not as stale) before the first is answered with a new
    basket, the provider comes to rest showing the old one; and if the fetch of
    the first visit finds no basket after an addition was answered, it comes to
    rest showing none.  Nothing is under way any more that would correct it. *)
Theorem overlapping_changes_lose_the_answer m1 m2 k1 k2 next e nf :
  sendable m1 → sendable m2 → rejected e → status nf = 404 →
  (∀ c, ∃ p, steps (mounted (Some c)) [Do m1 k1; Do m2 k2; Reply 1 (Err (Api e)); Reply 0 (Ok next)] = Some p ∧
     idle p ∧ cart p = Some c) ∧
  (∃ p, steps (mounted None) [Do m1 k1; Reply 1 (Ok next); Reply 0 (Err (Api nf))] = Some p ∧ idle p ∧ cart p = None).
Proof.
  intros H1 H2 He Hnf. split.
  - intros c. set (p0 := mounted (Some c)). destruct (sendable_run m1 k1 (version p0) H1) as [c1 Hc1].
    destruct (sendable_run m2 k2 (version p0) H2) as [c2 Hc2].
    cbn [steps step]. rewrite (mutate_sends _ _ _ _ Hc1). cbn [mbind option_bind]. rewrite (mutate_sends m2 k2 (send (Mutating (S (inFlight p0)) (successMessage m1)) c1 (next_ticket p0)) c2 Hc2).
    set (q := send _ c2 _). assert (task_of 1 (pending q) = Some (Mutating 2 (successMessage m2))) as -> by reflexivity.
    cbn [mbind option_bind resume]. rewrite mutated_rejected by done.
    assert (task_of 0 (pending (finish 2 (notify (failed_toast e) (drop 1 q)))) = Some (Mutating 1 (successMessage m1))) as -> by reflexivity.
    eexists. split; [done|]. split; [split; reflexivity|reflexivity].
  - set (p0 := mounted None). destruct (sendable_run m1 k1 (version p0) H1) as [c1 Hc1].
    cbn [steps step]. rewrite (mutate_sends _ _ _ _ Hc1). cbn [mbind option_bind]. set (q := send _ c1 _).
    assert (task_of 1 (pending q) = Some (Mutating 1 (successMessage m1))) as -> by reflexivity. cbn [mbind option_bind resume].
    set (q' := mutated _ _ _ _). assert (pending q' = [(0%nat, Refreshing)] ∧ loading q' = false) as [Hq Hl].
    { unfold q'. by destruct (successMessage m1). }
    rewrite Hq, task_of_only. cbn [mbind option_bind resume]. eexists. split; [done|]. cbn [refreshed]. rewrite Hnf.
    split; [|reflexivity]. split; [exact (drop_only _ _ _ Hq)|exact Hl].
Qed.

(** ** One checkout, one key *)

Module Form := Checkout.Checkout.

Section Checkout.
Context `{Zod}.

(** An order request of the form: its key, and what it says of a basket that was
    submitted. *)
Definition order_of (key : jstr) (es : list Form.event) (c : call) : Prop :=
  path c = "/api/bff/orders" ∧ method (options c) = Some ("POST" : jstr) ∧
  ("Idempotency-Key" : jstr, key) ∈ request_headers (options c) ∧
  ∃ cart, Form.Submit cart ∈ es ∧ prop "cartId" (body (options c)) = prop "id" cart ∧
    prop "cartVersion" (body (options c)) = prop "version" cart ∧ prop "expectedTotal" (body (options c)) = prop "total" cart.

Lemma order_of_more key es es' c : order_of key es c → order_of key (es ++ es') c.
Proof.
  intros (H1 & H2 & H3 & cart & H4 & H5). split; [done|]. split; [done|]. split; [done|]. exists cart.
  split; [apply elem_of_app; by left|done].
Qed.

Lemma step_orders key f e f' es :
  key ≠ [] → Form.step f e = Some f' →
  Form.idempotencyKey_ f = key ∧ Forall (order_of key es) (Form.orders f) →
  Form.idempotencyKey_ f' = key ∧ Forall (order_of key (es ++ [e])) (Form.orders f').
Proof.
  intros Hk Hs [Hf Ho]. assert (Forall (order_of key (es ++ [e])) (Form.orders f)) as Ho'.
  { eapply Forall_impl; [exact Ho|]. intros c. apply order_of_more. }
  destruct e as [g v|cart|r]; cbn in Hs.
  - by injection Hs as <-.
  - destruct (_ && _); [|done]. injection Hs as <-. unfold Form.onSubmit. destruct (safeParse _ _) as [data|]; [|done].
    cbn. split; [done|]. apply Forall_app. split; [done|]. constructor; [|constructor].
    split; [done|]. split; [done|]. split; [|exists cart; split; [apply elem_of_app; right; by left|done]].
    unfold request_headers. cbn [Form.order_call options idempotencyKey Form.set_error Form.idempotencyKey_]. rewrite Hf.
    apply elem_of_app. right. apply elem_of_app. right. destruct key; [done|]. by left.
  - destruct (Form.submitting f); [|done]. injection Hs as <-. unfold Form.answered. by destruct r as [|[e| | |]].
Qed.

(** What the BFF sends for an order: the exchange of the refresh token, and the
    order with its key. *)
Definition keyed (key : jstr) (B : Type) (c : Bff.eff B) : Prop :=
  match c with
  | Bff.FETCH o =>
      (∃ t url m rid, o = Bff.request_of (Bff.post (VObj [("refreshToken", VStr t)])
         (Bff.options Bff.identity "/v1/auth/refresh" Api.TokenPair)) url m rid) ∨
      ("Idempotency-Key" : jstr, key) ∈ Bff.o_headers o
  | _ => True
  end.

Lemma place_order_keyed env key r :
  key ≠ [] → BffRoutes.q_idempotency r = Some key → awaits (keyed key) (BffRoutes.place_order env r).
Proof.
  intros Hk Hq. apply awaits_try; [|intros e; by apply BffSession.awaits_problem]. rewrite Hq.
  destruct key as [|x key]; [done|]. cbn [Bff.truthy].
  assert (awaits (keyed (x :: key)) (Bff.getAccessToken env)) as Ht.
  { apply BffSession.awaits_getAccessToken; try done. intros t. apply BffSession.awaits_call; try done.
    intros url m rid. left. by exists t, url, m, rid. }
  apply awaits_bind; [|intros t; apply awaits_bind; [apply BffSession.awaits_parsed|intros b]].
  - apply awaits_bind; [exact Ht|]. intros t. by destruct (Bff.truthy t).
  - apply awaits_bind; [|intros v; apply BffSession.awaits_json]. apply BffSession.awaits_call; try done.
    intros url m rid. right. cbn -[app]. do 3 (apply elem_of_app; right). by left.
Qed.

(** C27. One checkout, one key: however the customer fills in the form, however
    often the order is submitted and whatever is answered, every order request
    of one visit carries the key the visit began with, and the id, the version
    and the total of a basket that was on the screen; and whatever happens on
    the way the BFF sends order-service only requests with that key, on every
    attempt. *)
Theorem one_checkout_one_key key name es f env r :
  key ≠ [] → Form.steps (Form.mounted key name) es = Some f →
  Forall (order_of key es) (Form.orders f) ∧
  (BffRoutes.q_idempotency r = Some key → awaits (keyed key) (BffRoutes.place_order env r)).
Proof.
  intros Hk Hs. split; [|intros Hq; by apply place_order_keyed].
  assert (∀ es0 es f0, Form.steps f0 es = Some f →
    Form.idempotencyKey_ f0 = key ∧ Forall (order_of key es0) (Form.orders f0) →
    Forall (order_of key (es0 ++ es)) (Form.orders f)) as Hg.
  { clear es Hs. intros es0 es. revert es0. induction es as [|e es IH]; intros es0 f0; cbn.
    - intros [= ->] [_ Ho]. by rewrite app_nil_r.
    - destruct (Form.step f0 e) as [f1|] eqn:He; cbn; [|done]. intros Hs Hf.
      rewrite cons_middle, app_assoc. apply (IH (es0 ++ [e]) f1 Hs). by eapply step_orders. }
  apply (Hg [] es (Form.mounted key name) Hs). by split; [|constructor].
Qed.
End Checkout.
End BasketFacts.
