(* ===== verification/Discount.v ===== *)
(** * storefront: the saving on a price (lib/utils.ts)

    [discountPercent] on binary64, and how far it is from the exact saving. *)
From Stdlib Require Import QArith Qround Qfield Lqa.
From S2P Require Import Prelude JsNumber JsString Primitives.
Local Open Scope js_scope.
Local Open Scope Z_scope.

Module Discount.

(** Amounts are minor units. *)
Definition discountPercent (price : num) (listPrice : option num) : option num :=
  match listPrice with
  | None => None
  | Some list =>
      if nle list price then None
      else
        let saved := nfloor (nmul (ndiv (nsub list price) list) (jint 100)) in
        if nlt (jint 0) saved then Some saved else None
  end.

(** ** The error of the arithmetic *)

Local Open Scope Q_scope.

(** A hundred times the quotient, computed in binary64, is within [2^-43]. *)
Lemma percent_near d l : (0 < d <= l)%Z → (l < 2 ^ 40)%Z →
  ∃ s, nmul (ndiv (jint d) (jint l)) (jint 100) = Fin s ∧
    100 * (inject_Z d / inject_Z l) - (1 # 2 ^ 43) <= s ∧
    s <= 100 * (inject_Z d / inject_Z l) + (1 # 2 ^ 43).
Proof.
  intros Hd Hl. rewrite ndiv_jint by lia. set (x := inject_Z d / inject_Z l).
  assert (inject_Z 1 / inject_Z (2 ^ 40) <= x) as H0 by (apply Qfrac_le; lia).
  assert (x <= 1) as H1 by (change 1 with (inject_Z 1 / inject_Z 1); apply Qfrac_le; lia).
  change (inject_Z 1 / inject_Z (2 ^ 40)) with (1 # 1099511627776) in H0.
  destruct (rnd_near x 1) as (r & -> & Hlo & Hhi); [apply frac_normal; lia|lra|done|].
  change (1 * Qpower 2 (-53)) with (1 # 9007199254740992) in Hlo, Hhi.
  cbn [nmul jint]. change (inject_Z 100) with 100.
  destruct (rnd_near (r * 100) 128) as (s & -> & Hlo' & Hhi'); [|lra..|].
  - split; rewrite Qabs.Qabs_pos by lra.
    + apply Qle_trans with (1 # 1099511627776); [discriminate|lra].
    + apply Qle_trans with 128; [lra|discriminate].
  - change (128 * Qpower 2 (-53)) with (128 # 9007199254740992) in Hlo', Hhi'.
    exists s. split; [done|]. change (2 ^ 43)%positive with 8796093022208%positive. split; lra.
Qed.

(** The floor is that of the exact saving, or one less when that is whole. *)
Lemma floor_percent d l : (0 < d <= l)%Z → (l < 2 ^ 40)%Z →
  ∃ m, nfloor (nmul (ndiv (jint d) (jint l)) (jint 100)) = jint m ∧
    (m = 100 * d / l ∨ m = 100 * d / l - 1 ∧ (100 * d) mod l = 0)%Z.
Proof.
  intros Hd Hl. destruct (percent_near d l Hd Hl) as (s & -> & Hlo & Hhi). exists (Qfloor s). split; [done|].
  set (n := (100 * d / l)%Z). set (r := ((100 * d) mod l)%Z).
  pose proof (Z.div_mod (100 * d) l ltac:(lia)) as Hdm. fold n r in Hdm.
  pose proof (Z.mod_pos_bound (100 * d) l ltac:(lia)) as Hr. fold r in Hr.
  change (2 ^ 43)%positive with 8796093022208%positive in *.
  assert (100 * (inject_Z d / inject_Z l) == inject_Z n + inject_Z r / inject_Z l) as Hx.
  { assert (inject_Z (100 * d) == inject_Z (l * n + r)) as He by (by rewrite Hdm). rewrite inject_Z_plus, !inject_Z_mult in He.
    assert (~ inject_Z l == 0) by (intros H; apply (inject_Z_injective l 0) in H; lia).
    assert (100 * (inject_Z d / inject_Z l) == (inject_Z 100 * inject_Z d) / inject_Z l) as -> by (field; done).
    rewrite He. field. done. }
  rewrite Hx in Hlo, Hhi. clear Hx.
  destruct (decide (r = 0%Z)) as [Hr0|Hr0].
  - rewrite Hr0 in *. assert (inject_Z 0 / inject_Z l == 0) as Hz by (unfold Qdiv; apply Qmult_0_l). rewrite Hz in Hlo, Hhi.
    destruct (Qlt_le_dec s (inject_Z n)) as [Hs|Hs].
    + right. split; [|done]. apply Qfloor_unique; replace (n - 1)%Z with (n + -1)%Z by lia;
        rewrite ?inject_Z_plus; change (inject_Z (-1)) with (-1 # 1); change (inject_Z 1) with 1; lra.
    + left. apply Qfloor_unique; [done|]. rewrite inject_Z_plus. change (inject_Z 1) with 1. lra.
  - left. assert (inject_Z 1 / inject_Z (2 ^ 40) <= inject_Z r / inject_Z l) as Ha by (apply Qfrac_le; nia).
    assert (inject_Z r / inject_Z l <= inject_Z (2 ^ 40 - 1) / inject_Z (2 ^ 40)) as Hb by (apply Qfrac_le; nia).
    change (inject_Z 1 / inject_Z (2 ^ 40)) with (1 # 1099511627776) in Ha.
    change (inject_Z (2 ^ 40 - 1) / inject_Z (2 ^ 40)) with (1099511627775 # 1099511627776) in Hb.
    apply Qfloor_unique; [lra|]. rewrite inject_Z_plus. change (inject_Z 1) with 1. lra.
Qed.

Local Close Scope Q_scope.

(** C28. A saving is never overstated: for amounts below [2^40] the percentage shown is
    the exact one rounded down, or one less, which happens only when the exact
    one is whole; and no percentage is shown when that is not positive, or the
    price is not below the reference. *)
Theorem discount_is_never_overstated price list :
  0 <= price → 0 < list < 2 ^ 40 →
  ∃ shown, (shown = 100 * (list - price) / list ∨
            shown = 100 * (list - price) / list - 1 ∧ (100 * (list - price)) mod list = 0) ∧
    discountPercent (jint price) (Some (jint list)) =
      (if (price <? list) && (0 <? shown) then Some (jint shown) else None).
Proof.
  intros Hp Hl. unfold discountPercent. rewrite nle_jint. destruct (Z.leb_spec list price) as [Hle|Hlt].
  - exists (100 * (list - price) / list). split; [by left|]. destruct (Z.ltb_spec price list); [lia|done].
  - rewrite jint_sub by lia. destruct (floor_percent (list - price) list) as (m & Hm & Hs); [lia|lia|].
    exists m. split; [done|]. rewrite Hm, nlt_jint. destruct (Z.ltb_spec price list); [|lia]. done.
Qed.

Lemma discount_is_never_overstated_witness :
  (0 <= 71 ∧ 0 < 100 < 2 ^ 40) ∧ 100 * (100 - 71) / 100 = 29 ∧ discountPercent (jint 71) (Some (jint 100)) = Some (jint 28) ∧
  ∃ shown, (shown = 29 ∨ shown = 28 ∧ (100 * (100 - 71)) mod 100 = 0) ∧
    discountPercent (jint 71) (Some (jint 100)) = (if (71 <? 100) && (0 <? shown) then Some (jint shown) else None).
Proof.
  split; [lia|]. split; [reflexivity|]. split; [vm_compute; reflexivity|].
  exact (discount_is_never_overstated 71 100 ltac:(lia) ltac:(lia)).
Defined.
End Discount.
