(* ===== verification/SagaInspector.v ===== *)
(** * admin: the saga inspector (components/saga-inspector.tsx, components/saga-inspector-panel.tsx)

    What the screen shows of a trace that satisfied the contract, which
    controls it offers, and what they post; and that every control offered is
    one the admin routes accept. *)
From Stdlib Require Import QArith Qround.
From S2P Require Import Prelude JsNumber JsString JsDate Zod Prog Schemas Events Api Cursor Bff.
From S2P Require Import Admin AdminRoutes AdminFacts.
Local Open Scope js_scope.
Local Open Scope Z_scope.

Module SagaInspector.

(** ** Data *)

Definition FORWARD_STEPS : list jstr := ["RESERVE"; "AUTHORIZE"; "COMMIT"; "CAPTURE"].
Definition COMPENSATION_STEPS : list jstr := ["RELEASE"; "VOID"].

Record detail := { owner : jstr; what : jstr; reversible : bool }.

Definition STEP_DETAIL : list (jstr * detail) := [
  ("RESERVE", {| owner := "inventory-service"; what := "Hold the stock"; reversible := true |});
  ("AUTHORIZE", {| owner := "payment-service"; what := "Ring-fence the funds"; reversible := true |});
  ("COMMIT", {| owner := "inventory-service"; what := "Deduct the stock"; reversible := false |});
  ("CAPTURE", {| owner := "payment-service"; what := "Take the money"; reversible := false |});
  ("RELEASE", {| owner := "inventory-service"; what := "Return the stock"; reversible := true |});
  ("VOID", {| owner := "payment-service"; what := "Release the funds"; reversible := true |})].

Definition PAST_NO_RETURN : list jstr := ["PAID"; "STOCK_COMMITTED"; "CONFIRMED"].

(** [s === t] for a value of the trace. *)
Definition is_text (t : jstr) (v : jsval) : bool := match v with VStr s => bool_decide (s = t) | _ => false end.
Definition steps_of (trace : jsval) : list jsval := match prop "steps" trace with VArr l => l | _ => [] end.

(** [new Map(steps.map((s) => [s.step, s])).get(name)]: the last one. *)
Definition by_step (trace : jsval) (name : jstr) : option jsval :=
  last (filter (λ s, is_text name (prop "step" s) = true) (steps_of trace)).

Definition pastNoReturn (trace : jsval) : bool :=
  to_boolean (prop "rollbackForbidden" trace) || existsb (λ s, is_text s (prop "status" trace)) PAST_NO_RETURN.

Section Inspector.
Context `{DateParse}.

(** Sent, not acknowledged, and past its deadline. *)
Definition is_overdue (now : Z) (s : jsval) : bool :=
  is_text "SENT" (prop "state" s) &&
  match prop "deadlineAt" s with VStr d => nlt (date_parse d) (jint now) | _ => false end.

Definition overdue (now : Z) (trace : jsval) : list jsval := filter (λ s, is_overdue now s = true) (steps_of trace).

(** [formatRelative] *)
Definition formatRelative (now : Z) (iso : jstr) : jstr :=
  match nfloor (ndiv (nsub (jint now) (date_parse iso)) (jint 1000)) with
  | Fin q =>
      let seconds := Qfloor q in
      if seconds <? 5 then "just now"
      else if seconds <? 60 then string_of_int seconds ++ "s ago"
      else if seconds <? 3600 then string_of_int (seconds / 60) ++ "m ago"
      else if seconds <? 86400 then string_of_int (seconds / 3600) ++ "h ago"
      else string_of_int (seconds / 86400) ++ "d ago"
  | NaN => "NaNd ago"
  | Inf true => "just now"
  | Inf false => "Infinityd ago"
  end.

(** ** The screen *)

Record row := { name : jstr; row_state : jstr; late : bool; irreversible : bool; canRetry : bool }.

Definition row_of (now : Z) (trace : jsval) (canAct : bool) (n : jstr) : row :=
  let step := by_step trace n in {|
  name := n;
  row_state := match step with Some s => match prop "state" s with VStr t => t | _ => "PENDING" end | None => "PENDING" end;
  late := match step with Some s => is_overdue now s | None => false end;
  irreversible := negb (existsb (λ d, bool_decide (d.1 = n) && reversible d.2) STEP_DETAIL);
  canRetry := canAct && match step with Some s => is_text "FAILED" (prop "state" s) | None => false end |}.

Record screen := {
  cancel : bool;
  no_return : bool;
  late_alert : list jsval;
  forward : list row;
  compensation : option (list row)
}.

Definition inspected (now : Z) (trace : jsval) (canAct : bool) : screen :=
  let past := pastNoReturn trace in
  let compensating := is_text "COMPENSATING" (prop "status" trace) in
  let present := filter (λ n, bool_decide (is_Some (by_step trace n)) = true) COMPENSATION_STEPS in {|
  cancel := canAct && negb past && negb (is_text "CANCELLED" (prop "status" trace));
  no_return := past;
  late_alert := if past then [] else overdue now trace;
  forward := map (row_of now trace canAct) FORWARD_STEPS;
  compensation := if compensating || negb (bool_decide (present = [])) then Some (map (row_of now trace canAct) present)
                  else None |}.

(** The lines of a row below its name; [attempts] comes with whether it is
    emphasised. *)
Record notes := {
  n_index : option nat; n_owner : jstr; n_what : jstr; n_attempts : option (num * bool); n_sent : option jstr; n_acked : option jstr;
  n_overdue : option jstr; n_error : option jstr; n_event : option jstr
}.
Definition text_at (k : jstr) (v : jsval) : option jstr := match prop k v with VStr (c :: t) => Some (c :: t) | _ => None end.
Definition notes_of (now : Z) (trace : jsval) (index : option nat) (n : jstr) : notes :=
  let step := by_step trace n in
  let detail := snd <$> find (λ d : jstr * detail, bool_decide (d.1 = n)) STEP_DETAIL in
  let when k := s ← step; t ← text_at k s; Some (formatRelative now t) in {|
  n_index := index; n_owner := default [] (owner <$> detail); n_what := default [] (what <$> detail);
  n_attempts := s ← step; match prop "attempts" s with
                          | VNum a => if nlt (jint 1) a then Some (a, nle (jint 5) a) else None
                          | _ => None
                          end;
  n_sent := (λ t, "sent " ++ t) <$> when "sentAt"; n_acked := (λ t, "acked " ++ t) <$> when "ackedAt";
  n_overdue := s ← step; if is_overdue now s then (λ t, "overdue since " ++ t) <$> when "deadlineAt" else None;
  n_error := s ← step; text_at "error" s; n_event := s ← step; text_at "eventId" s |}.

Inductive icon := Acknowledged | FailedIcon | Overdue | InFlight | Skipped | NotStarted.
Definition StepIcon (state : jstr) (overdue : bool) : icon :=
  if decide (state = "ACKED") then Acknowledged
  else if decide (state = "FAILED") then FailedIcon
  else if bool_decide (state = "TIMED_OUT") || overdue then Overdue
  else if decide (state = "SENT") then InFlight
  else if decide (state = "SKIPPED") then Skipped
  else NotStarted.
Definition StatusBadge (status : jstr) : jstr :=
  if decide (status = "CONFIRMED" ∨ status = "DELIVERED") then "default"
  else if decide (status = "CANCELLED" ∨ status = "REFUNDED") then "destructive"
  else if decide (status = "COMPENSATING") then "outline" else "secondary".
End Inspector.

(** ** The panel *)

(** The path and the body of a control. *)
Definition action_path (orderId act : jstr) : result jstr jstr :=
  match encodeURIComponent orderId with
  | Ok e => Ok ("/api/admin/orders/" ++ e ++ "/" ++ act)
  | Err m => Err m
  end.
Definition retry_body (step : jstr) : jsval := VObj [("step", VStr step)].

(** The controls a screen offers: the operations the admin routes know. *)
Definition controls (orderId : jstr) (s : screen) : list AdminFacts.operation :=
  (if cancel s then [AdminFacts.Cancel orderId] else []) ++
  map (λ r, AdminFacts.Retry orderId (name r)) (filter (λ r, canRetry r = true) (forward s ++ default [] (compensation s))).

(** ** Theorems *)

(** What a status of the contract allows. *)
Definition cancellable : list jstr := ["PENDING"; "STOCK_RESERVED"; "COMPENSATING"; "SHIPPED"; "DELIVERED"; "REFUNDED"].

Lemma order_statuses_split s : s ∈ Api.order_statuses →
  s ∈ cancellable ∧ s ∉ PAST_NO_RETURN ∧ s ≠ "CANCELLED" ∨ s ∉ cancellable ∧ (s ∈ PAST_NO_RETURN ∨ s = "CANCELLED").
Proof.
  assert (Forall (λ s : jstr, s ∈ cancellable ∧ s ∉ PAST_NO_RETURN ∧ s ≠ "CANCELLED" ∨
    s ∉ cancellable ∧ (s ∈ PAST_NO_RETURN ∨ s = "CANCELLED")) Api.order_statuses) as Hf by (by apply (bool_decide_unpack _); vm_compute).
  rewrite Forall_forall in Hf. apply Hf.
Qed.

Lemma past_status trace s : prop "status" trace = VStr s →
  pastNoReturn trace = to_boolean (prop "rollbackForbidden" trace) || bool_decide (s ∈ PAST_NO_RETURN).
Proof.
  intros Hs. unfold pastNoReturn. f_equal. rewrite Hs. apply eq_true_iff_eq. rewrite existsb_exists, bool_decide_eq_true.
  unfold is_text. split.
  - intros (x & Hx & ->%bool_decide_eq_true). by apply list_elem_of_In.
  - intros Hx. exists s. split; [by apply list_elem_of_In|by apply bool_decide_eq_true].
Qed.

(** Every step a retry is offered for is one of the saga's. *)
Lemma controls_steps `{DateParse} now trace canAct orderId id step :
  AdminFacts.Retry id step ∈ controls orderId (inspected now trace canAct) → id = orderId ∧ step ∈ AdminRoutes.STEPS ∧ canAct = true.
Proof.
  intros [Hc|Hr]%elem_of_app.
  { destruct (cancel _); [|by apply elem_of_nil in Hc]. apply list_elem_of_singleton in Hc. done. }
  apply list_elem_of_fmap in Hr as (r & [= -> ->] & [Hcr Hr]%list_elem_of_filter). split; [done|].
  assert (∃ n, r = row_of now trace canAct n ∧ n ∈ AdminRoutes.STEPS) as (n & -> & Hn).
  { apply elem_of_app in Hr as [Hr|Hr].
    - apply list_elem_of_fmap in Hr as (n & -> & Hn). exists n. split; [done|]. unfold FORWARD_STEPS, AdminRoutes.STEPS in *. set_solver.
    - unfold inspected in Hr. cbn [compensation] in Hr. destruct (_ || _); [|by apply elem_of_nil in Hr]. apply list_elem_of_fmap in Hr as (n & -> & [_ Hn]%list_elem_of_filter).
      exists n. split; [done|]. unfold COMPENSATION_STEPS, AdminRoutes.STEPS in *. set_solver. }
  split; [done|]. cbn in Hcr. by destruct canAct.
Qed.

Lemma trace_status `{Zod} v trace :
  safeParse Api.SagaTrace v = Ok trace → ∃ s, prop "status" trace = VStr s ∧ s ∈ Api.order_statuses.
Proof.
  intros Hv. assert (interp is_email is_url is_uuid Api.OrderStatus (prop "status" v) = Some (prop "status" trace)) as Hs.
  { eapply safeParse_field; [exact Hv|by apply nodup_keys; vm_compute|right; by left]. }
  cbn [interp Api.OrderStatus] in Hs. destruct (prop "status" v) as [| | | |t| |]; try done. destruct (decide _); [|done].
  exists t. by injection Hs as <-.
Qed.

(** The inspector offers what the server knows: for a trace of the contract,
    the cancel control is there exactly when the operator may act, the server
    does not forbid the rollback and the status is neither past the point of no
    return nor cancelled, and then the explanation is not; every control that is
    offered is an operation its request names to the admin routes, which accept
    it. *)
Theorem inspector_controls_are_accepted `{DateParse} `{Zod} now trace v canAct orderId :
  safeParse Api.SagaTrace v = Ok trace →
  (cancel (inspected now trace canAct) = true ↔
     canAct = true ∧ to_boolean (prop "rollbackForbidden" trace) = false ∧
     ∃ s, prop "status" trace = VStr s ∧ s ∈ cancellable) ∧
  (no_return (inspected now trace canAct) = true → cancel (inspected now trace canAct) = false) ∧
  (∀ op, op ∈ controls orderId (inspected now trace canAct) →
     canAct = true ∧ AdminFacts.operation_id op = orderId ∧
     ∃ act q, AdminFacts.names (AdminFacts.OrderAction orderId act q) op).
Proof.
  intros Hv. destruct (trace_status v trace Hv) as (s & Hs & Hin). split; [|split].
  - cbn. rewrite (past_status trace s Hs). unfold is_text. rewrite Hs, !andb_true_iff, !negb_true_iff, orb_false_iff, !bool_decide_eq_false.
    destruct (order_statuses_split s Hin) as [(H1 & H2 & H3)|(H1 & [H2|H2])]; naive_solver.
  - cbn. intros ->. by rewrite andb_false_r.
  - intros op Hop. destruct op as [id|id|id step|id].
    + apply elem_of_app in Hop as [Hc|Hr]; [destruct (cancel _); set_solver|].
      apply list_elem_of_fmap in Hr as (r & He & _). done.
    + apply elem_of_app in Hop as [Hc|Hr]; [destruct (cancel _); set_solver|].
      apply list_elem_of_fmap in Hr as (r & He & _). done.
    + destruct (controls_steps _ _ _ _ _ _ Hop) as (-> & Hst & Hca). split; [done|]. split; [done|].
      exists "retry", (Ok (retry_body step)). eapply (AdminFacts.names_retry orderId (retry_body step) (retry_body step) step); [|done|done].
      apply safeParse_ok. cbn. rewrite !(decide_True (P := ("step" : jstr) = "step")) by done. cbn. by rewrite decide_True.
    + apply elem_of_app in Hop as [Hc|Hr].
      * destruct (cancel _) eqn:Hcan; [|by apply elem_of_nil in Hc]. apply list_elem_of_singleton in Hc. injection Hc as ->.
        cbn in Hcan. split; [by destruct canAct|]. split; [done|]. exists "cancel", (Ok VUndef). constructor.
      * apply list_elem_of_fmap in Hr as (r & He & _). done.
Qed.

(** The icon of a row says how its step is: of a step of the contract it is the
    clock exactly when the step timed out, or was sent and is past its deadline,
    and any other icon belongs to one state alone. *)
Lemma icons_tell_states `{DateParse} now trace canAct n :
  let r := row_of now trace canAct n in
  (StepIcon (row_state r) (late r) = Overdue ↔ row_state r = "TIMED_OUT" ∨ late r = true) ∧
  (StepIcon (row_state r) (late r) = InFlight ↔ row_state r = "SENT" ∧ late r = false) ∧
  (StepIcon (row_state r) (late r) = Acknowledged ↔ row_state r = "ACKED") ∧
  (StepIcon (row_state r) (late r) = FailedIcon ↔ row_state r = "FAILED") ∧
  (StepIcon (row_state r) (late r) = Skipped ↔ row_state r = "SKIPPED").
Proof.
  intros r. assert (late r = true → row_state r = "SENT") as Hl.
  { subst r. cbn. destruct (by_step trace n) as [s|]; [|done]. unfold is_overdue, is_text.
    destruct (prop "state" s); try done. intros [Hs _]%andb_true_iff. by apply bool_decide_eq_true in Hs. }
  generalize dependent (late r). generalize (row_state r). clear. intros st b Hb. unfold StepIcon.
  assert (b = true → st = "SENT" ∧ (st : jstr) ≠ "TIMED_OUT" ∧ (st : jstr) ≠ "ACKED" ∧ (st : jstr) ≠ "FAILED" ∧ (st : jstr) ≠ "SKIPPED") as Hs
    by (intros ->%Hb; by repeat split).
  destruct (decide (st = "ACKED")) as [->|]; [by destruct b; naive_solver|].
  destruct (decide (st = "FAILED")) as [->|]; [by destruct b; naive_solver|].
  case_bool_decide as Ht; cbn [orb]; [subst st; by destruct b; naive_solver|]. destruct b; [naive_solver|].
  destruct (decide (st = "SENT")) as [->|]; [naive_solver|]. destruct (decide (st = "SKIPPED")) as [->|]; naive_solver.
Qed.

(** ** Examples *)

Definition stuck_trace : jsval := VObj [
  ("orderId", VStr "ord_01ARZ3NDEKTSV4RRFFQ69G5FAV"); ("status", VStr "STOCK_RESERVED");
  ("steps", VArr [VObj [("step", VStr "AUTHORIZE"); ("state", VStr "FAILED"); ("attempts", vint 2); ("sentAt", VNull);
     ("ackedAt", VNull); ("deadlineAt", VNull); ("error", VStr "declined"); ("eventId", VNull)]]);
  ("rollbackForbidden", VBool false); ("correlationId", VStr "c1"); ("startedAt", VStr "2024-01-01T00:00:00.000Z");
  ("updatedAt", VStr "2024-01-01T00:00:00.000Z")].

Lemma inspector_controls_are_accepted_witness :
  safeParse Api.SagaTrace stuck_trace = Ok stuck_trace ∧
  (cancel (inspected 0 stuck_trace true) = true ↔
     true = true ∧ to_boolean (prop "rollbackForbidden" stuck_trace) = false ∧
     ∃ s, prop "status" stuck_trace = VStr s ∧ s ∈ cancellable).
Proof.
  split; [vm_compute; reflexivity|].
  apply (inspector_controls_are_accepted 0 stuck_trace stuck_trace true "ord_1"). vm_compute. reflexivity.
Defined.
End SagaInspector.
