(* ===== verification/Toasts.v ===== *)
(** * storefront: notifications on the screen (hooks/use-toast.ts)

    The module-level store as a machine: [step] is one turn of the event loop,
    in which a toast is shown or dismissed, a removal timer fires, or a
    component that uses the hook is rendered, subscribed or removed.  What a
    toast shows ([ToastProps], title, description, action) is a parameter.

    [ToastsFacts] says what becomes of a toast. *)
From stdpp Require Import sorting.
From S2P Require Import Prelude JsString.
Local Open Scope js_scope.
Local Open Scope Z_scope.

Module Toasts.
Section Toasts.
Context {P : Type}.

Definition TOAST_LIMIT : nat := 3.
(** [Number.MAX_SAFE_INTEGER] *)
Definition MAX_SAFE_INTEGER : Z := 2 ^ 53 - 1.

Record toast := { t_id : jstr; t_open : bool; t_props : P }.

(** A component that called [useToast]: the state it renders. *)
Record hook := { h_name : nat; h_view : list toast }.

Record store := {
  count : Z;
  toasts : list toast;
  removalTimers : list jstr;
  listeners : list nat;
  hooks : list hook
}.

Definition start : store := {| count := 0; toasts := []; removalTimers := []; listeners := []; hooks := [] |}.

(** [nextId]: the new value of [count]. *)
Definition next_count (c : Z) : Z := (c + 1) mod MAX_SAFE_INTEGER.

(** [dispatch]: the memory, then every listener. *)
Definition tell (next : list toast) (ls : list nat) (h : hook) : hook :=
  if bool_decide (h_name h ∈ ls) then {| h_name := h_name h; h_view := next |} else h.
Definition dispatch (next : list toast) (s : store) : store := {|
  count := count s; toasts := next; removalTimers := removalTimers s; listeners := listeners s;
  hooks := map (tell next (listeners s)) (hooks s) |}.

Definition set_timers (l : list jstr) (s : store) : store := {|
  count := count s; toasts := toasts s; removalTimers := l; listeners := listeners s; hooks := hooks s |}.
Definition set_count (c : Z) (s : store) : store := {|
  count := c; toasts := toasts s; removalTimers := removalTimers s; listeners := listeners s; hooks := hooks s |}.
Definition set_hooks (ls : list nat) (hs : list hook) (s : store) : store := {|
  count := count s; toasts := toasts s; removalTimers := removalTimers s; listeners := ls; hooks := hs |}.

Definition scheduleRemoval (id : jstr) (s : store) : store :=
  if bool_decide (id ∈ removalTimers s) then s else set_timers (id :: removalTimers s) s.

(** The callback of a removal timer. *)
Definition remove (id : jstr) (s : store) : store :=
  let s := set_timers (filter (λ i, i ≠ id) (removalTimers s)) s in
  dispatch (filter (λ t, t_id t ≠ id) (toasts s)) s.

Definition close (id : jstr) (t : toast) : toast :=
  if decide (t_id t = id) then {| t_id := t_id t; t_open := false; t_props := t_props t |} else t.

(** [dismiss] of the handle, of [onOpenChange(false)] and of the hook. *)
Definition dismiss (id : jstr) (s : store) : store :=
  scheduleRemoval id (dispatch (map (close id) (toasts s)) s).

Definition show (props : P) (s : store) : store :=
  let s := set_count (next_count (count s)) s in
  dispatch (take TOAST_LIMIT ({| t_id := string_of_int (count s); t_open := true; t_props := props |} :: toasts s)) s.

(** [listeners.splice(listeners.indexOf(setState), 1)] *)
Fixpoint splice (i : nat) (ls : list nat) : list nat :=
  match ls with [] => [] | j :: r => if decide (i = j) then r else j :: splice i r end.

Inductive event :=
| Toast (props : P)
| Dismiss (id : jstr)
| Expire (id : jstr)
| Render (i : nat)
| Subscribe (i : nat)
| Cleanup (i : nat).

(** One turn of the event loop; [None] when the event cannot happen. *)
Definition step (s : store) (e : event) : option store :=
  match e with
  | Toast props => Some (show props s)
  | Dismiss id => Some (dismiss id s)
  | Expire id => if bool_decide (id ∈ removalTimers s) then Some (remove id s) else None
  | Render i => Some (set_hooks (listeners s) ({| h_name := i; h_view := toasts s |} :: hooks s) s)
  | Subscribe i => Some (set_hooks (listeners s ++ [i]) (hooks s) s)
  | Cleanup i => Some (set_hooks (splice i (listeners s)) (filter (λ h, h_name h ≠ i) (hooks s)) s)
  end.

Fixpoint steps (s : store) (es : list event) : option store :=
  match es with [] => Some s | e :: r => match step s e with Some s' => steps s' r | None => None end end.
End Toasts.
Arguments toast P : clear implicits.
Arguments hook P : clear implicits.
Arguments store P : clear implicits.
Arguments event P : clear implicits.
End Toasts.

(** * storefront: what becomes of a notification

    Invariants of the toast store in every run: how many toasts there are, which
    of them leave, and who is told. *)

Module ToastsFacts.
Import Toasts.
Section ToastsFacts.
Context {P : Type}.
Implicit Types (s : store P) (t : toast P).

(** Dismissals name a toast that was shown, and [count] has not wrapped. *)
Fixpoint issued (c : Z) (es : list (event P)) : Prop :=
  match es with
  | [] => True
  | Toast _ :: r => c + 1 < MAX_SAFE_INTEGER ∧ issued (c + 1) r
  | Dismiss id :: r => (∃ k, 1 ≤ k ≤ c ∧ id = string_of_int k) ∧ issued c r
  | _ :: r => issued c r
  end.

(** [ks] are the numbers of the toasts on the screen. *)
Record Inv (s : store P) : Prop := {
  inv_count : 0 ≤ count s < MAX_SAFE_INTEGER;
  inv_length : (length (toasts s) ≤ TOAST_LIMIT)%nat;
  inv_numbers : ∃ ks, map t_id (toasts s) = map string_of_int ks ∧ StronglySorted Z.gt ks ∧ Forall (λ k, 1 ≤ k ≤ count s) ks;
  inv_closed t : t ∈ toasts s → t_open t = false ↔ t_id t ∈ removalTimers s;
  inv_timers id : id ∈ removalTimers s → ∃ k, 1 ≤ k ≤ count s ∧ id = string_of_int k;
  inv_once : NoDup (removalTimers s)
}.

Lemma sorted_nodup ks : StronglySorted Z.gt ks → NoDup ks.
Proof.
  induction 1 as [|k ks _ IH Hk]; constructor; [|done]. intros Hi. rewrite Forall_forall in Hk. specialize (Hk k Hi). lia.
Qed.

Lemma sorted_sublist (l k : list Z) : sublist l k → StronglySorted Z.gt k → StronglySorted Z.gt l.
Proof.
  induction 1 as [|x l k Hs IH|x l k Hs IH]; intros Hk; [done| |]; apply StronglySorted_inv in Hk as [Hk Hx]; [|by apply IH].
  constructor; [by apply IH|]. rewrite Forall_forall in *. intros y Hy. by apply Hx, (elem_of_sublist l).
Qed.

(** A list of toasts whose numbers are among those of another. *)
Lemma numbers_sublist (l k : list (toast P)) ks : sublist l k → map t_id k = map string_of_int ks →
  ∃ js, map t_id l = map string_of_int js ∧ sublist js ks.
Proof.
  intros Hs. revert ks. induction Hs as [|x l k Hs IH|x l k Hs IH]; intros [|n ks] He; try done.
  - by exists [].
  - injection He as Hx He. destruct (IH ks He) as (js & Hj & Hsub). exists (n :: js). cbn. rewrite Hx, Hj. split; [done|by constructor].
  - injection He as Hx He. destruct (IH ks He) as (js & Hj & Hsub). exists js. split; [done|by constructor].
Qed.

Lemma ids_distinct s : Inv s → NoDup (map t_id (toasts s)).
Proof.
  intros HI. destruct (inv_numbers s HI) as (ks & -> & Hs & _). apply NoDup_fmap_2; [|by apply sorted_nodup].
  intros a b. apply string_of_int_inj.
Qed.

Lemma toasts_dispatch next s : toasts (dispatch next s) = next. Proof. done. Qed.

(** Fewer toasts with the same timers. *)
Lemma numbers_kept s (l : list (toast P)) :
  Inv s → sublist l (toasts s) →
  ∃ ks, map t_id l = map string_of_int ks ∧ StronglySorted Z.gt ks ∧ Forall (λ k, 1 ≤ k ≤ count s) ks.
Proof.
  intros HI Hl. destruct (inv_numbers s HI) as (ks & Hk & Hs & Hf).
  destruct (numbers_sublist l _ ks Hl Hk) as (js & Hj & Hsub). exists js. split; [done|]. split; [by eapply sorted_sublist|].
  rewrite Forall_forall in *. intros k Hi. by apply Hf, (elem_of_sublist js).
Qed.

Lemma close_ids id (l : list (toast P)) : map t_id (map (close id) l) = map t_id l.
Proof. induction l as [|t l IH]; [done|]. cbn. rewrite IH. f_equal. unfold close. by destruct (decide _). Qed.

Lemma close_open id t : t_open (close id t) = if decide (t_id t = id) then false else t_open t.
Proof. unfold close. by destruct (decide _). Qed.

Lemma elem_close id t (l : list (toast P)) : t ∈ map (close id) l → ∃ u, u ∈ l ∧ t = close id u.
Proof. intros H. apply list_elem_of_fmap in H as (u & -> & Hu). by exists u. Qed.

Lemma timers_schedule id s i : i ∈ removalTimers (scheduleRemoval id s) ↔ i = id ∨ i ∈ removalTimers s.
Proof.
  unfold scheduleRemoval. destruct (bool_decide_reflect (id ∈ removalTimers s)) as [H|H]; [|cbn; set_solver].
  split; [by right|]. by intros [->|].
Qed.

Lemma inv_show props s : Inv s → count s + 1 < MAX_SAFE_INTEGER → Inv (show props s).
Proof.
  intros HI Hc. pose proof (inv_count s HI) as Hb.
  assert (next_count (count s) = count s + 1) as Hn by (apply Z.mod_small; lia).
  unfold show. cbn [count set_count]. rewrite Hn. split; cbn [count toasts removalTimers dispatch set_count].
  - lia.
  - rewrite length_take. lia.
  - destruct (inv_numbers s HI) as (ks & Hk & Hs & Hf).
    destruct (numbers_sublist (take TOAST_LIMIT ({| t_id := string_of_int (count s + 1); t_open := true; t_props := props |} :: toasts s))
      _ (count s + 1 :: ks) (sublist_take _ _)) as (js & Hj & Hsub).
    { cbn. by rewrite Hk. }
    assert (Forall (λ k, 1 ≤ k ≤ count s + 1) (count s + 1 :: ks)) as Hf'.
    { constructor; [lia|]. eapply Forall_impl; [exact Hf|]. cbn. lia. }
    exists js. split; [done|]. split.
    + eapply sorted_sublist; [exact Hsub|]. constructor; [done|]. eapply Forall_impl; [exact Hf|]. cbn. lia.
    + rewrite Forall_forall in *. intros k Hi. by apply Hf', (elem_of_sublist js).
  - intros t Ht. eapply elem_of_sublist in Ht; [|apply sublist_take]. apply elem_of_cons in Ht as [->|Ht]; [|by apply inv_closed].
    cbn. split; [done|]. intros Hi. apply (inv_timers s HI) in Hi as (k & Hk & He). apply string_of_int_inj in He. lia.
  - intros id Hi. destruct (inv_timers s HI id Hi) as (k & Hk & ->). exists k. split; [lia|done].
  - by apply inv_once.
Qed.

Lemma inv_dismiss id k s : Inv s → 1 ≤ k ≤ count s → id = string_of_int k → Inv (dismiss id s).
Proof.
  intros HI Hk ->. unfold dismiss. set (d := dispatch _ s).
  assert (count (scheduleRemoval (string_of_int k) d) = count s ∧
          toasts (scheduleRemoval (string_of_int k) d) = map (close (string_of_int k)) (toasts s)) as [Hc Ht]
    by (unfold scheduleRemoval; by destruct (bool_decide _)).
  split; rewrite ?Hc, ?Ht.
  - by apply inv_count.
  - rewrite length_map. by apply inv_length.
  - rewrite close_ids. by apply inv_numbers.
  - intros t Hi. apply elem_close in Hi as (u & Hu & ->). rewrite close_open, timers_schedule.
    pose proof (inv_closed s HI u Hu) as Hcl. cbn [removalTimers d dispatch].
    unfold close. destruct (decide (t_id u = string_of_int k)) as [He|He]; cbn; [by rewrite He; tauto|]. rewrite Hcl. tauto.
  - intros id Hi. apply timers_schedule in Hi as [->|Hi]; [by exists k|]. by apply inv_timers.
  - unfold scheduleRemoval. destruct (bool_decide_reflect (string_of_int k ∈ removalTimers d)) as [H|H]; cbn.
    + by apply (inv_once s).
    + constructor; [done|]. by apply (inv_once s).
Qed.

Lemma inv_remove id s : Inv s → Inv (remove id s).
Proof.
  intros HI. split; cbn [count toasts removalTimers remove dispatch set_timers].
  - by apply inv_count.
  - etrans; [apply length_filter|]. by apply inv_length.
  - apply numbers_kept; [done|]. apply sublist_filter.
  - intros t Ht. apply list_elem_of_filter in Ht as [Hn Ht]. rewrite (inv_closed s HI t Ht), list_elem_of_filter. tauto.
  - intros i Hi. apply list_elem_of_filter in Hi as [_ Hi]. by apply inv_timers.
  - apply NoDup_filter. by apply inv_once.
Qed.

Lemma inv_hooks ls hs s : Inv s → Inv (set_hooks ls hs s).
Proof. intros []. by split. Qed.

Lemma inv_steps es : ∀ s s', Inv s → issued (count s) es → steps s es = Some s' → Inv s'.
Proof.
  induction es as [|e es IH]; intros s s' HI Hi Hs; [by injection Hs as <-|].
  assert (∀ u, Inv u → count u = count s → issued (count s) es → steps u es = Some s' → Inv s') as Hk
    by (intros u Hu <-; by apply IH).
  destruct e as [props|id|id|i|i|i]; cbn in Hs, Hi.
  - destruct Hi as [Hc Hi]. eapply IH; [by apply inv_show| |done]. pose proof (inv_count s HI).
    replace (count (show props s)) with (count s + 1); [done|]. cbn. symmetry. apply Z.mod_small. lia.
  - destruct Hi as [(k & Hk' & ->) Hi]. eapply Hk; [by eapply inv_dismiss| |done|done].
    unfold dismiss, scheduleRemoval. by destruct (bool_decide _).
  - destruct (bool_decide _); [|done]. eapply Hk; [by apply inv_remove|done..].
  - eapply Hk; [by apply inv_hooks|done..].
  - eapply Hk; [by apply inv_hooks|done..].
  - eapply Hk; [by apply inv_hooks|done..].
Qed.

Lemma inv_start : Inv start.
Proof.
  split; cbn; [done|lia| | | |constructor].
  - exists []. by repeat constructor.
  - intros t Ht. by apply not_elem_of_nil in Ht.
  - intros i Hi. by apply not_elem_of_nil in Hi.
Qed.

(** Every timer that fires takes its toast away. *)
Lemma drain s : NoDup (removalTimers s) →
  ∃ s', steps s (map Expire (removalTimers s)) = Some s' ∧ removalTimers s' = [] ∧
    toasts s' = filter (λ t, t_id t ∉ removalTimers s) (toasts s).
Proof.
  remember (removalTimers s) as l eqn:Hl. revert s Hl. induction l as [|id l IH]; intros s Hl Hn.
  - exists s. split; [done|]. split; [done|]. symmetry. apply filter_whole. intros t Ht. apply not_elem_of_nil.
  - apply NoDup_cons in Hn as [Hni Hn]. cbn [map steps step]. rewrite <- Hl, bool_decide_true by set_solver.
    destruct (IH (remove id s)) as (s' & Hs & Ht & Hf); [|done|].
    { cbn. rewrite <- Hl, filter_cons_False by tauto. symmetry. apply filter_whole. by intros x Hx ->. }
    exists s'. split; [done|]. split; [done|]. rewrite Hf. cbn. rewrite list_filter_filter. apply list_filter_iff.
    intros t. set_solver.
Qed.

(** In every run with fewer than [2^53 - 1] toasts, in which what is dismissed
    was shown: at most three toasts are shown, the newest first and with
    different ids; those that were dismissed are the ones with a removal timer;
    and when the timers have fired the open ones are left. *)
Theorem toasts_leave_when_dismissed es s :
  issued 0 es → steps start es = Some s →
  (length (toasts s) ≤ 3)%nat ∧
  (∃ ks, map t_id (toasts s) = map string_of_int ks ∧ StronglySorted Z.gt ks) ∧
  (∀ t, t ∈ toasts s → t_open t = false ↔ t_id t ∈ removalTimers s) ∧
  ∃ s', steps s (map Expire (removalTimers s)) = Some s' ∧ removalTimers s' = [] ∧
    toasts s' = filter (λ t, t_open t = true) (toasts s).
Proof.
  intros Hi Hs. assert (Inv s) as HI by (eapply inv_steps; [apply inv_start|done|done]).
  split; [by apply inv_length|]. split; [|split; [by apply inv_closed|]].
  - destruct (inv_numbers s HI) as (ks & ? & ? & _). by exists ks.
  - destruct (drain s (inv_once s HI)) as (s' & Hd & Ht & Hf). exists s'. split; [done|]. split; [done|]. rewrite Hf.
    apply filter_agree. intros t Hi'. rewrite <- (inv_closed s HI t Hi'). by destruct (t_open t).
Qed.

(** A turn that shows, dismisses or removes a toast. *)
Definition dispatches (e : event P) : bool :=
  match e with Toast _ | Dismiss _ | Expire _ => true | _ => false end.

Definition told s : Prop := ∀ h, h ∈ hooks s → h_name h ∈ listeners s → h_view h = toasts s.

Lemma told_dispatch next s : told (dispatch next s).
Proof.
  intros h Hh Hl. cbn in *. apply list_elem_of_fmap in Hh as (k & -> & Hk). unfold tell in *.
  by destruct (bool_decide_reflect (h_name k ∈ listeners s)).
Qed.

Lemma told_dismiss id s : told (dismiss id s).
Proof. unfold dismiss, scheduleRemoval. destruct (bool_decide _); apply told_dispatch. Qed.

Lemma splice_sub i j ls : j ∈ splice i ls → j ∈ ls.
Proof. induction ls as [|k ls IH]; [done|]. cbn. destruct (decide (i = k)); set_solver. Qed.

(** A component that was rendered since the last change and has just
    subscribed. *)
Definition fresh i s : Prop := ∀ h, h ∈ hooks s → h_name h = i → h_view h = toasts s.

(** Every turn that changes the toasts tells every subscribed component; and a
    component that subscribes before the next change stays in step. *)
Theorem subscribers_are_told e s s' :
  step s e = Some s' →
  dispatches e = true ∨ told s ∧ (∀ i, e = Subscribe i → fresh i s) → told s'.
Proof.
  intros Hs [He|[Ht He]].
  - destruct e as [props|id|id|i|i|i]; try done; cbn in Hs.
    + injection Hs as <-. apply told_dispatch.
    + injection Hs as <-. apply told_dismiss.
    + destruct (bool_decide _); [|done]. injection Hs as <-. apply told_dispatch.
  - destruct e as [props|id|id|i|i|i]; cbn in Hs.
    + injection Hs as <-. apply told_dispatch.
    + injection Hs as <-. apply told_dismiss.
    + destruct (bool_decide _); [|done]. injection Hs as <-. apply told_dispatch.
    + injection Hs as <-. intros h Hh Hl. cbn in *. apply elem_of_cons in Hh as [->|Hh]; [done|by apply Ht].
    + injection Hs as <-. intros h Hh Hl. cbn in *. apply elem_of_app in Hl as [Hl|Hl]; [by apply Ht|].
      apply list_elem_of_singleton in Hl. by apply (He i).
    + injection Hs as <-. intros h Hh Hl. cbn in *. apply list_elem_of_filter in Hh as [_ Hh]. apply splice_sub in Hl. by apply Ht.
Qed.
End ToastsFacts.

(** ** Instances *)

Definition four : list (event Z) := [Toast 1; Toast 2; Toast 3; Toast 4; Dismiss (string_of_int 3)].

(** The fourth toast pushes out the first, which was not dismissed. *)
Lemma toasts_leave_when_dismissed_witness :
  ∃ s, issued 0 four ∧ steps start four = Some s ∧ map t_props (toasts s) = [4; 3; 2] ∧
    ∃ s', steps s (map Expire (removalTimers s)) = Some s' ∧ removalTimers s' = [] ∧ map t_props (toasts s') = [4; 2].
Proof.
  assert (issued 0 four) as Hi by (cbn; repeat split; try done; exists 3; done).
  destruct (steps start four) as [s|] eqn:Hs; [|vm_compute in Hs; done]. exists s. split; [done|]. split; [done|].
  destruct (toasts_leave_when_dismissed four s Hi Hs) as (_ & _ & _ & s' & Hd & Ht & Hf).
  vm_compute in Hs. injection Hs as <-. split; [reflexivity|]. exists s'. split; [done|]. split; [done|]. by rewrite Hf.
Defined.

(** A component that was rendered before a toast and subscribes after it shows
    nothing until the next one. *)
Lemma subscribers_are_told_witness :
  ∃ s s', steps (P:=Z) start [Render 0; Toast 1; Subscribe 0] = Some s ∧ map h_view (hooks s) = [[]] ∧
    step s (Toast 2) = Some s' ∧ dispatches (Toast 2) = true ∧ told s'.
Proof.
  destruct (steps (P:=Z) start [Render 0; Toast 1; Subscribe 0]) as [s|] eqn:Hs; [|vm_compute in Hs; done].
  exists s, (show 2 s). split; [done|]. split; [by vm_compute in Hs; injection Hs as <-|]. split; [done|]. split; [done|].
  apply (subscribers_are_told (Toast 2) s); [done|by left].
Defined.
End ToastsFacts.
