(* ===== verification/Picker.v ===== *)
(** * storefront: choosing a variant (components/catalog/variant-picker.tsx)

    The variants are those of a product that satisfied the contract; an
    attribute map is the list of its own entries, in the order of the object.
    The picker's state is the selected attributes, and [choose] is a click.

    [PickerFacts] says what the clicks lead to. *)
From Stdlib Require Import QArith.
From S2P Require Import Prelude JsNumber JsString.
Local Open Scope js_scope.
Local Open Scope Z_scope.

Module Picker.

Record money := { amount : num; currency : jstr }.

Record image := { url : jstr; alt : jstr; width : option num; height : option num }.

Record ProductVariant := {
  sku : jstr;
  attributes : list (jstr * jstr);
  price : money;
  listPrice : option money;
  available : option num;
  images : list image
}.

(** [attributes[key]]: what is inherited is not a string, and is never equal to
    one. *)
Fixpoint get (key : jstr) (m : list (jstr * jstr)) : option jstr :=
  match m with
  | [] => None
  | (k, v) :: r => if decide (k = key) then Some v else get key r
  end.
Definition has (m : list (jstr * jstr)) (key value : jstr) : bool := bool_decide (get key m = Some value).

Definition selectable (variants : list ProductVariant) : list ProductVariant :=
  filter (λ v, attributes v ≠ []) variants.

(** ** The axes *)

(** One entry of one variant, put into the map of values. *)
Fixpoint add_value (key value : jstr) (m : list (jstr * list jstr)) : list (jstr * list jstr) :=
  match m with
  | [] => [(key, [value])]
  | (k, vs) :: r =>
      if decide (k = key) then (k, if decide (value ∈ vs) then vs else vs ++ [value]) :: r
      else (k, vs) :: add_value key value r
  end.
Definition axes (variants : list ProductVariant) : list (jstr * list jstr) :=
  foldl (λ m v, foldl (λ m e, add_value e.1 e.2 m) m (attributes v)) [] (selectable variants).

(** ** The selection *)

(** [v.available === null || (v.available ?? 0) > 0] *)
Definition not_sold_out (v : ProductVariant) : bool :=
  match available v with None => true | Some n => nlt (jint 0) n end.

(** [sort] with a comparator: stable, so that an element goes behind those it
    is not less than. *)
Fixpoint sort_insert {A} (compare : A → A → num) (x : A) (l : list A) : list A :=
  match l with
  | [] => [x]
  | y :: r => if nlt (compare x y) (jint 0) then x :: l else y :: sort_insert compare x r
  end.
Definition sort {A} (compare : A → A → num) (l : list A) : list A := foldl (λ s x, sort_insert compare x s) [] l.

Definition by_price (a b : ProductVariant) : num := nsub (amount (price a)) (amount (price b)).

Definition initial (variants : list ProductVariant) : option ProductVariant :=
  match sort by_price (filter (λ v, not_sold_out v = true) (selectable variants)) with
  | v :: _ => Some v
  | [] => head (selectable variants)
  end.

Definition opened (variants : list ProductVariant) : list (jstr * jstr) :=
  match initial variants with Some v => attributes v | None => [] end.

Definition agrees (selected : list (jstr * jstr)) (v : ProductVariant) : bool :=
  forallb (λ e, has (attributes v) e.1 e.2) selected.
Definition current (variants : list ProductVariant) (selected : list (jstr * jstr)) : option ProductVariant :=
  head (filter (λ v, agrees selected v = true) (selectable variants)).

(** How much of the selection, apart from [axis], a variant keeps. *)
Definition score (selected : list (jstr * jstr)) (axis : jstr) (v : ProductVariant) : nat :=
  length (filter (λ e, e.1 ≠ axis ∧ has (attributes v) e.1 e.2 = true) selected).

Definition better (selected : list (jstr * jstr)) (axis : jstr) (a b : ProductVariant) : ProductVariant :=
  if (score selected axis a <? score selected axis b)%nat then b else a.

Definition choose (variants : list ProductVariant) (axis value : jstr) (selected : list (jstr * jstr)) : list (jstr * jstr) :=
  match filter (λ v, has (attributes v) axis value = true) (selectable variants) with
  | [] => selected
  | c :: cs => attributes (foldl (better selected axis) c cs)
  end.

Definition clicks (variants : list ProductVariant) : list (jstr * jstr) → list (jstr * jstr) :=
  foldl (λ selected c, choose variants c.1 c.2 selected) (opened variants).

(** ** What is shown *)

(** The buttons of an axis: value, pressed, and whether it leads anywhere
    buyable. *)
Definition button (variants : list ProductVariant) (selected : list (jstr * jstr)) (axis value : jstr) : jstr * bool * bool :=
  (value, has selected axis value,
   existsb (λ v, has (attributes v) axis value && not_sold_out v) (selectable variants)).

(** What is sold: a variant of the picker with its price, or the fallback. *)
Inductive shown :=
| Nothing
| Fallback (v : ProductVariant)
| Picking (buttons : list (jstr * list (jstr * bool * bool))) (v : ProductVariant).

Definition rendered (variants : list ProductVariant) (selected : list (jstr * jstr)) : shown :=
  match axes variants, current variants selected with
  | (_ :: _) as axs, Some v => Picking (map (λ a, (a.1, map (button variants selected a.1) a.2)) axs) v
  | _, _ => match variants with v :: _ => Fallback v | [] => Nothing end
  end.

(** ** Opening *)

Section Sort.
Context {A : Type} (compare : A → A → num).

Lemma sort_insert_elem x l y : y ∈ sort_insert compare x l ↔ y = x ∨ y ∈ l.
Proof. induction l as [|z l IH]; cbn; [set_solver|]. destruct (nlt _ _); [set_solver|]. rewrite !elem_of_cons, IH. tauto. Qed.

Lemma sort_elem l y : y ∈ sort compare l ↔ y ∈ l.
Proof.
  unfold sort. enough (∀ s, y ∈ foldl (λ s x, sort_insert compare x s) s l ↔ y ∈ s ∨ y ∈ l) as H by (rewrite H; set_solver).
  induction l as [|x l IH]; intros s; cbn; [set_solver|]. rewrite IH, sort_insert_elem. set_solver.
Qed.

Context (key : A → Z) (good : A → Prop).
Hypothesis compare_key : ∀ a b, good a → good b → nlt (compare a b) (jint 0) = (key a <? key b).

Definition least (x : A) (l : list A) : Prop := ∀ y, y ∈ l → key x ≤ key y.

Lemma sort_insert_head x s :
  good x → (∀ y, y ∈ s → good y) → (∀ h t, s = h :: t → least h s) →
  ∀ h t, sort_insert compare x s = h :: t → least h (sort_insert compare x s).
Proof.
  intros Hx Hg Hs h t He y Hy. apply sort_insert_elem in Hy. destruct s as [|z s]; cbn in He.
  - injection He as <- <-. set_solver.
  - rewrite compare_key in He by (done || apply Hg; by left). specialize (Hs z s eq_refl).
    destruct (Z.ltb_spec (key x) (key z)) as [Hlt|Hge]; injection He as <- <-.
    + destruct Hy as [->|Hy]; [lia|]. specialize (Hs y Hy). lia.
    + destruct Hy as [->|Hy]; [lia|]. by apply Hs.
Qed.

(** The first element of a sorted list is least. *)
Lemma sort_head l h t : (∀ y, y ∈ l → good y) → sort compare l = h :: t → h ∈ l ∧ least h l.
Proof.
  intros Hg He. assert (h ∈ l) as Hi by (rewrite <- sort_elem, He; set_solver). split; [done|].
  enough (∀ s, (∀ y, y ∈ s → good y) → (∀ h t, s = h :: t → least h s) →
    ∀ h t, foldl (λ s x, sort_insert compare x s) s l = h :: t →
    ∀ y, y ∈ foldl (λ s x, sort_insert compare x s) s l → key h ≤ key y) as H.
  { intros y Hy. apply (H [] ltac:(intros z Hz; by apply not_elem_of_nil in Hz) ltac:(done) h t He). by apply sort_elem. }
  clear He Hi h t. induction l as [|x l IH]; intros s Hgs Hs h t He; [by eapply Hs|]. cbn in *.
  eapply IH; [set_solver| | |done]; [intros y [->|Hy]%sort_insert_elem; set_solver|]. apply sort_insert_head; [set_solver|done|done].
Qed.
End Sort.
End Picker.

(** * storefront: what choosing a variant leads to

    Every click lands on a variant that exists and can be shown, and keeps as
    much of the selection as it can. *)

Module PickerFacts.
Import Picker.

Lemma get_elem k v m : get k m = Some v → (k, v) ∈ m.
Proof.
  induction m as [|[k' v'] m IH]; [done|]. cbn. destruct (decide (k' = k)) as [->|]; intros He; [injection He as ->; by left|].
  right. by apply IH.
Qed.

Lemma elem_get k v m : NoDup (map fst m) → (k, v) ∈ m → get k m = Some v.
Proof.
  induction m as [|[k' v'] m IH]; intros Hn Hi; [by apply not_elem_of_nil in Hi|]. cbn in *. apply NoDup_cons in Hn as [Hk Hn].
  apply elem_of_cons in Hi as [He|Hi]; [injection He as -> ->; by rewrite decide_True|].
  rewrite decide_False; [by apply IH|]. intros ->. apply Hk. change k with (k, v).1. by apply list_elem_of_fmap_2.
Qed.

Lemma has_true m k v : has m k v = true ↔ get k m = Some v.
Proof. unfold has. by rewrite bool_decide_eq_true. Qed.

Lemma agrees_true s v : agrees s v = true ↔ ∀ e, e ∈ s → get e.1 (attributes v) = Some e.2.
Proof.
  unfold agrees. rewrite forallb_forall. setoid_rewrite <- list_elem_of_In. by setoid_rewrite has_true.
Qed.

Section Picker.
Context (variants : list ProductVariant).

(** An object has one value per key. *)
Definition objects : Prop := ∀ v, v ∈ variants → NoDup (map fst (attributes v)).

Lemma selectable_elem v : v ∈ selectable variants ↔ v ∈ variants ∧ attributes v ≠ [].
Proof. unfold selectable. rewrite list_elem_of_filter. tauto. Qed.

Lemma agrees_self v : objects → v ∈ selectable variants → agrees (attributes v) v = true.
Proof.
  intros Ho Hv. apply agrees_true. intros [k x] He. apply elem_get; [|done]. apply Ho. by apply selectable_elem in Hv as [? _].
Qed.

(** *** Axes *)

Definition offered (m : list (jstr * list jstr)) (k x : jstr) : Prop := ∃ vs, (k, vs) ∈ m ∧ x ∈ vs.

Lemma offered_add k x m k' x' : offered (add_value k x m) k' x' → (k' = k ∧ x' = x) ∨ offered m k' x'.
Proof.
  induction m as [|[k0 vs0] m IH]; cbn; intros (vs & Hi & Hx).
  - apply list_elem_of_singleton in Hi. injection Hi as -> ->. apply list_elem_of_singleton in Hx. by left.
  - destruct (decide (k0 = k)) as [->|Hne].
    + apply elem_of_cons in Hi as [He|Hi]; [|right; exists vs; split; [by right|done]]. injection He as -> ->.
      destruct (decide (x ∈ vs0)) as [Hd|Hd]; [right; exists vs0; split; [by left|done]|].
      apply elem_of_app in Hx as [Hx|Hx]; [right; exists vs0; split; [by left|done]|]. apply list_elem_of_singleton in Hx. by left.
    + apply elem_of_cons in Hi as [He|Hi]; [right; exists vs; split; [rewrite He; by left|done]|].
      destruct IH as [H|(ws & ? & ?)]; [by exists vs|by left|]. right. exists ws. split; [by right|done].
Qed.

(** What a button offers is a value of a variant that can be chosen. *)
Lemma axes_offered k x : offered (axes variants) k x → ∃ v, v ∈ selectable variants ∧ (k, x) ∈ attributes v.
Proof.
  unfold axes. enough (∀ l m, offered (foldl (λ m v, foldl (λ m e, add_value e.1 e.2 m) m (attributes v)) m l) k x →
    offered m k x ∨ ∃ v, v ∈ l ∧ (k, x) ∈ attributes v) as H.
  { intros Ho. apply H in Ho as [(vs & Hi & _)|?]; [by apply not_elem_of_nil in Hi|done]. }
  assert (∀ es m, offered (foldl (λ m e, add_value e.1 e.2 m) m es) k x → offered m k x ∨ (k, x) ∈ es) as He.
  { induction es as [|[k' x'] es IH]; intros m Ho; [by left|]. cbn in Ho. apply IH in Ho as [Ho|Ho]; [|right; by right].
    apply offered_add in Ho as [[-> ->]|Ho]; [right; by left|by left]. }
  induction l as [|v l IH]; intros m Ho; [by left|]. cbn in Ho. apply IH in Ho as [Ho|(w & Hw & ?)].
  - apply He in Ho as [Ho|Ho]; [by left|]. right. exists v. split; [by left|done].
  - right. exists w. split; [by right|done].
Qed.

Lemma add_value_some k x m : add_value k x m ≠ [].
Proof. destruct m as [|[? ?] m]; [done|]. cbn. by destruct (decide _). Qed.

Lemma axes_some : selectable variants ≠ [] → axes variants ≠ [].
Proof.
  unfold axes. destruct (selectable variants) as [|v l] eqn:Hs; [done|]. intros _.
  assert (attributes v ≠ []) as Hv by (apply (selectable_elem v); rewrite Hs; by left).
  assert (∀ es m, (m ≠ [] ∨ es ≠ []) → foldl (λ m e, add_value e.1 e.2 m) m es ≠ []) as He.
  { induction es as [|e es IH]; intros m Hm; [by destruct Hm|]. cbn. apply IH. left. apply add_value_some. }
  enough (∀ l m, m ≠ [] → foldl (λ m v, foldl (λ m e, add_value e.1 e.2 m) m (attributes v)) m l ≠ []) as H
    by (cbn; apply H, He; by right).
  clear - He. induction l as [|v l IH]; intros m Hm; [done|]. cbn. apply IH, He. by left.
Qed.

(** *** The current variant *)

Lemma current_spec s u : current variants s = Some u → u ∈ selectable variants ∧ agrees s u = true.
Proof.
  unfold current. intros Hc. apply head_Some_elem_of, list_elem_of_filter in Hc. tauto.
Qed.

Lemma current_some s v : v ∈ selectable variants → agrees s v = true → is_Some (current variants s).
Proof.
  intros Hv Ha. unfold current. assert (v ∈ filter (λ v, agrees s v = true) (selectable variants)) as Hi
    by (by apply list_elem_of_filter). destruct (filter _ _); [by apply not_elem_of_nil in Hi|by eexists].
Qed.

(** A selection that is a variant is shown as one. *)
Lemma rendered_variant v : objects → v ∈ selectable variants →
  ∃ u, rendered variants (attributes v) =
      Picking (map (λ a, (a.1, map (button variants (attributes v) a.1) a.2)) (axes variants)) u ∧
    u ∈ selectable variants ∧ agrees (attributes v) u = true.
Proof.
  intros Ho Hv. destruct (current_some (attributes v) v Hv (agrees_self v Ho Hv)) as [u Hu].
  exists u. split; [|by apply current_spec]. unfold rendered. rewrite Hu. destruct (axes variants) as [|a axs] eqn:Ha; [|done].
  exfalso. apply axes_some; [|done]. intros Hn. rewrite Hn in Hv. by apply not_elem_of_nil in Hv.
Qed.

(** *** Choosing *)

Lemma best_spec s axis c cs :
  foldl (better s axis) c cs ∈ c :: cs ∧ ∀ w, w ∈ c :: cs → (score s axis w ≤ score s axis (foldl (better s axis) c cs))%nat.
Proof.
  revert c. induction cs as [|d cs IH]; intros c; cbn; [split; [by left|]; intros w ->%list_elem_of_singleton; lia|].
  destruct (IH (better s axis c d)) as [Hi Hm].
  assert (score s axis c ≤ score s axis (better s axis c d) ∧ score s axis d ≤ score s axis (better s axis c d))%nat as [Hc Hd].
  { unfold better. destruct (Nat.ltb_spec (score s axis c) (score s axis d)); lia. }
  split.
  - apply elem_of_cons in Hi as [->|Hi]; [|by right; right]. unfold better. destruct (_ <? _)%nat; [right|]; by left.
  - intros w Hw. specialize (Hm (better s axis c d) ltac:(by left)) as Hb.
    apply elem_of_cons in Hw as [->|Hw]; [lia|]. apply elem_of_cons in Hw as [->|Hw]; [lia|]. apply Hm. by right.
Qed.

(** A click on a value some variant has. *)
Lemma choose_spec axis x s v : v ∈ selectable variants → get axis (attributes v) = Some x →
  ∃ b, b ∈ selectable variants ∧ choose variants axis x s = attributes b ∧ get axis (attributes b) = Some x ∧
    ∀ w, w ∈ selectable variants → get axis (attributes w) = Some x → (score s axis w ≤ score s axis b)%nat.
Proof.
  intros Hv Hx. unfold choose. set (l := filter _ _).
  assert (∀ w, w ∈ l ↔ w ∈ selectable variants ∧ get axis (attributes w) = Some x) as Hl
    by (intros w; unfold l; rewrite list_elem_of_filter, has_true; tauto).
  destruct l as [|c cs] eqn:He; [exfalso; eapply (not_elem_of_nil v), Hl; done|].
  destruct (best_spec s axis c cs) as [Hi Hm]. apply Hl in Hi as [Hi Hg]. eexists. split; [exact Hi|]. split; [done|].
  split; [done|]. intros w Hw Hwx. by apply Hm, Hl.
Qed.

(** A selection is always the attributes of a variant. *)
Lemma choose_variant axis x s : (∃ v, v ∈ selectable variants ∧ s = attributes v) →
  ∃ v, v ∈ selectable variants ∧ choose variants axis x s = attributes v.
Proof.
  intros Hs. destruct (decide (filter (λ v, has (attributes v) axis x = true) (selectable variants) = [])) as [He|He].
  - unfold choose. by rewrite He.
  - destruct (filter _ _) as [|v l] eqn:Hf; [done|].
    assert (v ∈ filter (λ v, has (attributes v) axis x = true) (selectable variants)) as Hi by (rewrite Hf; by left).
    apply list_elem_of_filter in Hi as [Hx Hi]. apply has_true in Hx.
    destruct (choose_spec axis x s v Hi Hx) as (b & Hb & Hc & _). by exists b.
Qed.

Lemma initial_selectable : selectable variants ≠ [] → ∃ v, initial variants = Some v ∧ v ∈ selectable variants.
Proof.
  intros Hn. unfold initial. destruct (sort by_price _) as [|v l] eqn:Hs.
  - destruct (selectable variants) as [|v l]; [done|]. exists v. split; [done|by left].
  - exists v. split; [done|]. assert (v ∈ sort by_price (filter (λ v, not_sold_out v = true) (selectable variants))) as Hi
      by (rewrite Hs; by left). apply sort_elem, list_elem_of_filter in Hi. tauto.
Qed.

Lemma clicks_variant cs : selectable variants ≠ [] → ∃ v, v ∈ selectable variants ∧ clicks variants cs = attributes v.
Proof.
  intros Hn. unfold clicks.
  assert (∃ v, v ∈ selectable variants ∧ opened variants = attributes v) as H0.
  { destruct (initial_selectable Hn) as (v & Hi & Hv). exists v. unfold opened. by rewrite Hi. }
  revert H0. generalize (opened variants) as s. induction cs as [|[a x] cs IH]; intros s Hs; [done|]. cbn.
  by apply IH, choose_variant.
Qed.

(** Among the variants with a value, [kept] of the selection survives. *)
Definition kept (s : list (jstr * jstr)) (axis : jstr) (m : list (jstr * jstr)) : nat :=
  length (filter (λ e, e.1 ≠ axis ∧ has m e.1 e.2 = true) s).

(** C29. For a product with variants to choose from, after any clicks the picker
    shows a variant that has every selected attribute; and a click on any
    button it shows leads to a selection, and a variant shown, with that value,
    keeping as many of the other selected values as any variant with it. *)
Theorem every_click_sells cs :
  objects → selectable variants ≠ [] →
  let s := clicks variants cs in
  ∃ buttons u, rendered variants s = Picking buttons u ∧ u ∈ variants ∧ agrees s u = true ∧
  ∀ axis bs x pressed buyable, (axis, bs) ∈ buttons → (x, pressed, buyable) ∈ bs →
    let s' := choose variants axis x s in
    get axis s' = Some x ∧
    (∃ buttons' u', rendered variants s' = Picking buttons' u' ∧ u' ∈ variants ∧ get axis (attributes u') = Some x) ∧
    ∀ w, w ∈ selectable variants → get axis (attributes w) = Some x → (kept s axis (attributes w) ≤ kept s axis s')%nat.
Proof.
  intros Ho Hn s. destruct (clicks_variant cs Hn) as (v & Hv & Hs). fold s in Hs. rewrite Hs.
  destruct (rendered_variant v Ho Hv) as (u & Hr & Hu & Ha). eexists _, u. split; [exact Hr|].
  apply selectable_elem in Hu as [Hu _]. split; [done|]. split; [done|].
  intros axis bs x pressed buyable Hb Hx. apply list_elem_of_fmap in Hb as ([axis' vs] & He & Hax). cbn in He. injection He as -> ->.
  apply list_elem_of_fmap in Hx as (x' & He & Hx). injection He as -> -> ->.
  destruct (axes_offered axis' x') as (w & Hw & Hi); [by exists vs|].
  assert (get axis' (attributes w) = Some x') as Hg by (apply elem_get; [apply Ho; by apply selectable_elem in Hw as [? _]|done]).
  destruct (choose_spec axis' x' (attributes v) w Hw Hg) as (b & Hb & Hc & Hbx & Hm). cbn zeta. rewrite Hc.
  split; [done|]. split; [|done].
  destruct (rendered_variant b Ho Hb) as (u' & Hr' & Hu' & Ha'). eexists _, u'. split; [exact Hr'|].
  apply selectable_elem in Hu' as [Hu' _]. split; [done|]. rewrite agrees_true in Ha'.
  apply (Ha' (axis', x')). by apply get_elem.
Qed.

(** Amounts are integers far from the end of the safe range. *)
Definition priced (key : ProductVariant → Z) : Prop :=
  ∀ v, v ∈ variants → amount (price v) = jint (key v) ∧ Z.abs (key v) < 2 ^ 52.

(** A variant is never shown when one before it has all of its attributes. *)
Theorem shadowed_variant_is_never_shown before v after u cs :
  selectable variants = before ++ v :: after → v ∉ before → u ∈ before →
  (∀ k x, get k (attributes v) = Some x → get k (attributes u) = Some x) →
  current variants (clicks variants cs) ≠ Some v.
Proof.
  intros Hs Hv Hu Hk Hc. pose proof (current_spec _ _ Hc) as [_ Ha]. unfold current in Hc.
  rewrite Hs, filter_app in Hc. rewrite agrees_true in Ha.
  assert (u ∈ filter (λ w, agrees (clicks variants cs) w = true) before) as Hi.
  { apply list_elem_of_filter. split; [|done]. apply agrees_true. intros e He. by apply Hk, Ha. }
  destruct (filter _ before) as [|w l] eqn:Hf; [by apply not_elem_of_nil in Hi|]. cbn in Hc. injection Hc as ->.
  apply Hv. assert (v ∈ v :: l) as Hw by (by left). rewrite <- Hf in Hw. apply list_elem_of_filter in Hw. tauto.
Qed.
End Picker.
End PickerFacts.
