(* ===== verification/Purchase.v ===== *)
(** * storefront: adding to the basket (components/cart/add-to-cart.tsx,
      components/cart/quantity-stepper.tsx, components/catalog/stock-indicator.tsx)

    The control as a machine: [step] is one turn of the event loop, in which the
    user types, leaves the field, presses a button, or adds.  What the parent
    passes down, the stock last heard of and whether the provider is busy, may
    change between two turns. *)
From Stdlib Require Import QArith.
From S2P Require Import Prelude JsNumber JsString JsDecimal Zod Schemas Primitives Api Basket.
Local Open Scope js_scope.
Local Open Scope Z_scope.

Module Purchase.

(** ** Stock *)

Definition LOW_STOCK_THRESHOLD : num := jint 5.

Inductive indicator := Silent | OutOfStock | OnlyLeft (n : num) | InStock.

Definition StockIndicator (available : option num) : indicator :=
  match available with
  | None => Silent
  | Some n => if nle n (jint 0) then OutOfStock else if nle n LOW_STOCK_THRESHOLD then OnlyLeft n else InStock
  end.

Definition canAttemptPurchase (available : option num) : bool :=
  match available with None => true | Some n => nlt (jint 0) n end.

(** ** The stepper *)

(** [text.replace(/[^0-9]/g, '')] *)
Definition only_digits (text : jstr) : jstr := filter (λ c, is_digit c = true) text.

Definition clamp (min max parsed : num) : num := math_max min (math_min max parsed).

(** The draft after [commit], and what [onCommit] is called with. *)
Definition commit (min max value : num) (draft : jstr) : jstr * option num :=
  let parsed := parseInt draft in
  if is_nan parsed then (int_text value, None)
  else
    let clamped := clamp min max parsed in
    (int_text clamped, if neqb clamped value then None else Some clamped).

(** ** Adding *)

Record props := { available : option num; loading : bool }.
Record control := { quantity : num; draft : jstr; justAdded : bool }.

Definition mounted : control := {| quantity := jint 1; draft := int_text (jint 1); justAdded := false |}.

Definition purchasable (p : props) : bool := canAttemptPurchase (available p).
Definition MIN : num := jint 1.
Definition max_of (p : props) : num :=
  match available p with
  | Some n => if nlt (jint 0) n then math_min n (jint 99) else jint 99
  | None => jint 99
  end.
Definition disabled (p : props) : bool := negb (purchasable p) || loading p.

(** [setQuantity], with the effect that follows a change of [value]. *)
Definition setQuantity (q : num) (c : control) : control :=
  if neqb q (quantity c) then c else {| quantity := q; draft := int_text q; justAdded := justAdded c |}.
Definition set_draft (d : jstr) (c : control) : control := {| quantity := quantity c; draft := d; justAdded := justAdded c |}.
Definition set_justAdded (b : bool) (c : control) : control := {| quantity := quantity c; draft := draft c; justAdded := b |}.

Inductive event :=
| Typed (text : jstr)
| Committed
| Minus
| Plus
| Pressed
| Added (ok : bool)
| Faded.

(** One turn, with the change it asks the provider for; [None] when the control
    is disabled. *)
Definition step (sku : jstr) (p : props) (e : event) (c : control) : option (control * option Basket.mutation) :=
  match e with
  | Typed text => if disabled p then None else Some (set_draft (only_digits text) c, None)
  | Committed =>
      let '(d, q) := commit MIN (max_of p) (quantity c) (draft c) in
      let c := set_draft d c in
      Some (match q with Some q => setQuantity q c | None => c end, None)
  | Minus =>
      if disabled p || nle (quantity c) MIN then None else Some (setQuantity (nsub (quantity c) (jint 1)) c, None)
  | Plus =>
      if disabled p || nle (max_of p) (quantity c) then None else Some (setQuantity (nadd (quantity c) (jint 1)) c, None)
  | Pressed => if disabled p then None else Some (c, Some (Basket.Add sku (quantity c)))
  | Added ok => Some (if ok then set_justAdded true c else c, None)
  | Faded => Some (set_justAdded false c, None)
  end.

Fixpoint steps (sku : jstr) (es : list (props * event)) (c : control) : option (control * list Basket.mutation) :=
  match es with
  | [] => Some (c, [])
  | (p, e) :: r =>
      match step sku p e c with
      | Some (c', m) => match steps sku r c' with Some (c'', ms) => Some (c'', option_list m ++ ms) | None => None end
      | None => None
      end
  end.

(** ** Quantities *)

(** What the contract says of [available]. *)
Definition honest (p : props) : Prop := ∀ n, available p = Some n → ∃ z, n = jint z ∧ 0 ≤ z.

Lemma max_of_range p : honest p → ∃ m, max_of p = jint m ∧ 1 ≤ m ≤ 99.
Proof.
  intros Hp. unfold max_of. destruct (available p) as [n|] eqn:Ha; [|by exists 99].
  destruct (Hp n Ha) as (z & -> & Hz). rewrite nlt_jint. destruct (Z.ltb_spec 0 z); [|by exists 99].
  exists (Z.min z 99). rewrite math_min_jint. split; [done|lia].
Qed.

(** A text of digits is clamped to the range. *)
Lemma clamp_digits m d : 1 ≤ m ≤ 99 → all_digits d → d ≠ [] →
  clamp MIN (jint m) (parseInt d) = jint (Z.max 1 (Z.min m (digits_value d))) ∧ is_nan (parseInt d) = false.
Proof.
  intros Hm Hd Hn. unfold parseInt. destruct d as [|c d]; [done|].
  destruct (digit_plain c d) as (-> & -> & _); [by inversion Hd|]. rewrite take_digits_all, Z.mul_1_l by done.
  pose proof (digits_value_bound (c :: d) Hd) as Hb. set (v := digits_value (c :: d)) in *. unfold clamp, MIN.
  destruct (Z.lt_ge_cases v (2 ^ 53)) as [Hlt|Hge].
  - rewrite rnd_int by lia. by rewrite math_min_jint, math_max_jint.
  - replace (Z.min m v) with m by lia. destruct (rnd_large v Hge) as [->|(r & -> & Hr)]; (split; [|done]).
    + by rewrite <- math_max_jint.
    + assert (nlt (Fin r) (jint m) = false) as Hlt; [|by unfold math_min at 1; rewrite Hlt; rewrite <- math_max_jint].
      cbn. apply negb_false_iff, Qle_bool_iff. eapply Qle_trans; [|exact Hr]. rewrite <- Zle_Qle. lia.
Qed.

Definition in_range (c : control) : Prop := (∃ q, quantity c = jint q ∧ 1 ≤ q ≤ 99) ∧ all_digits (draft c).

Lemma setQuantity_range z c : 1 ≤ z ≤ 99 → in_range c → in_range (setQuantity (jint z) c).
Proof.
  intros Hz Hc. unfold setQuantity. destruct (neqb _ _); [done|]. split; [by exists z|]. apply int_digits. lia.
Qed.

Lemma step_range sku p e c c' m : honest p → in_range c → step sku p e c = Some (c', m) →
  in_range c' ∧ ∀ a, m = Some a → ∃ q, a = Basket.Add sku (jint q) ∧ 1 ≤ q ≤ 99 ∧ quantity c = jint q ∧ disabled p = false.
Proof.
  intros Hp Hc Hs. destruct (max_of_range p Hp) as (mx & Hm & Hmr). pose proof Hc as [(q & Hq & Hr) Hd].
  destruct e as [text| | | | |ok|]; cbn [step] in Hs.
  - destruct (disabled p); [done|]. injection Hs as <- <-. split; [|done]. split; [by exists q|]. cbn.
    apply Forall_forall. intros x Hx. by apply list_elem_of_filter in Hx as [? _].
  - unfold commit in Hs. rewrite Hm, Hq in Hs. destruct (decide (draft c = [])) as [He|He].
    + rewrite He in Hs. cbn -[int_text] in Hs. injection Hs as <- <-. split; [|done]. split; [by exists q|]. apply int_digits. lia.
    + destruct (clamp_digits mx (draft c) Hmr Hd He) as [Hcl Hn]. rewrite Hn, Hcl in Hs.
      set (z := Z.max 1 (Z.min mx (digits_value (draft c)))) in *. assert (1 ≤ z ≤ 99) as Hz by lia.
      assert (in_range (set_draft (int_text (jint z)) c)) as Hi.
      { split; [by exists q|]. apply int_digits. lia. }
      destruct (neqb (jint z) (jint q)); injection Hs as <- <-; (split; [|done]); [done|by apply setQuantity_range].
  - rewrite Hq in Hs. unfold MIN in Hs. rewrite nle_jint in Hs. destruct (disabled p); [done|]. destruct (Z.leb_spec q 1); [done|].
    rewrite jint_sub in Hs by lia. injection Hs as <- <-. split; [|done]. apply setQuantity_range; [lia|done].
  - rewrite Hq, Hm, nle_jint in Hs. destruct (disabled p); [done|]. destruct (Z.leb_spec mx q); [done|].
    rewrite jint_add in Hs by lia. injection Hs as <- <-. split; [|done]. apply setQuantity_range; [lia|done].
  - destruct (disabled p) eqn:Hdp; [done|]. injection Hs as <- <-. split; [done|]. intros a [= <-]. exists q. by rewrite Hq.
  - injection Hs as <- <-. split; [|done]. by destruct ok.
  - by injection Hs as <- <-.
Qed.

Lemma mounted_range : in_range mounted.
Proof. split; [by exists 1|]. by repeat constructor. Qed.

Section Sent.
Context `{Zod}.

Lemma steps_range sku es c c' ms : Forall (λ pe, honest pe.1) es → in_range c → steps sku es c = Some (c', ms) →
  in_range c' ∧ Forall (λ m, ∃ q, m = Basket.Add sku (jint q) ∧ 1 ≤ q ≤ 99) ms.
Proof.
  intros Hh. revert c c' ms. induction Hh as [|[p e] es Hp Hes IH]; intros c c' ms Hc Hs; cbn [steps] in Hs.
  - injection Hs as <- <-. by split.
  - destruct (step sku p e c) as [[c1 m]|] eqn:H1; [|done]. destruct (steps sku es c1) as [[c2 ms']|] eqn:H2; [|done].
    injection Hs as <- <-. destruct (step_range sku p e c c1 m Hp Hc H1) as [Hc1 Hm].
    destruct (IH c1 c2 ms' Hc1 H2) as [Hc2 Hms]. split; [done|]. apply Forall_app. split; [|done].
    destruct m as [a|]; [|constructor]. apply Forall_singleton. destruct (Hm a eq_refl) as (q & -> & Hq & _). by exists q.
Qed.

(** C30. Whatever is typed and pressed, and however the known stock and the state of
    the provider change, what the control asks the provider to add is its own
    product, in a quantity from 1 to 99, as a body the contract accepts; the
    quantity it holds is in that range; and it takes a press exactly when the
    stock is not known to be nothing and no change is under way. *)
Theorem added_quantities_are_valid sku es c ms :
  Forall (λ pe, honest pe.1) es → accepts Schemas.Sku (VStr sku) → steps sku es mounted = Some (c, ms) →
  (∀ m key v, m ∈ ms → ∃ q call, m = Basket.Add sku (jint q) ∧ 1 ≤ q ≤ 99 ∧ Basket.run m key v = Ok call ∧
    accepts Api.AddToCartRequest (ApiClient.ApiClient.body (Basket.options call))) ∧
  (∃ q, quantity c = jint q ∧ 1 ≤ q ≤ 99) ∧
  ∀ p, honest p → is_Some (step sku p Pressed c) ↔ available p ≠ Some (jint 0) ∧ loading p = false.
Proof.
  intros Hh Hsku Hs. destruct (steps_range sku es mounted c ms Hh mounted_range Hs) as [[Hq _] Hms]. split; [|split; [done|]].
  - intros m key v Hm. rewrite Forall_forall in Hms. destruct (Hms m Hm) as (q & -> & Hr). eexists q, _. split; [done|].
    split; [done|]. split; [done|]. apply accepts_fields; [apply nodup_keys; by vm_compute|].
    repeat constructor; [done|]. by apply accepts_int_between.
  - intros p Hp. cbn. unfold disabled, purchasable, canAttemptPurchase. destruct (available p) as [n|] eqn:Ha.
    + destruct (Hp n Ha) as (z & -> & Hz). rewrite nlt_jint. destruct (Z.ltb_spec 0 z) as [Hlt|Hge].
      * destruct (loading p); cbn; split; [by intros [? ?]|by intros [_ ?]| |by eexists].
        intros _. split; [|done]. intros [= He]. lia.
      * assert (z = 0) as -> by lia. cbn. split; [by intros [? ?]|]. by intros [He _].
    + destruct (loading p); cbn; split; [by intros [? ?]|by intros [_ ?]|done|by eexists].
Qed.
End Sent.

(** ** Instances *)

Definition seen (n : Z) : props := {| available := Some (jint n); loading := false |}.

(** Four hundred is typed while three are left. *)
Definition typed_too_much : list (props * event) :=
  [(seen 3, Typed "4oo00"); (seen 3, Committed); (seen 3, Minus); (seen 5, Plus); (seen 5, Plus); (seen 5, Pressed)].

Lemma added_quantities_are_valid_witness :
  ∃ c, steps "sku_01HZZZZZZZZZZZZZZZZZZZZZZZ" typed_too_much mounted =
         Some (c, [Basket.Add "sku_01HZZZZZZZZZZZZZZZZZZZZZZZ" (jint 4)]) ∧
    accepts (H:=plain_zod) Api.AddToCartRequest
      (VObj [("sku", VStr "sku_01HZZZZZZZZZZZZZZZZZZZZZZZ"); ("quantity", VNum (jint 4))]) ∧
    ∃ q, quantity c = jint q ∧ 1 ≤ q ≤ 99.
Proof.
  destruct (steps "sku_01HZZZZZZZZZZZZZZZZZZZZZZZ" typed_too_much mounted) as [[c ms]|] eqn:Hs; [|vm_compute in Hs; done].
  assert (ms = [Basket.Add "sku_01HZZZZZZZZZZZZZZZZZZZZZZZ" (jint 4)]) as -> by (vm_compute in Hs; by injection Hs as _ <-).
  exists c. split; [done|].
  assert (Forall (λ pe, honest pe.1) typed_too_much) as Hh
    by (repeat constructor; intros n [= <-]; eexists; (split; [reflexivity|lia])).
  assert (accepts (H:=plain_zod) Schemas.Sku (VStr "sku_01HZZZZZZZZZZZZZZZZZZZZZZZ")) as Hsku by (vm_compute; by eexists).
  destruct (added_quantities_are_valid (H:=plain_zod) "sku_01HZZZZZZZZZZZZZZZZZZZZZZZ" typed_too_much c _ Hh Hsku Hs) as (Hm & Hq & _).
  split; [|done]. destruct (Hm _ [] NaN ltac:(by left)) as (q & call & He & _ & Hr & Ha). injection Hr as <-. exact Ha.
Defined.
End Purchase.
