(* ===== verification/ProductPage.v ===== *)
(** * storefront: the page of a product (app/products/[slug]/page.tsx)

    What the page loads, the variants it quotes, its metadata and its structured
    data.  The product is one that satisfied the contract; layout is dropped.

    [ProductPageFacts] is about the prices it quotes and its structured
    data. *)
From Stdlib Require Import QArith.
From S2P Require Import Prelude JsNumber JsString JsDecimal Json Zod Schemas Api Prog Bff Picker.
Local Open Scope js_scope.
Local Open Scope Z_scope.

Module ProductPage.
Import Picker.

Record rating := { average : num; count : num }.

Record Product := {
  id : jstr;
  p_sku : jstr;
  title : jstr;
  slug : jstr;
  description : jstr;
  brand : option jstr;
  categoryPath : list jstr;
  p_attributes : list (jstr * jstr);
  p_images : list image;
  p_price : money;
  p_listPrice : option money;
  status : jstr;
  variants : list ProductVariant;
  p_rating : option rating;
  createdAt : jstr;
  updatedAt : jstr
}.

(** ** Loading *)

Section Loading.
Context `{Zod} (env : jstr → option jstr).
Import Bff.

(** What [notFound()] throws. *)
Definition notFound : exn := OtherError "NEXT_HTTP_ERROR_FALLBACK;404".

Definition encoded (s : jstr) : prog jstr :=
  match encodeURIComponent s with Ok t => mret t | Err m => Throw (OtherError m) end.

Definition cached_for (seconds : Z) (tags : option (list jstr)) (service : ServiceName) (path : jstr) (schema : Zod.schema) : CallOptions := {|
  Bff.service := service; Bff.path := path; Bff.schema := schema; opt_method := None; body := VUndef;
  idempotencyKey := None; accessToken := None; revalidate := vint seconds; Bff.tags := tags; attempts := None |}.

Definition loadProduct (slug : jstr) : prog jsval :=
  try_catch
    (e ← encoded slug;
     call env (cached_for 60 (Some [("product:" : jstr) ++ slug]) catalog ("/v1/products/" ++ e) Api.Product))
    (λ err, match err with
            | Bff b => if Bff.status b =? 404 then Throw notFound else Throw err
            | _ => Throw err
            end).

(** [gather([], { key: call(...) })]: the value, or nothing when it failed. *)
Definition optional (p : prog jsval) : prog (option jsval) :=
  try_catch (v ← p; mret (Some v)) (λ _, mret None).

Definition loadReviews (productId : jstr) : prog (option (list jsval)) :=
  e ← encoded productId;
  r ← optional (call env (cached_for 120 None review ("/v1/products/" ++ e ++ "/reviews?limit=5") Api.ReviewPage));
  mret (match r with
        | Some page => match prop "items" page with VArr (i :: items) => Some (i :: items) | _ => None end
        | None => None
        end).

Definition recommended (r : option jsval) : list jstr :=
  match r with
  | Some v => match prop "items" v with VArr items => map (λ i, str_of (prop "productId" i)) items | _ => [] end
  | None => []
  end.

(** [new Map(products.map((p) => [p.id, p]))]: the last of two with an id. *)
Definition byId (products : list jsval) (i : jstr) : option jsval :=
  last (filter (λ p, str_of (prop "id" p) = i) products).
Definition ordered (ids : list jstr) (products : list jsval) : list jsval := omap (byId products) ids.

Fixpoint encode_all (l : list jstr) : prog (list jstr) :=
  match l with [] => mret [] | s :: r => e ← encoded s; es ← encode_all r; mret (e :: es) end.

Definition loadSimilar (productId : jstr) : prog (option (list jsval)) :=
  e ← encoded productId;
  r ← optional (call env (cached_for 300 None recommendation
        ("/v1/recommendations?placement=pdp_similar&itemId=" ++ e ++ "&count=5") Api.RecommendationResponse));
  match recommended r with
  | [] => mret None
  | ids =>
      es ← encode_all ids;
      ps ← optional (call env (cached_for 300 None catalog ("/v1/products/batch?ids=" ++ join "," es) (ZArray Api.Product [])));
      mret (match ps with
            | Some (VArr (p :: products)) =>
                match ordered ids (p :: products) with [] => None | l => Some l end
            | _ => None
            end)
  end.
End Loading.

(** ** What the page quotes *)

(** [product.variants.reduce((a, b) => b.price.amount < a.price.amount ? b : a)] *)
Definition cheaper (a b : ProductVariant) : ProductVariant :=
  if nlt (amount (price b)) (amount (price a)) then b else a.
Definition primary (p : Product) : option ProductVariant :=
  match variants p with v :: vs => Some (foldl cheaper v vs) | [] => None end.

(** [v.available !== 0] *)
Definition not_zero (v : ProductVariant) : bool := match available v with Some n => negb (neqb n (jint 0)) | None => true end.

(** The variant of the metadata. *)
Definition announced (p : Product) : option ProductVariant :=
  match filter (λ v, not_zero v = true) (variants p) with v :: _ => Some v | [] => head (variants p) end.

Record metadata := {
  m_title : jstr; m_description : option jstr; canonical : option jstr; indexed : option bool;
  og_image : option jstr; og_price : option (option jstr * jstr)
}.

Definition generateMetadata (p : option Product) : metadata :=
  match p with
  | None => {| m_title := "Product"; m_description := None; canonical := None; indexed := None; og_image := None; og_price := None |}
  | Some p => {|
      m_title := title p; m_description := Some (slice0 160 (description p)); canonical := Some ("/products/" ++ slug p);
      indexed := Some (bool_decide (status p = "ACTIVE")); og_image := url <$> head (p_images p);
      og_price := (λ v, (number_text (ndiv (amount (price v)) (jint 100)), currency (price v))) <$> announced p |}
  end.

(** ** Structured data *)

(** A JSON object from its printed members; an undefined one is left out. *)
Definition members (l : list (jstr * option jstr)) : jstr :=
  "{" ++ join "," (omap (λ kv, (λ t, quote kv.1 ++ ":" ++ t) <$> kv.2) l) ++ "}".

Definition page_image (p : Product) : option image :=
  match p_images p with
  | i :: _ => Some i
  | [] => match primary p with Some v => head (images v) | None => None end
  end.

(** [JSON.stringify] of a number. *)
Definition json_number (x : num) : option jstr := match x with Fin _ => number_text x | _ => Some ("null" : jstr) end.

(** [aggregateRating]: left out without a rating or a count. *)
Definition aggregateRating (p : Product) : option (option jstr) :=
  match p_rating p with
  | Some r =>
      if nlt (jint 0) (count r) then
        avg ← json_number (average r); n ← json_number (count r);
        Some (Some (members [("@type", Some (quote "AggregateRating")); ("ratingValue", Some avg); ("reviewCount", Some n)]))
      else Some None
  | None => Some None
  end.

Definition offers (p : Product) : option (option jstr) :=
  match primary p with
  | Some v =>
      t ← toFixed 2 (ndiv (amount (price v)) (jint 100));
      Some (Some (members [("@type", Some (quote "Offer")); ("price", Some (quote t));
        ("priceCurrency", Some (quote (currency (price v))));
        ("availability", Some (quote (if negb (not_zero v) then "https://schema.org/OutOfStock" else "https://schema.org/InStock")))]))
  | None => Some None
  end.

(** The text of the script element; [None] when a number in it is outside
    [number_text]. *)
Definition structured_data (p : Product) : option jstr :=
  r ← aggregateRating p;
  o ← offers p;
  Some (members [
    ("@context", Some (quote "https://schema.org")); ("@type", Some (quote "Product"));
    ("name", Some (quote (title p))); ("description", Some (quote (description p)));
    ("sku", (λ v, quote (sku v)) <$> primary p);
    ("brand", match brand p with
              | Some b => if truthy_str b then Some (members [("@type", Some (quote "Brand")); ("name", Some (quote b))]) else None
              | None => None
              end);
    ("image", (λ i, "[" ++ quote (url i) ++ "]") <$> page_image p);
    ("aggregateRating", r); ("offers", o)]).
End ProductPage.

(** * storefront: what the page of a product quotes

    The three variants a page quotes, and what becomes of the texts of the
    catalogue in its structured data. *)

Module ProductPageFacts.
Import Picker PickerFacts ProductPage.

(** ** Prices *)

Section Prices.
Context (p : Product) (key : ProductVariant → Z).
Hypothesis Hkey : priced (variants p) key.

Lemma cheaper_key a b : a ∈ variants p → b ∈ variants p → cheaper a b = if key b <? key a then b else a.
Proof. intros Ha Hb. unfold cheaper. destruct (Hkey a Ha) as [-> _], (Hkey b Hb) as [-> _]. by rewrite nlt_jint. Qed.

Lemma cheapest_spec v vs : (∀ w, w ∈ v :: vs → w ∈ variants p) →
  foldl cheaper v vs ∈ v :: vs ∧ ∀ w, w ∈ v :: vs → key (foldl cheaper v vs) ≤ key w.
Proof.
  revert v. induction vs as [|u vs IH]; intros v Hs; cbn; [split; [by left|]; intros w ->%list_elem_of_singleton; lia|].
  rewrite cheaper_key by (apply Hs; set_solver).
  destruct (IH (if key u <? key v then u else v)) as [Hi Hm].
  { intros w Hw. apply Hs. destruct (key u <? key v); set_solver. }
  split; [destruct (key u <? key v); set_solver|]. intros w Hw.
  assert (key (foldl cheaper (if key u <? key v then u else v) vs) ≤ key (if key u <? key v then u else v)) as Hh by (apply Hm; by left).
  destruct (Z.ltb_spec (key u) (key v)); apply elem_of_cons in Hw as [->|[->|Hw]%elem_of_cons]; try lia; apply Hm; by right.
Qed.

Lemma primary_least v : primary p = Some v → v ∈ variants p ∧ ∀ w, w ∈ variants p → key v ≤ key w.
Proof.
  unfold primary. case_eq (variants p); [done|]. intros u vs He [= <-]. apply cheapest_spec. by rewrite He.
Qed.

Lemma by_price_key a b : a ∈ variants p → b ∈ variants p → nlt (by_price a b) (jint 0) = (key a <? key b).
Proof.
  intros Ha Hb. unfold by_price. destruct (Hkey a Ha) as [-> Ha'], (Hkey b Hb) as [-> Hb'].
  rewrite jint_sub, nlt_jint by lia. destruct (Z.ltb_spec (key a - key b) 0), (Z.ltb_spec (key a) (key b)); try lia; done.
Qed.

(** The picker opens on the cheapest variant not known to be sold out, while the
    page quotes the cheapest of all: the price above the picker is never higher
    than the one inside, and lower whenever all the cheapest variants are sold
    out and some other is not. *)
Theorem page_price_can_be_too_low :
  selectable (variants p) ≠ [] →
  ∃ a b, primary p = Some a ∧ initial (variants p) = Some b ∧ key a ≤ key b ∧
    ((∃ w, w ∈ selectable (variants p) ∧ not_sold_out w = true) →
     not_sold_out b = true ∧ (∀ w, w ∈ selectable (variants p) → not_sold_out w = true → key b ≤ key w) ∧
     ((∀ w, w ∈ variants p → key w = key a → not_sold_out w = false) → key a < key b)).
Proof.
  intros Hn. destruct (initial_selectable (variants p) Hn) as (b & Hb & Hbs). pose proof (proj1 (selectable_elem _ _) Hbs) as [Hbv _].
  destruct (primary p) as [a|] eqn:Ha; [|unfold primary in Ha; destruct (variants p); [by apply not_elem_of_nil in Hbv|done]].
  destruct (primary_least a Ha) as [Hav Hal]. exists a, b. split; [done|]. split; [done|]. split; [by apply Hal|].
  intros (w & Hw & Hws). unfold initial in Hb. set (l := filter (λ v, not_sold_out v = true) (selectable (variants p))) in *.
  assert (∀ x, x ∈ l ↔ x ∈ selectable (variants p) ∧ not_sold_out x = true) as Hl by (intros x; unfold l; rewrite list_elem_of_filter; tauto).
  destruct (sort by_price l) as [|h t] eqn:Hs.
  - exfalso. assert (w ∈ sort by_price l) as Hi by (by apply sort_elem, Hl). rewrite Hs in Hi. by apply not_elem_of_nil in Hi.
  - injection Hb as ->. destruct (sort_head by_price key (λ v, v ∈ variants p)) with (l := l) (h := b) (t := t) as [Hi Hm]; [|..|done|].
    + intros x y Hx Hy. by apply by_price_key.
    + intros x [Hx _]%Hl. by apply selectable_elem in Hx as [? _].
    + apply Hl in Hi as [_ Hi]. split; [done|]. split; [intros x Hx Hxs; by apply Hm, Hl|].
      intros Hall. specialize (Hal b Hbv). destruct (decide (key b = key a)) as [He|]; [|lia].
      by rewrite (Hall b Hbv He) in Hi.
Qed.
End Prices.

(** ** Structured data *)

(** A code unit JSON leaves as it is. *)
Definition plain (c : N) : Prop :=
  (32 <= c)%N ∧ c ≠ 34%N ∧ c ≠ 92%N ∧ is_high_surrogate c = false ∧ is_low_surrogate c = false.

Lemma esc_self c : plain c → esc c = [c].
Proof.
  intros (Hc & Hq & Hb & Hh & Hl). unfold esc. rewrite Hh, Hl.
  repeat match goal with |- context [(?a =? ?b)%N] => destruct (N.eqb_spec a b); [lia|] end.
  by destruct (N.ltb_spec c 32); [lia|].
Qed.

Lemma esc_str_plain c r : plain c → esc_str (c :: r) = c :: esc_str r.
Proof.
  intros Hc. pose proof Hc as (_ & _ & _ & Hh & _). destruct r as [|d r]; cbn [esc_str]; rewrite ?Hh, esc_self by done; done.
Qed.

Lemma starts_escaped s t : Forall plain s → startsWith s t = true → startsWith s (esc_str t) = true.
Proof.
  intros Hs. revert t. induction Hs as [|c s Hc Hs IH]; intros t Ht; [done|]. destruct t as [|d t]; [done|]. cbn in Ht.
  apply andb_true_iff in Ht as [He Ht]. apply N.eqb_eq in He as <-. rewrite esc_str_plain by done. cbn. rewrite N.eqb_refl. by apply IH.
Qed.

Lemma starts_app s t u : startsWith s t = true → startsWith s (t ++ u) = true.
Proof.
  revert t. induction s as [|c s IH]; intros t Ht; [done|]. destruct t as [|d t]; [done|]. cbn in *.
  apply andb_true_iff in Ht as [-> Ht]. by apply IH.
Qed.

Lemma includes_start s t : startsWith s t = true → includes s t = true.
Proof. intros H. destruct t; cbn; by rewrite H. Qed.

Lemma includes_app_l s t u : includes s t = true → includes s (t ++ u) = true.
Proof.
  induction t as [|c t IH]; cbn; intros H.
  - apply includes_start. rewrite orb_false_r in H. by destruct s.
  - apply orb_true_iff in H as [H|H]; [|by rewrite IH, orb_true_r].
    change (c :: t ++ u) with ((c :: t) ++ u). by rewrite starts_app.
Qed.

Lemma includes_app_r s t u : includes s u = true → includes s (t ++ u) = true.
Proof. intros H. induction t as [|c t IH]; [done|]. cbn. by rewrite IH, orb_true_r. Qed.

(** Lengths of texts, for the surrogate pairs. *)
Lemma includes_escaped n s t : (length t ≤ n)%nat → Forall plain s → includes s t = true → includes s (esc_str t) = true.
Proof.
  intros Hn Hs. revert t Hn. induction n as [|n IH]; intros t Hn Hi; destruct t as [|c t]; cbn in Hn; try lia; try done.
  cbn [includes] in Hi. apply orb_true_iff in Hi as [Hi|Hi]; [by apply includes_start, starts_escaped|].
  destruct t as [|d t]; [cbn [esc_str]; destruct s as [|x s]; [by destruct (esc c)|done]|].
  assert (includes s (esc_str (d :: t)) = true) as Hd by (apply IH; [cbn in *; lia|done]).
  cbn [esc_str]. destruct (is_high_surrogate c && is_low_surrogate d) eqn:Hsur; [|by apply includes_app_r].
  apply andb_true_iff in Hsur as [_ Hlow]. cbn [includes] in Hi. apply orb_true_iff in Hi as [Hi|Hi].
  - destruct s as [|x s]; [done|]. cbn in Hi. apply andb_true_iff in Hi as [He _]. apply N.eqb_eq in He as ->.
    inversion Hs as [|? ? (_ & _ & _ & _ & Hl) _]. congruence.
  - change (c :: d :: esc_str t) with ([c; d] ++ esc_str t). apply includes_app_r, IH; [cbn in *; lia|done].
Qed.

Lemma includes_quote s t : Forall plain s → includes s t = true → includes s (quote t) = true.
Proof.
  intros Hs Hi. unfold quote. change (34%N :: esc_str t ++ [34%N]) with ([34%N] ++ esc_str t ++ [34%N]).
  apply includes_app_r, includes_app_l. by eapply includes_escaped.
Qed.

Lemma includes_members s l k t : (k, Some t) ∈ l → includes s t = true → includes s (members l) = true.
Proof.
  intros Hl Ht. unfold members. apply includes_app_r, includes_app_l.
  assert (∀ ts, (∃ u, u ∈ ts ∧ includes s u = true) → includes s (join "," ts) = true) as Hj.
  { induction ts as [|u ts IH]; intros (v & Hv & Hi); [by apply not_elem_of_nil in Hv|].
    destruct ts as [|w ts]; [by apply list_elem_of_singleton in Hv as ->|].
    change (join "," (u :: w :: ts)) with (u ++ "," ++ join "," (w :: ts)).
    apply elem_of_cons in Hv as [->|Hv]; [by apply includes_app_l|]. do 2 apply includes_app_r. apply IH. by exists v. }
  apply Hj. exists (quote k ++ ":" ++ t). split; [|by do 2 apply includes_app_r].
  apply list_elem_of_omap. exists (k, Some t). done.
Qed.

(** C31. The texts of the catalogue stand in the script element as they are: a piece
    of the title or the description of a product that JSON does not escape, the
    end tag of the element being one, is a piece of the element. *)
Theorem structured_data_is_not_escaped p text s :
  structured_data p = Some text → Forall plain s →
  includes s (title p) = true ∨ includes s (description p) = true → includes s text = true.
Proof.
  unfold structured_data. destruct (aggregateRating p) as [r|]; [|done]. destruct (offers p) as [o|]; [|done]. cbn [mbind option_bind].
  intros [= <-] Hs Hi. destruct Hi as [Hi|Hi].
  - eapply (includes_members s _ "name" (quote (title p))); [set_solver|by apply includes_quote].
  - eapply (includes_members s _ "description" (quote (description p))); [set_solver|by apply includes_quote].
Qed.
End ProductPageFacts.
