(* ===== verification/ProductCard.v ===== *)
(** * storefront: cards and the home page (components/catalog/product-card.tsx,
      components/catalog/price.tsx, components/catalog/rating.tsx,
      components/catalog/review-list.tsx, app/page.tsx)

    What a card needs, from a product and from a search hit; the price with its
    saving, and the stars; what the strips of the home page load.
    [ProductCardFacts] compares a card with the page it links to, and its stars
    with the reviews. *)
From Stdlib Require Import QArith.
From S2P Require Import Prelude JsNumber JsString JsDecimal Zod Prog Schemas Api Bff Discount.
From S2P Require Import Rating Picker Purchase ProductPage.
Local Open Scope js_scope.
Local Open Scope Z_scope.

Module ProductCard.

(** ** A price *)

(** What is shown: the amount, and with a saving the struck-through reference
    and the percentage. *)
Record price_view := { v_price : Picker.money; v_reference : option Picker.money; v_saving : option num }.
Definition Price (price : Picker.money) (listPrice : option Picker.money) (showSaving : bool) : price_view :=
  let saving := Discount.discountPercent (Picker.amount price) (Picker.amount <$> listPrice) in {|
  v_price := price;
  v_reference := match saving with Some _ => listPrice | None => None end;
  v_saving := if showSaving then saving else None |}.

(** [UnitPrice]: nothing for a single unit. *)
Definition UnitPrice (unitPrice : Picker.money) (quantity : num) : option Picker.money :=
  if nle quantity (jint 1) then None else Some unitPrice.

(** ** Stars *)

(** Stars: how many, the width of the overlay in percent, the label, and the
    figure with its count. *)
Inductive rating_view :=
| NoReviews
| Nothing
| Stars (stars width : num) (label : option jstr) (figure : option (option jstr * num)).
Definition Rating (value count : option num) (showCount : bool) : rating_view :=
  match value with
  | None => if showCount then NoReviews else Nothing
  | Some value =>
      let clamped := math_max (jint 0) (math_min (jint 5) value) in
      Stars clamped (nmul (ndiv clamped (jint 5)) (jint 100))
        (t ← toFixed 1 clamped;
         Some ("Rated " ++ t ++ " out of 5" ++
               match count with
               | None => []
               | Some n => " from " ++ int_text n ++ " review" ++ (if neqb n (jint 1) then "" else "s")
               end))
        (if showCount then (λ n, (toFixed 1 clamped, n)) <$> count else None)
  end.

(** A review in the list; its date is left out. *)
Record review_view := {
  w_rating : rating_view; w_verified : bool; w_author : jstr; w_title : option jstr; w_body : jstr; w_helpful : option jstr
}.
Definition ReviewList (reviews : list jsval) : list review_view :=
  map (λ review, {|
    w_rating := Rating (match prop "rating" review with VNum n => Some n | _ => None end) None false;
    w_verified := to_boolean (prop "verifiedPurchase" review);
    w_author := match Bff.str_of (prop "authorName" review) with [] => "Anonymous" | name => name end;
    w_title := match Bff.str_of (prop "title" review) with [] => None | t => Some t end;
    w_body := Bff.str_of (prop "body" review);
    w_helpful := match prop "helpfulCount" review with
                 | VNum n => if nlt (jint 0) n
                             then Some (int_text n ++ " " ++ (if neqb n (jint 1) then "person" else "people") ++ " found this helpful")
                             else None
                 | _ => None
                 end |}) reviews.

(** ** A card *)

Record ProductCardItem := {
  productId : jstr;
  title : jstr;
  slug : jstr;
  brand : option jstr;
  image : option jstr;
  price : Picker.money;
  listPrice : option Picker.money;
  rating : option num;
  ratingCount : num;
  inStock : bool
}.

Record SearchHit := {
  h_productId : jstr;
  h_sku : jstr;
  h_title : jstr;
  h_slug : jstr;
  h_brand : option jstr;
  h_image : option jstr;
  h_price : Picker.money;
  h_listPrice : option Picker.money;
  h_rating : option num;
  h_ratingCount : num;
  h_inStock : bool;
  h_score : num;
  h_highlights : option (list (jstr * list jstr))
}.

Definition fromSearchHit (hit : SearchHit) : ProductCardItem := {|
  productId := h_productId hit; title := h_title hit; slug := h_slug hit; brand := h_brand hit; image := h_image hit;
  price := h_price hit; listPrice := h_listPrice hit; rating := h_rating hit; ratingCount := h_ratingCount hit;
  inStock := h_inStock hit |}.

(** [v.available === null || v.available > 0] *)
Definition has_stock (v : Picker.ProductVariant) : bool :=
  match Picker.available v with None => true | Some n => nlt (jint 0) n end.

(** [a ?? b] *)
Definition or_else {A} (a b : option A) : option A := match a with Some _ => a | None => b end.

Definition fromProduct (p : ProductPage.Product) : ProductCardItem :=
  let cheapest := ProductPage.primary p in {|
  productId := ProductPage.id p; title := ProductPage.title p; slug := ProductPage.slug p; brand := ProductPage.brand p;
  image := or_else (Picker.url <$> head (ProductPage.p_images p))
             (match cheapest with Some v => Picker.url <$> head (Picker.images v) | None => None end);
  price := default (ProductPage.p_price p) (Picker.price <$> cheapest);
  listPrice := or_else (match cheapest with Some v => Picker.listPrice v | None => None end) (ProductPage.p_listPrice p);
  rating := ProductPage.average <$> ProductPage.p_rating p;
  ratingCount := default (jint 0) (ProductPage.count <$> ProductPage.p_rating p);
  inStock := match ProductPage.variants p with [] => true | vs => existsb has_stock vs end |}.

(** What the card shows: its link, whether it is dimmed, its price. *)
Definition card_href (item : ProductCardItem) : jstr := "/products/" ++ slug item.
Definition dimmed (item : ProductCardItem) : bool := negb (inStock item).
Definition card_rating (item : ProductCardItem) : rating_view := Rating (rating item) (Some (ratingCount item)) true.
Definition card_price (item : ProductCardItem) : price_view := Price (price item) (listPrice item) true.

(** ** The home page *)

Section Home.
Context `{Zod} (env : jstr → option jstr).
Import Bff ProductPage.

(** [RecommendedStrip]: the heading and the products, in the order of the
    ranking; nothing when there is nothing to show. *)
Definition RecommendedStrip : prog (option (jstr * list jsval)) :=
  r ← optional (call env (cached_for 60 None recommendation "/v1/recommendations?placement=home_for_you&count=10" Api.RecommendationResponse));
  match r with
  | None => mret None
  | Some recommendations =>
      match recommended r with
      | [] => mret None
      | ids =>
          es ← encode_all ids;
          ps ← optional (call env (cached_for 60 None catalog ("/v1/products/batch?ids=" ++ join "," es) (ZArray Api.Product [])));
          mret (match ps with
                | Some (VArr (p :: products)) =>
                    match ordered ids (p :: products) with
                    | [] => None
                    | l => Some (if to_boolean (prop "fallback" recommendations) then "Popular right now" else "Recommended for you", l)
                    end
                | _ => None
                end)
      end
  end.

Definition NewArrivalsStrip : prog (option (list jsval)) :=
  r ← optional (call env (cached_for 300 None search "/v1/search?q=&sort=newest&size=10" Api.SearchResponse));
  mret (match r with
        | Some results => match prop "hits" results with VArr (h :: hits) => Some (h :: hits) | _ => None end
        | None => None
        end).

(** A category at the top of the tree with something in it. *)
Definition is_root (c : jsval) : bool :=
  match prop "path" c with VArr [_] => true | _ => false end &&
  match prop "productCount" c with VNum n => nlt (jint 0) n | _ => false end.
Definition CategoryTiles : prog (option (list jsval)) :=
  r ← optional (call env (cached_for 600 (Some [("categories" : jstr)]) catalog "/v1/categories" (ZArray Api.Category [])));
  mret (match filter (λ c, is_root c = true) (match r with Some (VArr l) => l | _ => [] end) with [] => None | l => Some l end).
End Home.
End ProductCard.

(** * storefront: a card and the page it links to *)
Module ProductCardFacts.
Import ProductCard.

(** The price on a product page, above the picker. *)
Definition page_price (p : ProductPage.Product) : option price_view :=
  (λ v, Price (Picker.price v) (Picker.listPrice v) true) <$> ProductPage.primary p.

Lemma has_stock_purchase v : has_stock v = Purchase.canAttemptPurchase (Picker.available v).
Proof. done. Qed.

(** C37. A card made from a product shows the image of the page it links to.  With
    variants it shows the amount the page shows; it is dimmed exactly when no
    variant can be put in the basket; and it shows the saving the page shows,
    unless the variant has no reference price of its own, where the page shows
    none and the card the one of the product.  Without variants, which the
    contract allows, the page shows no price and sells nothing, while the card
    shows the product's price and is not dimmed. *)
Theorem card_matches_its_page p :
  let item := fromProduct p in
  image item = Picker.url <$> ProductPage.page_image p ∧
  match ProductPage.primary p with
  | Some v =>
      v_price (card_price item) = Picker.price v ∧
      (dimmed item = true ↔ ∀ w, w ∈ ProductPage.variants p → Purchase.canAttemptPurchase (Picker.available w) = false) ∧
      (Picker.listPrice v ≠ None ∨ ProductPage.p_listPrice p = None → page_price p = Some (card_price item)) ∧
      (Picker.listPrice v = None →
         page_price p = Some (Price (Picker.price v) None true) ∧ v_saving (Price (Picker.price v) None true) = None ∧
         card_price item = Price (Picker.price v) (ProductPage.p_listPrice p) true)
  | None =>
      ProductPage.variants p = [] ∧ page_price p = None ∧ dimmed item = false ∧
      card_price item = Price (ProductPage.p_price p) (ProductPage.p_listPrice p) true
  end.
Proof.
  intros item. split.
  { unfold item, fromProduct, ProductPage.page_image. cbn. destruct (ProductPage.p_images p); [|done].
    destruct (ProductPage.primary p) as [v|]; [|done]. by destruct (Picker.images v). }
  destruct (ProductPage.primary p) as [v|] eqn:Hv.
  - assert (price item = Picker.price v) as Hp by (unfold item, fromProduct; cbn; by rewrite Hv).
    assert (listPrice item = or_else (Picker.listPrice v) (ProductPage.p_listPrice p)) as Hl by (unfold item, fromProduct; cbn; by rewrite Hv).
    unfold card_price. rewrite Hp, Hl. split; [done|split; [|split]].
    + unfold dimmed, item, fromProduct. cbn [inStock]. unfold ProductPage.primary in Hv.
      destruct (ProductPage.variants p) as [|w ws] eqn:Hw; [done|]. rewrite negb_true_iff, <- not_true_iff_false, existsb_exists. split.
      * intros Hn u Hu. apply not_true_iff_false. intros Hs. apply Hn. exists u. split; [by apply list_elem_of_In|done].
      * intros Hn (u & Hu & Hs). apply list_elem_of_In in Hu. specialize (Hn u Hu). rewrite has_stock_purchase, Hn in Hs. done.
    + intros Hor. unfold page_price. rewrite Hv. cbn. f_equal. f_equal. destruct (Picker.listPrice v); [done|]. by destruct Hor as [| ->].
    + intros Hn. unfold page_price. rewrite Hv. cbn. rewrite Hn. by repeat split.
  - assert (ProductPage.variants p = []) as Hn.
    { unfold ProductPage.primary in Hv. by destruct (ProductPage.variants p). }
    split; [done|]. unfold page_price, dimmed, card_price, item, fromProduct. cbn. rewrite Hv, Hn. done.
Qed.

(** ** Rankings *)

Definition id_of (v : jsval) : jstr := Bff.str_of (prop "id" v).

(** The ranking survives the detour through the catalogue: the products come
    in the order of the recommended ids, each of them once for each time it is
    recommended, and those the catalogue did not send are left out. *)
Theorem ranking_is_restored ids products :
  map id_of (ProductPage.ordered ids products) = filter (λ i, i ∈ map id_of products) ids ∧
  ∀ v, v ∈ ProductPage.ordered ids products → v ∈ products.
Proof.
  assert (∀ i v, ProductPage.byId products i = Some v → v ∈ products ∧ id_of v = i) as Hs.
  { intros i v Hl. apply last_Some_elem_of in Hl. by apply list_elem_of_filter in Hl as [? ?]. }
  assert (∀ i, ProductPage.byId products i = None → i ∉ map id_of products) as Hn.
  { intros i Hl (v & -> & Hv)%list_elem_of_fmap. apply last_None in Hl.
    assert (v ∈ filter (λ p, Bff.str_of (prop "id" p) = id_of v) products) as Hf by (by apply list_elem_of_filter).
    rewrite Hl in Hf. by apply not_elem_of_nil in Hf. }
  split.
  - induction ids as [|i ids IH]; [done|]. rewrite filter_cons.
    change (ProductPage.ordered (i :: ids) products) with
      (match ProductPage.byId products i with Some v => v :: ProductPage.ordered ids products | None => ProductPage.ordered ids products end).
    destruct (ProductPage.byId products i) as [v|] eqn:Hb.
    + destruct (Hs i v Hb) as [Hv Hid]. rewrite decide_True by (rewrite <- Hid; by apply list_elem_of_fmap_2). cbn. by rewrite IH, Hid.
    + rewrite decide_False by (by apply Hn). done.
  - intros v (i & Hi & Hb)%list_elem_of_omap. by apply (Hs i).
Qed.

(** ** Stars and reviews *)

(** The text of a number of tenths below ten. *)
Definition tenths_text (k : Z) : jstr := string_of_int (k / 10) ++ 46%N :: string_of_int (k mod 10).

(** A tenth of a star is shown as it is, whatever binary64 makes of it. *)
Lemma tenths_shown k : 0 ≤ k ≤ 50 →
  toFixed 1 (math_max (jint 0) (math_min (jint 5) (rnd (inject_Z k / inject_Z 10)))) = Some (tenths_text k).
Proof.
  intros Hk. assert (Forall (λ n, toFixed 1 (math_max (jint 0) (math_min (jint 5) (rnd (inject_Z (Z.of_nat n) / inject_Z 10)))) =
    Some (tenths_text (Z.of_nat n))) (seq 0 51)) as Hf by (apply (bool_decide_unpack _); vm_compute; exact I).
  rewrite Forall_forall in Hf. specialize (Hf (Z.to_nat k)). rewrite Z2Nat.id in Hf by lia. apply Hf, elem_of_seq. lia.
Qed.

(** C40. The stars of a card are the reviews: when the rating of a product is the
    summary review-service keeps of its reviews, the card says the mean to the
    nearest tenth of a star, with the number of reviews.  But once every review
    is withdrawn it says 0.0 out of 5 from 0 reviews, the five empty stars that
    a product without a rating is not to show. *)
Theorem stars_are_the_mean item c :
  Rating.histogram c → rating item = Some (Rating.average (Rating.summarise (Rating.counts c))) →
  ratingCount item = Rating.count (Rating.summarise (Rating.counts c)) →
  (0 < Rating.reviews_of c → ∃ stars width, card_rating item =
     Stars stars width (Some ("Rated " ++ tenths_text (Rating.tenths c) ++ " out of 5 from " ++ string_of_int (Rating.reviews_of c) ++
                              (if Rating.reviews_of c =? 1 then " review" else " reviews")))
       (Some (Some (tenths_text (Rating.tenths c)), jint (Rating.reviews_of c)))) ∧
  (Rating.reviews_of c = 0 → ∃ stars width label,
     card_rating item = Stars stars width (Some label) (Some (Some (tenths_text 0), jint 0)) ∧ label = "Rated 0.0 out of 5 from 0 reviews").
Proof.
  intros Hc Hr Hn. unfold card_rating, Rating. rewrite Hr, Hn, (Rating.summarise_counts c Hc). split.
  - intros H0. destruct (Z.eqb_spec (Rating.reviews_of c) 0) as [|_]; [lia|]. destruct (Rating.tenths_range c Hc H0) as [Ht _].
    cbn [Rating.average Rating.count]. rewrite tenths_shown by lia. eexists _, _. cbn [mbind option_bind fmap option_fmap option_map].
    rewrite int_text_jint. assert (neqb (jint (Rating.reviews_of c)) (jint 1) = (Rating.reviews_of c =? 1)) as ->.
    { unfold neqb, jint. apply eq_true_iff_eq. rewrite Qeq_bool_iff, inject_Z_injective, Z.eqb_eq. done. }
    by destruct (Rating.reviews_of c =? 1).
  - intros ->. rewrite Z.eqb_refl. eexists _, _, _. split; vm_compute; reflexivity.
Qed.

(** Five reviews: three, twice four and twice five stars. *)
Definition five_reviews : list Z := [0; 0; 1; 2; 2].
Definition reviewed : ProductCardItem := {|
  productId := "prd_1"; title := "Mug"; slug := "mug"; brand := None; image := None;
  price := {| Picker.amount := jint 100; Picker.currency := "EGP" |}; listPrice := None;
  rating := Some (Rating.average (Rating.summarise (Rating.counts five_reviews)));
  ratingCount := Rating.count (Rating.summarise (Rating.counts five_reviews)); inStock := true |}.

Lemma stars_are_the_mean_witness :
  ∃ stars width, card_rating reviewed = Stars stars width (Some ("Rated 4.2 out of 5 from 5 reviews" : jstr)) (Some (Some ("4.2" : jstr), jint 5)).
Proof.
  destruct (stars_are_the_mean reviewed five_reviews) as [Hs _]; [|reflexivity..|exact (Hs eq_refl)].
  split; [reflexivity|]. split; [by repeat constructor|reflexivity].
Defined.
End ProductCardFacts.
