(* ===== verification/BasketPage.v ===== *)
(** * storefront: the page of the basket (app/cart/page.tsx,
      components/cart/cart-line-row.tsx, components/cart/cart-summary.tsx,
      components/cart/cart-count.tsx)

    The rows with their steppers around the provider, as one machine: [step] is
    one turn of the event loop, after which each stepper whose quantity changed
    shows the new one.  What is rendered is a function of the page.
    [BasketPageFacts] says what the page sends, and what it shows when a change
    is refused or the basket is not known. *)
From Stdlib Require Import QArith Qround Qcanon.
From S2P Require Import Prelude JsNumber JsString JsDecimal Zod Schemas Primitives Events Api Bff.
From S2P Require Import ApiClient.
From S2P Require Import Basket Picker Purchase ProductCard.
Local Open Scope js_scope.
Local Open Scope Z_scope.

Module BasketPage.
Import ApiClient.ApiClient Basket.Basket.

(** ** Reading a basket that satisfied the contract *)

Definition lines_of (c : jsval) : list jsval := match prop "lines" c with VArr l => l | _ => [] end.
Definition lines (p : provider) : list jsval := match cart p with Some c => lines_of c | None => [] end.
Definition sku_of (line : jsval) : jstr := Bff.str_of (prop "sku" line).
(** A number, in lowest terms. *)
Definition num_of (v : jsval) : num := match v with VNum (Fin q) => Fin (Qred q) | VNum x => x | _ => NaN end.
Definition quantity_of (line : jsval) : num := num_of (prop "quantity" line).
Definition money_of (v : jsval) : Picker.money := {|
  Picker.amount := num_of (prop "amount" v); Picker.currency := Bff.str_of (prop "currency" v) |}.

(** ** The page *)

(** A stepper: the [value] it was last rendered with, and its draft. *)
Record field := { f_sku : jstr; f_value : num; f_draft : jstr }.
Record page := { provider_ : provider; fields : list field }.

Definition MIN : num := jint 1.
Definition MAX : num := jint 99.

Fixpoint field_of (sku : jstr) (fs : list field) : option field :=
  match fs with [] => None | f :: r => if decide (f_sku f = sku) then Some f else field_of sku r end.

(** The rows after a render: a stepper that was there keeps its draft unless its
    value changed; the key of a row is its SKU. *)
Definition synced (fs : list field) (line : jsval) : field :=
  let q := quantity_of line in
  match field_of (sku_of line) fs with
  | Some f => if neqb q (f_value f) then {| f_sku := sku_of line; f_value := q; f_draft := f_draft f |}
              else {| f_sku := sku_of line; f_value := q; f_draft := int_text q |}
  | None => {| f_sku := sku_of line; f_value := q; f_draft := int_text q |}
  end.
Definition render (p : provider) (fs : list field) : page := {| provider_ := p; fields := map (synced fs) (lines p) |}.

Definition mounted (initialCart : option jsval) : page := render (Basket.mounted initialCart) [].

Definition set_draft (sku d : jstr) (pg : page) : page := {|
  provider_ := provider_ pg;
  fields := map (λ f, if decide (f_sku f = sku) then {| f_sku := f_sku f; f_value := f_value f; f_draft := d |} else f) (fields pg) |}.

(** ** What is rendered *)

Record row := {
  r_href : jstr; r_image : option jstr; r_title : jstr; r_sku : jstr; r_total : Picker.money; r_each : option Picker.money;
  r_changed : bool; r_draft : jstr; r_minus : bool; r_plus : bool; r_open : bool
}.
(** [CartLineRow]; the last three say which controls are enabled. *)
Definition row_of (busy : bool) (line : jsval) (f : field) : row := {|
  r_href := "/products/" ++ Bff.str_of (prop "productId" line);
  r_image := match prop "image" line with VStr (c :: u) => Some (c :: u) | _ => None end;
  r_title := Bff.str_of (prop "title" line); r_sku := sku_of line;
  r_total := money_of (prop "lineTotal" line);
  r_each := ProductCard.UnitPrice (money_of (prop "unitPrice" line)) (quantity_of line);
  r_changed := to_boolean (prop "priceChanged" line); r_draft := f_draft f;
  r_minus := negb (busy || nle (f_value f) MIN); r_plus := negb (busy || nle MAX (f_value f)); r_open := negb busy |}.

Inductive amount := Free | Amount (m : Picker.money).
Record summary := { s_degraded : bool; s_rows : list (jstr * amount); s_total : Picker.money; s_coupons : bool }.
Definition is_zero (m : Picker.money) : bool := neqb (Picker.amount m) (jint 0).
(** [CartSummary] *)
Definition summary_of (c : jsval) : summary :=
  let at_ k := money_of (prop k c) in
  let given (label : jstr) m : list (jstr * amount) := if is_zero m then [] else [(label, Amount m)] in {|
  s_degraded := to_boolean (prop "pricingDegraded" c);
  s_rows := [("Subtotal" : jstr, Amount (at_ "subtotal"))] ++ given "Discount" (at_ "discountTotal") ++
            [("Delivery" : jstr, if is_zero (at_ "shippingTotal") then Free else Amount (at_ "shippingTotal"))] ++
            given "VAT" (at_ "taxTotal");
  s_total := at_ "total";
  s_coupons := negb (to_boolean (prop "pricingDegraded" c)) |}.

Inductive screen := Skeleton | EmptyCart | Shown (dimmed : bool) (rows : list row) (s : summary).
(** [CartPage] *)
Definition rendered (pg : page) : screen :=
  let busy := loading (provider_ pg) in
  match cart (provider_ pg) with
  | None => if busy then Skeleton else EmptyCart
  | Some c => match lines_of c with
              | [] => EmptyCart
              | ls => Shown busy (zip_with (row_of busy) ls (fields pg)) (summary_of c)
              end
  end.

(** [CartCount]: the badge, and what a screen reader says. *)
Definition badge (itemCount : num) : option jstr :=
  if nlt (jint 0) itemCount then Some (if nlt (jint 99) itemCount then "99+" else int_text itemCount) else None.
Definition announced (itemCount : num) : jstr :=
  if neqb itemCount (jint 0) then "Basket is empty"
  else int_text itemCount ++ " item" ++ (if neqb itemCount (jint 1) then "" else "s") ++ " in your basket".

(** [CheckoutFlow], before its form. *)
Inductive checkout := SignInFirst | NothingToBuy | Form.
Definition checkout_screen (signed_in : bool) (p : provider) : checkout :=
  if negb signed_in then SignInFirst else match lines p with [] => NothingToBuy | _ => Form end.

(** ** Turns *)

(** A change goes through the provider; it needs no key. *)
Definition ask (m : mutation) (pg : page) : page := render (mutate m "" (provider_ pg)) (fields pg).

Inductive event :=
| Typed (sku text : jstr)
| Commit (sku : jstr)
| Minus (sku : jstr)
| Plus (sku : jstr)
| Remove (sku : jstr)
| Coupon (code : jstr)
| Reply (id : nat) (r : result exn jsval).

(** One turn; [None] when the control is not there or is disabled.  A field is
    committed when it is left or on Enter. *)
Definition step (pg : page) (e : event) : option page :=
  let busy := loading (provider_ pg) in
  match e with
  | Typed sku text =>
      f ← field_of sku (fields pg); if busy then None else Some (set_draft sku (Purchase.only_digits text) pg)
  | Commit sku =>
      f ← field_of sku (fields pg);
      let '(d, q) := Purchase.commit MIN MAX (f_value f) (f_draft f) in
      let pg := set_draft sku d pg in
      Some (match q with Some q => ask (SetQuantity sku q) pg | None => pg end)
  | Minus sku =>
      f ← field_of sku (fields pg);
      if busy || nle (f_value f) MIN then None else Some (ask (SetQuantity sku (nsub (f_value f) (jint 1))) pg)
  | Plus sku =>
      f ← field_of sku (fields pg);
      if busy || nle MAX (f_value f) then None else Some (ask (SetQuantity sku (nadd (f_value f) (jint 1))) pg)
  | Remove sku => f ← field_of sku (fields pg); if busy then None else Some (ask (Basket.Remove sku) pg)
  | Coupon code =>
      match rendered pg with
      | Shown false _ s => if s_coupons s then Some (ask (ApplyCoupon code) pg) else None
      | _ => None
      end
  | Reply id r => p ← Basket.step (provider_ pg) (Basket.Reply id r); Some (render p (fields pg))
  end.

Fixpoint steps (pg : page) (es : list event) : option page :=
  match es with [] => Some pg | e :: r => pg' ← step pg e; steps pg' r end.
End BasketPage.

(** * storefront: what the page of the basket asks for, and what it shows *)
Module BasketPageFacts.
Import ApiClient.ApiClient Basket.Basket BasketPage.

(** ** Baskets of the contract *)

Section Contract.
Context `{Zod}.

Lemma accepted_integer cs v :
  accepts (ZNumber (NInt :: cs)) v →
  ∃ q z, v = VNum (Fin q) ∧ (q == inject_Z z)%Q ∧ num_of v = jint z ∧ forallb (check_number (Fin q)) cs = true.
Proof.
  intros [w Hw]%accepts_meaning. destruct (parsed_integer _ _ _ Hw) as (-> & q & -> & Hq & Hc).
  exists q, (Qfloor q). split; [done|]. split; [done|]. split; [|done]. cbn [num_of]. unfold jint. f_equal.
  rewrite (Qred_complete _ _ Hq). apply Qred_identity. apply Z.gcd_1_r.
Qed.

Lemma accepted_between a b v :
  accepts (Schemas.int_between a b) v → ∃ z, num_of v = jint z ∧ a ≤ z ≤ b.
Proof.
  intros Ha. destruct (accepted_integer _ _ Ha) as (q & z & -> & Hq & Hz & Hc). exists z. split; [done|].
  cbn [forallb check_number] in Hc. rewrite !andb_true_iff in Hc. destruct Hc as (Hc1 & Hc2 & _).
  split; [by eapply nle_int_min|by eapply nle_int_max].
Qed.

(** The quantity of every line of a basket of the contract is one to 99. *)
Definition in_range (q : num) : Prop := ∃ z, q = jint z ∧ 1 ≤ z ≤ 99.

Lemma accepted_quantities c : accepts Api.Cart c → Forall (λ l, in_range (quantity_of l)) (lines_of c).
Proof.
  intros (kvs & -> & Hf & _)%accepts_object. specialize (Hf "lines" _ ltac:(by right; right; left)).
  apply accepts_elements in Hf as (l & Hl & Hf). unfold lines_of. rewrite Hl.
  eapply Forall_impl; [exact Hf|]. intros x (fs & -> & Hx & _)%accepts_object.
  specialize (Hx "quantity" _ ltac:(do 4 right; by left)). apply accepted_between, Hx.
Qed.

Lemma accepted_version p : (∀ c, cart p = Some c → accepts Api.Cart c) → accepts (Schemas.int_min 0) (VNum (version p)).
Proof.
  intros Hc. assert (accepts (Schemas.int_min 0) (VNum (jint 0))) as H0 by (apply accepts_number; by exists (jint 0)).
  unfold version. destruct (cart p) as [c|]; [|done]. specialize (Hc c eq_refl). apply accepts_object in Hc as (kvs & -> & Hf & _).
  specialize (Hf "version" _ ltac:(do 13 right; by left)). by destruct (prop "version" (VObj kvs)).
Qed.

(** ** Rows *)

Lemma render_fields p fs :
  map (λ f, (f_sku f, f_value f)) (fields (render p fs)) = map (λ l, (sku_of l, quantity_of l)) (lines p).
Proof.
  cbn. rewrite map_map. apply map_ext. intros l. unfold synced. destruct (field_of _ _) as [f|]; [|done]. by destruct (neqb _ _).
Qed.

Lemma field_of_in sku fs f : field_of sku fs = Some f → f ∈ fs ∧ f_sku f = sku.
Proof.
  induction fs as [|g fs IH]; [done|]. cbn. destruct (decide (f_sku g = sku)) as [Hg|].
  - intros [= ->]. split; [by left|done].
  - intros [? ?]%IH. split; [by right|done].
Qed.

(** ** What the page sends *)

Definition asks_properly (c : call) : Prop :=
  method (options c) = Some ("PATCH" : jstr) → accepts Api.UpdateCartLineRequest (body (options c)).
Definition zero_of (c : call) : Prop := prop "quantity" (body (options c)) = vint 0.

Lemma patch_proper sku z v c : 0 ≤ z ≤ 99 → accepts (Schemas.int_min 0) (VNum v) → patch_line sku (jint z) v = Ok c → asks_properly c.
Proof.
  intros Hz Hv Hc _. unfold patch_line in Hc. destruct (encodeURIComponent sku); [|done]. injection Hc as <-.
  apply accepts_fields; [apply nodup_keys; by vm_compute|]. repeat constructor; [|done]. by apply accepts_int_between.
Qed.

Lemma ask_effect m pg :
  cart (provider_ (ask m pg)) = cart (provider_ pg) ∧
  sent (provider_ (ask m pg)) = sent (provider_ pg) ++ match run m "" (version (provider_ pg)) with Ok c => [c] | Err _ => [] end.
Proof.
  cbn [ask render provider_]. unfold mutate. destruct (run _ _ _); [done|]. unfold finish.
  rewrite app_nil_r. by destruct (decide _).
Qed.

Lemma reply_effect p id r p' : Basket.step p (Basket.Reply id r) = Some p' →
  (cart p' = cart p ∨ cart p' = None ∨ ∃ v, r = Ok v ∧ cart p' = Some v) ∧ (sent p' = sent p ∨ sent p' = sent p ++ [refresh_call]).
Proof.
  cbn. destruct (task_of id (pending p)) as [t|]; [|done]. intros [= <-].
  assert (∀ k q, cart (finish k q) = cart q ∧ sent (finish k q) = sent q) as Hf by (intros; unfold finish; by destruct (decide _)).
  assert (∀ q, (cart (refreshed r q) = cart q ∨ cart (refreshed r q) = None ∨ ∃ v, r = Ok v ∧ cart (refreshed r q) = Some v) ∧
               sent (refreshed r q) = sent q) as Hr.
  { intros q. unfold refreshed. destruct r as [v|[e| | |]]; try (split; [by left|done]); [split; [right; right; by exists v|done]|].
    destruct (_ =? _); (split; [|done]); [right; by left|by left]. }
  destruct t as [k s| |k]; cbn [resume].
  - unfold mutated. destruct r as [v|[e| | |]]; rewrite ?(proj1 (Hf _ _)), ?(proj2 (Hf _ _)); try (split; by left).
    + destruct (decide _); [|split; by left]. destruct s; (split; [right; right; by exists v|by left]).
    + destruct (decide _); [split; [by left|by right]|]. rewrite (proj1 (Hf _ _)), (proj2 (Hf _ _)). split; by left.
  - destruct (Hr (drop id p)) as [Hc Hs]. split; [exact Hc|]. rewrite Hs. by left.
  - rewrite (proj1 (Hf _ _)), (proj2 (Hf _ _)). cbn [notify cart sent]. destruct (Hr (drop id p)) as [Hc Hs]. split; [exact Hc|].
    rewrite Hs. by left.
Qed.

(** What holds between turns. *)
Record Inv (pg : page) : Prop := {
  basket_valid c : cart (provider_ pg) = Some c → accepts Api.Cart c;
  rows_current : map (λ f, (f_sku f, f_value f)) (fields pg) = map (λ l, (sku_of l, quantity_of l)) (lines (provider_ pg));
  drafts_digits : Forall (λ f, all_digits (f_draft f)) (fields pg);
  sent_properly : Forall asks_properly (sent (provider_ pg))
}.

Lemma inv_values pg : Inv pg → Forall (λ f, in_range (f_value f)) (fields pg).
Proof.
  intros [Hc Hr _ _]. assert (Forall (λ l, in_range (quantity_of l)) (lines (provider_ pg))) as Hl.
  { unfold lines. destruct (cart (provider_ pg)) as [c|] eqn:E; [|constructor]. by apply accepted_quantities, Hc. }
  apply Forall_forall. intros f Hf. rewrite Forall_forall in Hl.
  assert ((f_sku f, f_value f) ∈ map (λ f, (f_sku f, f_value f)) (fields pg)) as Hi by (apply list_elem_of_fmap; by exists f).
  rewrite Hr in Hi. apply list_elem_of_fmap in Hi as (l & [= _ ->] & Hi). by apply Hl.
Qed.

Lemma inv_render p fs :
  (∀ c, cart p = Some c → accepts Api.Cart c) → Forall (λ f, all_digits (f_draft f)) fs → Forall asks_properly (sent p) →
  Inv (render p fs).
Proof.
  intros Hc Hd Hs. split; [done|apply render_fields| |done]. cbn. apply Forall_forall.
  intros f (l & -> & Hl)%list_elem_of_fmap. assert (in_range (quantity_of l)) as (z & Hz & Hr).
  { unfold lines in Hl. destruct (cart p) as [c|] eqn:E; [|by apply not_elem_of_nil in Hl].
    pose proof (accepted_quantities c (Hc c eq_refl)) as Hq. rewrite Forall_forall in Hq. by apply Hq. }
  assert (all_digits (int_text (quantity_of l))) as Hi by (rewrite Hz; apply int_digits; lia).
  unfold synced. destruct (field_of _ fs) as [f|] eqn:Hf; [|done]. apply field_of_in in Hf as [Hf _].
  rewrite Forall_forall in Hd. destruct (neqb _ _); [exact (Hd f Hf)|done].
Qed.

Lemma inv_mounted_page c : (∀ v, c = Some v → accepts Api.Cart v) → Inv (mounted c).
Proof. intros Hc. by apply inv_render; [destruct c; intros v [= <-]; apply Hc|constructor|destruct c; repeat constructor]. Qed.

Lemma inv_set_draft sku d pg : all_digits d → Inv pg → Inv (set_draft sku d pg).
Proof.
  intros Hd [H1 H2 H3 H4]. split; [done| |apply Forall_forall|done].
  - cbn [set_draft provider_ fields]. rewrite <- H2, map_map. apply map_ext. intros f. by destruct (decide _).
  - intros f (g & -> & Hg)%list_elem_of_fmap. rewrite Forall_forall in H3. destruct (decide _); [done|by apply H3].
Qed.

(** What a change asks the provider to send; a quantity is one to 99. *)
Definition proper (m : mutation) : Prop :=
  match m with SetQuantity _ q => in_range q | Basket.Remove _ | ApplyCoupon _ => True | Add _ _ => False end.

Lemma run_proper pg m c : Inv pg → proper m → run m "" (version (provider_ pg)) = Ok c →
  asks_properly c ∧ (zero_of c → ∃ sku, m = Basket.Remove sku).
Proof.
  intros Hi Hm Hc. pose proof (accepted_version _ (basket_valid pg Hi)) as Hv. destruct m as [?|sku q|sku|code]; [done|..]; cbn [run] in Hc.
  - destruct Hm as (z & -> & Hz). split; [eapply patch_proper; [|exact Hv|exact Hc]; lia|].
    unfold patch_line in Hc. destruct (encodeURIComponent sku); [|done]. injection Hc as <-. unfold zero_of. cbn. intros [= ->]. lia.
  - split; [eapply patch_proper; [|exact Hv|exact Hc]; lia|by exists sku].
  - injection Hc as <-. split; [by intros [=]|]. unfold zero_of. cbn. by intros [=].
Qed.

Lemma inv_ask pg m : Inv pg → proper m → Inv (ask m pg).
Proof.
  intros Hi Hm. destruct (ask_effect m pg) as [Hc Hs]. apply inv_render.
  - intros c. cbn in Hc. rewrite Hc. apply Hi.
  - apply Hi.
  - cbn in Hs. rewrite Hs. apply Forall_app. split; [apply Hi|]. destruct (run _ _ _) as [c|] eqn:Hr; [|done].
    apply Forall_singleton. by eapply run_proper.
Qed.

(** A field that is committed. *)
Lemma commit_field f : in_range (f_value f) → all_digits (f_draft f) →
  ∃ d q, Purchase.commit MIN MAX (f_value f) (f_draft f) = (d, q) ∧ all_digits d ∧ ∀ n, q = Some n → in_range n.
Proof.
  intros (v & Hv & Hr) Hd. unfold Purchase.commit. destruct (decide (f_draft f = [])) as [->|Hn].
  { eexists _, None. split; [reflexivity|]. split; [|done]. rewrite Hv. apply int_digits. lia. }
  destruct (Purchase.clamp_digits 99 (f_draft f) ltac:(lia) Hd Hn) as [Hc ->]. change MIN with Purchase.MIN. unfold MAX. rewrite Hc.
  eexists _, _. split; [reflexivity|]. split; [apply int_digits; lia|]. intros n. destruct (neqb _ _); [done|].
  intros [= <-]. eexists. split; [reflexivity|lia].
Qed.

(** The change an event asks for. *)
Definition wanted (pg : page) (e : event) : option mutation :=
  match e with
  | Typed _ _ | Reply _ _ => None
  | Commit sku => f ← field_of sku (fields pg); SetQuantity sku <$> (Purchase.commit MIN MAX (f_value f) (f_draft f)).2
  | Minus sku => f ← field_of sku (fields pg); Some (SetQuantity sku (nsub (f_value f) (jint 1)))
  | Plus sku => f ← field_of sku (fields pg); Some (SetQuantity sku (nadd (f_value f) (jint 1)))
  | Remove sku => Some (Basket.Remove sku)
  | Coupon code => Some (ApplyCoupon code)
  end.

Definition good (e : event) : Prop := match e with Reply _ (Ok v) => accepts Api.Cart v | _ => True end.

(** A turn asks for what it wants, properly, of a page that is as good. *)
Lemma step_asks pg e pg' : Inv pg → step pg e = Some pg' →
  match wanted pg e with
  | Some m => proper m ∧ ∃ pg0, Inv pg0 ∧ provider_ pg0 = provider_ pg ∧ pg' = ask m pg0
  | None => good e → Inv pg' ∧ ∀ c, sent (provider_ pg') = sent (provider_ pg) ++ [c] → c = refresh_call
  end.
Proof.
  intros Hi Hs. pose proof (inv_values pg Hi) as Hv. rewrite Forall_forall in Hv.
  assert (∀ sku f, field_of sku (fields pg) = Some f → in_range (f_value f) ∧ all_digits (f_draft f)) as Hf.
  { intros sku f [Hin _]%field_of_in. split; [by apply Hv|]. pose proof (drafts_digits pg Hi) as Hd. rewrite Forall_forall in Hd. by apply Hd. }
  assert (∀ l : list call, ∀ c, l = l ++ [c] → c = refresh_call) as Hl.
  { intros l c E. apply (f_equal length) in E. rewrite length_app in E. cbn in E. lia. }
  destruct e as [sku t|sku|sku|sku|sku|code|i r]; cbn [step wanted] in *;
    try (destruct (field_of sku (fields pg)) as [f|] eqn:E; cbn [mbind option_bind] in *; [destruct (Hf _ _ E) as [(v & Ev & Hr) Hd]|done]).
  - destruct (loading _); [done|]. injection Hs as <-. intros _. split; [|by intros c; apply Hl]. apply inv_set_draft; [|done].
    apply Forall_forall. intros x Hx. by apply list_elem_of_filter in Hx as [? _].
  - destruct (commit_field f ltac:(by exists v) Hd) as (d & q & Eq & Hdd & Hq). rewrite Eq in *. cbn. injection Hs as <-.
    destruct q as [q|]; cbn.
    + split; [by apply Hq|]. eexists. split; [by apply inv_set_draft|done].
    + intros _. split; [by apply inv_set_draft|by intros c; apply Hl].
  - rewrite Ev in *. unfold MIN in Hs. rewrite nle_jint in Hs. destruct (loading _); [done|]. destruct (Z.leb_spec v 1); [done|].
    injection Hs as <-. split; [rewrite jint_sub by lia; eexists; split; [reflexivity|lia]|by exists pg].
  - rewrite Ev in *. unfold MAX in Hs. rewrite nle_jint in Hs. destruct (loading _); [done|]. destruct (Z.leb_spec 99 v); [done|].
    injection Hs as <-. split; [rewrite jint_add by lia; eexists; split; [reflexivity|lia]|by exists pg].
  - destruct (loading _); [done|]. injection Hs as <-. split; [done|by exists pg].
  - destruct (rendered pg) as [| |[] rs sm]; [done..|]. destruct (s_coupons sm); [|done]. injection Hs as <-. split; [done|by exists pg].
  - intros Hg. destruct (Basket.step (provider_ pg) (Basket.Reply i r)) as [p|] eqn:Hp; [|done]. injection Hs as <-.
    destruct (reply_effect _ _ _ _ Hp) as [Hc Hsent]. split.
    + apply inv_render; [|apply Hi|].
      * intros c Ec. destruct Hc as [Hc|[Hc|(w & -> & Hc)]]; rewrite Hc in Ec; [by apply (basket_valid pg Hi)|done|].
        injection Ec as <-. exact Hg.
      * destruct Hsent as [-> | ->]; [apply Hi|]. apply Forall_app. split; [apply Hi|]. by apply Forall_singleton.
    + cbn. intros c Ec. destruct Hsent as [E|E]; rewrite E in Ec; [by apply Hl in Ec|]. by apply app_inj_tail in Ec as [_ ->].
Qed.

Lemma inv_page_step pg e pg' : Inv pg → good e → step pg e = Some pg' → Inv pg'.
Proof.
  intros Hi Hg Hs. pose proof (step_asks pg e pg' Hi Hs) as Ha. destruct (wanted pg e) as [m|]; [|by apply Ha].
  destruct Ha as (Hm & pg0 & H0 & _ & ->). by apply inv_ask.
Qed.

Lemma inv_page_steps es pg pg' : Inv pg → Forall good es → steps pg es = Some pg' → Inv pg'.
Proof.
  intros Hi Hg. revert pg Hi. induction Hg as [|e es He _ IH]; intros pg Hi Hs; cbn in Hs; [by injection Hs as <-|].
  destruct (step pg e) as [pg1|] eqn:E; [|done]. by apply (IH pg1); [eapply inv_page_step|].
Qed.

Lemma wanted_remove pg e sku : wanted pg e = Some (Basket.Remove sku) → ∃ sku, e = Remove sku.
Proof.
  destruct e as [?|s|s|s|s| |]; cbn; try done; [..|by exists s]; destruct (field_of s (fields pg)); cbn; try done.
  by destruct (Purchase.commit _ _ _ _).2.
Qed.

(** ** What the steppers show *)

Lemma field_of_set_draft sku d pg f : field_of sku (fields pg) = Some f →
  field_of sku (fields (set_draft sku d pg)) = Some {| f_sku := sku; f_value := f_value f; f_draft := d |}.
Proof.
  cbn. generalize (fields pg). intros fs. induction fs as [|g fs IH]; [done|]. cbn.
  destruct (decide (f_sku g = sku)) as [Hg|Hg]; cbn.
  - intros [= ->]. rewrite decide_True by done. by rewrite Hg.
  - rewrite decide_False by done. done.
Qed.

Lemma field_of_other sku sku' d pg : sku ≠ sku' → field_of sku (fields (set_draft sku' d pg)) = field_of sku (fields pg).
Proof.
  intros Hn. cbn. generalize (fields pg). intros fs. induction fs as [|g fs IH]; [done|]. cbn. rewrite IH.
  destruct (decide (f_sku g = sku')) as [Hg|Hg]; cbn; [|done]. by rewrite !decide_False by congruence.
Qed.

(** The stepper of a line shows the quantity of the line. *)
Definition shows_quantity (sku : jstr) (pg : page) : Prop :=
  ∀ f, field_of sku (fields pg) = Some f → f_draft f = int_text (f_value f).

Lemma field_of_rows sku fs ls f : field_of sku (map (synced fs) ls) = Some f →
  ∃ l, l ∈ ls ∧ sku_of l = sku ∧ f = synced fs l.
Proof.
  induction ls as [|l ls IH]; cbn; [done|].
  assert (f_sku (synced fs l) = sku_of l) as -> by (unfold synced; destruct (field_of _ fs); [by destruct (neqb _ _)|done]).
  destruct (decide (sku_of l = sku)) as [Hl|].
  - intros [= <-]. exists l. split; [by left|done].
  - intros (l' & ? & ? & ?)%IH. exists l'. split; [by right|done].
Qed.

Lemma in_range_eq a b : in_range a → in_range b → neqb a b = true → a = b.
Proof.
  intros (x & -> & _) (y & -> & _). unfold neqb, jint. by intros ->%Qeq_bool_iff%inject_Z_injective.
Qed.

Lemma shows_render sku p pg :
  (∀ c, cart p = Some c → accepts Api.Cart c) → Inv pg → shows_quantity sku pg → shows_quantity sku (render p (fields pg)).
Proof.
  intros Hc Hi Hs f (l & Hl & <- & ->)%field_of_rows. assert (in_range (quantity_of l)) as Hq.
  { unfold lines in Hl. destruct (cart p) as [c|] eqn:E; [|by apply not_elem_of_nil in Hl].
    pose proof (accepted_quantities c (Hc c eq_refl)) as Hq. rewrite Forall_forall in Hq. by apply Hq. }
  unfold synced. destruct (field_of _ _) as [g|] eqn:Hg; [|done]. destruct (neqb _ _) eqn:E; [|done]. cbn [f_draft f_value].
  pose proof (inv_values pg Hi) as Hv. rewrite Forall_forall in Hv.
  rewrite (in_range_eq _ _ Hq (Hv g (proj1 (field_of_in _ _ _ Hg))) E). by apply Hs.
Qed.

Lemma shows_ask sku m pg : Inv pg → shows_quantity sku pg → shows_quantity sku (ask m pg).
Proof.
  intros Hi Hs. apply shows_render; [|done|done]. intros c. destruct (ask_effect m pg) as [Hc _]. cbn in Hc. rewrite Hc. apply Hi.
Qed.

(** Leaving a field that shows its quantity changes nothing on it. *)
Lemma commit_shown v : in_range v → Purchase.commit MIN MAX v (int_text v) = (int_text v, None).
Proof.
  intros (z & -> & Hz). rewrite int_text_jint. destruct (string_of_int_digits z ltac:(lia)) as (Hd & Hn & Hv).
  unfold Purchase.commit. destruct (Purchase.clamp_digits 99 (string_of_int z) ltac:(lia) Hd Hn) as [Hcl ->].
  change MIN with Purchase.MIN. unfold MAX. rewrite Hcl, Hv. replace (Z.max 1 (Z.min 99 z)) with z by lia.
  rewrite int_text_jint. assert (neqb (jint z) (jint z) = true) as -> by (unfold neqb, jint; by apply Qeq_bool_iff). done.
Qed.

Lemma step_shows sku pg e pg' :
  Inv pg → good e → (∀ t, e ≠ Typed sku t) → step pg e = Some pg' → shows_quantity sku pg → shows_quantity sku pg'.
Proof.
  intros Hi Hg He Hs Hsh. destruct e as [s t|s|s|s|s|code|i r]; cbn [step] in Hs;
    try (destruct (field_of s (fields pg)) as [f|] eqn:E; cbn [mbind option_bind] in Hs; [|done]).
  - destruct (loading _); [done|]. injection Hs as <-. intros g Hf. rewrite field_of_other in Hf by (intros ->; by apply (He t)). by apply Hsh.
  - destruct (field_of_in _ _ _ E) as [Hin _]. pose proof (inv_values pg Hi) as Hv. rewrite Forall_forall in Hv.
    pose proof (drafts_digits pg Hi) as Hdd. rewrite Forall_forall in Hdd.
    destruct (commit_field f (Hv f Hin) (Hdd f Hin)) as (d & q & Hcm & Hd & _).
    assert (shows_quantity sku (set_draft s d pg)) as Hset.
    { destruct (decide (sku = s)) as [<-|Hne]; [|intros g Hf; rewrite field_of_other in Hf by done; by apply Hsh].
      intros g Hf. rewrite (field_of_set_draft _ _ _ _ E) in Hf. injection Hf as <-. cbn [f_draft f_value].
      rewrite (Hsh f E), commit_shown in Hcm by (by apply Hv). by injection Hcm as <- _. }
    rewrite Hcm in Hs. injection Hs as <-. destruct q; [|done]. apply shows_ask; [by apply inv_set_draft|done].
  - destruct (_ || _); [done|]. injection Hs as <-. by apply shows_ask.
  - destruct (_ || _); [done|]. injection Hs as <-. by apply shows_ask.
  - destruct (loading _); [done|]. injection Hs as <-. by apply shows_ask.
  - destruct (rendered pg) as [| |[] rs sm]; [done..|]. destruct (s_coupons sm); [|done]. injection Hs as <-. by apply shows_ask.
  - destruct (Basket.step (provider_ pg) (Basket.Reply i r)) as [p|] eqn:Hp; [|done]. injection Hs as <-.
    destruct (reply_effect _ _ _ _ Hp) as [Hc _]. apply shows_render; [|done|done].
    intros c Ec. destruct Hc as [Hc|[Hc|(w & -> & Hc)]]; rewrite Hc in Ec; [by apply (basket_valid pg Hi)|done|].
    injection Ec as <-. exact Hg.
Qed.

Lemma steps_show sku es : ∀ pg pg', Inv pg → Forall good es → (∀ t, Typed sku t ∉ es) → steps pg es = Some pg' →
  shows_quantity sku pg → shows_quantity sku pg'.
Proof.
  induction es as [|e es IH]; intros pg pg' Hi Hg Ht Hs Hsh; cbn in Hs; [by injection Hs as <-|].
  apply Forall_cons in Hg as [Hge Hg]. destruct (step pg e) as [pg1|] eqn:E; [|done].
  apply (IH pg1); [by eapply inv_page_step|done| |done|].
  - intros t Hin. apply (Ht t). by right.
  - eapply step_shows; [exact Hi|exact Hge| |exact E|exact Hsh]. intros t ->. apply (Ht t). by left.
Qed.

Lemma mounted_shows sku c : shows_quantity sku (mounted c).
Proof. by intros f (l & _ & _ & ->)%field_of_rows. Qed.

(** C39. Whatever is typed, committed and pressed on the page of the basket, in
    every run in which the answers that bring a basket satisfy the contract:
    every change of a line is a body the contract of the route accepts; there is
    a stepper for each line, in their order, and the number in the stepper of a
    SKU is the quantity of its line unless something was typed into it (what is
    typed and refused stays, [refused_quantity_stays]); and nothing but the
    remove button asks for a quantity of zero. *)
Theorem basket_page_asks_validly c es pg :
  (∀ v, c = Some v → accepts Api.Cart v) → Forall good es → steps (mounted c) es = Some pg →
  Forall asks_properly (sent (provider_ pg)) ∧
  map f_sku (fields pg) = map sku_of (lines (provider_ pg)) ∧
  (∀ sku f, field_of sku (fields pg) = Some f → (∀ t, Typed sku t ∉ es) →
     ∃ line, line ∈ lines (provider_ pg) ∧ sku_of line = sku ∧ f_draft f = int_text (quantity_of line)) ∧
  ∀ e pg' call, good e → step pg e = Some pg' → sent (provider_ pg') = sent (provider_ pg) ++ [call] → zero_of call →
    ∃ sku, e = Remove sku.
Proof.
  intros Hc Hg Hs. pose proof (inv_page_steps es _ pg (inv_mounted_page c Hc) Hg Hs) as Hi.
  pose proof (rows_current pg Hi) as Hrows. split; [apply Hi|]. split; [|split].
  - pose proof (f_equal (map fst) Hrows) as H1. by rewrite !map_map in H1.
  - intros sku f Hf Ht. pose proof (steps_show sku es _ _ (inv_mounted_page c Hc) Hg Ht Hs (mounted_shows sku c)) as Hsh.
    rewrite (Hsh f Hf). apply field_of_in in Hf as [Hin <-].
    assert ((f_sku f, f_value f) ∈ map (λ f, (f_sku f, f_value f)) (fields pg)) as Hfv by (apply list_elem_of_fmap; by exists f).
    rewrite Hrows in Hfv. apply list_elem_of_fmap in Hfv as (l & [= -> ->] & Hl). by exists l.
  - intros e pg' call He Hst Hsent Hz. pose proof (step_asks pg e pg' Hi Hst) as Ha.
    destruct (wanted pg e) as [m|] eqn:Hw.
    + destruct Ha as (Hm & pg0 & H0 & Hp & ->). destruct (ask_effect m pg0) as [_ E]. rewrite Hsent, Hp in E.
      apply app_inv_head in E. destruct (run _ _ _) as [x|] eqn:Hr; [|done]. injection E as <-. rewrite <- Hp in Hr.
      destruct (run_proper pg0 m call H0 Hm Hr) as [_ Hrem]. destruct (Hrem Hz) as [sku ->]. by eapply wanted_remove.
    + destruct Ha as [_ Hr]; [done|]. rewrite (Hr call Hsent) in Hz. by unfold zero_of in Hz.
Qed.

(** ** A change that is refused *)

Lemma field_of_render sku fs f ls : in_range (f_value f) → field_of sku fs = Some f →
  ∀ gs, map (λ f, (f_sku f, f_value f)) gs = map (λ l, (sku_of l, quantity_of l)) ls → field_of sku gs = Some f →
  field_of sku (map (synced fs) ls) = Some f.
Proof.
  intros (z & Hz & _) Hf. induction ls as [|l ls IH]; intros [|g gs] E Hg; try done. injection E as Es Ev E. cbn in *.
  assert (f_sku (synced fs l) = sku_of l) as Hk by (unfold synced; destruct (field_of (sku_of l) fs) as [h|]; [|done]; by destruct (neqb (quantity_of l) (f_value h))).
  rewrite Hk, <- Es. destruct (decide (f_sku g = sku)) as [Hd|]; [|by apply (IH gs)]. injection Hg as ->.
  unfold synced. rewrite <- Es, Hd, Hf, <- Ev. assert (neqb (f_value f) (f_value f) = true) as -> by (rewrite Hz; cbn; by apply Qeq_bool_iff).
  f_equal. destruct f; cbn in *. by subst.
Qed.

(** A change that is made and refused leaves the provider as it was. *)
Lemma refused_provider p m c e : pending p = [] → run m "" (version p) = Ok c → code e ≠ "CART_STALE" →
  fresh (mutate m "" p) = S (fresh p) ∧
  ∃ p', Basket.step (mutate m "" p) (Basket.Reply (fresh p) (Err (Api e))) = Some p' ∧ cart p' = cart p ∧ pending p' = [] ∧
    loading p' = false ∧ sent p' = sent p ++ [c].
Proof.
  intros Hp Hc He. unfold mutate. rewrite Hc. split; [done|]. cbn -[decide filter]. rewrite Hp. cbn [app task_of].
  rewrite decide_True by done. cbn -[decide filter]. unfold mutated. rewrite decide_False by done. eexists. split; [reflexivity|].
  unfold finish. cbn -[filter]. rewrite decide_True by done. cbn -[filter]. rewrite Hp. cbn [app]. rewrite filter_cons, decide_False by (by intros []).
  done.
Qed.

(** A field keeps its draft through a render of the same basket. *)
Lemma field_rendered pg p sku f : Inv pg → cart p = cart (provider_ pg) → field_of sku (fields pg) = Some f →
  field_of sku (fields (render p (fields pg))) = Some f.
Proof.
  intros Hi Hc Hf. cbn. unfold lines. rewrite Hc. eapply field_of_render; [|exact Hf|apply (rows_current pg Hi)|exact Hf].
  apply field_of_in in Hf as [Hf _]. pose proof (inv_values pg Hi) as Hv. rewrite Forall_forall in Hv. by apply Hv.
Qed.

(** A quantity that is refused stays on the screen: after a change that the
    server refused, for another reason than a stale basket, the basket is the
    one there was and nothing is under way, but the field shows the quantity
    that was refused, beside the total of the one that stands; and leaving the
    field again sends the same request again. *)
Theorem refused_quantity_stays c es pg f sku d e :
  (∀ v, c = Some v → accepts Api.Cart v) → Forall good es → steps (mounted c) es = Some pg →
  pending (provider_ pg) = [] → loading (provider_ pg) = false → field_of sku (fields pg) = Some f →
  is_ok (encodeURIComponent sku) = true → all_digits d → 1 ≤ digits_value d ≤ 99 → jint (digits_value d) ≠ f_value f →
  code e ≠ "CART_STALE" →
  ∃ pg' call pg'', steps pg [Typed sku d; Commit sku; Reply (fresh (provider_ pg)) (Err (Api e))] = Some pg' ∧
    cart (provider_ pg') = cart (provider_ pg) ∧ pending (provider_ pg') = [] ∧ loading (provider_ pg') = false ∧
    field_of sku (fields pg') = Some {| f_sku := sku; f_value := f_value f; f_draft := int_text (jint (digits_value d)) |} ∧
    sent (provider_ pg') = sent (provider_ pg) ++ [call] ∧
    step pg' (Commit sku) = Some pg'' ∧ sent (provider_ pg'') = sent (provider_ pg') ++ [call].
Proof.
  intros Hc Hg Hs Hp Hl Hf Hk Hd Hr Hne Hst. pose proof (inv_page_steps es _ pg (inv_mounted_page c Hc) Hg Hs) as Hi.
  set (z := digits_value d) in *. assert (in_range (f_value f)) as (v & Hv & Hvr).
  { apply field_of_in in Hf as [Hf _]. pose proof (inv_values pg Hi) as H0. rewrite Forall_forall in H0. by apply H0. }
  assert (∀ t, all_digits t → digits_value t = z → Purchase.commit MIN MAX (f_value f) t = (int_text (jint z), Some (jint z))) as Hcm.
  { intros t Ht Et. unfold Purchase.commit. destruct (Purchase.clamp_digits 99 t ltac:(lia) Ht ltac:(by intros ->; cbn in Et; lia)) as [Hcl ->].
    change MIN with Purchase.MIN. unfold MAX. rewrite Hcl, Et. replace (Z.max 1 (Z.min 99 z)) with z by lia.
    assert (neqb (jint z) (f_value f) = false) as ->; [|done]. rewrite Hv in Hne |- *. apply not_true_is_false. unfold neqb, jint. rewrite Qeq_bool_iff, inject_Z_injective.
    intros E. apply Hne. by rewrite E. }
  assert (digits_value (int_text (jint z)) = z ∧ all_digits (int_text (jint z))) as [Ez Az].
  { rewrite int_text_jint. destruct (string_of_int_digits z ltac:(lia)) as (? & _ & ?). by split. }
  destruct (encodeURIComponent sku) as [k|] eqn:Ek; [|done].
  assert (run (SetQuantity sku (jint z)) "" (version (provider_ pg)) = patch_line sku (jint z) (version (provider_ pg))) as Hrun by done.
  unfold patch_line in Hrun. rewrite Ek in Hrun. destruct (refused_provider _ _ _ e Hp Hrun Hst) as (_ & p' & Hrep & Hcart & Hpend & Hload & Hsent).
  set (shown := set_draft sku (int_text (jint z)) (set_draft sku d pg)).
  assert (Inv shown) as Hsh by (apply inv_set_draft; [done|by apply inv_set_draft]).
  pose proof (field_of_set_draft sku d pg f Hf) as Hf1. pose proof (field_of_set_draft sku (int_text (jint z)) _ _ Hf1) as Hf2.
  cbn [f_value] in Hf2. fold shown in Hf2.
  pose proof (inv_ask shown (SetQuantity sku (jint z)) Hsh ltac:(by exists z)) as Hask.
  pose proof (field_rendered shown (mutate (SetQuantity sku (jint z)) "" (provider_ pg)) sku _ Hsh (proj1 (ask_effect _ shown)) Hf2) as Hf3.
  pose proof (field_rendered _ p' sku _ Hask ltac:(by rewrite (proj1 (ask_effect _ shown)), Hcart) Hf3) as Hf4.
  eexists (render p' _), _, _. split; [|split; [exact Hcart|split; [exact Hpend|split; [exact Hload|split; [exact Hf4|split; [exact Hsent|]]]]]].
  - cbn [steps step]. rewrite Hf, Hl. cbn [mbind option_bind]. replace (Purchase.only_digits d) with d; [|].
    + rewrite Hf1. cbn [mbind option_bind f_value f_draft]. rewrite (Hcm d) by done. cbn [mbind option_bind].
      change (provider_ (ask _ _)) with (mutate (SetQuantity sku (jint z)) "" (provider_ pg)). rewrite Hrep. reflexivity.
    + symmetry. unfold Purchase.only_digits. clear -Hd. induction Hd as [|x d Hx Hd IH]; [done|]. by rewrite filter_cons, decide_True, IH.
  - cbn [step]. rewrite Hf4. cbn [mbind option_bind f_value f_draft]. rewrite (Hcm _ Az Ez). split; [reflexivity|].
    rewrite (proj2 (ask_effect _ _)). cbn [set_draft provider_ render]. unfold version. rewrite Hcart. fold (version (provider_ pg)). by rewrite Hrun.
Qed.
End Contract.

(** ** A basket that is not known *)

Definition brings_nothing (e : event) : Prop := match e with Reply _ (Ok _) => False | _ => True end.

(** The page says the basket is empty when it does not know it: from the
    first render, while the basket is being fetched, and after that failed,
    however it failed; the skeleton is never shown. *)
Theorem unknown_basket_is_called_empty es pg :
  Forall brings_nothing es → steps (mounted None) es = Some pg →
  pending (provider_ (mounted None)) ≠ [] ∧ cart (provider_ pg) = None ∧ rendered pg = EmptyCart.
Proof.
  intros He Hs. split; [done|].
  assert (fields (mounted None) = [] ∧ cart (provider_ (mounted None)) = None ∧ loading (provider_ (mounted None)) = false ∧
    Forall (λ t, t.2 = Refreshing) (pending (provider_ (mounted None)))) as H0 by (repeat split; repeat constructor).
  revert Hs H0. generalize (mounted None). induction He as [|e es He _ IH]; intros q Hs (Hf & Hc & Hl & Hp); cbn in Hs.
  - injection Hs as <-. split; [done|]. unfold rendered. by rewrite Hc, Hl.
  - destruct (step q e) as [q'|] eqn:E; [|done]. apply (IH q' Hs). destruct e as [?|?|?|?|?|code|i r]; cbn in E; rewrite ?Hf in E; try done.
    + unfold rendered in E. by rewrite Hc, Hl in E.
    + destruct (task_of i (pending (provider_ q))) as [t|] eqn:Ht; [|done]. injection E as <-.
      assert (t = Refreshing) as ->.
      { clear -Ht Hp. induction Hp as [|[j u] l Hu _ IH]; cbn in Ht; [done|]. destruct (decide (j = i)); [by injection Ht as <-|by apply IH]. }
      assert (Forall (λ t, t.2 = Refreshing) (pending (drop i (provider_ q)))) as Hd.
      { apply Forall_forall. intros x Hx. apply list_elem_of_filter in Hx as [_ Hx]. rewrite Forall_forall in Hp. by apply Hp. }
      cbn [resume refreshed render provider_ fields]. destruct r as [v|[e| | |]]; [done|..]; cbn [refreshed];
        try destruct (status e =? 404); unfold lines; cbn; rewrite ?Hc, ?Hl; by repeat split.
Qed.

(** ** Instances *)

Definition mug : jstr := "sku_01ARZ3NDEKTSV4RRFFQ69G5FAV".
Definition pounds (n : Z) : jsval := VObj [("amount", vint n); ("currency", VStr "EGP")].
Definition two_mugs : jsval := VObj [
  ("id", VStr "crt_01ARZ3NDEKTSV4RRFFQ69G5FAV"); ("userId", VNull);
  ("lines", VArr [VObj [("sku", VStr mug); ("productId", VStr "prd_01ARZ3NDEKTSV4RRFFQ69G5FAV"); ("title", VStr "Mug");
     ("image", VNull); ("quantity", vint 2); ("unitPrice", pounds 100); ("lineTotal", pounds 200); ("priceChanged", VBool false)]]);
  ("subtotal", pounds 200); ("discountTotal", pounds 0); ("shippingTotal", pounds 0); ("taxTotal", pounds 0); ("total", pounds 200);
  ("appliedCoupons", VArr []); ("rejectedCoupons", VArr []); ("currency", VStr "EGP"); ("pricingDegraded", VBool true);
  ("rulesVersion", VNull); ("version", vint 3); ("expiresAt", VStr "2024-06-01T00:00:00.000Z"); ("updatedAt", VStr "2024-05-01T00:00:00.000Z")].

Lemma two_mugs_valid : accepts (H:=plain_zod) Api.Cart two_mugs.
Proof. vm_compute. reflexivity. Qed.

(** While prices are degraded the summary has no coupons and calls delivery free. *)
Example a_degraded_summary : summary_of two_mugs = {|
  s_degraded := true; s_rows := [("Subtotal" : jstr, Amount (money_of (pounds 200))); ("Delivery" : jstr, Free)];
  s_total := money_of (pounds 200); s_coupons := false |}.
Proof. vm_compute. reflexivity. Qed.

Definition too_many : list event := [Typed mug "5oo0"; Commit mug; Reply 0 (Ok two_mugs); Minus mug].

Lemma basket_page_asks_validly_witness :
  ∃ pg, steps (mounted (Some two_mugs)) too_many = Some pg ∧ length (sent (provider_ pg)) = 2%nat ∧
    Forall (asks_properly (H:=plain_zod)) (sent (provider_ pg)).
Proof.
  assert ((λ pg, length (sent (provider_ pg))) <$> steps (mounted (Some two_mugs)) too_many = Some 2%nat) as E by (vm_compute; reflexivity).
  destruct (steps _ _) as [pg|] eqn:Hs; [|discriminate E]. apply (inj Some) in E. exists pg. split; [done|]. split; [done|].
  apply (basket_page_asks_validly (H:=plain_zod) (Some two_mugs) too_many pg); [by intros v [= <-]; apply two_mugs_valid| |done].
  by repeat constructor.
Defined.

Definition refused_with : ApiError := api_error 503 "UPSTREAM_UNAVAILABLE" "req-1" "".

Lemma refused_quantity_stays_witness :
  ∃ pg' call pg'', steps (mounted (Some two_mugs)) [Typed mug "5"; Commit mug; Reply 0 (Err (Api refused_with))] = Some pg' ∧
    field_of mug (fields pg') = Some {| f_sku := mug; f_value := jint 2; f_draft := "5" |} ∧
    step pg' (Commit mug) = Some pg'' ∧ sent (provider_ pg'') = [call; call].
Proof.
  destruct (refused_quantity_stays (H:=plain_zod) (Some two_mugs) [] (mounted (Some two_mugs))
    {| f_sku := mug; f_value := jint 2; f_draft := "2" |} mug "5" refused_with) as (pg' & call & pg'' & Hs & _ & _ & _ & Hf & Hc & Hst & Hd);
    [by intros v [= <-]; apply two_mugs_valid|constructor|reflexivity..| |vm_compute; split; discriminate|discriminate|discriminate|].
  - by repeat constructor.
  - exists pg', call, pg''. split; [exact Hs|]. split; [exact Hf|]. split; [exact Hst|]. rewrite Hd, Hc. reflexivity.
Defined.

Lemma unknown_basket_is_called_empty_witness :
  ∃ pg, steps (mounted None) [Reply 0 (Err (Api refused_with))] = Some pg ∧ rendered pg = EmptyCart.
Proof.
  eexists. split; [reflexivity|].
  apply (unknown_basket_is_called_empty [Reply 0 (Err (Api refused_with))]); [by repeat constructor|reflexivity].
Defined.
End BasketPageFacts.
