(* ===== verification/Listing.v ===== *)
(** * storefront: the product listing (app/search/page.tsx,
      components/catalog/facets.tsx, components/catalog/sort-select.tsx,
      components/catalog/pagination.tsx, toQuery of lib/utils.ts)

    Every filter is in the URL.  The controls turn the parameters of the URL
    into those of another; the page turns them into a request to search-service.
    A record of parameters lists its entries; keys that are array indexes, which
    a JavaScript object would list first, and [__proto__] are left aside.

    [ListingFacts] says what is asked for and where the links lead. *)
From Stdlib Require Import QArith.
From S2P Require Import Prelude JsNumber JsString JsDecimal UrlParams Zod Schemas Api Prog Bff.
From S2P Require Import ProductPage.
Local Open Scope js_scope.
Local Open Scope Z_scope.

Module Listing.

(** ** Query strings *)

Inductive qvalue := Missing | Text (s : jstr) | Number (n : num) | Many (l : list jstr).

(** One entry of [toQuery]; [String] of a number is that of an integer. *)
Definition put (search : params) (e : jstr * qvalue) : params :=
  match e.2 with
  | Missing => search
  | Many l => foldl (λ s x, if decide (x = []) then s else append e.1 x s) search l
  | Text s => if decide (s = []) then search else set_param e.1 s search
  | Number n => set_param e.1 (int_text n) search
  end.
Definition toQuery (entries : list (jstr * qvalue)) : jstr :=
  match written (foldl put [] entries) with [] => [] | query => "?" ++ query end.

(** ** The page *)

Definition RESERVED_PARAMS : list jstr := ["q"; "page"; "size"; "sort"; "category"; "priceMin"; "priceMax"; "inStockOnly"].

(** [string | string[]] *)
Inductive pvalue := Single (s : jstr) | Several (l : list jstr).
Abbreviation SearchParams := (list (jstr * pvalue)).

Fixpoint param (k : jstr) (ps : SearchParams) : option pvalue :=
  match ps with [] => None | (k', v) :: r => if decide (k' = k) then Some v else param k r end.

(** [typeof params.k === 'string' ? params.k : undefined] *)
Definition single (k : jstr) (ps : SearchParams) : option jstr :=
  match param k ps with Some (Single s) => Some s | _ => None end.

Definition page_number (ps : SearchParams) : num :=
  let text := match param "page" ps with Some (Single s) => s | Some (Several l) => join "," l | None => "1" end in
  let n := parseInt text in
  math_max (jint 1) (if is_nan n || neqb n (jint 0) then jint 1 else n).

Definition PAGE_SIZE : num := jint 24.

Definition filters (ps : SearchParams) : list (jstr * qvalue) :=
  omap (λ e, if decide (e.1 ∈ RESERVED_PARAMS) then None
             else Some (e.1, Many (match e.2 with Several l => l | Single s => [s] end))) ps.

Definition text_or_missing (o : option jstr) : qvalue := match o with Some s => Text s | None => Missing end.

Definition search_entries (ps : SearchParams) : list (jstr * qvalue) :=
  [("q", Text (default [] (single "q" ps))); ("sort", Text (default ("relevance" : jstr) (single "sort" ps)));
   ("page", Number (page_number ps)); ("size", Number PAGE_SIZE); ("category", text_or_missing (single "category" ps));
   ("inStockOnly", if decide (single "inStockOnly" ps = Some ("true" : jstr)) then Text "true" else Missing);
   ("priceMin", text_or_missing (single "priceMin" ps)); ("priceMax", text_or_missing (single "priceMax" ps))]
  ++ filters ps.

Definition search_path (ps : SearchParams) : jstr := "/v1/search" ++ toQuery (search_entries ps).

Definition Results `{Zod} (env : jstr → option jstr) (ps : SearchParams) : Bff.prog jsval :=
  Bff.call env {| Bff.service := Bff.search; Bff.path := search_path ps; Bff.schema := Api.SearchResponse; Bff.opt_method := None;
    Bff.body := VUndef; Bff.idempotencyKey := None; Bff.accessToken := None; Bff.revalidate := VUndef; Bff.tags := None;
    Bff.attempts := None |}.

(** [robots.index] *)
Definition indexable (ps : SearchParams) : bool :=
  negb (existsb (λ e, bool_decide (e.1 ∉ RESERVED_PARAMS) || bool_decide (e.1 = "page")) ps).

Definition page_title (ps : SearchParams) : jstr :=
  let q := default [] (single "q" ps) in
  let category := default [] (single "category" ps) in
  if truthy_str q then [34%N] ++ q ++ [34%N]
  else if truthy_str category then replace_all 45 " " category else "All products".

(** ** The controls *)

(** [new URLSearchParams(searchParams.toString())] *)
Definition copied (l : params) : params := read (written l).

Definition toggle (field value : jstr) (next : bool) (l : params) : params :=
  let ps := copied l in
  let current := getAll field ps in
  let ps := delete_param field ps in
  let updated := if next then current ++ [value] else filter (λ v, v ≠ value) current in
  delete_param "page" (foldl (λ s v, append field v s) ps updated).

Definition clearAll (l : params) : params :=
  match get_param "q" l with
  | Some q => if truthy_str q then set_param "q" q [] else []
  | None => []
  end.

(** [remove] of [ActiveFilters]. *)
Definition remove_filter (field value : jstr) (l : params) : params :=
  let ps := copied l in
  let remaining := filter (λ v, v ≠ value) (getAll field ps) in
  delete_param "page" (foldl (λ s v, append field v s) (delete_param field ps) remaining).

Definition sorted_by (next : jstr) (l : params) : params := delete_param "page" (set_param "sort" next (copied l)).

(** The URL a control replaces the present one with. *)
Definition href (pathname : jstr) (l : params) : jstr := pathname ++ "?" ++ written l.

(** A facet of the response, as far as the controls look at it. *)
Record facet_value := { f_value : jstr; f_count : num; f_selected : bool }.
Record facet := { field : jstr; f_label : jstr; f_type : jstr; f_values : list facet_value }.

(** The checkboxes shown, and what a click on one makes of the URL. *)
Definition boxes (f : facet) : list facet_value := filter (λ v, negb (neqb (f_count v) (jint 0) && negb (f_selected v)) = true) (f_values f).
Definition clicked (f : facet) (v : facet_value) (l : params) : params := toggle (field f) (f_value v) (negb (f_selected v)) l.
Definition activeCount (fs : list facet) : nat := foldl (λ n f, (n + length (filter (λ v, f_selected v = true) (f_values f)))%nat) O fs.
Definition defaultOpen (fs : list facet) : list jstr :=
  match map field (filter (λ f, existsb f_selected (f_values f) = true) fs) with [] => map field (take 3 fs) | l => l end.
(** The badges of [ActiveFilters]: field, label and value. *)
Definition active (fs : list facet) : list (jstr * jstr * jstr) :=
  fs ≫= λ f, map (λ v, (field f, f_label f, f_value v)) (filter (λ v, f_selected v = true) (f_values f)).

(** ** Pages *)

Definition MAX_RESULT_WINDOW : num := jint 10000.

Definition lastPage (size total : num) : num :=
  math_max (jint 1) (nceil (ndiv (math_min total MAX_RESULT_WINDOW) size)).

Definition page_href (pathname : jstr) (l : params) (target : num) : jstr :=
  let ps := if nle target (jint 1) then delete_param "page" (copied l) else set_param "page" (int_text target) (copied l) in
  match written ps with [] => pathname | query => pathname ++ "?" ++ query end.

(** The links, when there is more than one page: the targets of previous and
    next, and the text between them. *)
Definition Pagination (page size total : num) (totalIsLowerBound : bool) : option (option num * jstr * option num) :=
  let last := lastPage size total in
  if nle last (jint 1) then None
  else Some (if nle page (jint 1) then None else Some (nsub page (jint 1)),
             "Page " ++ int_text page ++ " of " ++ int_text last ++
               (if totalIsLowerBound && neqb last (nceil (ndiv MAX_RESULT_WINDOW size)) then "+" else ""),
             if nle last page then None else Some (nadd page (jint 1))).
End Listing.

(** * storefront: what the listing asks for

    The filters of the URL reach search-service as they are, but for categories
    and the pages beyond the hundredth. *)

Module ListingFacts.
Import Listing.

(** ** Parameters *)

Lemma getAll_app k l l' : getAll k (l ++ l') = getAll k l ++ getAll k l'.
Proof. unfold getAll. by rewrite filter_app, map_app. Qed.

Lemma getAll_cons k e l : getAll k (e :: l) = if decide (e.1 = k) then e.2 :: getAll k l else getAll k l.
Proof. unfold getAll. rewrite filter_cons. by destruct (decide _). Qed.

Lemma getAll_append k k' v l : getAll k (append k' v l) = getAll k l ++ if decide (k' = k) then [v] else [].
Proof. unfold append. by rewrite getAll_app, getAll_cons. Qed.

Lemma getAll_delete k k' l : getAll k (delete_param k' l) = if decide (k' = k) then [] else getAll k l.
Proof.
  unfold delete_param. induction l as [|e l IH]; [by destruct (decide _)|]. rewrite filter_cons.
  destruct (decide (e.1 ≠ k')) as [He|He]; rewrite !getAll_cons; destruct (decide (e.1 = k)) as [Hk|Hk], (decide (k' = k)) as [Hk'|Hk'];
    rewrite ?IH; try done; exfalso; apply He; congruence.
Qed.

Lemma getAll_set k k' v l : getAll k (set_param k' v l) = if decide (k' = k) then [v] else getAll k l.
Proof.
  induction l as [|e l IH]; cbn [set_param]; [rewrite getAll_cons; by destruct (decide _)|].
  destruct (decide (e.1 = k')) as [He|He]; rewrite !getAll_cons; cbn [fst snd].
  - rewrite getAll_delete, He. by destruct (decide (k' = k)).
  - rewrite IH. destruct (decide (e.1 = k)) as [Hk|Hk], (decide (k' = k)) as [Hk'|Hk']; try done. congruence.
Qed.

Lemma getAll_appends k k' vs l : getAll k (foldl (λ s v, append k' v s) l vs) = getAll k l ++ if decide (k' = k) then vs else [].
Proof.
  revert l. induction vs as [|v vs IH]; intros l; cbn [foldl]; [destruct (decide _); by rewrite app_nil_r|].
  rewrite IH, getAll_append, <- app_assoc. by destruct (decide _).
Qed.

Lemma getAll_elem k v l : v ∈ getAll k l ↔ (k, v) ∈ l.
Proof.
  unfold getAll. rewrite list_elem_of_fmap. split.
  - intros ([k' v'] & -> & Hi). apply list_elem_of_filter in Hi as [Hk Hi]. cbn in *. by subst.
  - intros Hi. exists (k, v). split; [done|]. by apply list_elem_of_filter.
Qed.

Lemma Forall_filtered {A} (P F : A → Prop) `{∀ x, Decision (F x)} l : Forall P l → Forall P (filter F l).
Proof. rewrite !Forall_forall. intros Hl x Hx. apply list_elem_of_filter in Hx as [_ Hx]. by apply Hl. Qed.

Lemma sound_delete k l : sound l → sound (delete_param k l).
Proof. intros Hl. by apply Forall_filtered. Qed.

Lemma sound_append k v l : sound l → well_formed k → well_formed v → sound (append k v l).
Proof. intros Hl Hk Hv. apply Forall_app. split; [done|]. by repeat constructor. Qed.

Lemma sound_set k v l : sound l → well_formed k → well_formed v → sound (set_param k v l).
Proof.
  intros Hl Hk Hv. induction Hl as [|e l He Hl IH]; cbn; [by repeat constructor|]. destruct (decide _); constructor; try done.
  by apply sound_delete.
Qed.

Lemma sound_appends k vs l : sound l → well_formed k → Forall well_formed vs → sound (foldl (λ s v, append k v s) l vs).
Proof. intros Hl Hk Hv. revert l Hl. induction Hv as [|v vs Hv Hvs IH]; intros l Hl; [done|]. apply IH. by apply sound_append. Qed.

Lemma sound_value k l : sound l → Forall well_formed (getAll k l).
Proof.
  intros Hl. apply Forall_forall. intros v Hv. apply getAll_elem in Hv. unfold sound in Hl. rewrite Forall_forall in Hl. by apply (Hl (k, v)).
Qed.

(** ** Controls *)

Definition updated (field value : jstr) (next : bool) (l : params) : list jstr :=
  if next then getAll field l ++ [value] else filter (λ v, v ≠ value) (getAll field l).

Lemma toggle_values k field value next l : sound l →
  getAll k (toggle field value next l) =
    if decide ("page" = k) then [] else if decide (field = k) then updated field value next l else getAll k l.
Proof.
  intros Hl. unfold toggle, copied. rewrite read_written, getAll_delete, getAll_appends, getAll_delete by done.
  unfold updated. by repeat case_decide; rewrite ?app_nil_r.
Qed.

Lemma updated_sound field value next l : sound l → well_formed value → Forall well_formed (updated field value next l).
Proof.
  intros Hl Hv. unfold updated. pose proof (sound_value field l Hl). destruct next; [|by apply Forall_filtered].
  apply Forall_app. split; [done|]. by repeat constructor.
Qed.

Lemma toggle_sound field value next l : sound l → well_formed field → well_formed value → sound (toggle field value next l).
Proof.
  intros Hl Hf Hv. unfold toggle, copied. rewrite read_written by done. apply sound_delete, sound_appends; [by apply sound_delete|done|].
  by apply updated_sound.
Qed.

(** ** The request *)

(** [ps] is what the page is given for the URL parameters [l]: a text for a
    name that occurs once, a list for one that occurs more often. *)
Record reflects (l : params) (ps : SearchParams) : Prop := {
  names_once : NoDup (map fst ps);
  same_values k : match param k ps with
                  | None => getAll k l = []
                  | Some (Single s) => getAll k l = [s]
                  | Some (Several vs) => getAll k l = vs ∧ (2 ≤ length vs)%nat
                  end
}.

Definition values (v : pvalue) : list jstr := match v with Single s => [s] | Several l => l end.

Lemma reflects_values l ps k : reflects l ps → getAll k l = match param k ps with Some v => values v | None => [] end.
Proof. intros Hr. pose proof (same_values l ps Hr k) as H. destruct (param k ps) as [[s|vs]|]; [done|by destruct H|done]. Qed.

(** What one entry adds to a query. *)
Definition written_values (v : qvalue) : list jstr :=
  match v with
  | Missing => []
  | Text s => if decide (s = []) then [] else [s]
  | Number n => [int_text n]
  | Many l => filter (λ x, x ≠ []) l
  end.

Lemma put_many k key vs s :
  getAll k (foldl (λ s x, if decide (x = []) then s else append key x s) s vs) =
    getAll k s ++ if decide (key = k) then filter (λ x, x ≠ []) vs else [].
Proof.
  revert s. induction vs as [|x vs IH]; intros s; cbn [foldl]; [destruct (decide _); by rewrite app_nil_r|].
  rewrite IH, filter_cons. destruct (decide (x = [])) as [Hx|Hx], (decide (x ≠ [])) as [Hx'|Hx']; try done.
  rewrite getAll_append, <- app_assoc. by repeat case_decide.
Qed.

Lemma put_values k s e : getAll e.1 s = [] → getAll k (put s e) = getAll k s ++ if decide (e.1 = k) then written_values e.2 else [].
Proof.
  intros Hs. destruct e as [key v]. cbn [fst snd] in *. unfold put. cbn [fst snd].
  assert (∀ t, getAll k (set_param key t s) = getAll k s ++ if decide (key = k) then [t] else []) as Hset.
  { intros t. rewrite getAll_set. destruct (decide (key = k)) as [->|]; [by rewrite Hs|by rewrite app_nil_r]. }
  destruct v as [|t|n|vs]; cbn [written_values].
  - destruct (decide _); by rewrite app_nil_r.
  - destruct (decide (t = [])); [destruct (decide (key = k)); by rewrite app_nil_r|]. apply Hset.
  - apply Hset.
  - apply put_many.
Qed.

Lemma query_values k es : NoDup (map fst es) → ∀ s, (∀ e, e ∈ es → getAll e.1 s = []) →
  getAll k (foldl put s es) = getAll k s ++ (es ≫= λ e, if decide (e.1 = k) then written_values e.2 else []).
Proof.
  induction es as [|e es IH]; intros Hn s Hs; cbn [foldl mbind list_bind]; [by rewrite app_nil_r|]. cbn in Hn. apply NoDup_cons in Hn as [He Hn].
  rewrite IH; [|done|].
  - rewrite put_values by (apply Hs; by left). by rewrite <- app_assoc.
  - intros e' He'. rewrite put_values by (apply Hs; by left). rewrite Hs by (by right). rewrite decide_False; [done|].
    intros Hk. apply He. rewrite Hk. by apply list_elem_of_fmap_2.
Qed.

Lemma bind_absent {B} k (es : list (jstr * B)) (f : B → list jstr) : k ∉ map fst es →
  (es ≫= λ e, if decide (e.1 = k) then f e.2 else []) = [].
Proof.
  induction es as [|[k0 v0] es IH]; intros Hk; [done|]. cbn in *. apply not_elem_of_cons in Hk as [Hk Hks].
  rewrite decide_False by congruence. by apply IH.
Qed.
(** The values an entry with a name has, in a list with each name once. *)
Lemma bind_key {B} k (es : list (jstr * B)) (f : B → list jstr) (v : B) : NoDup (map fst es) → (k, v) ∈ es →
  (es ≫= λ e, if decide (e.1 = k) then f e.2 else []) = f v.
Proof.
  intros Hn Hi. induction es as [|[k' v'] es IH]; [by apply not_elem_of_nil in Hi|]. cbn [mbind list_bind fst snd]. cbn in Hn.
  apply NoDup_cons in Hn as [Hk Hn].
  apply elem_of_cons in Hi as [He|Hi]; [injection He as -> ->; rewrite decide_True, bind_absent by done; by rewrite app_nil_r|].
  assert (k' ≠ k) by (intros ->; apply Hk; change k with (k, v).1; by apply list_elem_of_fmap_2).
  rewrite decide_False by done. by apply IH.
Qed.

Lemma param_elem k v ps : NoDup (map fst ps) → (k, v) ∈ ps ↔ param k ps = Some v.
Proof.
  induction ps as [|[k' v'] ps IH]; cbn [map fst param]; intros Hn; [split; [by intros H%not_elem_of_nil|done]|].
  apply NoDup_cons in Hn as [Hk Hn]. rewrite elem_of_cons. destruct (decide (k' = k)) as [->|Hne].
  - split; [|by intros [= ->]; left]. intros [[= ->]|Hi]; [done|]. exfalso. apply Hk. change k with (k, v).1. by apply list_elem_of_fmap_2.
  - rewrite <- IH by done. split; [intros [[= -> ->]|?]; done|by right].
Qed.

Lemma ascii_well_formed s : Forall (λ c, (c < 128)%N) s → well_formed s.
Proof.
  induction 1 as [|c s Hc Hs IH]; [done|]. cbn. split; [lia|]. destruct (surrogate_range c) as (H1 & H2 & _).
  destruct (is_high_surrogate c); [lia|]. destruct (is_low_surrogate c); [lia|done].
Qed.

Lemma int_text_well_formed n : well_formed (int_text n).
Proof.
  apply ascii_well_formed. destruct n as [| |q]; [constructor..|]. cbn. unfold string_of_int.
  assert (∀ d, Forall (λ c, (c < 128)%N) (uint_to_jstr d)) as Hd.
  { intros d. eapply Forall_impl; [apply uint_to_jstr_digits|]. unfold is_digit. intros c [_ Hc%N.leb_le]%andb_true_iff. lia. }
  destruct (Z.to_int _); [done|]. constructor; [lia|done].
Qed.

Section Request.
Context (l : params) (ps : SearchParams).
Hypothesis Hl : sound l.
Hypothesis Hr : reflects l ps.

Lemma filters_keys : NoDup (map fst (filters ps)) ∧ ∀ k, k ∈ map fst (filters ps) ↔ k ∈ map fst ps ∧ k ∉ RESERVED_PARAMS.
Proof.
  pose proof (names_once l ps Hr) as Hn. clear Hr. induction ps as [|[k v] r IH]; [split; [constructor|]; set_solver|].
  cbn in Hn. apply NoDup_cons in Hn as [Hk Hn]. destruct (IH Hn) as [IHn IHk]. unfold filters. cbn [omap list_omap fst].
  fold (filters r). destruct (decide (k ∈ RESERVED_PARAMS)) as [Hres|Hres]; cbn [map fst].
  - split; [done|]. intros k'. rewrite IHk, elem_of_cons. split; [tauto|]. by intros [[->|?] ?].
  - split; [constructor; [rewrite IHk; tauto|done]|]. intros k'. rewrite !elem_of_cons, IHk. split; [|tauto].
    intros [->|[? ?]]; [split; [by left|done]|tauto].
Qed.

Lemma filters_elem k v : (k, v) ∈ ps → k ∉ RESERVED_PARAMS → (k, Many (values v)) ∈ filters ps.
Proof.
  intros Hi Hk. unfold filters. apply list_elem_of_omap. exists (k, v). split; [done|]. cbn. rewrite decide_False by done. by destruct v.
Qed.

Lemma entries_keys k : k ∈ map fst (search_entries ps) → k ∈ RESERVED_PARAMS ∨ k ∈ map fst (filters ps).
Proof.
  unfold search_entries. rewrite map_app, elem_of_app. intros [Hi|Hi]; [left|by right]. cbn [map fst] in Hi.
  unfold RESERVED_PARAMS. rewrite !elem_of_cons in *. tauto.
Qed.

Lemma entries_once : NoDup (map fst (search_entries ps)).
Proof.
  unfold search_entries. rewrite map_app. destruct filters_keys as [Hn Hk]. apply NoDup_app. split; [|split; [|done]].
  - apply nodup_keys. by vm_compute.
  - intros k Hi Hf. apply Hk in Hf as [_ Hf]. apply Hf. cbn [map fst] in Hi. unfold RESERVED_PARAMS. rewrite !elem_of_cons in *. tauto.
Qed.

Lemma piece_well_formed k v : (k, v) ∈ ps → well_formed k ∧ Forall well_formed (values v).
Proof.
  intros Hi. apply param_elem in Hi; [|apply Hr]. pose proof (reflects_values l ps k Hr) as Hv. rewrite Hi in Hv.
  split; [|rewrite <- Hv; by apply sound_value].
  destruct (values v) as [|x xs] eqn:Hx.
  - pose proof (same_values l ps Hr k) as Hs. rewrite Hi in Hs. destruct v as [s|vs]; [done|]. cbn in Hx. subst vs. cbn in Hs. lia.
  - assert (x ∈ getAll k l) as He by (rewrite Hv; by left). apply getAll_elem in He. unfold sound in Hl. rewrite Forall_forall in Hl.
    by apply (Hl (k, x)).
Qed.

Lemma single_well_formed k s : single k ps = Some s → well_formed s.
Proof.
  unfold single. destruct (param k ps) as [[t|]|] eqn:Hp; try done. intros [= ->]. apply param_elem in Hp; [|apply Hr].
  apply piece_well_formed in Hp as [_ Hs]. by inversion Hs.
Qed.

Definition qsound (v : qvalue) : Prop :=
  match v with Missing | Number _ => True | Text s => well_formed s | Many vs => Forall well_formed vs end.

Lemma put_sound s e : sound s → well_formed e.1 → qsound e.2 → sound (put s e).
Proof.
  intros Hs Hk Hv. destruct e as [k v]. unfold put. cbn in *. destruct v as [|t|n|vs]; [done|..].
  - destruct (decide _); [done|]. by apply sound_set.
  - apply sound_set; [done..|apply int_text_well_formed].
  - revert s Hs. induction Hv as [|x vs Hx Hvs IH]; intros s Hs; cbn; [done|]. apply IH. destruct (decide _); [done|]. by apply sound_append.
Qed.

Lemma entries_sound : Forall (λ e, well_formed e.1 ∧ qsound e.2) (search_entries ps).
Proof.
  assert (∀ k, qsound (text_or_missing (single k ps))) as Hs.
  { intros k. destruct (single k ps) as [s|] eqn:Hk; [|done]. by eapply single_well_formed. }
  assert (∀ k d, well_formed d → well_formed (default d (single k ps))) as Hd.
  { intros k d Hwd. destruct (single k ps) as [s|] eqn:Hk; [|done]. by eapply single_well_formed. }
  unfold search_entries. apply Forall_app. split.
  - assert (∀ k v, Forall (λ c, (c < 128)%N) k → qsound v → well_formed k ∧ qsound v) as Hkv
      by (intros k v Hk Hv; split; [by apply ascii_well_formed|done]).
    assert (∀ s, Forall (λ c, (c < 128)%N) s → well_formed s) as Ha by (intros s; apply ascii_well_formed).
    rewrite !Forall_cons. cbn [fst snd].
    repeat first [apply conj | apply Forall_nil_2 | apply Hkv; [by repeat constructor|]]; try done.
    + by apply Hd.
    + apply Hd, Ha. by repeat constructor.
    + destruct (decide _); [|done]. apply Ha. by repeat constructor.
  - apply Forall_forall. intros e He. unfold filters in He. apply list_elem_of_omap in He as ([k v] & Hi & He). cbn in He.
    destruct (decide _); [done|]. injection He as <-. destruct (piece_well_formed k v Hi). by destruct v.
Qed.

(** What search-service reads from the query. *)
Definition requested : params := read (drop 1 (toQuery (search_entries ps))).

Lemma requested_query : requested = foldl put [] (search_entries ps).
Proof.
  unfold requested, toQuery.
  assert (sound (foldl put [] (search_entries ps))) as Hs.
  { pose proof entries_sound as He. assert (sound []) as H0 by constructor. revert H0. generalize ([] : params) as s.
    induction He as [|e es [Hk Hv] Hes IH]; intros s H0; cbn; [done|]. apply IH. by apply put_sound. }
  rewrite <- (read_written _ Hs) at 2. by destruct (written _).
Qed.

Lemma requested_values k : getAll k requested = search_entries ps ≫= λ e, if decide (e.1 = k) then written_values e.2 else [].
Proof. rewrite requested_query, query_values; [reflexivity|apply entries_once|done]. Qed.

Lemma requested_filter k : k ∉ RESERVED_PARAMS → getAll k requested = filter (λ x, x ≠ []) (getAll k l).
Proof.
  intros Hk. rewrite requested_values, (reflects_values l ps k Hr). destruct (param k ps) as [v|] eqn:Hp.
  - rewrite (bind_key k _ written_values (Many (values v))); [done|apply entries_once|]. unfold search_entries. apply elem_of_app. right.
    apply filters_elem; [|done]. apply param_elem; [apply Hr|done].
  - rewrite bind_absent; [done|]. intros [Hi|Hi]%entries_keys; [done|]. apply (proj2 filters_keys) in Hi as [Hi _]. apply list_elem_of_fmap in Hi as ([k' v] & -> & Hi).
    apply param_elem in Hi; [|apply Hr]. cbn in Hp. congruence.
Qed.
End Request.

Lemma reserved_entry k v ps : (k, v) ∈ take 8 (search_entries ps) → (k, v) ∈ search_entries ps.
Proof. intros Hi. eapply elem_of_sublist; [exact Hi|apply sublist_take]. Qed.

(** C32. A click on a filter gives a URL that reads back as what was written; and of
    the page that is then shown, search-service is asked for the first page and,
    for every name that is not reserved, for exactly the values of the previous
    URL, those of the filter changed as the click says. *)
Theorem filters_survive_the_url l ps field value next :
  sound l → well_formed field → well_formed value →
  let l' := toggle field value next l in
  read (written l') = l' ∧
  (reflects l' ps →
    (∀ k, k ∉ RESERVED_PARAMS →
       getAll k (requested ps) = filter (λ v, v ≠ []) (if decide (field = k) then updated field value next l else getAll k l)) ∧
    getAll "page" (requested ps) = ["1" : jstr]).
Proof.
  intros Hl Hf Hv l'. assert (sound l') as Hl' by (by apply toggle_sound). split; [by apply read_written|]. intros Hr. split.
  - intros k Hk. rewrite (requested_filter l' ps Hl' Hr k Hk). unfold l'. rewrite toggle_values by done.
    rewrite decide_False; [done|]. intros <-. apply Hk. unfold RESERVED_PARAMS. rewrite !elem_of_cons. tauto.
  - rewrite (requested_values l' ps Hl' Hr), (bind_key "page" _ written_values (Number (page_number ps))).
    + assert (param "page" ps = None) as Hp.
      { pose proof (reflects_values l' ps "page" Hr) as He. unfold l' in He. rewrite toggle_values, decide_True in He by done.
        pose proof (same_values l' ps Hr "page") as Hs. destruct (param "page" ps) as [[s|vs]|]; [done| |done].
        destruct Hs as [_ Hs]. cbn in He. subst vs. cbn in Hs. lia. }
      unfold page_number. rewrite Hp. by vm_compute.
    + by apply (entries_once l').
    + apply reserved_entry. cbn. rewrite !elem_of_cons. tauto.
Qed.

(** Ticking a filter and unticking it asks for what was asked for before, on the
    first page. *)
Lemma untick l field value k : sound l → well_formed field → well_formed value → value ∉ getAll field l → k ≠ "page" →
  getAll k (toggle field value false (toggle field value true l)) = getAll k l.
Proof.
  intros Hl Hf Hv Hn Hk. rewrite toggle_values by (by apply toggle_sound). rewrite decide_False by done.
  destruct (decide (field = k)) as [->|Hne].
  - unfold updated. rewrite toggle_values, decide_False, decide_True by done. unfold updated.
    rewrite filter_app, (filter_cons_False _ value []) by (intros Hx; by apply Hx). rewrite app_nil_r. apply filter_whole. by intros x Hx ->.
  - by rewrite toggle_values, decide_False, decide_False.
Qed.

(** Once two categories are ticked, search-service is asked for none: a
    category that occurs twice in the URL is a list, and is dropped. *)
Theorem two_categories_are_none l ps a b :
  sound l → well_formed a → well_formed b → a ≠ b → getAll "category" l = [] →
  reflects (toggle "category" b true (toggle "category" a true l)) ps →
  getAll "category" (requested ps) = [].
Proof.
  intros Hl Ha Hb Hne Hc Hr. assert (well_formed "category") as Hw by (apply ascii_well_formed; by repeat constructor).
  assert (sound (toggle "category" a true l)) as H1 by (by apply toggle_sound).
  assert (sound (toggle "category" b true (toggle "category" a true l))) as H2 by (by apply toggle_sound).
  rewrite (requested_values _ ps H2 Hr), (bind_key "category" _ written_values (text_or_missing (single "category" ps))).
  - pose proof (reflects_values _ ps "category" Hr) as He. unfold single.
    destruct (param "category" ps) as [[s|vs]|]; [exfalso|done|done].
    rewrite toggle_values, decide_False, decide_True in He by done. unfold updated in He.
    rewrite toggle_values, decide_False, decide_True in He by done. unfold updated in He. by rewrite Hc in He.
  - by apply (entries_once _ ps H2 Hr).
  - apply reserved_entry. cbn. rewrite !elem_of_cons. tauto.
Qed.

(** ** Pages *)

Definition last_page (size total : Z) : Z := Z.max 1 ((Z.min total 10000 + size - 1) / size).

Lemma lastPage_exact size total : 0 ≤ total → 1 ≤ size ≤ 100 → lastPage (jint size) (jint total) = jint (last_page size total).
Proof.
  intros Ht Hs. unfold lastPage, MAX_RESULT_WINDOW. rewrite math_min_jint, ceil_div, math_max_jint by lia. done.
Qed.

(** A page number above a hundred does not satisfy the contract of search. *)
Lemma page_refused `{Zod} kvs page : get "page" kvs = Some (vint page) → 100 < page → ¬ accepts Api.SearchRequest (VObj kvs).
Proof.
  intros Hp Hlt Ha. apply accepts_object in Ha as (kvs' & [= <-] & Hf & _).
  specialize (Hf "page" _ ltac:(right; left; reflexivity)). unfold prop in Hf. rewrite Hp in Hf.
  apply accepts_meaning in Hf as [w Hw]. cbn [from_option id interp vint to_number] in Hw. unfold parse_number in Hw.
  cbn [jint forallb check_number] in Hw. fold (jint page) in Hw. rewrite (nle_jint page 100) in Hw.
  destruct (Z.leb_spec page 100); [lia|]. by rewrite !andb_false_r in Hw.
Qed.

(** Every link leads to a page that has results, in the range the control knows;
    but the range goes beyond what is answered: with pages of 24, from 2401
    results on the next link of page 100 leads to a page number the contract
    refuses, and from 9985 on the last page ends beyond the window. *)
Theorem links_beyond_the_limit `{Zod} page size total lower links :
  1 ≤ page < 2 ^ 40 → 1 ≤ size ≤ 100 → 0 ≤ total < 2 ^ 40 →
  Pagination (jint page) (jint size) (jint total) lower = Some links →
  (∀ t, links.2 = Some t → t = jint (page + 1) ∧ page + 1 ≤ last_page size total ∧ page * size < Z.min total 10000) ∧
  (∀ t, links.1.1 = Some t → t = jint (page - 1) ∧ 1 ≤ page - 1) ∧
  (size = 24 → page = 100 → 2400 < total →
     links.2 = Some (jint 101) ∧ ∀ kvs, get "page" kvs = Some (vint 101) → ¬ accepts Api.SearchRequest (VObj kvs)) ∧
  (size = 24 → 9985 ≤ total → last_page size total * size = 10008).
Proof.
  intros Hp Hs Ht. unfold Pagination. rewrite lastPage_exact, !nle_jint, jint_add, jint_sub by lia.
  set (last := last_page size total). destruct (Z.leb_spec last 1) as [|Hlast]; [done|]. intros [= <-]. cbn [fst snd].
  assert (last = (Z.min total 10000 + size - 1) / size) as Hle by (unfold last, last_page in *; lia).
  pose proof (Z.div_mod (Z.min total 10000 + size - 1) size ltac:(lia)) as Hdm. rewrite <- Hle in Hdm.
  pose proof (Z.mod_pos_bound (Z.min total 10000 + size - 1) size ltac:(lia)) as Hm.
  split; [|split; [|split]].
  - intros t. destruct (Z.leb_spec last page) as [|Hlt]; [done|]. intros [= <-]. assert (last ≤ 10000) by nia.
    split; [done|]. split; [lia|]. nia.
  - intros t. destruct (Z.leb_spec page 1); [done|]. intros [= <-]. split; [done|lia].
  - intros -> -> Hmore. split; [|by intros kvs Hk; apply (page_refused kvs 101)]. destruct (Z.leb_spec last 100); [exfalso; lia|done].
  - intros -> Hmore. change (last_page 24 total) with last. lia.
Qed.

End ListingFacts.
