(* ===== verification/SearchBox.v ===== *)
(** * storefront: search with type-ahead (components/layout/search-box.tsx)

    The box as a machine: [step] is one turn of the event loop, in which the
    user does something, the URL changes, the timer fires, or a request settles.
    A request is aborted by the cleanup of the effect that began it; an aborted
    request settles with an error.  [SearchBoxFacts] says whose suggestions are
    shown, and when the list opens. *)
From S2P Require Import Prelude JsNumber JsString Zod Schemas Events Api Bff ApiClient Basket.
Local Open Scope js_scope.
Local Open Scope Z_scope.

Module SearchBox.
Import ApiClient.ApiClient.

Record suggestion := { text : jstr; type : jstr; productId : option jstr }.

(** [data.suggestions], of an answer that satisfied the contract. *)
Definition suggestion_of (v : jsval) : suggestion := {|
  text := Bff.str_of (prop "text" v); type := Bff.str_of (prop "type" v);
  productId := match prop "productId" v with VStr p => Some p | _ => None end |}.
Definition suggestions_of (data : jsval) : list suggestion :=
  match prop "suggestions" data with VArr l => map suggestion_of l | _ => [] end.

(** [timer] is the query of a timer that has not fired, [live] the request of
    the present effect, [flights] every request that has not settled. *)
Record box := {
  value : jstr;
  suggestions : list suggestion;
  opened : bool;
  loading : bool;
  timer : option jstr;
  live : option nat;
  flights : list (nat * jstr);
  fresh : nat;
  asked : list Basket.call;
  pushed : list jstr
}.

Definition set_value (v : jstr) (b : box) : box := {|
  value := v; suggestions := suggestions b; opened := opened b; loading := loading b; timer := timer b; live := live b;
  flights := flights b; fresh := fresh b; asked := asked b; pushed := pushed b |}.
Definition set_suggestions (l : list suggestion) (b : box) : box := {|
  value := value b; suggestions := l; opened := opened b; loading := loading b; timer := timer b; live := live b;
  flights := flights b; fresh := fresh b; asked := asked b; pushed := pushed b |}.
Definition set_opened (o : bool) (b : box) : box := {|
  value := value b; suggestions := suggestions b; opened := o; loading := loading b; timer := timer b; live := live b;
  flights := flights b; fresh := fresh b; asked := asked b; pushed := pushed b |}.
Definition set_loading (l : bool) (b : box) : box := {|
  value := value b; suggestions := suggestions b; opened := opened b; loading := l; timer := timer b; live := live b;
  flights := flights b; fresh := fresh b; asked := asked b; pushed := pushed b |}.
Definition set_timer (t : option jstr) (b : box) : box := {|
  value := value b; suggestions := suggestions b; opened := opened b; loading := loading b; timer := t; live := live b;
  flights := flights b; fresh := fresh b; asked := asked b; pushed := pushed b |}.
Definition set_live (l : option nat) (b : box) : box := {|
  value := value b; suggestions := suggestions b; opened := opened b; loading := loading b; timer := timer b; live := l;
  flights := flights b; fresh := fresh b; asked := asked b; pushed := pushed b |}.
(** A request goes out, under the controller of the present effect. *)
Definition send (query : jstr) (c : Basket.call) (b : box) : box := {|
  value := value b; suggestions := suggestions b; opened := opened b; loading := loading b; timer := timer b;
  live := Some (fresh b); flights := flights b ++ [(fresh b, query)]; fresh := S (fresh b); asked := asked b ++ [c];
  pushed := pushed b |}.
Definition settle (id : nat) (b : box) : box := {|
  value := value b; suggestions := suggestions b; opened := opened b; loading := loading b; timer := timer b;
  live := if decide (live b = Some id) then None else live b; flights := filter (λ f, f.1 ≠ id) (flights b);
  fresh := fresh b; asked := asked b; pushed := pushed b |}.
Definition push (url : jstr) (b : box) : box := {|
  value := value b; suggestions := suggestions b; opened := opened b; loading := loading b; timer := timer b; live := live b;
  flights := flights b; fresh := fresh b; asked := asked b; pushed := pushed b ++ [url] |}.

(** ** The effect of [value] *)

Definition cleanup (b : box) : box := set_live None (set_timer None b).

Definition effect (b : box) : box :=
  let query := trim (value b) in
  if (length query <? 2)%nat then set_loading false (set_suggestions [] b) else set_timer (Some query) b.

(** [setValue]: the effect follows a change only. *)
Definition setValue (v : jstr) (b : box) : box :=
  if decide (v = value b) then b else effect (set_value v (cleanup b)).

Definition mounted (q : option jstr) : box :=
  effect {| value := default [] q; suggestions := []; opened := false; loading := false; timer := None; live := None;
            flights := []; fresh := 0; asked := []; pushed := [] |}.

Definition suggest_call (encoded : jstr) : Basket.call := {|
  Basket.path := "/api/bff/suggest?q=" ++ encoded;
  Basket.options := {| schema := Api.SuggestResponse; method := None; body := VUndef; idempotencyKey := None |} |}.

(** The callback of the timer; an encoding that throws leaves it there. *)
Definition fire (query : jstr) (b : box) : box :=
  let b := set_loading true (set_timer None b) in
  match encodeURIComponent query with Ok e => send query (suggest_call e) b | Err _ => b end.

(** [then], [catch], [finally]. *)
Definition settled (r : result exn jsval) (b : box) : box :=
  set_loading false
    match r with
    | Ok data => set_opened (0 <? length (suggestions_of data))%nat (set_suggestions (suggestions_of data) b)
    | Err _ => set_suggestions [] b
    end.

(** [submit]; an encoding that throws pushes nothing. *)
Definition submit (b : box) : box :=
  let b := set_opened false b in
  match trim (value b) with
  | [] => push "/search" b
  | query => match encodeURIComponent query with Ok e => push ("/search?q=" ++ e) b | Err _ => b end
  end.

(** ** What is shown *)

(** The first eight suggestions; a link that cannot be encoded throws. *)
Definition href (s : suggestion) : result jstr jstr :=
  match productId s with
  | Some (c :: p) => if decide (type s = "product") then Ok ("/products/" ++ c :: p)
                     else (λ e, "/search?q=" ++ e) <$> encodeURIComponent (text s)
  | _ => (λ e, "/search?q=" ++ e) <$> encodeURIComponent (text s)
  end.
Definition shown (b : box) : list suggestion := if opened b then take 8 (suggestions b) else [].

(** ** Turns *)

Inductive event :=
| Type_ (v : jstr)
| Clear
| Navigated (q : option jstr)
| Fired
| Settled (id : nat) (r : result exn jsval)
| Submit
| Focus
| Escape
| PointerOutside
| Follow.

Definition step (b : box) (e : event) : option box :=
  match e with
  | Type_ v => Some (setValue v b)
  | Clear =>
      match value b with
      | [] => None
      | _ => if loading b then None else Some (set_suggestions [] (setValue "" b))
      end
  | Navigated q => Some (setValue (default [] q) b)
  | Fired => match timer b with Some query => Some (fire query b) | None => None end
  | Settled id r =>
      if decide (id ∈ map fst (flights b)) then
        match r with
        | Ok _ => if decide (live b = Some id) then Some (settled r (settle id b)) else None
        | Err _ => Some (settled r (settle id b))
        end
      else None
  | Submit => Some (submit b)
  | Focus => Some (match suggestions b with [] => b | _ => set_opened true b end)
  | Escape | PointerOutside => Some (set_opened false b)
  | Follow => match shown b with [] => None | _ => Some (set_opened false b) end
  end.

Fixpoint steps (b : box) (es : list event) : option box :=
  match es with [] => Some b | e :: r => match step b e with Some b' => steps b' r | None => None end end.
End SearchBox.

(** * storefront: whose suggestions are shown *)
Module SearchBoxFacts.
Import ApiClient.ApiClient SearchBox.

(** What holds between turns: the timer and the live request are for what is in
    the box, and every request under way is the one that was sent for its
    query. *)
Record Inv (b : box) : Prop := {
  timer_now q : timer b = Some q → q = trim (value b) ∧ live b = None;
  live_now i : live b = Some i → (i, trim (value b)) ∈ flights b;
  flights_once : NoDup (map fst (flights b));
  flights_asked i q : (i, q) ∈ flights b → ∃ e, encodeURIComponent q = Ok e ∧ asked b !! i = Some (suggest_call e);
  asked_fresh : length (asked b) = fresh b
}.

Lemma inv_effect b : Inv b → timer b = None → live b = None → Inv (effect b).
Proof.
  intros [Ht Hl Hn Hf Hq] Ht0 Hl0. unfold effect. destruct (_ <? _)%nat; constructor; cbn; try done.
  intros q [= <-]. by rewrite Hl0.
Qed.

Lemma inv_setValue v b : Inv b → Inv (setValue v b).
Proof.
  intros Hi. unfold setValue. destruct (decide _); [done|]. apply inv_effect; [|done|done].
  destruct Hi as [Ht Hl Hn Hf Hq]. by constructor.
Qed.

Lemma inv_box_mounted q : Inv (mounted q).
Proof.
  apply inv_effect; [|done|done]. constructor; cbn; try done; [constructor|]. intros i q' Hi. by apply not_elem_of_nil in Hi.
Qed.

Lemma inv_fire q b : Inv b → timer b = Some q → Inv (fire q b).
Proof.
  intros [Ht Hl Hn Hf Hq] Hq0. destruct (Ht q Hq0) as [-> Hl0]. unfold fire.
  destruct (encodeURIComponent (trim (value b))) as [e|] eqn:He; constructor; cbn; try done.
  - intros i [= <-]. rewrite elem_of_app, list_elem_of_singleton. by right.
  - rewrite map_app. cbn. apply NoDup_app. split; [done|]. split; [|apply NoDup_singleton].
    intros i Hi ->%list_elem_of_singleton. apply list_elem_of_fmap in Hi as ([i q] & E & Hi).
    destruct (Hf _ _ Hi) as (x & _ & Hx). apply lookup_lt_Some in Hx. cbn in E. lia.
  - intros i q Hi. apply elem_of_app in Hi as [Hi|Hi%list_elem_of_singleton].
    + destruct (Hf _ _ Hi) as (x & Hx & Ha). exists x. split; [done|]. by apply lookup_app_l_Some.
    + assert (i = fresh b ∧ q = trim (value b)) as [-> ->] by (by injection Hi). exists e. split; [done|].
      rewrite lookup_app_r by lia. by replace (fresh b - length (asked b))%nat with O by lia.
  - rewrite length_app. cbn. lia.
Qed.

Lemma inv_settle i b : Inv b → Inv (settle i b).
Proof.
  intros [Ht Hl Hn Hf Hq]. constructor; cbn; try done.
  - intros q Hq0. destruct (Ht q Hq0) as [-> ->]. split; [done|]. by destruct (decide _).
  - intros j Hj. destruct (decide (live b = Some i)) as [|Hne]; [done|]. apply list_elem_of_filter. split; [|by apply Hl].
    cbn. intros ->. by destruct Hne.
  - eapply sublist_NoDup; [exact Hn|]. by apply fmap_sublist, sublist_filter.
  - intros j q Hi. apply list_elem_of_filter in Hi as [_ Hi]. by apply Hf.
Qed.

(** What is shown, opened or loading plays no part in it. *)
Lemma inv_shown b b' : value b' = value b → timer b' = timer b → live b' = live b → flights b' = flights b →
  fresh b' = fresh b → asked b' = asked b → Inv b → Inv b'.
Proof. intros Hv Ht Hl Hf Hr Ha [? ? ? ? ?]. constructor; by rewrite ?Hv, ?Ht, ?Hl, ?Hf, ?Hr, ?Ha. Qed.

Ltac same := eapply inv_shown; [..|eassumption]; done.

Lemma inv_box_step b e b' : Inv b → step b e = Some b' → Inv b'.
Proof.
  intros Hi Hs. destruct e; cbn in Hs; repeat dmatch_in Hs; simplify_eq; try done; try same; try (by apply inv_setValue).
  - pose proof (inv_setValue "" b Hi) as Hv. same.
  - by apply inv_fire.
  - pose proof (inv_settle id b Hi) as Hv. same.
  - pose proof (inv_settle id b Hi) as Hv. same.
  - unfold submit. repeat dmatch; same.
Qed.

Lemma inv_box_steps es : ∀ b b', Inv b → steps b es = Some b' → Inv b'.
Proof.
  induction es as [|e es IH]; intros b b' Hi Hs; cbn in Hs; [by injection Hs as <-|].
  destruct (step b e) as [c|] eqn:He; [|done]. by apply (IH c); [eapply inv_box_step|].
Qed.

(** C34. In every run of the box, whatever is typed, cleared or navigated to while
    requests are under way, an answer that is applied is that of the request for
    what is then in the box; every other request under way can only fail; and
    the list shows the first eight suggestions of that answer. *)
Theorem suggestions_answer_the_box q es b i data b' :
  steps (mounted q) es = Some b → step b (Settled i (Ok data)) = Some b' →
  value b' = value b ∧ loading b' = false ∧ shown b' = take 8 (suggestions_of data) ∧
  (∃ e, encodeURIComponent (trim (value b)) = Ok e ∧ asked b !! i = Some (suggest_call e)) ∧
  ∀ j r, step b' (Settled j (Ok r)) = None.
Proof.
  intros He Hs. pose proof (inv_box_steps es _ _ (inv_box_mounted q) He) as Hi. cbn in Hs.
  destruct (decide (i ∈ map fst (flights b))) as [Hin|]; [|done]. destruct (decide (live b = Some i)) as [Hl|]; [|done].
  injection Hs as <-. split; [done|]. split; [done|]. split; [|split].
  - cbn. unfold shown. cbn. by destruct (suggestions_of data).
  - apply (flights_asked b Hi). by apply live_now.
  - intros j r. cbn. destruct (decide (live b = Some i)); [|done]. by destruct (decide _).
Qed.

Lemma fire_ok q e b : encodeURIComponent q = Ok e → fire q b = send q (suggest_call e) (set_loading true (set_timer None b)).
Proof. intros He. unfold fire. by rewrite He. Qed.

(** The answer to the live request is shown. *)
Lemma answered b i data : i ∈ map fst (flights b) → live b = Some i → suggestions_of data ≠ [] →
  ∃ b', steps b [Settled i (Ok data)] = Some b' ∧ shown b' = take 8 (suggestions_of data).
Proof.
  intros Hi Hl Hd. cbn [steps step]. rewrite !decide_True by done. eexists. split; [done|].
  unfold shown. cbn. by destruct (suggestions_of data).
Qed.

(** Submitting and arriving at the results leave the request and the timer. *)
Lemma submitted b : trim (value b) = value b →
  ∃ b', (∀ es, steps b (Submit :: Navigated (Some (value b)) :: es) = steps b' es) ∧
    timer b' = timer b ∧ live b' = live b ∧ flights b' = flights b ∧ fresh b' = fresh b.
Proof.
  intros Ht. exists (submit b). assert (value (submit b) = value b ∧ timer (submit b) = timer b ∧ live (submit b) = live b ∧
    flights (submit b) = flights b ∧ fresh (submit b) = fresh b) as (Hv & ? & ? & ? & ?) by (unfold submit; by repeat dmatch).
  split; [|done]. intros es. cbn [steps step]. unfold setValue. cbn [default id]. by rewrite Hv, decide_True.
Qed.

(** The list opens over the results of the search it suggests: a page whose
    URL has a query of two characters or more opens it by itself, and so does
    submitting the form before the timer fires or the answer arrives. *)
Theorem box_opens_unasked e data :
  suggestions_of data ≠ [] →
  (∀ q, (2 ≤ length (trim q))%nat → encodeURIComponent (trim q) = Ok e →
     ∃ b, steps (mounted (Some q)) [Fired; Settled 0 (Ok data)] = Some b ∧ shown b = take 8 (suggestions_of data)) ∧
  (∀ q es b, steps (mounted q) es = Some b → trim (value b) = value b → encodeURIComponent (value b) = Ok e →
     (timer b ≠ None →
        ∃ b', steps b [Submit; Navigated (Some (value b)); Fired; Settled (fresh b) (Ok data)] = Some b' ∧ shown b' = take 8 (suggestions_of data)) ∧
     (∀ i, live b = Some i →
        ∃ b', steps b [Submit; Navigated (Some (value b)); Settled i (Ok data)] = Some b' ∧ shown b' = take 8 (suggestions_of data))).
Proof.
  intros Hd. split.
  - intros q Hq He. unfold mounted, effect. cbn [value default id]. destruct (Nat.ltb_spec (length (trim q)) 2); [lia|].
    cbn [steps step timer set_timer]. rewrite (fire_ok _ e) by done. apply answered; [by left|done|done].
  - intros q es b Hs Ht He. pose proof (inv_box_steps es _ _ (inv_box_mounted q) Hs) as Hi.
    destruct (submitted b Ht) as (b' & Hb & Htm & Hl & Hf & Hr). split.
    + intros Hn. rewrite Hb. destruct (timer b) as [t|] eqn:Hq; [|done]. destruct (timer_now b Hi t Hq) as [-> _].
      rewrite Ht in Htm. cbn [steps step]. rewrite Htm, (fire_ok _ e), <- Hr by done.
      apply answered; [|done|done]. cbn. rewrite map_app, elem_of_app. right. by left.
    + intros i Hlive. rewrite Hb. apply answered; [|by rewrite Hl|done]. rewrite Hf. apply list_elem_of_fmap.
      exists (i, trim (value b)). split; [done|]. by apply live_now.
Qed.

(** ** Instances *)

Definition an_answer : jsval := VObj [("suggestions", VArr [VObj [("text", VStr "sony"); ("type", VStr "brand")]])].

(** The answer to the second of two requests, the first being aborted. *)
Lemma suggestions_answer_the_box_witness :
  ∃ b b', steps (mounted None) [Type_ "so"; Fired; Type_ "son"; Fired] = Some b ∧ map fst (flights b) = [0; 1]%nat ∧
    step b (Settled 1 (Ok an_answer)) = Some b' ∧ map text (shown b') = ["sony" : jstr] ∧
    step b' (Settled 0 (Ok an_answer)) = None.
Proof.
  assert ((λ b, (map fst (flights b), bool_decide (is_Some (step b (Settled 1 (Ok an_answer)))))) <$>
    steps (mounted None) [Type_ "so"; Fired; Type_ "son"; Fired] = Some ([0; 1]%nat, true)) as E by (vm_compute; reflexivity).
  destruct (steps _ _) as [b|] eqn:Hs; [|discriminate E]. apply (inj Some), pair_equal_spec in E as [Hf Hb%bool_decide_eq_true].
  destruct (step b (Settled 1 (Ok an_answer))) as [b'|] eqn:Ht; [|by apply is_Some_None in Hb]. exists b, b'. do 3 (split; [done|]).
  destruct (suggestions_answer_the_box None _ b 1 an_answer b' Hs Ht) as (_ & _ & Hsh & _ & Ho). rewrite Hsh. by split; [|apply Ho].
Defined.

Lemma box_opens_unasked_witness :
  ∃ b, steps (mounted (Some "sony")) [Fired; Settled 0 (Ok an_answer)] = Some b ∧ map text (shown b) = ["sony" : jstr].
Proof.
  destruct (box_opens_unasked "sony" an_answer ltac:(discriminate)) as [Ho _].
  destruct (Ho "sony" ltac:(vm_compute; lia) ltac:(by vm_compute)) as (b & Hb & Hs). exists b. split; [exact Hb|]. by rewrite Hs.
Defined.
End SearchBoxFacts.
