(* ===== verification/SignIn.v ===== *)
(** * storefront: who is signed in (components/auth/session-provider.tsx,
      components/auth/login-form.tsx)

    The session provider and the login form as machines: [s_step] and [step] are
    one turn of the event loop, in which the user does something or the answer to
    a request arrives.  The form runs inside the provider, whose [refresh] it
    awaits.  [authority] is what the URL standard makes of a redirect.
    [SignInFacts] says when the form asks for a code, when it leaves, and where
    to. *)
From S2P Require Import Prelude JsNumber JsString JsDecimal Zod Schemas Events Api Bff BffRoutes.
From S2P Require Import ApiClient Basket Purchase.
Local Open Scope js_scope.
Local Open Scope Z_scope.

Module SignIn.
Import ApiClient.ApiClient.

(** ** The provider *)

Inductive task := Refreshing | SigningOut.

Record provider := {
  user : option jsval;
  loading : bool;
  pending : list (nat * task);
  fresh : nat;
  location : option jstr;
  asked : list Basket.call
}.

Definition set_user (u : option jsval) (p : provider) : provider := {|
  user := u; loading := loading p; pending := pending p; fresh := fresh p; location := location p; asked := asked p |}.
Definition set_loading (b : bool) (p : provider) : provider := {|
  user := user p; loading := b; pending := pending p; fresh := fresh p; location := location p; asked := asked p |}.
Definition set_location (l : jstr) (p : provider) : provider := {|
  user := user p; loading := loading p; pending := pending p; fresh := fresh p; location := Some l; asked := asked p |}.
Definition send (t : task) (c : Basket.call) (p : provider) : provider := {|
  user := user p; loading := loading p; pending := pending p ++ [(fresh p, t)]; fresh := S (fresh p); location := location p;
  asked := asked p ++ [c] |}.
Definition drop (i : nat) (p : provider) : provider := {|
  user := user p; loading := loading p; pending := filter (λ t, t.1 ≠ i) (pending p); fresh := fresh p; location := location p;
  asked := asked p |}.

Definition me_call : Basket.call := {|
  Basket.path := "/api/bff/me";
  Basket.options := {| schema := Api.UserProfile; method := None; body := VUndef; idempotencyKey := None |} |}.
Definition logout_call : Basket.call := {|
  Basket.path := "/api/bff/auth/logout";
  Basket.options := {| schema := ZUndefined; method := Some ("POST" : jstr); body := VUndef; idempotencyKey := None |} |}.

Definition refresh (p : provider) : provider := send Refreshing me_call (set_loading true p).
Definition refreshed (r : result exn jsval) (p : provider) : provider :=
  set_loading false (set_user (match r with Ok profile => Some profile | Err _ => None end) p).

Definition signOut (p : provider) : provider := send SigningOut logout_call p.
(** Whatever the answer. *)
Definition signedOut (p : provider) : provider := set_location "/" (set_user None p).

(** The first render and its effect. *)
Definition s_mounted (initialUser : option jsval) : provider :=
  let p := {| user := initialUser; loading := match initialUser with None => true | Some _ => false end; pending := []; fresh := 0;
              location := None; asked := [] |} in
  match initialUser with None => refresh p | Some _ => p end.

Inductive s_event := Refresh | SignOut | Reply (i : nat) (r : result exn jsval).

Fixpoint task_of (i : nat) (l : list (nat * task)) : option task :=
  match l with [] => None | (j, t) :: r => if decide (j = i) then Some t else task_of i r end.

Definition s_step (p : provider) (e : s_event) : option provider :=
  match e with
  | Refresh => Some (refresh p)
  | SignOut => Some (signOut p)
  | Reply i r =>
      match task_of i (pending p) with
      | Some Refreshing => Some (refreshed r (drop i p))
      | Some SigningOut => Some (signedOut (drop i p))
      | None => None
      end
  end.

(** ** The redirect *)

Definition safeNext (next : option jstr) : jstr :=
  match next with
  | None | Some [] => "/"
  | Some next => if negb (startsWith "/" next) then "/" else if startsWith "//" next then "/" else next
  end.

(** The URL standard removes spaces and control characters at the ends, and tabs
    and newlines everywhere; two slashes, or backslashes, then begin an
    authority, which is that of another site. *)
Definition control_or_space (c : N) : bool := (c <=? 32)%N.
Definition tab_or_newline (c : N) : bool := (c =? 9)%N || (c =? 10)%N || (c =? 13)%N.
Definition slash (c : N) : bool := (c =? 47)%N || (c =? 92)%N.
Fixpoint drop_while (f : N → bool) (s : jstr) : jstr :=
  match s with c :: r => if f c then drop_while f r else s | [] => [] end.
Fixpoint take_while (f : N → bool) (s : jstr) : jstr :=
  match s with c :: r => if f c then c :: take_while f r else [] | [] => [] end.
Definition cleaned (url : jstr) : jstr :=
  filter (λ c, tab_or_newline c = false) (rev (drop_while control_or_space (rev (drop_while control_or_space url)))).
(** A slash, a question mark or a number sign ends it. *)
Definition in_authority (c : N) : bool := negb (slash c || (c =? 63)%N || (c =? 35)%N).
Definition authority (url : jstr) : option jstr :=
  match cleaned url with
  | c :: d :: r => if slash c && slash d then Some (take_while in_authority (drop_while slash r)) else None
  | _ => None
  end.

(** ** The form *)

Inductive nav := Replace (url : jstr) | RouterRefresh.
Inductive phase := Idle | Posted | Awaiting (i : nat).

Record form := {
  email : jstr; password : jstr; mfaCode : jstr; mfaRequired : bool; error : option jstr; submitting : bool;
  at_ : phase; posts : list Basket.call; went : list nav; session : provider
}.

Definition set_fields (e p c : jstr) (f : form) : form := {|
  email := e; password := p; mfaCode := c; mfaRequired := mfaRequired f; error := error f; submitting := submitting f; at_ := at_ f;
  posts := posts f; went := went f; session := session f |}.
Definition set_error (m : bool) (e : option jstr) (f : form) : form := {|
  email := email f; password := password f; mfaCode := mfaCode f; mfaRequired := m; error := e; submitting := submitting f; at_ := at_ f;
  posts := posts f; went := went f; session := session f |}.
Definition set_at (s : bool) (a : phase) (f : form) : form := {|
  email := email f; password := password f; mfaCode := mfaCode f; mfaRequired := mfaRequired f; error := error f; submitting := s; at_ := a;
  posts := posts f; went := went f; session := session f |}.
Definition post (c : Basket.call) (f : form) : form := {|
  email := email f; password := password f; mfaCode := mfaCode f; mfaRequired := mfaRequired f; error := error f; submitting := submitting f;
  at_ := at_ f; posts := posts f ++ [c]; went := went f; session := session f |}.
Definition go (l : list nav) (f : form) : form := {|
  email := email f; password := password f; mfaCode := mfaCode f; mfaRequired := mfaRequired f; error := error f; submitting := submitting f;
  at_ := at_ f; posts := posts f; went := went f ++ l; session := session f |}.
Definition set_session (p : provider) (f : form) : form := {|
  email := email f; password := password f; mfaCode := mfaCode f; mfaRequired := mfaRequired f; error := error f; submitting := submitting f;
  at_ := at_ f; posts := posts f; went := went f; session := p |}.

Definition mounted (p : provider) : form := {|
  email := ""; password := ""; mfaCode := ""; mfaRequired := false; error := None; submitting := false; at_ := Idle; posts := [];
  went := []; session := p |}.

(** [{ email, password, ...(mfaCode ? { mfaCode } : {}) }] *)
Definition login_body (f : form) : jsval :=
  VObj ([("email", VStr (email f)); ("password", VStr (password f))] ++
        match mfaCode f with [] => [] | c => [("mfaCode", VStr c)] end).
Definition login_call (f : form) : Basket.call := {|
  Basket.path := "/api/bff/auth/login";
  Basket.options := {| schema := Api.LoginResponse; method := Some ("POST" : jstr); body := login_body f; idempotencyKey := None |} |}.

(** The browser submits a form whose fields are filled in, the code with its six
    digits when it is shown; that it also wants an address with an [@] is left
    out. *)
Definition can_submit (f : form) : bool :=
  truthy_str (email f) && truthy_str (password f) && (negb (mfaRequired f) || (length (mfaCode f) =? 6)%nat) && negb (submitting f).

Definition onSubmit (f : form) : form := post (login_call f) (set_at true Posted (set_error (mfaRequired f) None f)).

(** The answer to the request: the profile is fetched again, or the form shows
    what went wrong. *)
Definition answered (r : result exn jsval) (f : form) : form :=
  match r with
  | Ok _ => set_session (refresh (session f)) (set_at true (Awaiting (fresh (session f))) f)
  | Err (ApiClient.Api e) =>
      set_at false Idle
        (if decide (code e = "MFA_REQUIRED") then set_error true None f else set_error (mfaRequired f) (Some (userMessage e)) f)
  | Err _ => set_at false Idle f
  end.
(** The rest of it, once [refresh] is done. *)
Definition signed_in (next : option jstr) (f : form) : form := set_at false Idle (go [Replace (safeNext next); RouterRefresh] f).

Inductive event :=
| TypeEmail (s : jstr)
| TypePassword (s : jstr)
| TypeCode (s : jstr)
| Submit
| Answered (r : result exn jsval)
| Session (e : s_event).

Definition step (next : option jstr) (f : form) (e : event) : option form :=
  match e with
  | TypeEmail s => Some (set_fields s (password f) (mfaCode f) f)
  | TypePassword s => Some (set_fields (email f) s (mfaCode f) f)
  | TypeCode s =>
      if mfaRequired f && (length s <=? 6)%nat then Some (set_fields (email f) (password f) (Purchase.only_digits s) f) else None
  | Submit => if can_submit f then Some (onSubmit f) else None
  | Answered r => match at_ f with Posted => Some (answered r f) | _ => None end
  | Session e =>
      match s_step (session f) e with
      | Some p =>
          let f := set_session p f in
          Some (match e, at_ f with
                | Reply i _, Awaiting j => if decide (i = j) then signed_in next f else f
                | _, _ => f
                end)
      | None => None
      end
  end.

Fixpoint steps (next : option jstr) (f : form) (es : list event) : option form :=
  match es with [] => Some f | e :: r => match step next f e with Some f' => steps next f' r | None => None end end.
End SignIn.

(** * storefront: when signing in asks, and where it leads *)
Module SignInFacts.
Import ApiClient.ApiClient SignIn.

(** ** The redirect *)

(** A URL that begins with a slash keeps it; what else is removed is at the end,
    or a tab or a newline. *)
Lemma cleaned_slash s : ∃ t, cleaned (47%N :: s) = 47%N :: filter (λ c, tab_or_newline c = false) t ∧ t `prefix_of` s.
Proof.
  unfold cleaned. cbn [drop_while]. change (control_or_space 47) with false. cbn match.
  assert (∀ l, ∃ r, drop_while control_or_space (l ++ [47%N]) = r ++ [47%N] ∧ r `suffix_of` l) as Hd.
  { induction l as [|c l (r & IH & Hr)]; [exists []; split; [done|apply suffix_nil]|]. cbn. destruct (control_or_space c).
    - exists r. split; [done|]. by apply suffix_cons_r.
    - by exists (c :: l); split. }
  cbn [rev]. destruct (Hd (rev s)) as (r & -> & [k Hk]). exists (rev r). rewrite rev_app_distr. cbn [rev app]. split.
  - rewrite filter_cons_True by done. done.
  - exists (rev k). by rewrite <- rev_app_distr, <- Hk, rev_involutive.
Qed.

Lemma filter_head (P : N → Prop) `{∀ c, Decision (P c)} t d r : filter P t = d :: r →
  ∃ ws u, t = ws ++ d :: u ∧ Forall (λ c, ¬ P c) ws ∧ P d.
Proof.
  induction t as [|c t IH]; [done|]. rewrite filter_cons. destruct (decide (P c)) as [Hc|Hc].
  - intros [= -> _]. by exists [], t.
  - intros Hf. destruct (IH Hf) as (ws & u & -> & Hw & Hd). exists (c :: ws), u. split; [done|]. split; [by constructor|done].
Qed.

Lemma safeNext_path s : safeNext (Some s) = "/" ∨ safeNext (Some s) = s ∧ ∃ t, s = 47%N :: t ∧ head t ≠ Some 47%N.
Proof.
  unfold safeNext. destruct s as [|c t]; [by left|]. change (startsWith "/" (c :: t)) with ((47 =? c)%N && true).
  change (startsWith "//" (c :: t)) with ((47 =? c)%N && startsWith "/" t).
  destruct (N.eqb_spec 47 c) as [<-|]; [|by left]. cbn [andb negb]. destruct t as [|d u]; [by right; split; [|exists []]|].
  change (startsWith "/" (d :: u)) with ((47 =? d)%N && true). destruct (N.eqb_spec 47 d) as [<-|Hne]; [by left|]. right.
  split; [done|]. exists (d :: u). split; [done|]. cbn. by intros [= ->].
Qed.

(** Nothing is removed from text without spaces and controls. *)
Lemma drop_while_none f s : Forall (λ c, f c = false) s → drop_while f s = s.
Proof. intros [|c r Hc _]; [done|]. cbn. by rewrite Hc. Qed.
Lemma take_while_all f s : Forall (λ c, f c = true) s → take_while f s = s.
Proof. induction 1 as [|c r Hc _ IH]; [done|]. cbn. by rewrite Hc, IH. Qed.

Lemma cleaned_plain s : Forall (λ c, control_or_space c = false) s → cleaned s = s.
Proof.
  intros Hs. unfold cleaned. rewrite (drop_while_none _ s Hs), drop_while_none, rev_involutive by (by apply List.Forall_rev).
  apply filter_whole. intros c Hc. rewrite Forall_forall in Hs. specialize (Hs c Hc). unfold control_or_space in Hs.
  apply N.leb_gt in Hs. unfold tab_or_newline. by repeat match goal with |- context [(?a =? ?b)%N] => destruct (N.eqb_spec a b); [lia|] end.
Qed.

(** A character a host name is made of. *)
Definition host_char (c : N) : Prop := is_lower c = true ∨ is_digit c = true ∨ c = 45%N ∨ c = 46%N.

(** C36. Where signing in leads: a redirect leaves the site only if a backslash
    follows its first slash, or tabs and newlines and then a slash or a
    backslash; and a backslash followed by the name of any host is such a
    redirect, to that host. *)
Theorem redirect_leaves_by_backslash :
  (∀ next a, authority (safeNext next) = Some a →
     ∃ ws c r, next = Some (47%N :: ws ++ c :: r) ∧ Forall (λ c, tab_or_newline c = true) ws ∧ (c = 92%N ∨ c = 47%N ∧ ws ≠ [])) ∧
  (∀ h, h ≠ [] → Forall host_char h → authority (safeNext (Some ("/\" ++ h))) = Some h).
Proof.
  split.
  - intros next a Ha. destruct next as [s|]; [|by vm_compute in Ha].
    destruct (safeNext_path s) as [E|[E (t & -> & Hh)]]; rewrite E in Ha; [by vm_compute in Ha|].
    unfold authority in Ha. destruct (cleaned_slash t) as (u & Hc & [k ->]). rewrite Hc in Ha.
    destruct (filter _ u) as [|d r] eqn:Hf; [done|]. change (slash 47) with true in Ha. cbn [andb] in Ha.
    destruct (slash d) eqn:Hd; [|done]. apply filter_head in Hf as (ws & v & -> & Hw & _).
    exists ws, d, (v ++ k). split; [by rewrite <- app_assoc|]. split.
    + eapply Forall_impl; [exact Hw|]. cbn. intros c. by destruct (tab_or_newline c).
    + unfold slash in Hd. apply orb_true_iff in Hd as [->%N.eqb_eq| ->%N.eqb_eq]; [right|by left]. split; [done|]. by intros ->.
  - intros h Hn Hh. assert (∀ c, host_char c → control_or_space c = false ∧ slash c = false ∧ in_authority c = true) as Hc.
    { intros c Hc. unfold control_or_space, in_authority, slash. rewrite N.leb_gt.
      assert (32 < c ∧ c ≠ 47 ∧ c ≠ 92 ∧ c ≠ 63 ∧ c ≠ 35)%N as (? & ? & ? & ? & ?).
      { destruct Hc as [Hc|[Hc|[-> | ->]]]; [| |lia..]; apply andb_true_iff in Hc as [?%N.leb_le ?%N.leb_le]; lia. }
      by repeat match goal with |- context [(?a =? ?b)%N] => destruct (N.eqb_spec a b); [done|] end. }
    assert (∀ (f : N → bool) (b : bool), (∀ c, host_char c → f c = b) → Forall (λ c, f c = b) h) as Hf by (intros f b Hb; by eapply Forall_impl).
    unfold authority. change (safeNext (Some ("/\" ++ h))) with (47%N :: 92%N :: h).
    rewrite cleaned_plain by (do 2 (constructor; [done|]); apply Hf; intros c Hx; by apply Hc). cbn [slash N.eqb Pos.eqb orb andb].
    rewrite drop_while_none by (apply Hf; intros c Hx; by apply Hc). f_equal. apply take_while_all, Hf. intros c Hx. by apply Hc.
Qed.

(** ** The form *)

(** The server asked for a code; the server accepted. *)
Definition tells (e : event) : Prop := ∃ err, e = Answered (Err (Api err)) ∧ code err = "MFA_REQUIRED".
Definition accepts_ (e : event) : Prop := ∃ v, e = Answered (Ok v).

(** A request for the fields of a form, with a code if one was asked for. *)
Definition asks (told : Prop) (c : Basket.call) : Prop :=
  ∃ f, c = login_call f ∧ email f ≠ [] ∧ password f ≠ [] ∧
    (mfaCode f = [] ∨ told ∧ length (mfaCode f) = 6%nat ∧ all_digits (mfaCode f)).

Record Inv (next : option jstr) (told left : Prop) (f : form) : Prop := {
  posts_ask : Forall (asks told) (posts f);
  code_told : mfaRequired f = true → told;
  code_shown : mfaCode f ≠ [] → mfaRequired f = true;
  code_digits : all_digits (mfaCode f);
  busy : submitting f = true ↔ at_ f ≠ Idle;
  awaits i : at_ f = Awaiting i → left ∧ task_of i (pending (session f)) = Some Refreshing;
  tickets i : i ∈ map fst (pending (session f)) → (i < SignIn.fresh (session f))%nat;
  went_left : went f ≠ [] → left;
  went_to n : n ∈ went f → n = RouterRefresh ∨ n = Replace (safeNext next)
}.

Lemma asks_mono (T T' : Prop) c : (T → T') → asks T c → asks T' c.
Proof. intros Ht (f & ? & ? & ? & Hm). exists f. do 3 (split; [done|]). destruct Hm as [|[? ?]]; [by left|right; split; auto]. Qed.

Lemma inv_mono next (T T' L L' : Prop) f : (T → T') → (L → L') → Inv next T L f → Inv next T' L' f.
Proof.
  intros Ht Hl [Hp Hm ? ? ? Ha ? Hw ?]. constructor; try done; auto.
  - eapply Forall_impl; [exact Hp|]. intros c. by apply asks_mono.
  - intros i Hi. destruct (Ha i Hi). auto.
Qed.

Lemma task_of_app i l t : i ∉ map fst l → task_of i (l ++ [(i, t)]) = Some t.
Proof.
  induction l as [|[j u] l IH]; cbn; [by rewrite decide_True|]. intros [Hne Hn]%not_elem_of_cons. rewrite decide_False by done. by apply IH.
Qed.
Lemma task_of_keep i l t u : task_of i l = Some t → task_of i (l ++ [u]) = Some t.
Proof. induction l as [|[j v] l IH]; cbn; [done|]. by destruct (decide _). Qed.
Lemma task_of_drop i j l t : i ≠ j → task_of i l = Some t → task_of i (filter (λ x, x.1 ≠ j) l) = Some t.
Proof.
  intros Hne. induction l as [|[k v] l IH]; [done|]. intros Ht. cbn in Ht. rewrite filter_cons. cbn [fst].
  destruct (decide (k = i)) as [->|Hk]; [rewrite decide_True by done; cbn; by rewrite decide_True|].
  destruct (decide (k ≠ j)); [cbn; rewrite decide_False by done|]; by apply IH.
Qed.

Lemma inv_refresh next (T L : Prop) f : Inv next T L f → Inv next T L (set_session (refresh (session f)) f).
Proof.
  intros [? ? ? ? ? Ha Ht ? ?]. constructor; try done; cbn.
  - intros i Hi. destruct (Ha i Hi) as [? Hp]. split; [done|]. by apply task_of_keep.
  - intros i. rewrite map_app, elem_of_app. intros [Hi%Ht| ->%list_elem_of_singleton]; cbn; lia.
Qed.

(** A turn of the provider that the form does not wait for. *)
Lemma inv_session next (T L : Prop) f e p : Inv next T L f → s_step (session f) e = Some p →
  (∀ i r, e = Reply i r → at_ f ≠ Awaiting i) → Inv next T L (set_session p f).
Proof.
  intros Hi Hs He. pose proof Hi as [? ? ? ? ? Ha Ht ? ?].
  assert (∀ i r, e = Reply i r → Inv next T L (set_session (drop i (session f)) f)) as Hd.
  { intros i r E. constructor; try done; cbn.
    - intros j Hj. destruct (Ha j Hj) as [? Hp]. split; [done|]. apply task_of_drop; [|done]. intros ->. by eapply He.
    - intros j Hj. apply Ht. apply list_elem_of_fmap in Hj as (x & -> & Hj). apply list_elem_of_filter in Hj as [_ Hj].
      by apply list_elem_of_fmap_2. }
  destruct e as [| |i r]; cbn in Hs.
  - injection Hs as <-. by apply inv_refresh.
  - injection Hs as <-. constructor; try done; cbn.
    + intros i Hj. destruct (Ha i Hj) as [? Hp]. split; [done|]. by apply task_of_keep.
    + intros i. rewrite map_app, elem_of_app. intros [Hj%Ht| ->%list_elem_of_singleton]; cbn; lia.
  - destruct (Hd i r eq_refl). repeat dmatch_in Hs; simplify_eq; by constructor.
Qed.

Lemma inv_form_mounted next u : Inv next False False (mounted (s_mounted u)).
Proof.
  constructor; try done; try apply Forall_nil_2; cbn.
  - intros i Hi. destruct u; cbn in Hi |- *; [by apply not_elem_of_nil in Hi|]. apply list_elem_of_singleton in Hi as ->. cbn. lia.
  - intros n Hn. by apply not_elem_of_nil in Hn.
Qed.

Lemma inv_submit next (T L : Prop) f : Inv next T L f → can_submit f = true → Inv next T L (onSubmit f).
Proof.
  intros [Hp Hm Hc Hd Hb Ha Ht Hw Hn] Hs. unfold can_submit in Hs. repeat (apply andb_true_iff in Hs as [Hs ?]).
  constructor; try done; cbn.
  apply Forall_app. split; [done|]. constructor; [|done]. exists (set_at true Posted (set_error (mfaRequired f) None f)). cbn.
  split; [done|]. split; [by intros E; rewrite E in *|]. split; [by intros E; rewrite E in *|].
  destruct (mfaCode f) as [|c r] eqn:E; [by left|right]. rewrite <- E in *. assert (mfaRequired f = true) as Hr by (apply Hc; by rewrite E).
  split; [by apply Hm|]. split; [|done]. rewrite Hr in *. by apply Nat.eqb_eq.
Qed.

Lemma inv_form_answered next (T L : Prop) r f : Inv next T L f → at_ f = Posted →
  Inv next (T ∨ tells (Answered r)) (L ∨ accepts_ (Answered r)) (answered r f).
Proof.
  intros Hi Hat. pose proof (inv_mono next T (T ∨ tells (Answered r)) L (L ∨ accepts_ (Answered r)) f ltac:(auto) ltac:(auto) Hi) as Hj.
  destruct r as [v|[e| | |]]; cbn [answered].
  - destruct Hj as [Hp Hm Hc Hd Hb Ha Ht Hw Hn]. constructor; try done; cbn.
    + intros i [= <-]. split; [right; by eexists|]. apply task_of_app. intros Hf%Ht. lia.
    + intros i. rewrite map_app, elem_of_app. intros [Hj%Ht| ->%list_elem_of_singleton]; cbn; lia.
  - destruct Hj as [Hp Hm Hc Hd Hb Ha Ht Hw Hn]. case_decide as Hcode; constructor; try done; cbn.
    intros _. right. by exists e.
  - destruct Hj. by constructor.
  - destruct Hj. by constructor.
  - destruct Hj. by constructor.
Qed.

Lemma inv_form_step next (T L : Prop) f e f' : Inv next T L f → step next f e = Some f' →
  Inv next (T ∨ tells e) (L ∨ accepts_ e) f'.
Proof.
  intros Hi Hs. destruct e as [s|s|s| |r|e]; cbn in Hs.
  1-4: apply (inv_mono next T _ L); auto.
  - injection Hs as <-. destruct Hi. by constructor.
  - injection Hs as <-. destruct Hi. by constructor.
  - destruct (mfaRequired f) eqn:Hr; [|done]. destruct (_ <=? _)%nat; [|done]. injection Hs as <-. destruct Hi. constructor; try done.
    apply Forall_forall. intros c Hc. by apply list_elem_of_filter in Hc as [? _].
  - destruct (can_submit f) eqn:Hc; [|done]. injection Hs as <-. by apply inv_submit.
  - destruct (at_ f) eqn:Hat; try done. injection Hs as <-. by apply inv_form_answered.
  - apply (inv_mono next T _ L); auto. destruct (s_step (session f) e) as [p|] eqn:He; [|done]. injection Hs as <-.
    destruct (at_ f) as [| |j] eqn:Hat; cbn [set_session at_]; rewrite ?Hat.
    1-2: destruct e; apply (inv_session _ _ _ _ _ _ Hi He); by rewrite Hat.
    destruct e as [| |i r]; try (apply (inv_session _ _ _ _ _ _ Hi He); done).
    destruct (decide (i = j)) as [->|Hne]; [|apply (inv_session _ _ _ _ _ _ Hi He); intros ? ? [= -> _]; rewrite Hat; by intros [= ->]].
    destruct Hi as [Hp Hm Hc Hd Hb Ha Ht Hw Hn]. destruct (Ha j Hat) as [Hl Htask]. cbn in He. rewrite Htask in He. injection He as <-.
    constructor; try done; cbn.
    + intros i Hj. apply Ht. apply list_elem_of_fmap in Hj as (x & -> & Hj). apply list_elem_of_filter in Hj as [_ Hj].
      by apply list_elem_of_fmap_2.
    + intros n. rewrite elem_of_app. intros [Hin|Hin]; [by apply Hn|]. rewrite !elem_of_cons in Hin. destruct Hin as [->|[->|Hin]]; [by right|by left|].
      by apply not_elem_of_nil in Hin.
Qed.

Lemma inv_form_steps next es : ∀ (T L : Prop) f f', Inv next T L f → steps next f es = Some f' →
  Inv next (T ∨ Exists tells es) (L ∨ Exists accepts_ es) f'.
Proof.
  induction es as [|e es IH]; intros T L f f' Hi Hs; cbn in Hs.
  - injection Hs as <-. apply (inv_mono next T _ L); auto.
  - destruct (step next f e) as [g|] eqn:He; [|done]. pose proof (IH _ _ g f' (inv_form_step _ _ _ _ _ _ Hi He) Hs) as Hj.
    eapply inv_mono; [..|exact Hj]; rewrite Exists_cons; tauto.
Qed.

(** In every run of the login form and the provider around it, every request
    is for an address and a password, with a code only after the server asked
    for one, and then of six digits; the page is left only after the server
    accepted, and only for where [safeNext] says; a request that is accepted
    leads there as soon as the profile was asked for, whatever came of it. *)
Theorem code_after_the_server_asks next u es f :
  steps next (mounted (s_mounted u)) es = Some f →
  Forall (asks (Exists tells es)) (posts f) ∧
  (went f ≠ [] → Exists accepts_ es) ∧
  (∀ n, n ∈ went f → n = RouterRefresh ∨ n = Replace (safeNext next)) ∧
  (submitting f = true ↔ at_ f ≠ Idle) ∧
  (∀ i r, at_ f = Awaiting i → ∃ f', step next f (Session (Reply i r)) = Some f' ∧ submitting f' = false ∧
     went f' = went f ++ [Replace (safeNext next); RouterRefresh]).
Proof.
  intros Hs. pose proof (inv_form_steps next es _ _ _ _ (inv_form_mounted next u) Hs) as Hi.
  apply (inv_mono next _ (Exists tells es) _ (Exists accepts_ es)) in Hi as [Hp _ _ _ Hb Ha _ Hw Hn]; [|tauto..].
  do 4 (split; [done|]). intros i r Hat. destruct (Ha i Hat) as [_ Ht]. cbn. rewrite Ht. cbn. rewrite Hat, decide_True by done.
  by eexists.
Qed.

(** ** Instances *)

Definition needs_code : ApiError := api_error 401 "MFA_REQUIRED" "req-1" "".
Definition signing_in : list event := [
  Session (Reply 0 (Err (Api (api_error 401 "UNAUTHENTICATED" "" "")))); TypeEmail "a@b.eg"; TypePassword "secret"; Submit;
  Answered (Err (Api needs_code)); TypeCode "123456"; Submit; Answered (Ok VUndef); Session (Reply 1 (Ok VUndef))].

Lemma code_after_the_server_asks_witness :
  ∃ f, steps (Some "/checkout") (mounted (s_mounted None)) signing_in = Some f ∧ length (posts f) = 2%nat ∧
    went f = [Replace "/checkout"; RouterRefresh] ∧ Exists accepts_ signing_in.
Proof.
  assert ((λ f, (length (posts f), went f)) <$> steps (Some "/checkout") (mounted (s_mounted None)) signing_in =
    Some (2%nat, [Replace "/checkout"; RouterRefresh])) as E by (vm_compute; reflexivity).
  destruct (steps _ _ _) as [f|] eqn:Hs; [|discriminate E]. injection E as Hp Hg. exists f. do 3 (split; [done|]).
  destruct (code_after_the_server_asks _ _ _ _ Hs) as (_ & Hw & _). apply Hw. rewrite Hg. discriminate.
Defined.

(** The password of the wrong account is answered with the advice to sign in. *)
Example wrong_password : error <$> steps None (mounted (s_mounted None))
    [TypeEmail "a@b.eg"; TypePassword "wrong"; Submit; Answered (Err (Api (api_error 401 "UNAUTHENTICATED" "req-1" "")))] =
  Some (Some ("Please sign in to continue." : jstr)).
Proof. vm_compute. reflexivity. Qed.
End SignInFacts.
