(* ===== verification/MfaEnrolment.v ===== *)
(** * storefront: enrolling a second factor (components/auth/mfa-enrolment.tsx)

    The component as a machine: [step] is one turn of the event loop, in which
    the user does something on the screen that is shown or the answer to a
    request arrives.  The session is what the provider gives at that turn, and
    may be anything.  [MfaFacts] is about the recovery codes. *)
From S2P Require Import Prelude JsNumber JsString JsDecimal Regex Zod Schemas Events Api Bff.
From S2P Require Import BffRoutes ApiClient Basket Purchase.
Local Open Scope js_scope.
Local Open Scope Z_scope.

Module Mfa.
Import ApiClient.ApiClient.

(** [useSession]: whether a user is known, and then whether the factor is on. *)
Record session := { user : option bool; loading : bool }.

(** [useState<z.infer<typeof EnrolStart> | null>] *)
Record enrol_start := { secret : jstr; uri : jstr }.
Definition enrolment_of (v : jsval) : enrol_start := {| secret := Bff.str_of (prop "secret" v); uri := Bff.str_of (prop "uri" v) |}.
Definition codes_of (v : jsval) : list jstr := match prop "recoveryCodes" v with VArr l => map Bff.str_of l | _ => [] end.

Inductive request := Starting | Confirming.

Record state := {
  enrolment : option enrol_start;
  code : jstr;
  recoveryCodes : option (list jstr);
  acknowledged : bool;
  error : option jstr;
  busy : bool;
  flight : option request;
  sent : list Basket.call;
  refreshes : nat
}.

Definition mounted : state := {|
  enrolment := None; code := ""; recoveryCodes := None; acknowledged := false; error := None; busy := false; flight := None; sent := [];
  refreshes := 0 |}.

Definition set_enrolment (x : option enrol_start) (s : state) : state := {|
  enrolment := x; code := code s; recoveryCodes := recoveryCodes s; acknowledged := acknowledged s; error := error s; busy := busy s;
  flight := flight s; sent := sent s; refreshes := refreshes s |}.
Definition set_code (x : jstr) (s : state) : state := {|
  enrolment := enrolment s; code := x; recoveryCodes := recoveryCodes s; acknowledged := acknowledged s; error := error s; busy := busy s;
  flight := flight s; sent := sent s; refreshes := refreshes s |}.
Definition set_codes (x : option (list jstr)) (s : state) : state := {|
  enrolment := enrolment s; code := code s; recoveryCodes := x; acknowledged := acknowledged s; error := error s; busy := busy s;
  flight := flight s; sent := sent s; refreshes := refreshes s |}.
Definition set_acknowledged (x : bool) (s : state) : state := {|
  enrolment := enrolment s; code := code s; recoveryCodes := recoveryCodes s; acknowledged := x; error := error s; busy := busy s;
  flight := flight s; sent := sent s; refreshes := refreshes s |}.
Definition set_error (x : option jstr) (s : state) : state := {|
  enrolment := enrolment s; code := code s; recoveryCodes := recoveryCodes s; acknowledged := acknowledged s; error := x; busy := busy s;
  flight := flight s; sent := sent s; refreshes := refreshes s |}.
Definition refreshed (s : state) : state := {|
  enrolment := enrolment s; code := code s; recoveryCodes := recoveryCodes s; acknowledged := acknowledged s; error := error s; busy := busy s;
  flight := flight s; sent := sent s; refreshes := S (refreshes s) |}.
(** A request goes out: [setError(null); setBusy(true)]. *)
Definition send (r : request) (c : Basket.call) (s : state) : state := {|
  enrolment := enrolment s; code := code s; recoveryCodes := recoveryCodes s; acknowledged := acknowledged s; error := None; busy := true;
  flight := Some r; sent := sent s ++ [c]; refreshes := refreshes s |}.
(** [finally { setBusy(false) }] *)
Definition settle (s : state) : state := {|
  enrolment := enrolment s; code := code s; recoveryCodes := recoveryCodes s; acknowledged := acknowledged s; error := error s; busy := false;
  flight := None; sent := sent s; refreshes := refreshes s |}.

(** ** The requests *)

Definition start_call : Basket.call := {|
  Basket.path := "/api/bff/me/mfa";
  Basket.options := {| schema := BffRoutes.EnrolStart; method := Some ("POST" : jstr); body := VUndef; idempotencyKey := None |} |}.
Definition confirm_call (code : jstr) : Basket.call := {|
  Basket.path := "/api/bff/me/mfa/confirm";
  Basket.options := {| schema := BffRoutes.EnrolComplete; method := Some ("POST" : jstr);
    body := VObj [("code", VStr code)]; idempotencyKey := None |} |}.

(** [err instanceof ApiError ? err.userMessage : fallback] *)
Definition told (fallback : jstr) (e : exn) : jstr := match e with ApiClient.Api err => userMessage err | _ => fallback end.

Definition answered (q : request) (r : result exn jsval) (s : state) : state :=
  settle
    match q, r with
    | Starting, Ok v => set_enrolment (Some (enrolment_of v)) s
    | Starting, Err e => set_error (Some (told "Could not start enrolment." e)) s
    | Confirming, Ok v => set_code "" (set_codes (Some (codes_of v)) s)
    | Confirming, Err e => set_error (Some (told "That code was not accepted." e)) s
    end.

(** ** The screens *)

Inductive screen :=
| Loading
| SignInFirst
| AlreadyOn
| Codes (codes : list jstr) (done : bool)
| SetUp (error : option jstr) (start : bool)
| Enter (error : option jstr) (secret code : jstr) (confirm : bool).

(** The last of each screen says whether its button is enabled. *)
Definition rendered (p : session) (s : state) : screen :=
  if loading p then Loading
  else match user p, recoveryCodes s with
       | None, _ => SignInFirst
       | Some true, None => AlreadyOn
       | Some _, Some codes => Codes codes (acknowledged s)
       | Some false, None =>
           match enrolment s with
           | None => SetUp (error s) (negb (busy s))
           | Some e => Enter (error s) (secret e) (code s) (negb (busy s) && (length (code s) =? 6)%nat)
           end
       end.

(** ** Turns *)

Inductive event :=
| Start
| TypeCode (s : jstr)
| Confirm
| Cancel
| Acknowledge (b : bool)
| Done
| Answered (r : result exn jsval).

Definition step (p : session) (s : state) (e : event) : option state :=
  match e, rendered p s with
  | Start, SetUp _ true => Some (send Starting start_call s)
  | TypeCode t, Enter _ _ _ _ => if (length t <=? 6)%nat then Some (set_code (Purchase.only_digits t) s) else None
  | Confirm, Enter _ _ _ true => Some (send Confirming (confirm_call (code s)) s)
  | Cancel, Enter _ _ _ _ => Some (set_enrolment None s)
  | Acknowledge b, Codes _ _ => Some (set_acknowledged b s)
  | Done, Codes _ true => Some (refreshed (set_codes None s))
  | Answered r, _ => match flight s with Some q => Some (answered q r s) | None => None end
  | _, _ => None
  end.

Fixpoint steps (s : state) (es : list (session * event)) : option state :=
  match es with [] => Some s | (p, e) :: r => match step p s e with Some s' => steps s' r | None => None end end.
End Mfa.

(** * storefront: the recovery codes *)
Module MfaFacts.
Import ApiClient.ApiClient Mfa.

(** What holds between turns. *)
Record Inv (s : state) : Prop := {
  one_request : busy s = true ↔ flight s ≠ None;
  codes_alone : recoveryCodes s ≠ None → flight s = None;
  digits : all_digits (code s);
  sent_calls : Forall (λ c, c = start_call ∨ ∃ t, c = confirm_call t ∧ all_digits t ∧ length t = 6%nat) (sent s)
}.

(** What a screen says of the state. *)
Lemma rendered_state p s :
  match rendered p s with
  | SetUp _ b => recoveryCodes s = None ∧ b = negb (busy s)
  | Enter _ _ _ b => recoveryCodes s = None ∧ b = negb (busy s) && (length (code s) =? 6)%nat
  | Codes l b => recoveryCodes s = Some l ∧ b = acknowledged s
  | _ => True
  end.
Proof. unfold rendered. by destruct (loading p), (user p) as [[]|], (recoveryCodes s), (enrolment s). Qed.

Lemma inv_enrol_mounted : Inv mounted.
Proof. constructor; try done; by constructor. Qed.

Lemma inv_send q c s : Inv s → recoveryCodes s = None →
  (c = start_call ∨ ∃ t, c = confirm_call t ∧ all_digits t ∧ length t = 6%nat) → Inv (send q c s).
Proof.
  intros [Hb Hc Hd Hs] Hn Hcall. constructor; cbn; try done.
  apply Forall_app. split; [done|]. constructor; [done|by constructor].
Qed.

Lemma inv_enrol_answered q r s : Inv s → Inv (answered q r s).
Proof.
  intros [Hb Hc Hd Hs]. destruct q, r; constructor; try done; by constructor.
Qed.

Lemma inv_enrol_step p s e s' : Inv s → step p s e = Some s' → Inv s'.
Proof.
  intros Hi He. pose proof (rendered_state p s) as Hr. unfold step in He.
  destruct e; destruct (rendered p s); repeat dmatch_in He; simplify_eq; try (by apply inv_enrol_answered);
    try (destruct Hi; by constructor).
  - apply inv_send; [done|by destruct Hr|by left].
  - destruct Hi. constructor; try done. apply Forall_forall. intros c Hc. by apply list_elem_of_filter in Hc as [? _].
  - destruct Hr as [Hn Hb]. apply inv_send; [done|done|]. right. exists (code s). split; [done|]. split; [by apply digits|].
    symmetry in Hb. apply andb_true_iff in Hb as [_ Hb]. by apply Nat.eqb_eq.
Qed.

Lemma inv_enrol_steps es : ∀ s s', Inv s → steps s es = Some s' → Inv s'.
Proof.
  induction es as [|[p e] es IH]; intros s s' Hi Hs; cbn in Hs; [by injection Hs as <-|].
  destruct (step p s e) as [t|] eqn:He; [|done]. by apply (IH t); [eapply inv_enrol_step|].
Qed.

(** A turn loses no codes but by the button, once they are acknowledged. *)
Lemma codes_step p s e s' l : Inv s → recoveryCodes s = Some l → step p s e = Some s' →
  recoveryCodes s' = Some l ∨ e = Done ∧ acknowledged s = true.
Proof.
  intros Hi Hl He. pose proof (rendered_state p s) as Hr. assert (flight s = None) as Hf by (apply codes_alone; [done|by rewrite Hl]).
  unfold step in He. rewrite Hf in He. destruct e; destruct (rendered p s); repeat dmatch_in He; simplify_eq; try (by left); try (by destruct Hr as [? _]).
  right. by destruct Hr.
Qed.

(** *** Ticks *)

(** What the box was last made to be. *)
Fixpoint last_tick (es : list (session * event)) : option bool :=
  match es with
  | [] => None
  | (_, Acknowledge b) :: r => Some (default b (last_tick r))
  | _ :: r => last_tick r
  end.

Definition finishes (es : list (session * event)) : Prop := Exists (λ x, x.2 = Done) es.

Lemma acknowledged_step p s e s' :
  step p s e = Some s' → acknowledged s' = match e with Acknowledge b => b | _ => acknowledged s end.
Proof.
  intros He. unfold step in He. destruct e; destruct (rendered p s); repeat dmatch_in He; simplify_eq; try done;
    by destruct r, r0.
Qed.

Lemma acknowledged_steps es : ∀ s t, steps s es = Some t → acknowledged t = default (acknowledged s) (last_tick es).
Proof.
  induction es as [|[p e] es IH]; intros s t Hs; cbn in Hs; [by injection Hs as <-|].
  destruct (step p s e) as [u|] eqn:He; [|done]. rewrite (IH u t Hs), (acknowledged_step _ _ _ _ He).
  by destruct e.
Qed.

Lemma ticked es : last_tick es = Some true → ∃ before p after, es = before ++ (p, Acknowledge true) :: after.
Proof.
  induction es as [|[p e] es IH]; cbn; [done|].
  assert (last_tick es = Some true → ∃ before q after, (p, e) :: es = before ++ (q, Acknowledge true) :: after) as Hr.
  { intros (b & q & a & ->)%IH. by exists ((p, e) :: b), q, a. }
  destruct e as [| | | |b| |]; try exact Hr. destruct (last_tick es) as [b'|]; cbn; intros [= ->]; [by apply Hr|].
  by exists [], p, es.
Qed.

Lemma steps_app es1 es2 s : steps s (es1 ++ es2) = match steps s es1 with Some t => steps t es2 | None => None end.
Proof.
  revert s. induction es1 as [|[p e] es1 IH]; intros s; cbn; [done|]. destruct (step p s e); [apply IH|done].
Qed.

(** Codes last until Done. *)
Lemma codes_steps es : ∀ s t l, Inv s → recoveryCodes s = Some l → steps s es = Some t → ¬ finishes es →
  recoveryCodes t = Some l.
Proof.
  induction es as [|[p e] es IH]; intros s t l Hi Hl Hs Hf; cbn in Hs; [by injection Hs as <-|].
  destruct (step p s e) as [u|] eqn:He; [|done]. destruct (codes_step _ _ _ _ _ Hi Hl He) as [Hu|[-> _]].
  - apply (IH u t l); [by eapply inv_enrol_step|done|done|]. intros ?. apply Hf. by right.
  - destruct Hf. by left.
Qed.

(** A tick without a Done around it was made on these codes. *)
Lemma ticked_these es t l : steps mounted es = Some t → recoveryCodes t = Some l → acknowledged t = true → ¬ finishes es →
  ∃ before p after u, es = before ++ (p, Acknowledge true) :: after ∧ steps mounted before = Some u ∧
    rendered p u = Codes l (acknowledged u).
Proof.
  intros Hs Hl Ha Hf. pose proof (acknowledged_steps _ _ _ Hs) as Hlast. rewrite Ha in Hlast.
  destruct (ticked es) as (b & p & a & ->).
  { destruct (last_tick es) as [[]|]; cbn in Hlast; congruence. }
  rewrite steps_app in Hs. destruct (steps mounted b) as [u|] eqn:Hu; [|done]. cbn [steps] in Hs.
  destruct (step p u (Acknowledge true)) as [v|] eqn:Hv; [|done].
  pose proof (inv_enrol_steps _ _ _ inv_enrol_mounted Hu) as Hiu. pose proof (rendered_state p u) as Hr.
  assert (∃ l' x, rendered p u = Codes l' x) as (l' & x & Hx).
  { unfold step in Hv. destruct (rendered p u); try done. eauto. }
  rewrite Hx in Hr. destruct Hr as [Hl' ->]. exists b, p, a, u. split; [done|]. split; [done|]. rewrite Hx. f_equal.
  assert (recoveryCodes t = Some l') as Ht; [|congruence].
  destruct (codes_step _ _ _ _ _ Hiu Hl' Hv) as [Hvl|[? _]]; [|done].
  apply (codes_steps a v t l'); [by eapply inv_enrol_step|done|done|]. intros Hfa. apply Hf. apply Exists_app. right. by right.
Qed.

(** Codes stay, or the first Done with a ticked box takes them away. *)
Lemma codes_kept es' : ∀ s s' l, Inv s → recoveryCodes s = Some l → steps s es' = Some s' →
  recoveryCodes s' = Some l ∨
  ∃ before p after t, es' = before ++ (p, Done) :: after ∧ steps s before = Some t ∧ recoveryCodes t = Some l ∧
    acknowledged t = true ∧ ¬ finishes before.
Proof.
  induction es' as [|[p e] es' IH]; intros s s' l Hi Hl Hs; cbn in Hs; [injection Hs as <-; by left|].
  destruct (step p s e) as [t|] eqn:He; [|done]. assert (e = Done ∨ e ≠ Done) as [->|Hne] by (destruct e; auto).
  - right. exists [], p, es', s. split; [done|]. split; [done|]. split; [done|]. split; [|by intros ?%Exists_nil].
    unfold step in He. pose proof (rendered_state p s) as Hr. destruct (rendered p s); try done. destruct done; [|done]. by destruct Hr.
  - destruct (codes_step _ _ _ _ _ Hi Hl He) as [Ht|[? _]]; [|done].
    destruct (IH t s' l (inv_enrol_step _ _ _ _ Hi He) Ht Hs) as [?|(b & q & a & u & -> & Hb & Hc & Hd & Hf)]; [by left|right].
    exists ((p, e) :: b), q, a, u. split; [done|]. split; [cbn; by rewrite He|]. split; [done|]. split; [done|].
    intros [?|?]%Exists_cons; done.
Qed.

(** C35. The recovery codes an enrolment ends with stay until Done is pressed with
    the box ticked, whatever else happens, sessions that end and come back
    included; until then they are shown whenever a user is known and the session
    is not loading.  For the first enrolment of the component the tick was made on
    these very codes; for a later one it may be left from an earlier, which Done
    does not take away ([tick_is_kept]). *)
Theorem recovery_codes_are_kept es es' s s' l :
  steps mounted es = Some s → recoveryCodes s = Some l → steps s es' = Some s' →
  (recoveryCodes s' = Some l ∧ ∀ p, loading p = false → user p ≠ None → rendered p s' = Codes l (acknowledged s')) ∨
  ∃ before p after t, es' = before ++ (p, Done) :: after ∧ steps s before = Some t ∧ recoveryCodes t = Some l ∧
    acknowledged t = true ∧
    (¬ finishes es → ∃ before1 q after1 u, es ++ before = before1 ++ (q, Acknowledge true) :: after1 ∧
       steps mounted before1 = Some u ∧ rendered q u = Codes l (acknowledged u)).
Proof.
  intros Hs Hl Hs'. destruct (codes_kept es' s s' l (inv_enrol_steps es _ _ inv_enrol_mounted Hs) Hl Hs')
    as [Hl'|(b & p & a & t & -> & Hb & Ht & Ha & Hf)].
  - left. split; [done|]. intros p Hp Hu. unfold rendered. rewrite Hp, Hl'. by destruct (user p) as [[]|].
  - right. exists b, p, a, t. split_and!; try done. intros Hes. apply (ticked_these _ t); try done.
    + by rewrite steps_app, Hs.
    + intros [?|?]%Exists_app; done.
Qed.

(** One request is under way at a time, and every code that is sent is one
    the route of the BFF takes. *)
Theorem enrolment_asks_properly `{Zod} es s :
  steps mounted es = Some s →
  (busy s = true ↔ flight s ≠ None) ∧
  Forall (λ c, c = start_call ∨ accepts BffRoutes.CodeBody (body (Basket.options c))) (sent s).
Proof.
  intros Hs. destruct (inv_enrol_steps es _ _ inv_enrol_mounted Hs) as [Hb _ _ Hc]. split; [done|].
  eapply Forall_impl; [exact Hc|]. intros c [->|(t & -> & Ht & Hl)]; [by left|right].
  apply accepts_fields; [by apply (bool_decide_unpack _)|]. constructor; [|by constructor]. split; [done|]. apply accepts_string. exists t. split; [done|].
  cbn [forallb check_string]. rewrite andb_true_r. apply matches_lang, lang_rep_chr. by split.
Qed.

(** ** Instances *)

Definition signed_in : session := {| user := Some false; loading := false |}.
Definition gone : session := {| user := None; loading := false |}.
Definition two_codes : jsval := VObj [("recoveryCodes", VArr [VStr "one"; VStr "two"])].
Definition enrolled : list (session * event) := [
  (signed_in, Start); (signed_in, Answered (Ok (VObj [("secret", VStr "K"); ("uri", VStr "otpauth://x")])));
  (signed_in, TypeCode "123456"); (signed_in, Confirm); (gone, Answered (Ok two_codes))].

Lemma recovery_codes_are_kept_witness :
  ∃ s, steps mounted enrolled = Some s ∧ recoveryCodes s = Some ["one" : jstr; "two" : jstr] ∧ rendered gone s = SignInFirst ∧
    rendered signed_in s = Codes ["one" : jstr; "two" : jstr] false.
Proof.
  destruct (steps mounted enrolled) as [s|] eqn:Hs; [|by vm_compute in Hs]. exists s. split; [done|].
  assert (recoveryCodes s = Some ["one" : jstr; "two" : jstr]) as Hl by (by vm_compute in Hs; injection Hs as <-). split; [done|].
  destruct (recovery_codes_are_kept enrolled [] s s _ Hs Hl eq_refl) as [[_ Hr]|(b & p & a & t & Hb & _)]; [|by destruct b].
  vm_compute in Hs. injection Hs as <-. split; [done|]. by apply (Hr signed_in).
Defined.

Lemma enrolment_asks_properly_witness :
  ∃ s, steps mounted enrolled = Some s ∧ length (sent s) = 2%nat ∧
    Forall (λ c, c = start_call ∨ accepts BffRoutes.CodeBody (body (Basket.options c))) (sent s).
Proof.
  destruct (steps mounted enrolled) as [s|] eqn:Hs; [|by vm_compute in Hs]. exists s. split; [done|].
  split; [by vm_compute in Hs; injection Hs as <-|]. by apply (enrolment_asks_properly enrolled).
Defined.

(** The tick of one enrolment is still there in the next: its codes can be left
    without one. *)
Example tick_is_kept :
  rendered signed_in <$> steps mounted (enrolled ++ [(signed_in, Acknowledge true); (signed_in, Done);
    (signed_in, TypeCode "654321"); (signed_in, Confirm); (signed_in, Answered (Ok two_codes))]) =
  Some (Codes ["one" : jstr; "two" : jstr] true).
Proof. vm_compute. reflexivity. Qed.
End MfaFacts.
