(* ===== verification/Account.v ===== *)
(** * storefront: an account (components/checkout/order-history.tsx,
      components/auth/register-form.tsx, components/auth/forgot-password-form.tsx,
      components/auth/change-password-form.tsx, components/cart/coupon-form.tsx,
      components/auth/account-menu.tsx, components/auth/profile-panel.tsx)

    The list of orders and the forms of an account as machines; each [*_step] is
    one turn of the event loop.  What a browser checks of an address before it
    submits a form is left out.  [AccountFacts] is about what the customer is
    shown of an order, and what the forms send. *)
From S2P Require Import Prelude JsNumber JsString Zod Schemas Events Api Bff BffRoutes ApiClient.
From S2P Require Import Admin Basket.
Local Open Scope js_scope.
Local Open Scope Z_scope.

Module Account.
Import ApiClient.ApiClient.

(** ** Orders *)

(** [customerView] is undefined outside the contract. *)
Definition customerView (status : jstr) : option (jstr * jstr) :=
  if decide (status ∈ ["PENDING" : jstr; "STOCK_RESERVED" : jstr; "PAID" : jstr; "STOCK_COMMITTED" : jstr; "COMPENSATING" : jstr])
  then Some ("Processing", "secondary")
  else if decide (status = "CONFIRMED") then Some ("Confirmed", "success")
  else if decide (status = "SHIPPED") then Some ("Shipped", "default")
  else if decide (status = "DELIVERED") then Some ("Delivered", "success")
  else if decide (status = "CANCELLED") then Some ("Cancelled", "destructive")
  else if decide (status = "REFUNDED") then Some ("Refunded", "warning")
  else None.

(** A row of the list; the pictures are those of five lines at most. *)
Record order_row := { o_href : jstr; o_label : jstr; o_tone : jstr; o_pictures : list (option jstr); o_more : option Z; o_track : bool }.

Definition picture (line : jsval) : option jstr := match prop "image" line with VStr (c :: u) => Some (c :: u) | _ => None end.
Definition row_of (order : jsval) : option order_row :=
  let status := Bff.str_of (prop "status" order) in
  let lines := match prop "lines" order with VArr l => l | _ => [] end in
  '(label, tone) ← customerView status;
  Some {| o_href := "/orders/" ++ Bff.str_of (prop "id" order); o_label := label; o_tone := tone;
          o_pictures := map picture (take 5 lines);
          o_more := if (5 <? length lines)%nat then Some (Z.of_nat (length lines) - 5) else None;
          o_track := negb (Api.isTerminal status) && bool_decide (status = "PENDING") |}.

(** [h_user] is the user object of [useSession], by its identity. *)
Record history := {
  h_user : option nat;
  h_orders : option (list jsval);
  h_error : option jstr;
  h_live : option nat;
  h_flights : list nat;
  h_fresh : nat
}.
Definition h_mounted : history := {|
  h_user := None; h_orders := None; h_error := None; h_live := None; h_flights := []; h_fresh := 0 |}.

Definition history_call : Basket.call := {|
  Basket.path := "/api/bff/orders/history";
  Basket.options := {| schema := Api.OrderPage; method := None; body := VUndef; idempotencyKey := None |} |}.

(** The effect, when the user object is another: the request under way is
    cancelled, and with a user another begins. *)
Definition h_effect (u : option nat) (h : history) : history :=
  if decide (u = h_user h) then h
  else match u with
  | None => {| h_user := None; h_orders := h_orders h; h_error := h_error h; h_live := None; h_flights := h_flights h; h_fresh := h_fresh h |}
  | Some _ => {| h_user := u; h_orders := h_orders h; h_error := h_error h; h_live := Some (h_fresh h);
                 h_flights := h_flights h ++ [h_fresh h]; h_fresh := S (h_fresh h) |}
  end.

Definition h_settled (r : result exn jsval) (h : history) : history := {|
  h_user := h_user h;
  h_orders := match r with Ok page => Some (match prop "items" page with VArr l => l | _ => [] end) | Err _ => h_orders h end;
  h_error := match r with
             | Ok _ => h_error h
             | Err (ApiClient.Api e) => Some (userMessage e)
             | Err _ => Some ("Could not load your orders." : jstr)
             end;
  h_live := h_live h; h_flights := h_flights h; h_fresh := h_fresh h |}.
Definition h_drop (i : nat) (h : history) : history := {|
  h_user := h_user h; h_orders := h_orders h; h_error := h_error h; h_live := if decide (h_live h = Some i) then None else h_live h;
  h_flights := filter (λ j, j ≠ i) (h_flights h); h_fresh := h_fresh h |}.

Inductive h_event := Viewer (u : option nat) | Answer (i : nat) (r : result exn jsval).
Definition h_step (h : history) (e : h_event) : option history :=
  match e with
  | Viewer u => Some (h_effect u h)
  | Answer i r =>
      if decide (i ∈ h_flights h) then Some (if decide (h_live h = Some i) then h_settled r (h_drop i h) else h_drop i h) else None
  end.
Fixpoint h_steps (h : history) (es : list h_event) : option history :=
  match es with [] => Some h | e :: r => match h_step h e with Some h' => h_steps h' r | None => None end end.

Inductive h_screen := HSkeleton | HSignIn | HError (text : jstr) | HEmpty | HList (rows : list (option order_row)).
Definition h_rendered (loading : bool) (h : history) : h_screen :=
  if loading then HSkeleton
  else match h_user h, h_error h, h_orders h with
       | None, _, _ => HSignIn
       | _, Some (c :: e), _ => HError (c :: e)
       | _, _, None => HSkeleton
       | _, _, Some [] => HEmpty
       | _, _, Some l => HList (map row_of l)
       end.

(** ** Registering *)

Definition TERMS_VERSION : jstr := "v1".

(** A form: its fields, and how it is with its request. *)
Record status := { s_error : option jstr; s_done : bool; s_submitting : bool; s_sent : list Basket.call }.
Definition idle : status := {| s_error := None; s_done := false; s_submitting := false; s_sent := [] |}.
Definition submitted (c : Basket.call) (s : status) : status := {|
  s_error := None; s_done := s_done s; s_submitting := true; s_sent := s_sent s ++ [c] |}.
(** A failure that is not the server's is thrown, and nothing is shown of it. *)
Definition settled (r : result exn jsval) (s : status) : status := {|
  s_error := match r with Err (ApiClient.Api e) => Some (userMessage e) | _ => s_error s end;
  s_done := match r with Ok _ => true | Err _ => s_done s end;
  s_submitting := false; s_sent := s_sent s |}.

Record register_form := { rf_fullName : jstr; rf_email : jstr; rf_password : jstr; rf_status : status }.
Definition register_call (f : register_form) : Basket.call := {|
  Basket.path := "/api/bff/auth/register";
  Basket.options := {| schema := BffRoutes.AcceptedResponse; method := Some ("POST" : jstr);
    body := VObj [("email", VStr (rf_email f)); ("password", VStr (rf_password f)); ("fullName", VStr (rf_fullName f));
                  ("locale", VStr "en-GB"); ("acceptedTermsVersion", VStr TERMS_VERSION)];
    idempotencyKey := None |} |}.
(** The browser submits fields that are filled in, within their lengths. *)
Definition can_register (f : register_form) : bool :=
  truthy_str (rf_fullName f) && (length (rf_fullName f) <=? 200)%nat && truthy_str (rf_email f) && (length (rf_email f) <=? 254)%nat &&
  (12 <=? length (rf_password f))%nat && (length (rf_password f) <=? 256)%nat && negb (s_submitting (rf_status f)) && negb (s_done (rf_status f)).

Inductive rf_event := RfFullName (s : jstr) | RfEmail (s : jstr) | RfPassword (s : jstr) | RfSubmit | RfAnswer (r : result exn jsval).
Definition rf_step (f : register_form) (e : rf_event) : option register_form :=
  let '{| rf_fullName := n; rf_email := m; rf_password := p; rf_status := s |} := f in
  match e with
  | RfFullName t => if s_done s then None else Some {| rf_fullName := t; rf_email := m; rf_password := p; rf_status := s |}
  | RfEmail t => if s_done s then None else Some {| rf_fullName := n; rf_email := t; rf_password := p; rf_status := s |}
  | RfPassword t => if s_done s then None else Some {| rf_fullName := n; rf_email := m; rf_password := t; rf_status := s |}
  | RfSubmit =>
      if can_register f then Some {| rf_fullName := n; rf_email := m; rf_password := p; rf_status := submitted (register_call f) s |} else None
  | RfAnswer r => if s_submitting s then Some {| rf_fullName := n; rf_email := m; rf_password := p; rf_status := settled r s |} else None
  end.

(** ** A forgotten password *)

Record forgot_form := { ff_email : jstr; ff_sent : bool; ff_submitting : bool; ff_calls : list Basket.call }.
Definition forgot_call (email : jstr) : Basket.call := {|
  Basket.path := "/api/bff/auth/forgot-password";
  Basket.options := {| schema := BffRoutes.AcceptedResponse; method := Some ("POST" : jstr); body := VObj [("email", VStr email)];
    idempotencyKey := None |} |}.
Inductive ff_event := FfEmail (s : jstr) | FfSubmit | FfAnswer (r : result exn jsval).
Definition ff_step (f : forgot_form) (e : ff_event) : option forgot_form :=
  match e with
  | FfEmail t =>
      if ff_sent f then None else Some {| ff_email := t; ff_sent := false; ff_submitting := ff_submitting f; ff_calls := ff_calls f |}
  | FfSubmit =>
      if truthy_str (ff_email f) && negb (ff_submitting f) && negb (ff_sent f)
      then Some {| ff_email := ff_email f; ff_sent := false; ff_submitting := true; ff_calls := ff_calls f ++ [forgot_call (ff_email f)] |}
      else None
  | FfAnswer _ =>
      if ff_submitting f then Some {| ff_email := ff_email f; ff_sent := true; ff_submitting := false; ff_calls := ff_calls f |} else None
  end.

(** ** Another password *)

Record password_form := { pf_current : jstr; pf_next : jstr; pf_confirm : jstr; pf_status : status; pf_refreshes : nat }.
Definition mismatch (f : password_form) : bool := truthy_str (pf_confirm f) && negb (bool_decide (pf_next f = pf_confirm f)).
Definition password_call (f : password_form) : Basket.call := {|
  Basket.path := "/api/bff/me/password";
  Basket.options := {| schema := ZUndefined; method := Some ("POST" : jstr);
    body := VObj [("currentPassword", VStr (pf_current f)); ("newPassword", VStr (pf_next f))]; idempotencyKey := None |} |}.
(** The browser submits fields that are filled in; the button is disabled while
    they differ. *)
Definition can_change (f : password_form) : bool :=
  truthy_str (pf_current f) && (12 <=? length (pf_next f))%nat && (length (pf_next f) <=? 256)%nat && truthy_str (pf_confirm f) &&
  negb (mismatch f) && negb (s_submitting (pf_status f)) && negb (s_done (pf_status f)).

Inductive pf_event := PfCurrent (s : jstr) | PfNext (s : jstr) | PfConfirm (s : jstr) | PfSubmit | PfAnswer (r : result exn jsval).
Definition pf_step (f : password_form) (e : pf_event) : option password_form :=
  let '{| pf_current := c; pf_next := n; pf_confirm := d; pf_status := s; pf_refreshes := k |} := f in
  match e with
  | PfCurrent t => if s_done s then None else Some {| pf_current := t; pf_next := n; pf_confirm := d; pf_status := s; pf_refreshes := k |}
  | PfNext t => if s_done s then None else Some {| pf_current := c; pf_next := t; pf_confirm := d; pf_status := s; pf_refreshes := k |}
  | PfConfirm t => if s_done s then None else Some {| pf_current := c; pf_next := n; pf_confirm := t; pf_status := s; pf_refreshes := k |}
  | PfSubmit =>
      if can_change f
      then Some {| pf_current := c; pf_next := n; pf_confirm := d; pf_status := submitted (password_call f) s; pf_refreshes := k |}
      else None
  | PfAnswer r =>
      if s_submitting s then
        Some match r with
             | Ok _ => {| pf_current := ""; pf_next := ""; pf_confirm := ""; pf_status := settled r s; pf_refreshes := S k |}
             | Err _ => {| pf_current := c; pf_next := n; pf_confirm := d; pf_status := settled r s; pf_refreshes := k |}
             end
      else None
  end.
Fixpoint pf_steps (f : password_form) (es : list pf_event) : option password_form :=
  match es with [] => Some f | e :: r => match pf_step f e with Some f' => pf_steps f' r | None => None end end.
Definition pf_mounted : password_form := {| pf_current := ""; pf_next := ""; pf_confirm := ""; pf_status := idle; pf_refreshes := 0 |}.

(** ** A coupon *)

Record coupon_form := { cf_code : jstr; cf_submitting : bool }.
Inductive cf_event := CfType (s : jstr) | CfSubmit | CfApplied (ok : bool).
(** With the change it asks the basket for. *)
Definition cf_step (loading : bool) (f : coupon_form) (e : cf_event) : option (coupon_form * option Basket.mutation) :=
  match e with
  | CfType s => Some ({| cf_code := toUpperCase s; cf_submitting := cf_submitting f |}, None)
  | CfSubmit =>
      if cf_submitting f || loading then None
      else match trim (cf_code f) with
           | [] => Some (f, None)
           | code => Some ({| cf_code := cf_code f; cf_submitting := true |}, Some (Basket.ApplyCoupon code))
           end
  | CfApplied ok => if cf_submitting f then Some ({| cf_code := if ok then "" else cf_code f; cf_submitting := false |}, None) else None
  end.

Definition rejectionCopy (reasonCode : jstr) : jstr :=
  let coded c := bool_decide (reasonCode = c) in
  if coded "EXPIRED" then "this code has expired"
  else if coded "NOT_FOUND" then "we do not recognise this code"
  else if coded "MINIMUM_NOT_MET" then "your basket is below the minimum for this code"
  else if coded "ALREADY_USED" then "this code has already been used"
  else if coded "NOT_ELIGIBLE" then "this code does not apply to anything in your basket"
  else if coded "USAGE_LIMIT" then "this code has reached its usage limit"
  else "this code cannot be applied".

(** ** The menu and the profile *)

(** [AccountMenu]: the link to sign in, or a menu, with a link for the staff. *)
Inductive menu := SignInLink | Menu (fullName email : jstr) (dashboard : bool).
Definition AccountMenu (loading : bool) (user : option jsval) : menu :=
  match user with
  | Some u => if loading then SignInLink
              else Menu (Bff.str_of (prop "fullName" u)) (Bff.str_of (prop "email" u)) (Admin.has_role "ADMIN" u || Admin.has_role "OPS" u)
  | None => SignInLink
  end.

Inductive profile := PSkeleton | PSignIn | Profile (fullName email : jstr) (verified : bool) (locale : jstr) (two_factor : jstr) (nudge : bool).
Definition ProfilePanel (loading : bool) (user : option jsval) : profile :=
  if loading then PSkeleton
  else match user with
       | None => PSignIn
       | Some u =>
           let mfa := to_boolean (prop "mfaEnabled" u) in
           Profile (Bff.str_of (prop "fullName" u)) (Bff.str_of (prop "email" u)) (to_boolean (prop "emailVerified" u))
             (Bff.str_of (prop "locale" u)) (if mfa then "On" else "Off") (negb mfa)
       end.
End Account.

(** * storefront: orders as the customer sees them, and passwords *)
Module AccountFacts.
Import ApiClient.ApiClient Account.

(** ** Orders *)

(** Every order of the contract has a label; it is Processing exactly while
    the order may still change on its own, and only a pending order is offered
    to be tracked or cancelled. *)
Theorem processing_until_terminal s order :
  s ∈ Api.order_statuses → prop "status" order = VStr s →
  ∃ row, row_of order = Some row ∧ (o_label row = "Processing" ↔ Api.isTerminal s = false) ∧ (o_track row = true ↔ s = "PENDING").
Proof.
  intros Hs Ho. unfold row_of. rewrite Ho. cbn [Bff.str_of]. unfold Api.order_statuses in Hs.
  repeat (apply elem_of_cons in Hs as [->|Hs]; [eexists; split; [vm_compute; reflexivity|]; cbn [o_label o_track]; vm_compute; by repeat split|]).
  by apply not_elem_of_nil in Hs.
Qed.

(** Between turns: the live request is under way, for the present user. *)
Record Inv (h : history) : Prop := {
  live_flies i : h_live h = Some i → i ∈ h_flights h ∧ h_user h ≠ None ∧ S i = h_fresh h;
  flights_old i : i ∈ h_flights h → (i < h_fresh h)%nat;
  nobody : h_user h = None → h_live h = None
}.

Lemma inv_h_step h e h' : Inv h → h_step h e = Some h' → Inv h'.
Proof.
  intros [Hl Hf Hn] Hs. destruct e as [u|i r]; cbn in Hs.
  - injection Hs as <-. unfold h_effect. destruct (decide _); [by constructor|]. destruct u as [u|]; constructor; cbn; try done.
    + intros i [= <-]. split; [|by split]. rewrite elem_of_app, list_elem_of_singleton. by right.
    + intros i. rewrite elem_of_app, list_elem_of_singleton. intros [Hi%Hf| ->]; lia.
  - destruct (decide (i ∈ h_flights h)); [|done].
    assert (Inv (h_drop i h)) as [Hl' Hf' Hn'].
    { constructor; cbn.
      - intros j. destruct (decide (h_live h = Some i)); [done|]. intros Hj. destruct (Hl j Hj) as (Hi & ? & ?). split; [|done].
        apply list_elem_of_filter. split; [|done]. intros ->. done.
      - intros j [_ Hj]%list_elem_of_filter. by apply Hf.
      - intros Hu. rewrite (Hn Hu). by destruct (decide _). }
    destruct (decide (h_live h = Some i)); injection Hs as <-; by constructor.
Qed.

Lemma inv_h_steps es : ∀ h h', Inv h → h_steps h es = Some h' → Inv h'.
Proof.
  induction es as [|e es IH]; intros h h' Hi Hs; cbn in Hs; [by injection Hs as <-|].
  destruct (h_step h e) as [t|] eqn:He; [|done]. by apply (IH t); [eapply inv_h_step|].
Qed.

Lemma inv_h_mounted : Inv h_mounted.
Proof. constructor; cbn; try done. intros i Hi. by apply not_elem_of_nil in Hi. Qed.

Definition succeeds (e : h_event) : Prop := match e with Answer _ (Err _) => False | _ => True end.

Lemma error_step h e h' : succeeds e → h_step h e = Some h' → h_error h' = h_error h.
Proof.
  intros He Hs. destruct e as [u|i [page|]]; cbn in Hs; [| |done].
  - injection Hs as <-. unfold h_effect. destruct (decide _); [done|]. by destruct u.
  - destruct (decide _); [|done]. injection Hs as <-. by destruct (decide _).
Qed.

(** The orders that are shown are those of the present user: an answer
    changes them only if it is that of the newest request, begun for the user
    there is. But a failure outlives what follows it: once one is shown, no
    number of loads that succeed, whoever signs in, shows the orders again. *)
Theorem history_is_the_viewers es h :
  h_steps h_mounted es = Some h →
  (∀ i r h', h_step h (Answer i r) = Some h' → h_orders h' ≠ h_orders h ∨ h_error h' ≠ h_error h →
     h_user h ≠ None ∧ S i = h_fresh h ∧ h_user h' = h_user h) ∧
  (∀ c e es' h', h_error h = Some (c :: e) → Forall succeeds es' → h_steps h es' = Some h' →
     ∀ loading rows, h_rendered loading h' ≠ HList rows).
Proof.
  intros Hs. pose proof (inv_h_steps es _ _ inv_h_mounted Hs) as [Hl Hf Hn]. split.
  - intros i r h' He Hne. cbn in He. destruct (decide (i ∈ h_flights h)); [|done].
    destruct (decide (h_live h = Some i)) as [Hi|]; injection He as <-; [|by destruct Hne]. by destruct (Hl i Hi) as (_ & ? & ?).
  - clear. intros c e es'. revert h. induction es' as [|e' es' IH]; intros h h' He Hes Hs; cbn in Hs.
    + injection Hs as <-. intros [] rows; unfold h_rendered; rewrite ?He; [done|]. by destruct (h_user h).
    + apply Forall_cons in Hes as [Hok Hes]. destruct (h_step h e') as [t|] eqn:Ht; [|done].
      apply (IH t); [|done|done]. by rewrite (error_step _ _ _ Hok Ht).
Qed.

(** ** Passwords *)

(** The request for a new password that was typed in both fields. *)
Definition asked_for `{Zod} (seen : list pf_event) (c : Basket.call) : Prop :=
  ∃ now new, body (Basket.options c) = VObj [("currentPassword", VStr now); ("newPassword", VStr new)] ∧
    PfNext new ∈ seen ∧ PfConfirm new ∈ seen ∧
    ((length now ≤ 1024)%nat → accepts BffRoutes.ChangePasswordRequest (body (Basket.options c))).

Record Typed `{Zod} (seen : list pf_event) (f : password_form) : Prop := {
  next_typed : pf_next f = [] ∨ PfNext (pf_next f) ∈ seen;
  confirm_typed : pf_confirm f = [] ∨ PfConfirm (pf_confirm f) ∈ seen;
  sent_typed : Forall (asked_for seen) (s_sent (pf_status f))
}.

Lemma typed_mono `{Zod} seen seen' f : seen ⊆ seen' → Typed seen f → Typed seen' f.
Proof.
  intros Hs [Hn Hc Ha]. constructor; [set_solver..|]. eapply Forall_impl; [exact Ha|].
  intros c (now & new & ? & ? & ? & ?). exists now, new. split; [done|]. split; [by apply Hs|]. split; [by apply Hs|done].
Qed.

Lemma change_is_typed `{Zod} seen f : Typed seen f → can_change f = true → asked_for seen (password_call f).
Proof.
  intros [Hn Hc _] Hok. unfold can_change, mismatch in Hok. repeat (apply andb_true_iff in Hok as [Hok ?]).
  match goal with H : negb (truthy_str (pf_confirm f) && _) = true |- _ => rename H into Hm end.
  match goal with H : truthy_str (pf_confirm f) = true |- _ => rename H into Hd; rewrite Hd in Hm end.
  cbn [andb] in Hm. apply negb_true_iff, negb_false_iff, bool_decide_eq_true in Hm.
  match goal with H : (12 <=? _)%nat = true |- _ => apply Nat.leb_le in H end.
  match goal with H : (_ <=? 256)%nat = true |- _ => apply Nat.leb_le in H end.
  assert (∀ s, (1 ≤ length s ≤ 1024)%nat → accepts (ZString [SMin 1; SMax 1024]) (VStr s)) as Hacc.
  { intros s Hl. apply accepts_string. exists s. split; [done|]. cbn [forallb check_string]. rewrite andb_true_r. apply andb_true_iff.
    split; apply Nat.leb_le; lia. }
  exists (pf_current f), (pf_next f). split; [done|]. split; [|split].
  - destruct Hn as [Hn|]; [rewrite Hn in *; cbn in *; lia|done].
  - rewrite Hm. destruct Hc as [Hc|]; [by rewrite Hc in Hd|done].
  - intros Hl. apply accepts_fields; [by apply (bool_decide_unpack _)|]. repeat constructor; apply Hacc; [|lia].
    split; [|done]. destruct (pf_current f); [done|cbn; lia].
Qed.

Lemma typed_step `{Zod} seen f e f' : Typed seen f → pf_step f e = Some f' → Typed (seen ++ [e]) f'.
Proof.
  intros Ht Hs. assert (∀ f, Typed seen f → Typed (seen ++ [e]) f) as Hm by (intros g; apply typed_mono; set_solver).
  pose proof (change_is_typed seen f Ht) as Hc. destruct f as [c n d s k]. destruct Ht as [Hn Hd Ha]. cbn in Hn, Hd, Ha.
  destruct e; cbn in Hs.
  1-3: destruct (s_done s); [done|]; injection Hs as <-.
  - apply Hm. by constructor.
  - destruct (Hm _ (Build_Typed _ seen {| pf_current := c; pf_next := n; pf_confirm := d; pf_status := s; pf_refreshes := k |} Hn Hd Ha)).
    constructor; [right; set_solver|done..].
  - destruct (Hm _ (Build_Typed _ seen {| pf_current := c; pf_next := n; pf_confirm := d; pf_status := s; pf_refreshes := k |} Hn Hd Ha)).
    constructor; [done|right; set_solver|done].
  - destruct (can_change _) eqn:Hok; [|done]. injection Hs as <-. apply Hm. constructor; [done..|]. cbn.
    apply Forall_app. split; [done|]. constructor; [by apply Hc|constructor].
  - destruct (s_submitting s); [|done]. injection Hs as <-. apply Hm. destruct r; constructor; try done; by left.
Qed.

Lemma typed_steps `{Zod} es : ∀ seen f f', Typed seen f → pf_steps f es = Some f' → Typed (seen ++ es) f'.
Proof.
  induction es as [|e es IH]; intros seen f f' Ht Hs; cbn in Hs; [injection Hs as <-; by rewrite app_nil_r|].
  destruct (pf_step f e) as [g|] eqn:He; [|done].
  replace (seen ++ e :: es) with ((seen ++ [e]) ++ es) by (by rewrite <- app_assoc). apply (IH _ g); [by eapply typed_step|done].
Qed.

(** Whatever is typed in whatever order, a new password that is sent was typed
    in both fields, and the request is one the route of the BFF takes when the
    present password is not longer than it allows. *)
Theorem new_password_is_typed_twice `{Zod} es f :
  pf_steps pf_mounted es = Some f → Forall (asked_for es) (s_sent (pf_status f)).
Proof. intros Hs. apply (typed_steps es [] pf_mounted f); [|done]. constructor; [by left..|constructor]. Qed.

(** ** Instances *)

Lemma processing_until_terminal_witness :
  ("PAID" : jstr) ∈ Api.order_statuses ∧
  ∃ row, row_of (VObj [("id", VStr "ord_1"); ("status", VStr "PAID")]) = Some row ∧ o_label row = "Processing" ∧ o_track row = false.
Proof.
  assert (("PAID" : jstr) ∈ Api.order_statuses) as Hs by (by apply (bool_decide_unpack _)). split; [exact Hs|].
  destruct (processing_until_terminal "PAID" (VObj [("id", VStr "ord_1"); ("status", VStr "PAID")]) Hs eq_refl) as (row & Hr & Hp & Ht).
  exists row. split; [exact Hr|]. split; [by apply Hp|]. destruct (o_track row); [|done]. pose proof (proj1 Ht eq_refl) as E. by vm_compute in E.
Defined.

(** The profile is fetched again after a load that failed; its orders arrive, and
    are not shown. *)
Definition a_failure : exn := ApiClient.Api (api_error 502 "UPSTREAM_UNAVAILABLE" "req-1" "").
Definition no_orders : jsval := VObj [("items", VArr [])].

Lemma history_is_the_viewers_witness :
  ∃ h h', h_steps h_mounted [Viewer (Some 1%nat); Answer 0 (Err a_failure)] = Some h ∧
    h_steps h [Viewer (Some 2%nat); Answer 1 (Ok (VObj [("items", VArr [VObj []])]))] = Some h' ∧
    h_orders h' = Some [VObj []] ∧ ∀ rows, h_rendered false h' ≠ HList rows.
Proof.
  destruct (h_steps h_mounted [Viewer (Some 1%nat); Answer 0 (Err a_failure)]) as [h|] eqn:Hs; [|by vm_compute in Hs].
  destruct (h_steps h [Viewer (Some 2%nat); Answer 1 (Ok (VObj [("items", VArr [VObj []])]))]) as [h'|] eqn:Hs'; cycle 1.
  { vm_compute in Hs. injection Hs as <-. by vm_compute in Hs'. }
  exists h, h'. split; [done|]. split; [done|]. split.
  - vm_compute in Hs. injection Hs as <-. vm_compute in Hs'. by injection Hs' as <-.
  - intros rows. destruct (history_is_the_viewers _ h Hs) as [_ He].
    refine (He _ _ _ h' _ _ Hs' false rows); [vm_compute in Hs; injection Hs as <-; vm_compute; reflexivity|by repeat constructor].
Defined.

Definition changing : list pf_event := [
  PfCurrent "present"; PfNext "a long new one"; PfConfirm "a long new"; PfConfirm "a long new one"; PfSubmit].
Lemma new_password_is_typed_twice_witness :
  ∃ f, pf_steps pf_mounted changing = Some f ∧ length (s_sent (pf_status f)) = 1%nat ∧ Forall (asked_for changing) (s_sent (pf_status f)).
Proof.
  destruct (pf_steps pf_mounted changing) as [f|] eqn:Hs; [|by vm_compute in Hs]. exists f. split; [done|].
  split; [by vm_compute in Hs; injection Hs as <-|]. by apply (new_password_is_typed_twice changing).
Defined.
End AccountFacts.
