(* ===== verification/Controls.v ===== *)
(** * admin: what the controls of the tables do to the outside

    Each control (components/price-control.tsx, components/dlq-actions.tsx,
    components/product-status-control.tsx) is a machine: [step] is one turn of
    the event loop, in which the operator types or presses, or the answer to a
    request arrives.  A turn lists what it does to the outside: a request, an
    alert, a refresh.  An answer is the status of the response, or nothing when
    there is none.  The menu of statuses of a product is the first of them. *)
From S2P Require Import Prelude JsNumber JsString Zod BffRoutes.
Local Open Scope js_scope.
Local Open Scope Z_scope.

Module Controls.

Record request := { r_method : jstr; r_path : jstr; r_body : jsval }.
Inductive output := Sent (q : request) | Alert (text : jstr) | Refresh.

(** [response.ok] *)
Definition is_ok (answer : option Z) : bool := match answer with Some s => (200 <=? s) && (s <=? 299) | None => false end.
End Controls.

(** ** The status of a product *)

Module Status.
Import Controls.Controls.

Definition STATUSES : list jstr := ["DRAFT"; "ACTIVE"; "ARCHIVED"; "DISCONTINUED"].
Record props := { productId : jstr; status : jstr; version : num }.

Definition conflict : jstr := "Someone else saved this product while you were looking at it. Refreshing so you can see their change first.".
Definition not_changed : jstr := "Could not change the status. See the console for detail.".

(** [change] up to its await, from [busy] to [busy]. *)
Definition change (p : props) (next : jstr) (busy : bool) : bool * list output :=
  if decide (next = status p) then (busy, [])
  else match encodeURIComponent (productId p) with
       | Ok e => (true, [Sent {| r_method := "PATCH"; r_path := "/api/admin/catalog/" ++ e;
                                 r_body := VObj [("status", VStr next); ("version", VNum (version p))] |}])
       | Err _ => (false, [Alert not_changed])
       end.

(** The rest of it. *)
Definition answered (a : option Z) : bool * list output :=
  (false, if decide (a = Some 409) then [Alert conflict; Refresh] else if is_ok a then [Refresh] else [Alert not_changed]).

Inductive event := Select (next : jstr) | Answered (answer : option Z).

Definition step (p : props) (e : event) (busy : bool) : option (bool * list output) :=
  match e with
  | Select next => if negb busy && bool_decide (next ∈ STATUSES) && negb (bool_decide (next = status p)) then Some (change p next busy) else None
  | Answered a => if busy then Some (answered a) else None
  end.
End Status.
