(* ===== verification/PriceControl.v ===== *)
(** * admin: the price of a variant (components/price-control.tsx)

    The editor of a price: the text typed, the reason, and the request.

    [PriceFacts]: what is typed is what is sent. *)
From Stdlib Require Import QArith Lqa.
From S2P Require Import Prelude JsNumber JsString JsDecimal Regex Zod Schemas Picker BffRoutes.
From S2P Require Import AdminRoutes Controls.
Local Open Scope js_scope.
Local Open Scope Z_scope.

Module Price.
Import Controls.Controls.

Record props := { productId : jstr; sku : jstr; price : Picker.money; listPrice : option Picker.money }.
Record control := { editing : bool; amount : jstr; reason : jstr; busy : bool }.

Definition mounted (p : props) : control := {|
  editing := false; amount := default [] (toFixed 2 (ndiv (Picker.amount (price p)) (jint 100))); reason := ""; busy := false |}.

Definition set_editing (b : bool) (c : control) : control := {| editing := b; amount := amount c; reason := reason c; busy := busy c |}.
Definition set_amount (s : jstr) (c : control) : control := {| editing := editing c; amount := s; reason := reason c; busy := busy c |}.
Definition set_reason (s : jstr) (c : control) : control := {| editing := editing c; amount := amount c; reason := s; busy := busy c |}.
Definition set_busy (b : bool) (c : control) : control := {| editing := editing c; amount := amount c; reason := reason c; busy := b |}.

Definition above_reference : jstr :=
  "The new price is above the reference price. Lower the reference price first, or a struck-through " ++ [34%N] ++ "was" ++ [34%N] ++
  " figure would be misleading.".
Definition not_changed : jstr := "Could not change the price. See the console for detail.".

Definition is_finite (x : num) : bool := match x with Fin _ => true | _ => false end.

Definition body (p : props) (minorUnits : num) (c : control) : jsval := VObj [
  ("sku", VStr (sku p)); ("price", VNum minorUnits);
  ("listPrice", match listPrice p with Some m => VNum (Picker.amount m) | None => VNull end);
  ("currency", VStr (Picker.currency (price p))); ("reason", VStr (reason c))].

(** [save] up to its await. *)
Definition save (p : props) (c : control) : control * list output :=
  let parsed := parseFloat (amount c) in
  if negb (is_finite parsed) || nlt parsed (jint 0) then (c, [])
  else
    let minorUnits := nround (nmul parsed (jint 100)) in
    if match listPrice p with Some m => nlt (Picker.amount m) minorUnits | None => false end then (c, [Alert above_reference])
    else match encodeURIComponent (productId p) with
         | Ok e => (set_busy true c,
             [Sent {| r_method := "POST"; r_path := "/api/admin/catalog/" ++ e ++ "/price"; r_body := body p minorUnits c |}])
         | Err _ => (set_busy false c, [Alert not_changed])
         end.

Inductive event := Edit | TypeAmount (s : jstr) | TypeReason (s : jstr) | Save | Cancel | Answered (answer : option Z).

(** The button is enabled. *)
Definition can_save (c : control) : bool := negb (busy c) && (3 <=? length (trim (reason c)))%nat.

Definition step (p : props) (e : event) (c : control) : option (control * list output) :=
  match e with
  | Edit => if editing c then None else Some (set_editing true c, [])
  | TypeAmount s => if editing c then Some (set_amount s c, []) else None
  | TypeReason s => if editing c then Some (set_reason s c, []) else None
  | Save => if editing c && can_save c then Some (save p c) else None
  | Cancel => if editing c then Some (set_editing false c, []) else None
  | Answered a =>
      if busy c then
        Some (if is_ok a then (set_busy false (set_reason "" (set_editing false c)), [Refresh])
              else (set_busy false c, [Alert not_changed]))
      else None
  end.
End Price.

Module PriceFacts.
Import Controls.Controls.

(** ** Prices *)

Lemma not_negative c : 0 ≤ c < 2 ^ 40 → Price.is_finite (rnd (inject_Z c / inject_Z 100)) = true ∧
  nlt (rnd (inject_Z c / inject_Z 100)) (jint 0) = false.
Proof.
  intros Hc. destruct (cents_near c Hc) as (r & -> & Hr & _). split; [done|]. cbn. apply negb_false_iff. by apply Qle_bool_iff.
Qed.

Section Price.
Context `{Zod} (p : Price.props) (e : jstr).
Hypothesis Hid : encodeURIComponent (Price.productId p) = Ok e.

Definition sent (cents : Z) (c : Price.control) : request := {|
  r_method := "POST"; r_path := "/api/admin/catalog/" ++ e ++ "/price"; r_body := Price.body p (jint cents) c |}.

(** What is under the reference price. *)
Definition allowed (cents : Z) : Prop :=
  match Price.listPrice p with Some m => ∃ l, Picker.amount m = jint l ∧ cents ≤ l | None => True end.

Lemma save_cents cents c : 0 ≤ cents < 2 ^ 40 → allowed cents → parseFloat (Price.amount c) = rnd (inject_Z cents / inject_Z 100) →
  Price.save p c = (Price.set_busy true c, [Sent (sent cents c)]).
Proof.
  intros Hc Ha Hp. unfold Price.save. rewrite Hp, cents_back by done. destruct (not_negative cents Hc) as [-> ->]. cbn [negb orb].
  unfold allowed in Ha. assert (match Price.listPrice p with Some m => nlt (Picker.amount m) (jint cents) | None => false end = false) as ->.
  { destruct (Price.listPrice p) as [m|]; [|done]. destruct Ha as (l & -> & Hl). rewrite nlt_jint. by destruct (Z.ltb_spec l cents); [lia|]. }
  by rewrite Hid.
Qed.

Lemma reason_bound cents c : accepts AdminRoutes.PriceBody (r_body (sent cents c)) → (length (Price.reason c) ≤ 200)%nat.
Proof.
  intros (kvs & [= <-] & Hf & _)%accepts_object. specialize (Hf "reason" _ ltac:(do 4 right; by left)).
  apply accepts_string in Hf as (t & [= <-] & Hc). cbn in Hc. rewrite !andb_true_iff, !Nat.leb_le in Hc. tauto.
Qed.

(** C33. A price typed with two decimals is sent in minor units, as it was typed,
    when it is not above the reference price (or there is none): the conversions
    by binary64 lose nothing; above the reference price nothing is sent and the
    page says why.  For a product whose SKU, currency and reference price the
    route of prices accepts, it accepts the request exactly when the reason has
    at most 200 characters, which the editor does not see to.  And the price the
    editor opens with, saved as it is, is the present price. *)
Theorem price_typed_is_price_sent c w f :
  Price.editing c = true → Price.can_save c = true →
  Price.amount c = w ++ 46%N :: f → all_digits w → all_digits f → w ≠ [] → length f = 2%nat →
  let cents := digits_value (w ++ f) in
  cents < 2 ^ 40 →
  (allowed cents → Price.step p Price.Save c = Some (Price.set_busy true c, [Sent (sent cents c)])) ∧
  (∀ m l, Price.listPrice p = Some m → Picker.amount m = jint l → l < cents →
     Price.step p Price.Save c = Some (c, [Alert Price.above_reference])) ∧
  ((1 ≤ length (Price.sku p) ≤ 64)%nat → matches (rep 3 Schemas.upper) (Picker.currency (Price.price p)) = true →
   (∀ m, Price.listPrice p = Some m → ∃ l, Picker.amount m = jint l ∧ 0 ≤ l) →
   accepts AdminRoutes.PriceBody (r_body (sent cents c)) ↔ (length (Price.reason c) ≤ 200)%nat) ∧
  (∀ now, 0 ≤ now < 2 ^ 40 → Picker.amount (Price.price p) = jint now → allowed now →
     Price.save p (Price.set_amount (Price.amount (Price.mounted p)) c) =
       (Price.set_busy true (Price.set_amount (cents_text now) c), [Sent (sent now (Price.set_amount (cents_text now) c))])).
Proof.
  intros He Hs Ha Hw Hf Hn Hl cents Hc.
  assert (0 ≤ cents) as H0 by (apply digits_value_bound, Forall_app; done).
  assert (parseFloat (Price.amount c) = rnd (inject_Z cents / inject_Z 100)) as Hp by (rewrite Ha; by apply parseFloat_places).
  split; [|split; [|split]].
  - intros Hal. cbn [Price.step]. rewrite He, Hs. cbn [andb]. f_equal. apply save_cents; [lia|done|done].
  - intros m l Hm Hml Hlt. cbn [Price.step]. rewrite He, Hs. cbn [andb]. f_equal. unfold Price.save.
    rewrite Hp, cents_back, Hm, Hml, nlt_jint, (proj2 (Z.ltb_lt _ _) Hlt) by lia.
    by destruct (not_negative cents ltac:(lia)) as [-> ->].
  - intros Hsku Hcur Hlist. split; [by apply reason_bound|]. intros Hrs. unfold Price.can_save in Hs. apply andb_true_iff in Hs as [_ Hr%Nat.leb_le].
    pose proof (trim_length (Price.reason c)) as Ht.
    assert (∀ s a b, (a ≤ length s ≤ b)%nat → accepts (ZString [SMin a; SMax b]) (VStr s)) as Hstr.
    { intros s a b Hb. apply accepts_string. exists s. split; [done|]. cbn.
      by destruct (Nat.leb_spec a (length s)), (Nat.leb_spec (length s) b); try lia. }
    assert (∀ z, 0 ≤ z → accepts (Schemas.int_min 0) (VNum (jint z))) as Hint.
    { intros z Hz. apply accepts_number. exists (jint z). split; [done|]. split; [done|]. cbn [forallb check_number].
      rewrite is_integer_jint, nle_jint. by destruct (Z.leb_spec 0 z); [|lia]. }
    apply accepts_fields; [apply nodup_keys; by vm_compute|]. repeat constructor; cbn [fst snd].
    + by apply Hstr.
    + by apply Hint.
    + destruct (Price.listPrice p) as [m|]; [|apply accepts_meaning; by eexists].
      destruct (Hlist m eq_refl) as (l & -> & Hl0). specialize (Hint l Hl0). rewrite accepts_meaning in *. destruct Hint as [x Hx].
      exists x. exact Hx.
    + apply accepts_string. eexists. split; [done|]. cbn [forallb check_string]. by rewrite Hcur.
    + apply Hstr. lia.
  - intros now Hnow Hpr Han. assert (Price.amount (Price.mounted p) = cents_text now) as ->.
    { cbn. rewrite Hpr, toFixed_cents by done. done. }
    apply save_cents; [done|done|]. cbn. apply parseFloat_cents. lia.
Qed.
End Price.
End PriceFacts.
