(* ===== verification/DlqControl.v ===== *)
(** * admin: the actions on a dead letter (components/dlq-actions.tsx)

    Replaying, and discarding with its confirmation.

    [DlqFacts]: what it takes to discard a message. *)
From S2P Require Import Prelude JsNumber JsString Zod Cart CartJson BffRoutes Controls.
Local Open Scope js_scope.
Local Open Scope Z_scope.

Module Dlq.
Import Controls.Controls.

Record props := { messageId : jstr; eventId : jstr }.
Inductive action := replay | discard.
Record control := { confirming : bool; typed : jstr; busy : option action; pending : bool }.

Definition mounted : control := {| confirming := false; typed := ""; busy := None; pending := false |}.
Definition action_name (a : action) : jstr := match a with replay => "replay" | discard => "discard" end.

Definition set_confirming (b : bool) (t : jstr) (c : control) : control := {| confirming := b; typed := t; busy := busy c; pending := pending c |}.
Definition set_busy (b : option action) (c : control) : control := {| confirming := confirming c; typed := typed c; busy := b; pending := pending c |}.
Definition set_pending (b : bool) (c : control) : control := {| confirming := confirming c; typed := typed c; busy := busy c; pending := b |}.

Definition failed (a : action) : jstr := "Could not " ++ action_name a ++ " this message. See the console for detail.".

(** [act] up to its await. *)
Definition act (p : props) (a : action) (c : control) : control * list output :=
  match encodeURIComponent (messageId p) with
  | Ok e => (set_busy (Some a) c,
      [Sent {| r_method := "POST"; r_path := "/api/admin/dlq/" ++ e ++ "/" ++ action_name a; r_body := VUndef |}])
  | Err _ => (set_busy None c, [Alert (failed a)])
  end.

Inductive event := Replay | Ask | Type_ (s : jstr) | Discard | Cancel | Answered (answer : option Z) | Settled.

Definition idle (c : control) : bool := match busy c with None => true | Some _ => false end.
Definition can_discard (p : props) (c : control) : bool :=
  startsWith (typed c) (eventId p) && (8 <=? length (typed c))%nat && idle c.

Definition step (p : props) (e : event) (c : control) : option (control * list output) :=
  match e with
  | Replay => if negb (confirming c) && idle c && negb (pending c) then Some (act p replay c) else None
  | Ask => if negb (confirming c) && idle c && negb (pending c) then Some (set_confirming true (typed c) c, []) else None
  | Type_ s => if confirming c then Some (set_confirming true s c, []) else None
  | Discard => if confirming c && can_discard p c then Some (act p discard c) else None
  | Cancel => if confirming c then Some (set_confirming false "" c, []) else None
  | Answered a =>
      match busy c with
      | Some b => Some (if is_ok a then (set_busy None (set_pending true (set_confirming false "" c)), [Refresh])
                        else (set_busy None c, [Alert (failed b)]))
      | None => None
      end
  | Settled => if pending c then Some (set_pending false c, []) else None
  end.

Fixpoint steps (p : props) (es : list event) (c : control) : option (control * list output) :=
  match es with
  | [] => Some (c, [])
  | e :: r =>
      match step p e c with
      | Some (c', o) => match steps p r c' with Some (c'', os) => Some (c'', o ++ os) | None => None end
      | None => None
      end
  end.
End Dlq.

Module DlqFacts.
Import Controls.Controls.

(** ** Dead letters *)

Lemma starts_self s t : startsWith s (s ++ t) = true.
Proof. induction s as [|c s IH]; [done|]. cbn. by rewrite N.eqb_refl. Qed.

Lemma act_sends p a c q : Sent q ∈ (Dlq.act p a c).2 → ∃ e, encodeURIComponent (Dlq.messageId p) = Ok e ∧
  r_path q = "/api/admin/dlq/" ++ e ++ "/" ++ Dlq.action_name a.
Proof.
  unfold Dlq.act. destruct (encodeURIComponent _) as [e|m]; cbn; intros Hq%list_elem_of_singleton; [|done].
  injection Hq as ->. by exists e.
Qed.

(** The control sends nothing but the request of the button that was pressed. *)
Lemma dlq_sends p e c c' os q : Dlq.step p e c = Some (c', os) → Sent q ∈ os →
  ∃ t a, encodeURIComponent (Dlq.messageId p) = Ok t ∧ r_path q = "/api/admin/dlq/" ++ t ++ "/" ++ Dlq.action_name a ∧
    match a with Dlq.replay => e = Dlq.Replay | Dlq.discard => e = Dlq.Discard ∧ Dlq.can_discard p c = true end.
Proof.
  assert (Sent q ∉ ([] : list output)) as Hnil by apply not_elem_of_nil.
  intros Hs Hq. destruct e; cbn in Hs; repeat dmatch_in Hs; try done; simplify_eq; try done;
    try (by apply list_elem_of_singleton in Hq).
  - match goal with H : Dlq.act p Dlq.replay c = _ |- _ => pose proof (act_sends p Dlq.replay c q) as Ha; rewrite H in Ha end.
    destruct (Ha Hq) as (t & ? & ?). by exists t, Dlq.replay.
  - match goal with H : Dlq.act p Dlq.discard c = _ |- _ => pose proof (act_sends p Dlq.discard c q) as Ha; rewrite H in Ha end.
    destruct (Ha Hq) as (t & ? & ?). exists t, Dlq.discard. zbool. done.
Qed.

(** The first eight digits of a ULID are the time it was made, in units of 1024
    milliseconds. *)
Lemma ulid_prefix ts bytes : ∃ t, Cart.ulid_of ts bytes = rev (Cart.ulid_time 8 (ts / 1024)) ++ t.
Proof.
  unfold Cart.ulid_of. change 10%nat with (2 + 8)%nat. rewrite CartJson.ulid_time_app, rev_app_distr, <- app_assoc. by eexists.
Qed.

Lemma starts_prefix t a b : length t = length a → startsWith t (a ++ b) = true → t = a.
Proof.
  revert a. induction t as [|c t IH]; intros [|d a] Hl Hs; try done. cbn in Hs. apply andb_true_iff in Hs as [Hc%N.eqb_eq Hs].
  f_equal; [done|]. apply IH; [by injection Hl|done].
Qed.

(** A message is discarded only by the button, after at least eight code units of
    its event id were typed; but those of a ULID say only in which 1024
    milliseconds it was made: what was typed for one message discards any other
    whose event was made in the same. *)
Theorem discard_asks_for_the_second p e c c' os q t :
  Dlq.step p e c = Some (c', os) → Sent q ∈ os → encodeURIComponent (Dlq.messageId p) = Ok t →
  r_path q = "/api/admin/dlq/" ++ t ++ "/discard" →
  e = Dlq.Discard ∧ startsWith (Dlq.typed c) (Dlq.eventId p) = true ∧ (8 ≤ length (Dlq.typed c))%nat ∧
  ∀ p' ts ts' bytes bytes',
    Dlq.eventId p = Cart.ulid_of ts bytes → Dlq.eventId p' = Cart.ulid_of ts' bytes' → ts / 1024 = ts' / 1024 →
    length (Dlq.typed c) = 8%nat → Dlq.can_discard p' c = true.
Proof.
  intros Hs Hq He Hp. destruct (dlq_sends _ _ _ _ _ _ Hs Hq) as (t' & a & He' & Hp' & Ha). rewrite He in He'. injection He' as <-.
  rewrite Hp in Hp'. apply app_inv_head, app_inv_head in Hp'. destruct a; [done|]. destruct Ha as [-> Hc].
  unfold Dlq.can_discard in *. apply andb_true_iff in Hc as [Hc Hi]. apply andb_true_iff in Hc as [Hst Hlen].
  split; [done|]. split; [done|]. split; [by apply Nat.leb_le|].
  intros p' ts ts' bytes bytes' E1 E2 Hts H8. rewrite Hi, H8, andb_true_r. cbn [Nat.leb]. rewrite andb_true_r, E2.
  destruct (ulid_prefix ts bytes) as [x Hx], (ulid_prefix ts' bytes') as [y Hy]. rewrite E1, Hx in Hst. rewrite Hy, <- Hts.
  apply starts_prefix in Hst as ->; [apply starts_self|]. by rewrite length_rev, ulid_time_length.
Qed.
End DlqFacts.
