(* ===== verification/AdminPages.v ===== *)
(** * admin: the pages (app/page.tsx, app/catalog/page.tsx, app/orders/page.tsx,
      app/orders/[id]/page.tsx, app/dlq/page.tsx)

    Each page checks the operator, and its panel, which is rendered after it,
    checks again and loads.  [guarded] is the page around its panel; the panels
    follow with what they ask for and what they make of the answer.
    [AdminPagesFacts] says what the second check costs, and what the grid of the
    catalogue makes of what catalog-service answers. *)
From Stdlib Require Import QArith.
From S2P Require Import Prelude JsNumber JsString JsDecimal UrlParams Zod Prog Schemas Api Bff.
From S2P Require Import BffRoutes Admin AdminRoutes AdminFacts.
From S2P Require Import Picker ProductPage Controls PriceControl.
Local Open Scope js_scope.
Local Open Scope Z_scope.

Module AdminPages.
Import Admin.Admin.

(** ** The guard of a page *)

Inductive view A := Refused (r : refusal) | Shown (panel : A).
Arguments Refused {A} r.
Arguments Shown {A} panel.

Section Pages.
Context `{Zod} (env : jstr → option jstr).

Definition guarded {A} (panel : prog A) : prog (view A) :=
  refused ← try_catch (_ ← requireAdmin env; mret None)
    (λ error, match error with NotAuthorised r => mret (Some r) | _ => Throw error end);
  match refused with
  | Some r => mret (Refused r)
  | None => p ← panel; mret (Shown p)
  end.

(** One promise of [gatherAdmin]: a failure is nothing. *)
Definition gathered (p : prog jsval) : prog (option jsval) := try_catch (v ← p; mret (Some v)) (λ _, mret None).

Definition read_options (svc : AdminService) (path : jstr) (schema : Zod.schema) (s : AdminSession) : CallOptions := {|
  Admin.service := svc; Admin.path := path; Admin.schema := schema; Admin.opt_method := None; Admin.body := VUndef;
  Admin.accessToken := s_accessToken s; Admin.idempotencyKey := None |}.

(** A panel: its own check, and what it loads. *)
Definition panel (svc : AdminService) (path : jstr) (schema : Zod.schema) : prog (option jsval) :=
  s ← requireAdmin env; gathered (adminCall env (read_options svc path schema s)).

(** ** What the panels load *)

Definition AdminProductPage : Zod.schema := Schemas.obj [
  ("items", Schemas.arr (Schemas.obj [("product", Api.Product); ("version", Schemas.int_min 0); ("categoryId", ZNullable Schemas.str)]));
  ("page", Schemas.int); ("size", Schemas.int); ("total", Schemas.int); ("totalPages", Schemas.int); ("hasNext", ZBoolean)].
Definition DlqPage : Zod.schema := Schemas.obj [
  ("items", Schemas.arr Api.DlqMessage); ("nextCursor", ZNullable Schemas.str); ("hasMore", ZBoolean)].

(** [String(Math.max(0, Number.parseInt(page ?? '0', 10) || 0))] *)
Definition page_text (page : option jstr) : jstr :=
  let n := parseInt (default ("0" : jstr) page) in
  int_text (math_max (jint 0) (if is_nan n || neqb n (jint 0) then jint 0 else n)).
Definition set_given (k : jstr) (v : option jstr) (l : params) : params :=
  match v with Some (c :: t) => set_param k (c :: t) l | _ => l end.
Definition products_path (page status : option jstr) : jstr :=
  "/v1/products?" ++ written (set_given "status" status (set_param "page" (page_text page) [("size", "50")])).
Definition orders_path (status q : option jstr) : jstr :=
  "/v1/admin/orders?" ++ written (set_given "q" q (set_given "status" status [("limit", "50")])).

Definition OverviewPage : prog (view (option jsval)) := guarded (panel order "/v1/admin/kpis" Api.DashboardKpis).
Definition CatalogPage (page status : option jstr) : prog (view (option jsval)) :=
  guarded (panel catalog (products_path page status) AdminProductPage).
Definition OrdersPage (status q : option jstr) : prog (view (option jsval)) :=
  guarded (panel order (orders_path status q) Api.OrderPage).
Definition DlqPageRoute : prog (view (option jsval)) := guarded (panel order "/v1/admin/dlq?limit=50" DlqPage).

(** The page of an order checks once, and its failures are thrown. *)
Definition OrderDetailPage (id : jstr) : prog (view jsval) :=
  checked ← try_catch (s ← requireAdmin env; mret (inl s))
    (λ error, match error with NotAuthorised r => mret (inr r) | _ => Throw error end);
  match checked with
  | inr r => mret (Refused r)
  | inl s =>
      e ← AdminRoutes.AdminRoutes.encoded id;
      trace ← adminCall env (read_options order ("/v1/admin/orders/" ++ e ++ "/saga") Api.SagaTrace s);
      mret (Shown trace)
  end.
End Pages.

(** ** Key figures *)

Inductive tone := ok | warn | bad | neutral.
Definition badge (t : tone) : option jstr :=
  match t with bad => Some ("Needs attention" : jstr) | warn => Some ("Watch" : jstr) | _ => None end.

Definition figure (k : jstr) (kpis : jsval) : num := match prop k kpis with VNum n => n | _ => NaN end.
(** Good below one bound, to be watched below another. *)
Definition banded (low high x : num) : tone := if nlt x low then ok else if nlt x high then warn else bad.

Definition stuck_tone (kpis : jsval) : tone := if neqb (figure "stuckSagas" kpis) (jint 0) then ok else bad.
Definition stuck_hint (kpis : jsval) : jstr :=
  if neqb (figure "stuckSagas" kpis) (jint 0) then "Nothing is stuck" else "Orders past their timeout".
Definition dlq_tone (kpis : jsval) : tone :=
  let depth := figure "dlqDepth" kpis in
  if neqb depth (jint 0) then ok else if nlt depth (jint 10) then warn else bad.
Definition p99_tone (kpis : jsval) : tone := banded (jint 5000) (jint 10000) (figure "p99CheckoutMs" kpis).
Definition p99_text (kpis : jsval) : option jstr :=
  t ← toFixed 1 (ndiv (figure "p99CheckoutMs" kpis) (jint 1000)); Some (t ++ "s").
Definition burn_tone (kpis : jsval) : tone := banded (jint 2) (jint 10) (figure "errorBudgetBurn" kpis).
Definition percent (x : num) : option jstr := t ← toFixed 1 x; Some (t ++ "%").
Definition burn_text (kpis : jsval) : option jstr := percent (figure "errorBudgetBurn" kpis).
Definition abandonment_text (kpis : jsval) : option jstr := percent (nmul (figure "cartAbandonmentRate" kpis) (jint 100)).
Definition conversion_hint (kpis : jsval) : option jstr :=
  t ← percent (nmul (figure "conversionRate" kpis) (jint 100)); Some ("Conversion " ++ t).

(** ** The grid of the catalogue *)

Record row := {
  g_image : option jstr;
  g_title : jstr;
  g_detail : jstr;
  g_status : Controls.Status.props;
  g_price : option Price.props;
  g_stock : option (num * bool);
  g_version : num
}.

(** The units known of, and whether some are not; nothing when none is known. *)
Definition is_unknown (v : Picker.ProductVariant) : bool := match Picker.available v with None => true | Some _ => false end.
Definition stock (vs : list Picker.ProductVariant) : option (num * bool) :=
  if forallb is_unknown vs then None
  else Some (foldl (λ sum v, nadd sum (default (jint 0) (Picker.available v))) (jint 0) vs, existsb is_unknown vs).

Definition row_of (p : ProductPage.Product) (version : num) : row :=
  let cheapest := ProductPage.primary p in {|
  g_image := Picker.url <$> ProductPage.page_image p;
  g_title := ProductPage.title p;
  g_detail := ProductPage.id p ++ " · /" ++ ProductPage.slug p;
  g_status := {| Controls.Status.productId := ProductPage.id p; Controls.Status.status := ProductPage.status p;
                 Controls.Status.version := version |};
  g_price := (λ v, {| Price.productId := ProductPage.id p; Price.sku := Picker.sku v; Price.price := Picker.price v;
                      Price.listPrice := Picker.listPrice v |}) <$> cheapest;
  g_stock := stock (ProductPage.variants p);
  g_version := version |}.

(** ** The list of orders *)

Definition isPastNoReturn (status : jstr) : bool :=
  bool_decide (status = "PAID") || bool_decide (status = "STOCK_COMMITTED") || bool_decide (status = "CONFIRMED").
Definition stateTone (status : jstr) : jstr :=
  if decide (status = "CANCELLED") then "destructive"
  else if decide (status = "COMPENSATING") then "warning"
  else if decide (status = "REFUNDED") then "warning"
  else if decide (status = "CONFIRMED" ∨ status = "DELIVERED") then "success"
  else if Api.isTerminal status then "default" else "secondary".

(** ** The dead letters *)

(** [attempts >= 10] *)
Definition attempts_tone (attempts : num) : jstr := if nle (jint 10) attempts then "destructive" else "secondary".
Definition decisions (items : list jsval) (hasMore : bool) : jstr :=
  string_of_int (Z.of_nat (length items)) ++ (if hasMore then "+" else "") ++ " message" ++
  (if (length items =? 1)%nat then "" else "s") ++ " need a decision".
End AdminPages.

(** * admin: what the pages show *)
Module AdminPagesFacts.
Import Admin.Admin AdminPages.

(** ** One cookie, two exchanges *)

Section Token.
Context `{Zod} (env : jstr → option jstr) (cookie : option jstr).

(** The refresh token a request to identity-service presents. *)
Definition presented (o : Bff.outgoing) : option jstr :=
  match Bff.o_body o with VObj [(k, VStr t)] => if decide (k = "refreshToken") then Some t else None | _ => None end.

(** The tokens identity-service accepted so far. *)
Definition next (l : list jstr) (B : Type) (c : eff B) : result exn B → list jstr :=
  match c in eff B return result exn B → list jstr with
  | FETCH o => λ r,
      match presented o, r with
      | Some t, Ok resp => if Bff.ok resp then l ++ [t] else l
      | _, _ => l
      end
  | _ => λ _, l
  end.

(** The cookie jar is that of the request. *)
Definition possible (B : Type) (c : eff B) : result exn B → Prop :=
  match c in eff B return result exn B → Prop with
  | COOKIE _ => λ r, r = Ok cookie
  | _ => λ _, True
  end.

Notation follows := (follows (λ _ _ _, True) possible next).

Lemma outcome_ok o rid r v : outcome o rid r = Ok v → ∃ resp, r = Ok resp ∧ Bff.ok resp = true.
Proof.
  unfold outcome. destruct r as [resp|[]]; try done. destruct (Bff.ok resp) eqn:Hok; [|done]. intros _. by exists resp.
Qed.

(** What a call leads to: when it returns, what it presented was accepted; what
    presents nothing leaves no trace. *)
Lemma call_accepted l o (Q : jsval → list jstr → Prop) (T : exn → list jstr → Prop) :
  (∀ e, T e l) → (∀ e base rid t, presented (request_of o base rid) = Some t → T e (l ++ [t])) →
  (∀ v base rid, Q v match presented (request_of o base rid) with Some t => l ++ [t] | None => l end) →
  follows l (adminCall env o) Q T.
Proof.
  intros HT HT' HQ. unfold adminCall. destruct (Bff.truthy _) as [base|]; [|apply HT]. apply follows_bind. split; [done|]. intros r0 _.
  assert (∀ rid, follows l (Await (FETCH (request_of o base rid)) (λ r, of_result (outcome o rid r))) Q T) as Hf.
  { intros rid. split; [done|]. intros r _. apply follows_of_result. cbn [next]. destruct (outcome o rid r) as [v|e] eqn:Ho.
    - apply outcome_ok in Ho as (resp & -> & Hok). rewrite Hok. specialize (HQ v base rid). by destruct (presented _).
    - destruct (presented (request_of o base rid)) as [t|] eqn:Hp; [|apply HT]. destruct r as [resp|]; [|apply HT].
      destruct (Bff.ok resp); [by eapply HT'|apply HT]. }
  assert (∀ i : option jstr, follows l (rid ← match i with Some i => mret i | None => await UUID end;
    Await (FETCH (request_of o base rid)) (λ r, of_result (outcome o rid r))) Q T) as Hi.
  { intros [i|]; [apply Hf|]. split; [done|]. intros [u|] _; [apply Hf|apply HT]. }
  destruct r0 as [i|e]; [exact (Hi i)|exact (Hi None)].
Qed.

(** A check that passes exchanged the token of the cookie. *)
Lemma requireAdmin_exchanges l (Q : AdminSession → list jstr → Prop) :
  (∀ s t, cookie = Some t → Q s (l ++ [t])) → follows l (requireAdmin env) Q (λ _ _, True).
Proof.
  intros HQ. split; [done|]. intros r ->. destruct cookie as [[|x t]|]; [done| |done].
  change (follows l (
    token ← try_catch (tokens ← adminCall env (refresh_call (x :: t)); mret (Bff.str_of (prop "accessToken" tokens)))
      (λ error, match error with
                | Api e => if status e =? 401 then Throw (NotAuthorised unauthenticated) else Throw error
                | _ => Throw error
                end);
    AdminFacts.AdminFacts.admitted env token) Q (λ _ _, True)).
  apply follows_bind, follows_try, follows_bind, call_accepted.
  - intros []; cbn; by try destruct (_ =? 401).
  - intros [] ? ? ? _; cbn; by try destruct (_ =? 401).
  - intros v base rid. cbn [follows mret prog_ret].
    change (presented (request_of (refresh_call (x :: t)) base rid)) with (Some (x :: t)). apply follows_bind, call_accepted; [done..|].
    intros user base' rid'. change (presented (request_of (me_call _) base' rid')) with (@None jstr).
    destruct (privileged user); cbn [negb]; [|done]. destruct (to_boolean _); cbn [negb]; [|done]. by apply HQ.
Qed.

Lemma panel_exchanges l svc path sch (Q : option jsval → list jstr → Prop) :
  (∀ r t, cookie = Some t → Q r (l ++ [t])) → follows l (panel env svc path sch) Q (λ _ _, True).
Proof.
  intros HQ. apply follows_bind, requireAdmin_exchanges. intros s t Ht.
  apply follows_try, follows_bind, call_accepted; [intros e; by apply HQ|done|intros v base rid; by apply HQ].
Qed.

Lemma guarded_exchanges {A} (p : prog A) (Q : view A → list jstr → Prop) :
  (∀ r l, Q (Refused r) l) → (∀ t, cookie = Some t → follows [t] p (λ a, Q (Shown a)) (λ _ _, True)) →
  follows [] (guarded env p) Q (λ _ _, True).
Proof.
  intros HR HS. apply follows_bind, follows_try. apply follows_bind.
  eapply follows_mono; [apply (requireAdmin_exchanges [] (λ _ l, ∃ t, cookie = Some t ∧ l = [t])); intros s t Ht; by exists t| |].
  - intros s l (t & Ht & ->). cbn [follows mret prog_ret]. apply follows_bind.
    eapply follows_mono; [by apply HS| |done]. intros a l Ha. exact Ha.
  - by intros [] l _; cbn.
Qed.

(** C38. Whatever the services answer, the overview, the catalogue, the orders and
    the dead letters show a panel, loaded or unavailable, only after
    identity-service accepted the refresh token of the cookie twice; it is meant
    to be exchanged once. *)
Theorem pages_exchange_the_token_twice page :
  page ∈ [OverviewPage env; DlqPageRoute env] ∨ (∃ n s, page = CatalogPage env n s) ∨ (∃ s q, page = OrdersPage env s q) →
  follows [] page (λ v l, ∀ data, v = Shown data → ∃ t, cookie = Some t ∧ l = [t; t]) (λ _ _, True).
Proof.
  assert (∀ svc path sch, follows [] (guarded env (panel env svc path sch))
    (λ v l, ∀ data, v = Shown data → ∃ t, cookie = Some t ∧ l = [t; t]) (λ _ _, True)) as Hp.
  { intros svc path sch. apply guarded_exchanges; [done|]. intros t Ht. apply panel_exchanges. intros r t' Ht' data _.
    exists t. split; [done|]. rewrite Ht in Ht'. by injection Ht' as <-. }
  rewrite !elem_of_cons. intros [[->|[->|Hn]]|[(n & s & ->)|(s & q & ->)]]; try apply Hp. by apply not_elem_of_nil in Hn.
Qed.
End Token.

(** ** The grid *)

(** The grid of the catalogue refuses every answer that lists a product: it
    expects wrappers with the version, where the endpoint it asks lists
    products, so that the page says the catalogue is unavailable. *)
Theorem grid_refuses_products `{Zod} v item items :
  prop "items" v = VArr (item :: items) → accepts Api.Product item → ¬ accepts AdminProductPage v.
Proof.
  intros Hv Hi Ha. apply accepts_object in Ha as (kvs & -> & Hf & _). specialize (Hf "items" _ ltac:(by left)). rewrite Hv in Hf.
  apply accepts_elements in Hf as (l & [= <-] & Hf). apply Forall_cons in Hf as [Hf _].
  apply accepts_object in Hf as (fields & -> & _ & Hk). apply accepts_object in Hi as (fields' & [= <-] & Hi & _).
  specialize (Hi "id" _ ltac:(by left)). apply accepts_meaning in Hi as [w Hw]. unfold prop in Hw.
  destruct (get "id" fields) as [x|] eqn:Hg; [|done].
  specialize (Hk eq_refl "id" ltac:(by rewrite Hg)). revert Hk. by apply (bool_decide_unpack _).
Qed.

(** ** Instances *)

(** The overview over services that are content: the token is exchanged, and
    exchanged again, before the figures are asked for. *)
Lemma pages_exchange_the_token_twice_witness :
  map Bff.o_url (run (AdminExamples.desk (Some "rt" : option jstr) (AdminExamples.operator "OPS" true)) (OverviewPage AdminExamples.everywhere) []).2 =
    ["http://svc/v1/auth/refresh"; "http://svc/v1/me"; "http://svc/v1/auth/refresh"; "http://svc/v1/me"; "http://svc/v1/admin/kpis"] ∧
  follows (λ _ _ _, True) (possible (Some "rt" : option jstr)) next [] (OverviewPage AdminExamples.everywhere)
    (λ v l, ∀ data, v = Shown data → ∃ t, Some ("rt" : jstr) = Some t ∧ l = [t; t]) (λ _ _, True).
Proof.
  split; [by vm_compute|]. apply (pages_exchange_the_token_twice AdminExamples.everywhere (Some "rt" : option jstr)). left. by left.
Defined.

Definition a_product : jsval := VObj [
  ("id", VStr "prd_01ARZ3NDEKTSV4RRFFQ69G5FAV"); ("sku", VStr "sku_01ARZ3NDEKTSV4RRFFQ69G5FAV"); ("title", VStr "Shirt"); ("slug", VStr "shirt");
  ("description", VStr ""); ("brand", VNull); ("categoryPath", VArr []); ("attributes", VObj []); ("images", VArr []);
  ("price", VObj [("amount", vint 900); ("currency", VStr "EGP")]); ("listPrice", VNull); ("status", VStr "ACTIVE");
  ("variants", VArr []); ("rating", VNull);
  ("createdAt", VStr "2026-01-01T00:00:00.000Z"); ("updatedAt", VStr "2026-01-01T00:00:00.000Z")].
Definition a_page : jsval := VObj [
  ("items", VArr [a_product]); ("page", vint 0); ("size", vint 50); ("total", vint 1); ("totalPages", vint 1); ("hasNext", VBool false)].

Lemma grid_refuses_products_witness : accepts Api.Product a_product ∧ ¬ accepts AdminProductPage a_page.
Proof.
  assert (accepts Api.Product a_product) as Hp by (apply accepts_meaning; vm_compute; by eexists). split; [exact Hp|].
  by apply (grid_refuses_products a_page a_product []).
Defined.
End AdminPagesFacts.
