(* ===== verification/ShopExamples.v ===== *)
(** * storefront and admin in the browser: examples

    Runs of the picker, the listing, the page of a product and the controls of
    admin on concrete products and parameters; of the order page; of the basket
    and the checkout; and the witnesses. *)
From Stdlib Require Import QArith.
From S2P Require Import Prelude JsNumber JsString JsDecimal JsDate Json UrlParams Regex Zod Schemas.
From S2P Require Import Events Api Prog.
From S2P Require Import Primitives Cart CartJson Bff BffRoutes ApiClient AdminRoutes OrderProgress.
From S2P Require Import Basket Checkout BasketFacts Picker ProductPage ProductCard Listing Controls.
From S2P Require Import PriceControl DlqControl.
Local Open Scope js_scope.
Local Open Scope Z_scope.

Module ShopExamples.
Import Picker PickerFacts ProductPage ProductPageFacts Listing ListingFacts Controls PriceFacts DlqFacts.

(** ** A shirt *)

Definition shirt (s colour size : jstr) (cost : Z) (left : option Z) : ProductVariant := {|
  Picker.sku := s; attributes := [("colour", colour); ("size", size)]; price := {| amount := jint cost; currency := "EGP" |};
  listPrice := None; available := jint <$> left; images := [] |}.

Definition shirts : list ProductVariant := [
  shirt "sku-1" "black" "M" 900 (Some 0); shirt "sku-2" "black" "L" 1200 (Some 3); shirt "sku-3" "white" "M" 1100 None].

(** Black and M, then white, then L: only black is sold in L. *)
Example clicking : clicks shirts [("colour", "black"); ("size", "M"); ("colour", "white"); ("size", "L")] =
  [("colour", "black"); ("size", "L")].
Proof. reflexivity. Qed.

Lemma shirts_objects : objects shirts.
Proof.
  intros v Hv. repeat (apply elem_of_cons in Hv as [->|Hv]; [by apply (bool_decide_unpack _); vm_compute|]).
  by apply not_elem_of_nil in Hv.
Qed.

Definition cost (v : ProductVariant) : Z := match amount (price v) with Fin q => QArith_base.Qnum q | _ => 0 end.
Lemma shirts_priced : priced shirts cost.
Proof.
  intros v Hv. repeat (apply elem_of_cons in Hv as [->|Hv]; [by split; [reflexivity|vm_compute]|]). by apply not_elem_of_nil in Hv.
Qed.

Lemma every_click_sells_witness :
  objects shirts ∧ selectable shirts ≠ [] ∧
  ∃ buttons u, rendered shirts (clicks shirts []) = Picking buttons u ∧ u ∈ shirts ∧ length buttons = 2%nat.
Proof.
  split; [apply shirts_objects|]. split; [discriminate|].
  destruct (every_click_sells shirts [] shirts_objects ltac:(discriminate)) as (buttons & u & Hr & Hu & _).
  exists buttons, u. split; [exact Hr|]. split; [exact Hu|]. vm_compute in Hr. by injection Hr as <- <-.
Defined.

(** One product sold whole, and an accessory that is listed with one attribute
    of it. *)
Definition whole_and_part : list ProductVariant := [
  shirt "sku-1" "black" "M" 900 (Some 1);
  {| Picker.sku := "sku-9"; attributes := [("colour", "black")]; price := {| amount := jint 100; currency := "EGP" |};
     listPrice := None; available := Some (jint 7); images := [] |}].

Lemma shadowed_variant_is_never_shown_witness :
  ∃ u v, selectable whole_and_part = [u; v] ∧ (∀ k x, get k (attributes v) = Some x → get k (attributes u) = Some x) ∧
    current whole_and_part (clicks whole_and_part [("colour", "black")]) ≠ Some v.
Proof.
  eexists _, _. split; [reflexivity|]. set (u := shirt "sku-1" "black" "M" 900 (Some 1)).
  assert (∀ k x, get k [("colour" : jstr, "black" : jstr)] = Some x → get k (attributes u) = Some x) as Hk.
  { intros k x. cbn [get]. destruct (decide _) as [<-|]; [|done]. by intros [= <-]. }
  split; [exact Hk|]. apply (shadowed_variant_is_never_shown whole_and_part [u] _ [] u); [reflexivity| |by left|exact Hk].
  intros Hi%list_elem_of_singleton. by vm_compute in Hi.
Defined.

(** ** Its page *)

Definition page : Product := {|
  id := "prd_01ARZ3NDEKTSV4RRFFQ69G5FAV"; p_sku := "sku-1"; title := "Shirt</script><script>"; slug := "shirt";
  description := "A shirt."; brand := None; categoryPath := []; p_attributes := []; p_images := [];
  p_price := {| amount := jint 1100; currency := "EGP" |}; p_listPrice := None; status := "ACTIVE"; variants := shirts; p_rating := None;
  createdAt := "2026-01-01T00:00:00.000Z"; updatedAt := "2026-01-01T00:00:00.000Z" |}.

Lemma page_price_can_be_too_low_witness :
  ∃ a b, primary page = Some a ∧ initial (variants page) = Some b ∧ cost a = 900 ∧ cost b = 1100 ∧ cost a ≤ cost b.
Proof.
  destruct (page_price_can_be_too_low page cost shirts_priced ltac:(discriminate)) as (a & b & Ha & Hb & Hle & _).
  exists a, b. split; [exact Ha|]. split; [exact Hb|]. vm_compute in Ha, Hb. injection Ha as <-. injection Hb as <-. by repeat split.
Defined.

(** The title ends the script element it stands in. *)
Lemma structured_data_is_not_escaped_witness :
  ∃ text, structured_data page = Some text ∧ includes "</script><script>" (title page) = true ∧
    includes "</script><script>" text = true.
Proof.
  destruct (structured_data page) as [text|] eqn:Ht; [|by vm_compute in Ht]. exists text. split; [done|]. split; [reflexivity|].
  apply (structured_data_is_not_escaped page text "</script><script>" Ht); [|left; reflexivity].
  repeat (apply Forall_cons; split; [split; [lia|]; split; [discriminate|]; split; [discriminate|]; by split|]). by apply Forall_nil.
Defined.

(** The card claims a saving on a shirt without a reference price, the page does
    not. *)
Definition reduced : Product := {|
  id := id page; p_sku := p_sku page; title := "Shirt"; slug := "shirt"; description := ""; brand := None; categoryPath := [];
  p_attributes := []; p_images := []; p_price := p_price page; p_listPrice := Some {| amount := jint 1500; currency := "EGP" |};
  status := "ACTIVE"; variants := shirts; p_rating := None; createdAt := createdAt page; updatedAt := updatedAt page |}.

Lemma card_matches_its_page_witness :
  ∃ v, primary reduced = Some v ∧ ProductCard.v_price (ProductCard.card_price (ProductCard.fromProduct reduced)) = price v ∧
    ProductCard.v_saving <$> ProductCardFacts.page_price reduced = Some None ∧
    ProductCard.v_saving (ProductCard.card_price (ProductCard.fromProduct reduced)) = Some (jint 40).
Proof.
  destruct (primary reduced) as [v|] eqn:Hv; [|by vm_compute in Hv]. exists v. split; [done|].
  destruct (ProductCardFacts.card_matches_its_page reduced) as [_ Hcard]. rewrite Hv in Hcard.
  destruct Hcard as (Hp & _ & _ & Hn). split; [exact Hp|].
  assert (listPrice v = None) as Hl by (vm_compute in Hv; by injection Hv as <-). destruct (Hn Hl) as (-> & Hs & ->).
  vm_compute in Hv. injection Hv as <-. by vm_compute.
Defined.

(** ** The listing *)

(** The parameters of a URL with the brand and a category ticked. *)
Definition at_page_three : params := [("q", "shirt"); ("brand", "souq"); ("page", "3")].
Definition ticked : params := toggle "brand" "other brand" true at_page_three.
Definition given : SearchParams := [("q", Single "shirt"); ("brand", Several ["souq"; "other brand"])].

Example ticked_url : written ticked = "q=shirt&brand=souq&brand=other+brand".
Proof. vm_compute. reflexivity. Qed.
Example asked : search_path given = "/v1/search?q=shirt&sort=relevance&page=1&size=24&brand=souq&brand=other+brand".
Proof. vm_compute. reflexivity. Qed.

Lemma ascii_sound l : Forall (λ e, Forall (λ c, (c < 128)%N) e.1 ∧ Forall (λ c, (c < 128)%N) e.2) l → sound l.
Proof. intros Hl. eapply Forall_impl; [exact Hl|]. intros e [H1 H2]. split; by apply ascii_well_formed. Qed.

(** What a short list of parameters reflects is found by trying its names. *)
Lemma reflects_names l ps : NoDup (map fst ps) → Forall (λ e, e.1 ∈ map fst ps) l →
  Forall (λ e, match e.2 with Single s => getAll e.1 l = [s] | Several vs => getAll e.1 l = vs ∧ (2 ≤ length vs)%nat end) ps →
  reflects l ps.
Proof.
  intros Hn Hl Hp. split; [done|]. intros k. destruct (param k ps) as [v|] eqn:Hk.
  - apply (param_elem k v ps Hn) in Hk. rewrite Forall_forall in Hp. exact (Hp _ Hk).
  - destruct (getAll k l) as [|v r] eqn:Hg; [done|]. assert (v ∈ getAll k l) as Hv by (rewrite Hg; by left).
    apply getAll_elem in Hv. rewrite Forall_forall in Hl. specialize (Hl _ Hv). cbn in Hl.
    apply list_elem_of_fmap in Hl as ([k' v'] & Hf & Hi). cbn in Hf. subst k'.
    apply (param_elem k v' ps Hn) in Hi. by rewrite Hk in Hi.
Qed.

Lemma ticked_reflects : reflects ticked given.
Proof.
  apply reflects_names; [by apply (bool_decide_unpack _); vm_compute|by apply (bool_decide_unpack _); vm_compute|].
  repeat (apply Forall_cons; split); [by vm_compute| |by apply Forall_nil]. split; [by vm_compute|by cbn; lia].
Qed.

Lemma filters_survive_the_url_witness :
  read (written ticked) = ticked ∧ getAll "brand" (requested given) = ["souq" : jstr; "other brand" : jstr].
Proof.
  destruct (filters_survive_the_url at_page_three given "brand" "other brand" true) as [Hr Ha];
    [apply ascii_sound; by apply (bool_decide_unpack _); vm_compute|apply ascii_well_formed; by apply (bool_decide_unpack _); vm_compute..|].
  split; [exact Hr|]. destruct (Ha ticked_reflects) as [Hk _].
  rewrite (Hk "brand"); [by vm_compute|]. intros Hi. by apply (bool_decide_pack _) in Hi; vm_compute in Hi.
Defined.

Lemma two_categories_are_none_witness :
  reflects (toggle "category" "boots" true (toggle "category" "shoes" true [])) [("category", Several ["shoes"; "boots"])] ∧
  getAll "category" (requested [("category", Several ["shoes"; "boots"])]) = [].
Proof.
  assert (reflects (toggle "category" "boots" true (toggle "category" "shoes" true [])) [("category", Several ["shoes"; "boots"])]) as Hr.
  { apply reflects_names; [by apply (bool_decide_unpack _); vm_compute|by apply (bool_decide_unpack _); vm_compute|].
    apply Forall_cons; split; [|by apply Forall_nil]. split; [by vm_compute|by cbn; lia]. }
  split; [exact Hr|].
  apply (two_categories_are_none [] _ "shoes" "boots"); [by apply Forall_nil| | |discriminate|done|exact Hr];
    apply ascii_well_formed; by apply (bool_decide_unpack _); vm_compute.
Defined.

(** Page 100 of 2500 results. *)
Lemma links_beyond_the_limit_witness :
  ∃ links, Pagination (jint 100) (jint 24) (jint 2500) false = Some links ∧ links.2 = Some (jint 101) ∧
    ¬ accepts Api.SearchRequest (VObj [("q", VStr "shirt"); ("page", vint 101)]).
Proof.
  destruct (Pagination (jint 100) (jint 24) (jint 2500) false) as [links|] eqn:Hp; [|by vm_compute in Hp]. exists links. split; [done|].
  destruct (links_beyond_the_limit 100 24 2500 false links ltac:(lia) ltac:(lia) ltac:(lia) Hp) as (_ & _ & Hn & _).
  destruct (Hn eq_refl eq_refl ltac:(lia)) as [Ht Hr]. split; [exact Ht|]. by apply Hr.
Defined.

(** ** The controls *)

Definition row : Price.props := {|
  Price.productId := "prd_1"; Price.sku := "sku-2"; Price.price := {| amount := jint 120000; currency := "EGP" |}; Price.listPrice := None |}.
Definition typing : Price.control := {|
  Price.editing := true; Price.amount := "1149.99"; Price.reason := "Sale"; Price.busy := false |}.

Lemma price_typed_is_price_sent_witness :
  Price.step row Price.Save typing = Some (Price.set_busy true typing, [Sent (sent row "prd_1" 114999 typing)]).
Proof.
  destruct (price_typed_is_price_sent row "prd_1" ltac:(reflexivity) typing "1149" "99") as [Hs _];
    [reflexivity..|by apply (bool_decide_unpack _); vm_compute|by apply (bool_decide_unpack _); vm_compute|discriminate|reflexivity|reflexivity|].
  specialize (Hs I). vm_compute in Hs |- *. exact Hs.
Defined.

(** Two messages whose events were made in the same second. *)
Definition one : Dlq.props := {| Dlq.messageId := "msg_1"; Dlq.eventId := Cart.ulid_of 1700000000000 (repeat 7%N 10) |}.
Definition other : Dlq.props := {| Dlq.messageId := "msg_2"; Dlq.eventId := Cart.ulid_of 1700000000001 (repeat 9%N 10) |}.
Definition asked_to_discard : Dlq.control := {|
  Dlq.confirming := true; Dlq.typed := take 8 (Dlq.eventId one); Dlq.busy := None; Dlq.pending := false |}.

Lemma discard_asks_for_the_second_witness :
  Dlq.eventId one ≠ Dlq.eventId other ∧ Dlq.can_discard other asked_to_discard = true.
Proof.
  split; [by vm_compute|].
  destruct (Dlq.step one Dlq.Discard asked_to_discard) as [[c' os]|] eqn:Hs; [|by vm_compute in Hs].
  pose proof Hs as Ho. vm_compute in Ho. injection Ho as _ <-.
  destruct (discard_asks_for_the_second one Dlq.Discard asked_to_discard c' _ _ "msg_1" Hs ltac:(by left)) as (_ & _ & _ & Hd);
    [by vm_compute|by vm_compute|].
  apply (Hd other 1700000000000 1700000000001 (repeat 7%N 10) (repeat 9%N 10)); by vm_compute.
Defined.
End ShopExamples.

(** * storefront: following an order, examples

    Runs of the page on concrete answers, and the witnesses. *)

Module OrderProgressExamples.
Import OrderProgress.OrderProgress OrderProgress.OrderProgressFacts.

Definition an_order : jstr := "ord_01ARZ3NDEKTSV4RRFFQ69G5FAV".

Definition answered (status : jstr) (terminal : bool) (reason : jsval) : jsval := VObj [
  ("orderId", VStr an_order); ("status", VStr status); ("terminal", VBool terminal); ("cancellationReason", reason);
  ("updatedAt", VStr "2024-01-01T00:00:00.000Z")].

(** A poll that finds the order paid, and the next that finds it declined. *)
Example polling_finds_the_decline :
  rendered <$> steps (mounted "PENDING" false)
    [Timer 0; Answer (Some (answered "STOCK_RESERVED" false VNull)); Timer 1; Answer None; Timer 2;
     Answer (Some (answered "CANCELLED" true (VStr "PAYMENT_DECLINED")))] =
  Some (Failure {| title := "Your payment was declined";
    body := "Your bank turned down the payment. Nothing has been charged — try another card."; retry := true |} []).
Proof. vm_compute. reflexivity. Qed.

(** The stream confirms while a poll is under way that still says paid. *)
Example a_confirmed_order_looks_stuck :
  rendered <$> steps (mounted "PENDING" true)
    [Timer 0; Frame (Some (answered "CONFIRMED" true VNull)); Answer (Some (answered "PAID" false VNull)); Stall] =
  Some (Progress false [("Order received" : jstr, Done); ("Items reserved" : jstr, Done); ("Payment approved" : jstr, Active);
    ("Items confirmed" : jstr, NotStarted); ("Order confirmed" : jstr, NotStarted)] false).
Proof. vm_compute. reflexivity. Qed.

(** ** Witnesses *)

Definition one_poll : list event := [Timer 0; Answer None].

Lemma page_asks_until_settled_witness :
  ∃ p, steps (mounted "PENDING" true) one_poll = Some p ∧
    (chains p <= 2)%nat ∧ (settled p = false → cancelled p = false → (0 < chains p)%nat).
Proof.
  eexists. split; [reflexivity|].
  destruct (page_asks_until_settled "PENDING" true one_poll _ eq_refl) as (H1 & H2 & _). split; [exact H1|exact H2].
Defined.

Lemma order_page_learns_nothing_witness : routed (status_url an_order) = false ∧ routed (stream_url an_order) = false.
Proof.
  destruct (order_page_learns_nothing an_order ltac:(apply (bool_decide_unpack _); vm_compute; exact I)) as (H1 & H2 & _).
  split; [exact H1|exact H2].
Defined.

Lemma finished_orders_look_unplaced_witness :
  ∃ p, steps (mounted "SHIPPED" true) [] = Some p ∧ rendered p = rendered (mounted "PENDING" true).
Proof.
  eexists. split; [reflexivity|].
  apply (finished_orders_look_unplaced "SHIPPED" true [] _ ltac:(apply (bool_decide_unpack _); vm_compute; exact I) eq_refl).
Defined.
End OrderProgressExamples.

(** * storefront: the basket and the checkout, examples

    Runs on concrete answers, and the witnesses. *)

Module BasketExamples.
Import ApiClient.ApiClient Basket.Basket BasketFacts.BasketFacts.

Definition a_sku : jstr := "sku_01ARZ3NDEKTSV4RRFFQ69G5FAV".
(** A basket at a version; the fields the browser reads. *)
Definition basket (v : Z) (quantity : Z) : jsval := VObj [
  ("id", VStr "crt_01ARZ3NDEKTSV4RRFFQ69G5FAV"); ("version", vint v);
  ("lines", VArr [VObj [("sku", VStr a_sku); ("quantity", vint quantity)]]);
  ("total", VObj [("amount", vint 2499); ("currency", VStr "EGP")])].

Definition refused (status : Z) (code : jstr) : ApiError := api_error status code "req-1" "".
Definition stale_cart : ApiError := refused 409 "CART_STALE".
Definition bad_coupon : ApiError := refused 422 "VALIDATION_FAILED".
Definition no_cart : ApiError := refused 404 "CART_NOT_FOUND".

(** A quantity set on a basket that moved on: refetched, and the customer told. *)
Example a_stale_change :
  (λ p, (cart p, loading p, toasts p)) <$>
    steps (mounted (Some (basket 3 1))) [Do (SetQuantity a_sku (jint 2)) "k"; Reply 0 (Err (Api stale_cart)); Reply 1 (Ok (basket 5 4))] =
  Some (Some (basket 5 4), false, [stale_toast]).
Proof. vm_compute. reflexivity. Qed.

(** ** Witnesses *)

Lemma busy_with_the_newest_change_witness :
  ∃ p, steps (mounted (Some (basket 3 1))) [Do (Add a_sku (jint 1)) "k"] = Some p ∧ loading p = true ∧
    (loading p = true ↔ inFlight p ∈ tickets p).
Proof.
  eexists. split; [reflexivity|]. split; [reflexivity|].
  apply (busy_with_the_newest_change (Some (basket 3 1)) [Do (Add a_sku (jint 1)) "k"] _ eq_refl).
Defined.

Definition one_exchange : exchange := {|
  x_mutation := Add a_sku (jint 1); x_key := "k"; x_reply := Ok (basket 4 2); x_again := Err AbortError |}.

Lemma one_change_at_a_time_witness :
  ∃ p', session (mounted (Some (basket 3 1))) [one_exchange] p' ∧ idle p' ∧ cart p' = Some (basket 4 2).
Proof.
  apply (one_change_at_a_time (mounted (Some (basket 3 1))) [one_exchange]).
  - split; reflexivity.
  - constructor; [exact I|constructor].
Defined.

Lemma overlapping_changes_lose_the_answer_witness :
  ∃ p, steps (mounted (Some (basket 3 1)))
    [Do (Add a_sku (jint 1)) "k1"; Do (ApplyCoupon "SAVE") "k2"; Reply 1 (Err (Api bad_coupon)); Reply 0 (Ok (basket 4 2))] = Some p ∧
    idle p ∧ cart p = Some (basket 3 1).
Proof.
  destruct (overlapping_changes_lose_the_answer (Add a_sku (jint 1)) (ApplyCoupon "SAVE") "k1" "k2" (basket 4 2) bad_coupon no_cart)
    as [H _]; [exact I|exact I|intros Hc; discriminate Hc|reflexivity|]. exact (H (basket 3 1)).
Defined.

Definition filled : list Checkout.event := [
  Checkout.Type_ Checkout.Line1 "1 Tahrir Sq"; Checkout.Type_ Checkout.City "Cairo"; Checkout.Type_ Checkout.PostalCode "11511";
  Checkout.Submit (basket 4 2); Checkout.Answer (Err (ApiClient.Api (refused 503 "UPSTREAM_UNAVAILABLE"))); Checkout.Submit (basket 4 2)].

Lemma one_checkout_one_key_witness :
  ∃ f, Checkout.steps (Checkout.mounted "key-1" "Mona") filled = Some f ∧ length (Checkout.orders f) = 2%nat ∧
    Forall (order_of "key-1" filled) (Checkout.orders f).
Proof.
  eexists. split; [reflexivity|]. split; [reflexivity|].
  apply (one_checkout_one_key "key-1" "Mona" filled _ (λ _, None)
    {| BffRoutes.q_json := Ok VNull; BffRoutes.q_idempotency := None; BffRoutes.q_search := λ _, None |}); [discriminate|reflexivity].
Defined.
End BasketExamples.
